(** * All-in-or-Fold MCCFR solver: a shallow embedding and its properties

    The development follows the C++ sources:
    - [mccfr::Node]            (src/mccfr/node.cpp, include/mccfr/node.hpp)
    - [aof::Card], [aof::Deck] (src/aof/card.cpp, include/aof/card.hpp)
    - [aof::PokerEvaluator]    (src/aof/poker_evaluator.cpp)
    - [aof::Game]              (src/aof/game.cpp)
    - [aof::GameState]         (src/aof/game_state.cpp)
    - [aof::GameConfig]        (src/aof/game_config.cpp)
    - [mccfr::utils], [mccfr::Trainer] (src/mccfr/utils.cpp, trainer.cpp)
    - the single-file version of the game (aof/aof.cpp)

    Conventions of the embedding.
    - A C++ [double] is an exact rational ([Q]); rounding, infinities and
      NaN are outside the model.  Equality of amounts is [Qeq] ([==]): an
      equation between amounts holds in the code up to the rounding of
      the operations on its two sides.  Where a property turns on a
      rounding or an overflow, the hypotheses say which numbers are
      doubles or stay in range, and [Binary64] runs the code on the
      binary64 numbers themselves.
    - A C++ [int] is a [Z]; a [std::size_t] index is a [nat].
    - [std::vector<T>] is [list T]; [v[i]] is stdpp's lookup and
      [v[i] = x] is stdpp's insert.
    - A thrown exception is the left injection of a sum; code that
      mutates an object and may throw is written in a state-and-exception
      monad which keeps the state reached at the [throw].
    - The [std::unique_ptr<Deck>] member of a game state is a location in
      a heap of decks, so that copies and aliasing are explicit. *)

From Stdlib Require Import Floats.PrimFloat.
From Stdlib Require Import ZArith QArith Qabs Lqa List String Lia Bool Permutation Sorted.
From Stdlib Require Import Decimal DecimalString.
From Stdlib Require OrderedTypeEx.
From stdpp Require Import base gmap strings list.

Local Open Scope string_scope.
Local Open Scope list_scope.
Local Open Scope Z_scope.

(* ================================================================== *)
(** * The C++ standard library, as far as the sources use it          *)
(* ================================================================== *)

Module Std.

(** Exceptions of <stdexcept>, with their [what()] message. *)
Inductive exception : Type :=
| invalid_argument (what : string)
| runtime_error (what : string)
| length_error (what : string)
| undefined_behaviour (what : string).

Definition result (A : Type) : Type := (exception + A)%type.

Definition ok {A} (a : A) : result A := inr a.
Definition throw {A} (e : exception) : result A := inl e.

Definition rbind {A B} (m : result A) (k : A -> result B) : result B :=
  match m with
  | inl e => inl e
  | inr a => k a
  end.

Definition is_ok {A} (r : result A) : bool :=
  match r with inr _ => true | inl _ => false end.

Definition is_invalid_argument {A} (r : result A) : bool :=
  match r with inl (invalid_argument _) => true | _ => false end.

Definition is_runtime_error {A} (r : result A) : bool :=
  match r with inl (runtime_error _) => true | _ => false end.

(** Comparisons of doubles. *)
Definition Qltb (a b : Q) : bool := negb (Qle_bool b a).
Definition Qgtb (a b : Q) : bool := Qltb b a.

(** [std::max(a, b)] is [(a < b) ? b : a]. *)
Definition max (a b : Q) : Q := if Qltb a b then b else a.

(** [std::accumulate(first, last, init)]. *)
Definition accumulate (l : list Q) (init : Q) : Q := fold_left Qplus l init.

(** [std::vector<double>(n, value)] where [n] is an [int] converted to
    [size_type]: a negative [n] becomes a count above [max_size()] and
    the constructor throws [std::length_error]. *)
Definition vector (n : Z) (value : Q) : result (list Q) :=
  if n <? 0
  then throw (length_error "cannot create std::vector larger than max_size()")
  else ok (replicate (Z.to_nat n) value).

(** [v.resize(n)] on a vector of ints: truncate, or pad with zeros. *)
Definition resize (n : nat) (v : list Z) : list Z :=
  take n v ++ replicate (n - length v) 0.

(** [for (std::size_t i = 0; i < n; ++i) body], threading the state. *)
Definition for_range {S : Type} (n : nat) (body : nat -> S -> S) (s : S) : S :=
  fold_left (fun acc i => body i acc) (seq 0 n) s.

(** [std::sort(first, last, comp)].  For the short ranges sorted here
    libstdc++ runs a plain insertion sort; [comp a b] reads "a goes
    before b". *)
Section Sort.
Context {A : Type} (comp : A -> A -> bool).

Fixpoint insert_sorted (x : A) (l : list A) : list A :=
  match l with
  | [] => [x]
  | y :: l' => if comp x y then x :: y :: l' else y :: insert_sorted x l'
  end.

Definition sort (l : list A) : list A :=
  fold_left (fun acc x => insert_sorted x acc) l [].
End Sort.

(** [std::set<int>]: an ordered set, iterated in increasing order. *)
Module set.
Definition t := list Z.

Fixpoint insert (x : Z) (s : t) : t :=
  match s with
  | [] => [x]
  | y :: s' =>
      if x <? y then x :: y :: s'
      else if x =? y then y :: s'
      else y :: insert x s'
  end.

Fixpoint erase (x : Z) (s : t) : t :=
  match s with
  | [] => []
  | y :: s' => if x =? y then s' else y :: erase x s'
  end.

Definition count (x : Z) (s : t) : Z :=
  if existsb (Z.eqb x) s then 1 else 0.

Definition of_list (l : list Z) : t := fold_left (fun s x => insert x s) l [].
End set.

End Std.

Import Std.

Notation "'do' x <- m ; k" := (rbind m (fun x => k))
  (at level 10, x name, m at level 100, k at level 200).

(** Reading [v[i]] past the end is undefined in C++; the total lookup
    [v !!! i] then reads a default value.  The sources only read inside
    the bounds, and every theorem below states the lengths it needs. *)
#[global] Instance Q_inhabited : Inhabited Q := populate 0%Q.

(** Sum of a vector of doubles, left to right from [0.0]. *)
Definition Qsum (l : list Q) : Q := accumulate l 0%Q.

(* ================================================================== *)
(** * mccfr::Node                                                     *)
(* ================================================================== *)

Module Node.

Record t : Type := mk {
  regretSum_ : list Q;     (* cumulative regret per action *)
  strategy_ : list Q;      (* working buffer *)
  strategySum_ : list Q;   (* cumulative strategy *)
  visitCount_ : Z          (* std::uint64_t *)
}.

Definition uint64_max : Z := 2 ^ 64.

(** [Node::Node(int numActions)]: the three member initialisers run
    first, then the body's check. *)
Definition Node (numActions : Z) : result t :=
  do regretSum <- vector numActions 0%Q;
  do strategy <- vector numActions 0%Q;
  do strategySum <- vector numActions 0%Q;
  if numActions <=? 0
  then throw (invalid_argument "Number of actions must be positive")
  else ok (mk regretSum strategy strategySum 0).

(** [Node::Node() : Node(3)]. *)
Definition Node_default : result t := Node 3.

(** [Node::normalizeStrategy]. *)
Definition normalizeStrategy (n : t) : t :=
  let '(strategy, normalizingSum) :=
    for_range (length (regretSum_ n))
      (fun i '(strategy, normalizingSum) =>
         let strategy := <[i := max (regretSum_ n !!! i) 0%Q]> strategy in
         (strategy, (normalizingSum + strategy !!! i)%Q))
      (strategy_ n, 0%Q) in
  let strategy :=
    if Qgtb normalizingSum 0%Q then
      for_range (length strategy)
        (fun i strategy => <[i := (strategy !!! i / normalizingSum)%Q]> strategy)
        strategy
    else
      let uniform := (1 / inject_Z (Z.of_nat (length strategy)))%Q in
      map (fun _ => uniform) strategy in
  mk (regretSum_ n) strategy (strategySum_ n) (visitCount_ n).

(** [Node::getStrategy(double realizationWeight)]: returns the strategy
    and the updated node. *)
Definition getStrategy (realizationWeight : Q) (n : t) : list Q * t :=
  let n := mk (regretSum_ n) (strategy_ n) (strategySum_ n)
              ((visitCount_ n + 1) mod uint64_max) in
  let n := normalizeStrategy n in
  let strategySum :=
    for_range (length (strategy_ n))
      (fun i strategySum =>
         <[i := (strategySum !!! i + realizationWeight * (strategy_ n !!! i))%Q]> strategySum)
      (strategySum_ n) in
  let n := mk (regretSum_ n) (strategy_ n) strategySum (visitCount_ n) in
  (strategy_ n, n).

(** [Node::getAverageStrategy() const]. *)
Definition getAverageStrategy (n : t) : list Q :=
  let avgStrategy := replicate (length (strategySum_ n)) 0%Q in
  let sum := accumulate (strategySum_ n) 0%Q in
  if Qgtb sum 0%Q then
    for_range (length avgStrategy)
      (fun i avgStrategy => <[i := (strategySum_ n !!! i / sum)%Q]> avgStrategy)
      avgStrategy
  else
    let uniform := (1 / inject_Z (Z.of_nat (length avgStrategy)))%Q in
    map (fun _ => uniform) avgStrategy.

(** [Node::updateRegret(int action, double regret)]: the range check
    throws before anything is written. *)
Definition updateRegret (action : Z) (regret : Q) (n : t) : result t :=
  if (action <? 0) || (action >=? Z.of_nat (length (regretSum_ n)))
  then throw (invalid_argument "Invalid action index")
  else
    let i := Z.to_nat action in
    ok (mk (<[i := (regretSum_ n !!! i + regret)%Q]> (regretSum_ n))
           (strategy_ n) (strategySum_ n) (visitCount_ n)).

(** [Node::reset]. *)
Definition reset (n : t) : t :=
  mk (map (fun _ => 0%Q) (regretSum_ n))
     (map (fun _ => 0%Q) (strategy_ n))
     (map (fun _ => 0%Q) (strategySum_ n))
     0.

(** A history of calls on one node.  A call that throws leaves the node
    as it was (the only [throw] precedes every write); the caller goes
    on with the next call. *)
Inductive call : Type :=
| UpdateRegret (action : Z) (regret : Q)
| GetStrategy (realizationWeight : Q).

Definition step (n : t) (c : call) : t :=
  match c with
  | UpdateRegret action regret =>
      match updateRegret action regret n with
      | inr n' => n'
      | inl _ => n
      end
  | GetStrategy w => snd (getStrategy w n)
  end.

Definition run (n : t) (history : list call) : t := fold_left step history n.

(** The realization weights of a history are reach probabilities. *)
Definition weight_ok (c : call) : Prop :=
  match c with
  | UpdateRegret _ _ => True
  | GetStrategy w => (0 <= w)%Q
  end.


(** The trainer's [std::unordered_map<std::string, Node> nodeMap_] and
    its [operator[]], which default-constructs the node of an unseen
    key. *)
Definition index (key : string) (nodeMap : gmap string t)
  : result (t * gmap string t) :=
  match nodeMap !! key with
  | Some n => ok (n, nodeMap)
  | None => do n <- Node_default; ok (n, <[key := n]> nodeMap)
  end.

End Node.

(** A vector of doubles is a probability distribution. *)
Definition is_distribution (p : list Q) : Prop :=
  Forall (fun x => (0 <= x /\ x <= 1)%Q) p /\ (Qsum p == 1)%Q.

Definition uniform_distribution (n : nat) : list Q :=
  replicate n (1 / inject_Z (Z.of_nat n))%Q.

(* ================================================================== *)
(** * mccfr::Node over IEEE 754 doubles                                *)
(* ================================================================== *)

(** The same class once more, with [double] as the binary64 numbers of
    the hardware: additions and divisions round to nearest, a sum past
    the largest double is an infinity, and [inf / inf] is a NaN.  The
    definitions follow [Node] line by line; only the numbers differ. *)
Module Binary64.

#[global] Instance float_inhabited : Inhabited float := populate 0%float.

(** [std::max(a, b)] is [(a < b) ? b : a]; a comparison with a NaN is
    false. *)
Definition max (a b : float) : float := if PrimFloat.ltb a b then b else a.

(** [std::accumulate(first, last, init)]. *)
Definition accumulate (l : list float) (init : float) : float :=
  fold_left PrimFloat.add l init.

(** [std::vector<double>(n, value)] with [n] an [int]. *)
Definition vector (n : Z) (value : float) : result (list float) :=
  if n <? 0
  then throw (length_error "cannot create std::vector larger than max_size()")
  else ok (replicate (Z.to_nat n) value).

(** The conversion of a [std::size_t] to [double]; exact below [2^53]. *)
Definition of_size (n : nat) : float :=
  Nat.iter n (fun x => PrimFloat.add x 1%float) 0%float.

Module Node.

Record t : Type := mk {
  regretSum_ : list float;
  strategy_ : list float;
  strategySum_ : list float;
  visitCount_ : Z
}.

(** [Node::Node(int numActions)]. *)
Definition Node (numActions : Z) : result t :=
  do regretSum <- vector numActions 0%float;
  do strategy <- vector numActions 0%float;
  do strategySum <- vector numActions 0%float;
  if numActions <=? 0
  then throw (invalid_argument "Number of actions must be positive")
  else ok (mk regretSum strategy strategySum 0).

(** [Node::normalizeStrategy]. *)
Definition normalizeStrategy (n : t) : t :=
  let '(strategy, normalizingSum) :=
    for_range (length (regretSum_ n))
      (fun i '(strategy, normalizingSum) =>
         let strategy := <[i := max (regretSum_ n !!! i) 0%float]> strategy in
         (strategy, PrimFloat.add normalizingSum (strategy !!! i)))
      (strategy_ n, 0%float) in
  let strategy :=
    if PrimFloat.ltb 0%float normalizingSum then
      for_range (length strategy)
        (fun i strategy => <[i := PrimFloat.div (strategy !!! i) normalizingSum]> strategy)
        strategy
    else
      let uniform := PrimFloat.div 1%float (of_size (length strategy)) in
      map (fun _ => uniform) strategy in
  mk (regretSum_ n) strategy (strategySum_ n) (visitCount_ n).

(** [Node::getStrategy(double realizationWeight)]. *)
Definition getStrategy (realizationWeight : float) (n : t) : list float * t :=
  let n := mk (regretSum_ n) (strategy_ n) (strategySum_ n)
              ((visitCount_ n + 1) mod 2 ^ 64) in
  let n := normalizeStrategy n in
  let strategySum :=
    for_range (length (strategy_ n))
      (fun i strategySum =>
         <[i := PrimFloat.add (strategySum !!! i)
                  (PrimFloat.mul realizationWeight (strategy_ n !!! i))]> strategySum)
      (strategySum_ n) in
  let n := mk (regretSum_ n) (strategy_ n) strategySum (visitCount_ n) in
  (strategy_ n, n).

(** [Node::getAverageStrategy() const]. *)
Definition getAverageStrategy (n : t) : list float :=
  let avgStrategy := replicate (length (strategySum_ n)) 0%float in
  let sum := accumulate (strategySum_ n) 0%float in
  if PrimFloat.ltb 0%float sum then
    for_range (length avgStrategy)
      (fun i avgStrategy => <[i := PrimFloat.div (strategySum_ n !!! i) sum]> avgStrategy)
      avgStrategy
  else
    let uniform := PrimFloat.div 1%float (of_size (length avgStrategy)) in
    map (fun _ => uniform) avgStrategy.

(** [Node::updateRegret(int action, double regret)]. *)
Definition updateRegret (action : Z) (regret : float) (n : t) : result t :=
  if (action <? 0) || (action >=? Z.of_nat (length (regretSum_ n)))
  then throw (invalid_argument "Invalid action index")
  else
    let i := Z.to_nat action in
    ok (mk (<[i := PrimFloat.add (regretSum_ n !!! i) regret]> (regretSum_ n))
           (strategy_ n) (strategySum_ n) (visitCount_ n)).

End Node.

(** The chips a seat has put in, [initialStacks_[i] - playerStacks_[i]]
    in [calculateSidePots] and [getReturns]. *)
Definition contribution (initialStack playerStack : float) : float :=
  PrimFloat.sub initialStack playerStack.

(** The test of the specification on a vector of doubles: every entry is
    in [[0, 1]] and the sum is within [1e-9] of [1.0].  The bound is the
    double nearest to [1e-9]. *)
Definition is_distribution (p : list float) : bool :=
  forallb (fun x => PrimFloat.leb 0%float x && PrimFloat.leb x 1%float) p
  && PrimFloat.leb (PrimFloat.abs (PrimFloat.sub (accumulate p 0%float) 1%float))
       0x1.12e0be826d695p-30%float.

End Binary64.

(* ================================================================== *)
(** * aof::Card, aof::Deck and the enumerations of types.hpp          *)
(* ================================================================== *)

(** [enum class Action : std::uint8_t]. *)
Inductive Action : Type := FOLD | ALL_IN | DEAL.

Definition Action_eqb (a b : Action) : bool :=
  match a, b with
  | FOLD, FOLD | ALL_IN, ALL_IN | DEAL, DEAL => true
  | _, _ => false
  end.

(** [enum class HandRank : std::uint8_t], higher values are better. *)
Inductive HandRank : Type :=
| HIGH_CARD | PAIR | TWO_PAIR | THREE_OF_A_KIND | STRAIGHT
| FLUSH | FULL_HOUSE | FOUR_OF_A_KIND | STRAIGHT_FLUSH.

(** [static_cast<int>(handRank)]. *)
Definition HandRank_to_int (r : HandRank) : Z :=
  match r with
  | HIGH_CARD => 0 | PAIR => 1 | TWO_PAIR => 2 | THREE_OF_A_KIND => 3
  | STRAIGHT => 4 | FLUSH => 5 | FULL_HOUSE => 6 | FOUR_OF_A_KIND => 7
  | STRAIGHT_FLUSH => 8
  end.

(** [struct GameParameters]. *)
Record GameParameters : Type := mkGameParameters {
  rake_per_hand : Q;
  jackpot_fee_per_hand : Q;
  jackpot_payout_percentage : Q
}.

(** [using Stakes = std::pair<double, double>]: small and big blind. *)
Definition Stakes : Type := (Q * Q)%type.

Module GameConfig.
Definition STARTING_STACK_BB : Q := 8.
Definition NUM_PLAYERS : Z := 4.
Definition HOLE_CARDS_PER_PLAYER : Z := 2.
Definition COMMUNITY_CARDS : Z := 5.
Definition DECK_SIZE : Z := 52.

(** [GameConfig::STAKES_PARAMETERS], in the order it is written. *)
Definition STAKES_PARAMETERS : list (Stakes * GameParameters) :=
  [ ((0.05, 0.10), mkGameParameters 0.02 0.02 0.00005);
    ((0.10, 0.20), mkGameParameters 0.03 0.03 0.0001);
    ((0.10, 0.25), mkGameParameters 0.04 0.04 0.0001);
    ((0.20, 0.40), mkGameParameters 0.05 0.05 0.0002);
    ((0.25, 0.50), mkGameParameters 0.06 0.06 0.0002);
    ((0.50, 1.00), mkGameParameters 0.05 0.05 0.0005);
    ((1.00, 2.00), mkGameParameters 0.05 0.05 0.001);
    ((2.00, 4.00), mkGameParameters 0.05 0.05 0.0015);
    ((5.00, 10.00), mkGameParameters 0.05 0.05 0.0025);
    ((10.00, 20.00), mkGameParameters 0.05 0.05 0.005);
    ((25.00, 50.00), mkGameParameters 0.05 0.05 0.0075);
    ((50.00, 100.00), mkGameParameters 0.05 0.05 0.01);
    ((100.00, 200.00), mkGameParameters 0.025 0.025 0.01);
    ((200.00, 400.00), mkGameParameters 0.025 0.025 0.0125);
    ((500.00, 1000.00), mkGameParameters 0.025 0.025 0.015);
    ((1000.00, 2000.00), mkGameParameters 0.025 0.025 0.02) ]%Q.

(** [operator==] of [std::pair<double, double>]. *)
Definition Stakes_eqb (a b : Stakes) : bool :=
  Qeq_bool (fst a) (fst b) && Qeq_bool (snd a) (snd b).

(** [STAKES_PARAMETERS.find(stakes)]; the keys of the table differ, so
    the bucket order does not matter. *)
Fixpoint find (stakes : Stakes) (table : list (Stakes * GameParameters))
  : option GameParameters :=
  match table with
  | [] => None
  | (key, params) :: table' =>
      if Stakes_eqb stakes key then Some params else find stakes table'
  end.

(** [GameConfig::getGameParameters]; the message of the exception ends
    with the two stakes printed by [std::to_string], left out here. *)
Definition getGameParameters (stakes : Stakes) : result GameParameters :=
  match find stakes STAKES_PARAMETERS with
  | Some params => ok params
  | None => throw (invalid_argument "Unsupported stakes: ")
  end.

(** [GameConfig::getSupportedStakes]; [iteration] is the order in which
    the range-for visits the [std::unordered_map], which the standard
    leaves open. *)
Definition getSupportedStakes (iteration : list (Stakes * GameParameters))
  : list Stakes :=
  sort (fun a b : Stakes => Qltb (snd a) (snd b)) (map fst iteration).
End GameConfig.

Module Card.

Record t : Type := mk { rank_ : string; suit_ : string }.

Definition getRank (c : t) : string := rank_ c.
Definition getSuit (c : t) : string := suit_ c.

(** [Card::RANK_VALUES], a constant map from rank to numeric value. *)
Definition RANK_VALUES : list (string * Z) :=
  [("2", 2); ("3", 3); ("4", 4); ("5", 5); ("6", 6); ("7", 7); ("8", 8);
   ("9", 9); ("10", 10); ("J", 11); ("Q", 12); ("K", 13); ("A", 14)].

Fixpoint find (key : string) (m : list (string * Z)) : option Z :=
  match m with
  | [] => None
  | (k, v) :: m' => if String.eqb key k then Some v else find key m'
  end.

Definition getRankValue (c : t) : Z :=
  match find (rank_ c) RANK_VALUES with
  | Some v => v
  | None => 0
  end.

Definition validSuits : list string := ["h"; "d"; "c"; "s"].

Definition isValid (c : t) : bool :=
  match find (rank_ c) RANK_VALUES with
  | Some _ => existsb (String.eqb (suit_ c)) validSuits
  | None => false
  end.

(** [Card::Card(std::string rank, std::string suit)]. *)
Definition Card (rank suit : string) : result t :=
  let c := mk rank suit in
  if isValid c then ok c
  else throw (invalid_argument ("Invalid card: " ++ rank ++ suit)%string).

(** [Card::toString]. *)
Definition toString (c : t) : string := (rank_ c ++ suit_ c)%string.

(** [Card::operator==]. *)
Definition eqb (c other : t) : bool :=
  String.eqb (rank_ c) (rank_ other) && String.eqb (suit_ c) (suit_ other).

(** [Card::operator<]; [std::string] compares its bytes as unsigned
    values, as [String.ltb] does. *)
Definition ltb (c other : t) : bool :=
  let thisValue := getRankValue c in
  let otherValue := getRankValue other in
  if negb (thisValue =? otherValue) then thisValue <? otherValue
  else String.ltb (suit_ c) (suit_ other).

End Card.

#[global] Instance Card_inhabited : Inhabited Card.t := populate (Card.mk "" "").

Module Deck.

(** The [cards_] vector; the back of the vector is the last element.
    The generator [rng_] is only read by [shuffle]. *)
Definition t : Type := list Card.t.

Definition ranks : list string :=
  ["2"; "3"; "4"; "5"; "6"; "7"; "8"; "9"; "10"; "J"; "Q"; "K"; "A"].
Definition suits : list string := ["h"; "d"; "c"; "s"].

(** [Deck::createStandardDeck]. *)
Definition createStandardDeck : t :=
  flat_map (fun rank => map (fun suit => Card.mk rank suit) suits) ranks.

(** [Deck::Deck(seed)]: a standard deck after [std::shuffle]; the
    permutation drawn by the generator is left open. *)
Definition shuffled (d : t) : Prop := Permutation d createStandardDeck.

(** [Deck::dealCard]: [cards_.back()] then [cards_.pop_back()]. *)
Definition dealCard (d : t) : result (Card.t * t) :=
  match reverse d with
  | [] => throw (runtime_error "Cannot deal from empty deck")
  | card :: rest => ok (card, reverse rest)
  end.

Fixpoint dealLoop (count : nat) (dealt : list Card.t) (d : t)
  : result (list Card.t * t) :=
  match count with
  | O => ok (dealt, d)
  | Datatypes.S count' =>
      do r <- dealCard d;
      dealLoop count' (dealt ++ [fst r]) (snd r)
  end.

(** [Deck::dealCards(int count)]. *)
Definition dealCards (count : Z) (d : t) : result (list Card.t * t) :=
  if count <? 0
  then throw (invalid_argument "Cannot deal negative number of cards")
  else if Z.of_nat (length d) <? count
  then throw (runtime_error "Not enough cards in deck")
  else dealLoop (Z.to_nat count) [] d.

End Deck.

(* ================================================================== *)
(** * aof::PokerEvaluator                                             *)
(* ================================================================== *)

Module PokerEvaluator.

(** [using HandScore = std::vector<int>]: rank, then tiebreakers. *)
Definition HandScore : Type := list Z.

(** [PokerEvaluator::makeScore]. *)
Definition makeScore (handRank : HandRank) (tiebreakers : list Z) : HandScore :=
  HandRank_to_int handRank :: tiebreakers.

(** [PokerEvaluator::compareHands]: compares the common prefix. *)
Fixpoint compareHands (score1 score2 : HandScore) : Z :=
  match score1, score2 with
  | a :: score1', b :: score2' =>
      if a >? b then 1
      else if a <? b then -1
      else compareHands score1' score2'
  | _, _ => 0
  end.

(** [PokerEvaluator::isFlush]. *)
Definition isFlush (hand : list Card.t) : bool :=
  match hand with
  | [] => false
  | first :: _ =>
      let suit := Card.getSuit first in
      forallb (fun card => String.eqb (Card.getSuit card) suit) hand
  end.

(** The loop [for (i = 1; i < sortedRanks.size(); ++i)] of [isStraight]
    that looks for a gap between neighbours. *)
Fixpoint isStraightSeq (sortedRanks : list Z) : bool :=
  match sortedRanks with
  | a :: ((b :: _) as rest) => if b =? a + 1 then isStraightSeq rest else false
  | _ => true
  end.

(** [PokerEvaluator::isStraight]: the second component is the value of
    the out-parameter [highCard] after the call. *)
Definition isStraight (hand : list Card.t) (highCard : Z) : bool * Z :=
  let ranks := fold_left (fun s card => set.insert (Card.getRankValue card) s)
                         hand [] in
  if negb (length ranks =? 5)%nat then (false, highCard)
  else
    let sortedRanks := ranks in
    if isStraightSeq sortedRanks then (true, List.last sortedRanks 0)
    else if (length sortedRanks =? 5)%nat
            && (sortedRanks !!! 0%nat =? 2) && (sortedRanks !!! 1%nat =? 3)
            && (sortedRanks !!! 2%nat =? 4) && (sortedRanks !!! 3%nat =? 5)
            && (sortedRanks !!! 4%nat =? 14)
    then (true, 5)
    else (false, highCard).

(** Descending sort of ints: [std::sort(v.rbegin(), v.rend())]. *)
Definition sort_desc (v : list Z) : list Z := sort (fun a b => b <? a) v.

(** [PokerEvaluator::analyzeRanks]: [rankCounts] is the
    [std::array<int, 15>], [sortedRanks] the ranks by count then value. *)
Definition analyzeRanks (hand : list Card.t) : list Z * list Z :=
  let rankCounts :=
    fold_left
      (fun counts card =>
         let i := Z.to_nat (Card.getRankValue card) in
         <[i := counts !!! i + 1]> counts)
      hand (replicate 15 0) in
  let rankCountPairs :=
    fold_left
      (fun (pairs : list (Z * Z)) rank =>
         if rankCounts !!! Z.to_nat rank >? 0
         then pairs ++ [(rankCounts !!! Z.to_nat rank, rank)]
         else pairs)
      (seqZ 2 13) [] in
  let sorted :=
    sort (fun a b : Z * Z =>
            if negb (fst a =? fst b) then fst a >? fst b else snd a >? snd b)
         rankCountPairs in
  (rankCounts, map snd sorted).

(** The ranks visited by [for (int rank = 14; rank >= 2; --rank)]. *)
Definition ranks_descending : list Z :=
  [14; 13; 12; 11; 10; 9; 8; 7; 6; 5; 4; 3; 2].

(** First rank of the descending loop with the given count. *)
Definition first_with_count (rankCounts : list Z) (count : Z) : option Z :=
  List.find (fun rank => rankCounts !!! Z.to_nat rank =? count) ranks_descending.

(** All ranks of the descending loop with the given count. *)
Definition all_with_count (rankCounts : list Z) (count : Z) : list Z :=
  List.filter (fun rank => rankCounts !!! Z.to_nat rank =? count) ranks_descending.

(** [PokerEvaluator::evaluateFiveCardHand]. *)
Definition evaluateFiveCardHand (hand : list Card.t) : result HandScore :=
  if negb (length hand =? 5)%nat
  then throw (invalid_argument "Must have exactly 5 cards")
  else
    let '(rankCounts, _) := analyzeRanks hand in
    let isFlushHand := isFlush hand in
    let '(isStraightHand, straightHigh) := isStraight hand 0 in
    if isFlushHand && isStraightHand
    then ok (makeScore STRAIGHT_FLUSH [straightHigh])
    else
      match first_with_count rankCounts 4 with
      | Some rank =>
          let kicker := default 0 (first_with_count rankCounts 1) in
          ok (makeScore FOUR_OF_A_KIND [rank; kicker])
      | None =>
          let '(trips, pair') :=
            fold_left
              (fun '(trips, pair') rank =>
                 if (rankCounts !!! Z.to_nat rank =? 3) && (trips =? 0)
                 then (rank, pair')
                 else if (rankCounts !!! Z.to_nat rank =? 2) && (pair' =? 0)
                 then (trips, rank)
                 else (trips, pair'))
              ranks_descending (0, 0) in
          if (trips >? 0) && (pair' >? 0)
          then ok (makeScore FULL_HOUSE [trips; pair'])
          else if isFlushHand
          then ok (makeScore FLUSH (sort_desc (map Card.getRankValue hand)))
          else if isStraightHand
          then ok (makeScore STRAIGHT [straightHigh])
          else if trips >? 0
          then
            let kickers := resize 2 (sort_desc (all_with_count rankCounts 1)) in
            ok (makeScore THREE_OF_A_KIND (trips :: kickers))
          else
            let pairs := all_with_count rankCounts 2 in
            if (2 <=? length pairs)%nat
            then
              let pairs := sort_desc pairs in
              let kicker := default 0 (first_with_count rankCounts 1) in
              ok (makeScore TWO_PAIR
                    [pairs !!! 0%nat; pairs !!! 1%nat; kicker])
            else if (length pairs =? 1)%nat
            then
              let kickers := resize 3 (sort_desc (all_with_count rankCounts 1)) in
              ok (makeScore PAIR (pairs !!! 0%nat :: kickers))
            else ok (makeScore HIGH_CARD (sort_desc (map Card.getRankValue hand)))
      end.

(** [PokerEvaluator::generateCombinationsHelper]: [cards] is the part of
    the vector from index [start] on; the result lists what the call
    appends to [allCombinations]. *)
Fixpoint generateCombinationsHelper (cards : list Card.t) (combinationSize : nat)
    (currentCombo : list Card.t) {struct cards} : list (list Card.t) :=
  if (length currentCombo =? combinationSize)%nat then [currentCombo]
  else
    (fix loop (rest : list Card.t) : list (list Card.t) :=
       match rest with
       | [] => []
       | card :: rest' =>
           generateCombinationsHelper rest' combinationSize (currentCombo ++ [card])
           ++ loop rest'
       end) cards.

(** [PokerEvaluator::generateCombinations]. *)
Definition generateCombinations (cards : list Card.t) : result (list (list Card.t)) :=
  if negb (length cards =? 7)%nat
  then throw (invalid_argument "Must have exactly 7 cards for combinations")
  else ok (generateCombinationsHelper cards 5 []).

(** [PokerEvaluator::evaluateHand]. *)
Definition evaluateHand (holeCards communityCards : list Card.t) : result HandScore :=
  if negb (length holeCards =? 2)%nat
  then throw (invalid_argument "Must have exactly 2 hole cards")
  else if negb (length communityCards =? 5)%nat
  then throw (invalid_argument "Must have exactly 5 community cards")
  else
    let allCards := holeCards ++ communityCards in
    do combinations <- generateCombinations allCards;
    fold_left
      (fun best combo =>
         do bestScore <- best;
         do score <- evaluateFiveCardHand combo;
         if (length bestScore =? 0)%nat || (compareHands score bestScore >? 0)
         then ok score
         else ok bestScore)
      combinations (ok []).

End PokerEvaluator.

(** What [operator<<] writes into a stream for an [int], and what
    [std::to_string] returns for it. *)
Definition print_int (z : Z) : string := NilZero.string_of_int (Z.to_int z).

(* ================================================================== *)
(** * aof::Game                                                       *)
(* ================================================================== *)

Module Game.

Record t : Type := mk {
  smallBlind_ : Q;
  bigBlind_ : Q;
  gameParams_ : GameParameters;
  initialStacks_ : list Q       (* in chips *)
}.

Definition getSmallBlind (g : t) : Q := smallBlind_ g.
Definition getBigBlind (g : t) : Q := bigBlind_ g.

(** The default argument [gameParams = {}]. *)
Definition no_rake : GameParameters := mkGameParameters 0 0 0.

(** [Game::getInitialStack(int player)]. *)
Definition getInitialStack (g : t) (player : Z) : result Q :=
  if (player <? 0) || (player >=? GameConfig.NUM_PLAYERS)
  then throw (invalid_argument ("Invalid player index: " ++ print_int player))
  else ok (initialStacks_ g !!! Z.to_nat player).

(** [Game::validateConfiguration]. *)
Definition validateConfiguration (g : t) : result unit :=
  if Qltb (initialStacks_ g !!! 0%nat) (smallBlind_ g)
  then throw (invalid_argument "Small blind player stack too small")
  else if Qltb (initialStacks_ g !!! 1%nat) (bigBlind_ g)
  then throw (invalid_argument "Big blind player stack too small")
  else if Qltb (rake_per_hand (gameParams_ g)) 0
          || Qgtb (rake_per_hand (gameParams_ g)) 1
  then throw (invalid_argument "Rake per hand must be between 0 and 1")
  else if Qltb (jackpot_fee_per_hand (gameParams_ g)) 0
          || Qgtb (jackpot_fee_per_hand (gameParams_ g)) 1
  then throw (invalid_argument "Jackpot fee per hand must be between 0 and 1")
  else if Qltb (jackpot_payout_percentage (gameParams_ g)) 0
          || Qgtb (jackpot_payout_percentage (gameParams_ g)) 1
  then throw (invalid_argument "Jackpot payout percentage must be between 0 and 1")
  else ok tt.

(** [Game::Game(smallBlind, bigBlind, gameParams, initialStacksBB)]. *)
Definition Game (smallBlind bigBlind : Q) (gameParams : GameParameters)
    (initialStacksBB : list Q) : result t :=
  if Qle_bool smallBlind 0 || Qle_bool bigBlind 0
  then throw (invalid_argument "Blinds must be positive")
  else if Qle_bool bigBlind smallBlind
  then throw (invalid_argument "Small blind must be less than big blind")
  else
    do initialStacks <-
      match initialStacksBB with
      | [] =>
          ok (replicate (Z.to_nat GameConfig.NUM_PLAYERS)
                        (GameConfig.STARTING_STACK_BB * bigBlind)%Q)
      | _ =>
          if negb (Z.of_nat (length initialStacksBB) =? GameConfig.NUM_PLAYERS)
          then throw (invalid_argument "Must specify stacks for all 4 players")
          else if existsb (fun stack => Qle_bool stack 0) initialStacksBB
          then throw (invalid_argument "All stacks must be positive")
          else ok (map (fun stack => stack * bigBlind)%Q initialStacksBB)
      end;
    let g := mk smallBlind bigBlind gameParams initialStacks in
    do _ <- validateConfiguration g;
    ok g.

End Game.

(* ================================================================== *)
(** * aof::GameState                                                  *)
(* ================================================================== *)

(** The heap holds the decks owned through [std::unique_ptr<Deck>]. *)
Abbreviation loc := positive (only parsing).
Abbreviation heap := (gmap positive Deck.t) (only parsing).

(** A data-integrity warning written to [std::cout]. *)
Inductive warning : Type :=
| ZeroSumViolation (invested won diff : Q).

Module GameState.

Record t : Type := mk {
  game_ : Game.t;                       (* const Game*, never written *)
  gameOver_ : bool;
  nextPlayer_ : Z;
  pot_ : Q;
  initialStacks_ : list Q;
  playerStacks_ : list Q;
  folded_ : list bool;
  allInPlayers_ : set.t;
  deck_ : option loc;                   (* std::unique_ptr<Deck> *)
  holeCards_ : list Card.t;
  communityCards_ : list Card.t;
  sidePots_ : list (Q * list Z)
}.

Definition set_gameOver (v : bool) (s : t) : t :=
  mk (game_ s) v (nextPlayer_ s) (pot_ s) (initialStacks_ s) (playerStacks_ s)
     (folded_ s) (allInPlayers_ s) (deck_ s) (holeCards_ s)
     (communityCards_ s) (sidePots_ s).
Definition set_nextPlayer (v : Z) (s : t) : t :=
  mk (game_ s) (gameOver_ s) v (pot_ s) (initialStacks_ s) (playerStacks_ s)
     (folded_ s) (allInPlayers_ s) (deck_ s) (holeCards_ s)
     (communityCards_ s) (sidePots_ s).
Definition set_pot (v : Q) (s : t) : t :=
  mk (game_ s) (gameOver_ s) (nextPlayer_ s) v (initialStacks_ s)
     (playerStacks_ s) (folded_ s) (allInPlayers_ s) (deck_ s) (holeCards_ s)
     (communityCards_ s) (sidePots_ s).
Definition set_playerStacks (v : list Q) (s : t) : t :=
  mk (game_ s) (gameOver_ s) (nextPlayer_ s) (pot_ s) (initialStacks_ s) v
     (folded_ s) (allInPlayers_ s) (deck_ s) (holeCards_ s)
     (communityCards_ s) (sidePots_ s).
Definition set_folded (v : list bool) (s : t) : t :=
  mk (game_ s) (gameOver_ s) (nextPlayer_ s) (pot_ s) (initialStacks_ s)
     (playerStacks_ s) v (allInPlayers_ s) (deck_ s) (holeCards_ s)
     (communityCards_ s) (sidePots_ s).
Definition set_allInPlayers (v : set.t) (s : t) : t :=
  mk (game_ s) (gameOver_ s) (nextPlayer_ s) (pot_ s) (initialStacks_ s)
     (playerStacks_ s) (folded_ s) v (deck_ s) (holeCards_ s)
     (communityCards_ s) (sidePots_ s).
Definition set_holeCards (v : list Card.t) (s : t) : t :=
  mk (game_ s) (gameOver_ s) (nextPlayer_ s) (pot_ s) (initialStacks_ s)
     (playerStacks_ s) (folded_ s) (allInPlayers_ s) (deck_ s) v
     (communityCards_ s) (sidePots_ s).
Definition set_communityCards (v : list Card.t) (s : t) : t :=
  mk (game_ s) (gameOver_ s) (nextPlayer_ s) (pot_ s) (initialStacks_ s)
     (playerStacks_ s) (folded_ s) (allInPlayers_ s) (deck_ s) (holeCards_ s)
     v (sidePots_ s).
Definition set_sidePots (v : list (Q * list Z)) (s : t) : t :=
  mk (game_ s) (gameOver_ s) (nextPlayer_ s) (pot_ s) (initialStacks_ s)
     (playerStacks_ s) (folded_ s) (allInPlayers_ s) (deck_ s) (holeCards_ s)
     (communityCards_ s) v.
Definition set_deck (v : option loc) (s : t) : t :=
  mk (game_ s) (gameOver_ s) (nextPlayer_ s) (pot_ s) (initialStacks_ s)
     (playerStacks_ s) (folded_ s) (allInPlayers_ s) v (holeCards_ s)
     (communityCards_ s) (sidePots_ s).

(** ** Methods that mutate [*this] or its deck: state and exceptions *)

Definition M (A : Type) : Type := t * heap -> result A * (t * heap).

Definition ret {A} (a : A) : M A := fun w => (ok a, w).
Definition raise {A} (e : exception) : M A := fun w => (throw e, w).
Definition bind {A B} (m : M A) (k : A -> M B) : M B :=
  fun w => match m w with
           | (inl e, w') => (inl e, w')
           | (inr a, w') => k a w'
           end.
Definition get : M t := fun w => (ok (fst w), w).
Definition modify (f : t -> t) : M unit := fun w => (ok tt, (f (fst w), snd w)).

Notation "'let*' x := m 'in' k" := (bind m (fun x => k))
  (at level 10, x name, m at level 100, k at level 200).
Notation "m ;; k" := (bind m (fun _ => k))
  (at level 100, k at level 200, right associativity).

(** [deck_->dealCards(count)]. *)
Definition deck_dealCards (count : Z) : M (list Card.t) :=
  fun w =>
    match deck_ (fst w) with
    | None => (throw (undefined_behaviour "null deck"), w)
    | Some l =>
        match snd w !! l with
        | None => (throw (undefined_behaviour "dangling deck"), w)
        | Some d =>
            match Deck.dealCards count d with
            | inl e => (inl e, w)
            | inr (cards, d') => (ok cards, (fst w, <[l := d']> (snd w)))
            end
        end
    end.

(** [GameState::GameState(const Game* game)]; [cards] is the freshly
    shuffled deck made by [std::make_unique<Deck>()]. *)
Definition GameState (game : Game.t) (cards : Deck.t) (h : heap)
  : result (t * heap) :=
  do stack0 <- Game.getInitialStack game 0;
  do stack1 <- Game.getInitialStack game 1;
  do stack2 <- Game.getInitialStack game 2;
  do stack3 <- Game.getInitialStack game 3;
  let initialStacks := [stack0; stack1; stack2; stack3] in
  let playerStacks := initialStacks in
  let playerStacks :=
    <[0%nat := (playerStacks !!! 0%nat - Game.getSmallBlind game)%Q]> playerStacks in
  let playerStacks :=
    <[1%nat := (playerStacks !!! 1%nat - Game.getBigBlind game)%Q]> playerStacks in
  let l := fresh (dom h) in
  ok (mk game false 0 (Game.getSmallBlind game + Game.getBigBlind game)%Q
         initialStacks playerStacks
         (replicate (Z.to_nat GameConfig.NUM_PLAYERS) false)
         [] (Some l) [] [] [],
      <[l := cards]> h).

(** [GameState::GameState(const GameState& other)], also [clone()]: the
    deck is copied into a new object, every other member by value. *)
Definition clone (other : t) (h : heap) : result (t * heap) :=
  match deck_ other with
  | Some l =>
      match h !! l with
      | Some d =>
          let l' := fresh (dom h) in
          ok (set_deck (Some l') other, <[l' := d]> h)
      | None => throw (undefined_behaviour "dangling deck")
      end
  | None => ok (set_deck None other, h)
  end.

Definition isTerminal (s : t) : bool := gameOver_ s.

(** [GameState::isChanceNode]. *)
Definition isChanceNode (s : t) : bool :=
  (length (holeCards_ s) =? 0)%nat && negb (gameOver_ s).

(** [GameState::getCurrentPlayer]. *)
Definition getCurrentPlayer (s : t) : Z :=
  if gameOver_ s then -1 else nextPlayer_ s.

(** [GameState::getLegalActions]. *)
Definition getLegalActions (s : t) : list Action :=
  if isChanceNode s then [DEAL]
  else if gameOver_ s then []
  else
    let player := getCurrentPlayer s in
    if (player <? 0) || (folded_ s !!! Z.to_nat player) then []
    else [FOLD; ALL_IN].

(** [GameState::getActivePlayerCount]. *)
Definition getActivePlayerCount (s : t) : Z :=
  for_range (Z.to_nat GameConfig.NUM_PLAYERS)
    (fun i count => if negb (folded_ s !!! i) then count + 1 else count) 0.

(** [GameState::shouldGameEnd]. *)
Definition shouldGameEnd (s : t) : bool :=
  let activeCount := getActivePlayerCount s in
  if activeCount <=? 1 then true
  else
    forallb
      (fun i => negb (negb (folded_ s !!! i)
                      && (set.count (Z.of_nat i) (allInPlayers_ s) =? 0)))
      (seq 0 (Z.to_nat GameConfig.NUM_PLAYERS)).

(** [GameState::dealHoleCards]. *)
Definition dealHoleCards : M unit :=
  let* s := get in
  if negb (length (holeCards_ s) =? 0)%nat then ret tt
  else
    let* cards :=
      deck_dealCards (GameConfig.NUM_PLAYERS * GameConfig.HOLE_CARDS_PER_PLAYER) in
    modify (set_holeCards cards).

(** The [do ... while] loop of [advanceToNextPlayer]; [fuel] bounds the
    number of iterations and [None] means the bound was too small. *)
Fixpoint advanceLoop (fuel : nat) (s : t) : option t :=
  match fuel with
  | O => None
  | Datatypes.S fuel' =>
      let s := set_nextPlayer (Z.rem (nextPlayer_ s + 1) GameConfig.NUM_PLAYERS) s in
      if (folded_ s !!! Z.to_nat (nextPlayer_ s)) && (getActivePlayerCount s >? 1)
      then advanceLoop fuel' s
      else Some s
  end.

(** [GameState::advanceToNextPlayer]: the loop leaves within one round
    of the table (lemma [advanceLoop_total]). *)
Definition advanceToNextPlayer : M unit :=
  fun w =>
    match advanceLoop (Z.to_nat GameConfig.NUM_PLAYERS) (fst w) with
    | Some s' => (ok tt, (s', snd w))
    | None => (throw (undefined_behaviour "advanceToNextPlayer does not return"), w)
    end.

(** [operator<] of [std::pair<double, int>]. *)
Definition contribution_lt (a b : Q * Z) : bool :=
  Qltb (fst a) (fst b) || (negb (Qltb (fst b) (fst a)) && (snd a <? snd b)).

(** The total contribution of seat [i]. *)
Definition contribution (s : t) (i : nat) : Q :=
  (initialStacks_ s !!! i - playerStacks_ s !!! i)%Q.

(** The sorted [contributions] vector of [calculateSidePots]. *)
Definition contributions (s : t) : list (Q * Z) :=
  sort contribution_lt
    (for_range (Z.to_nat GameConfig.NUM_PLAYERS)
       (fun i acc =>
          let totalContribution := contribution s i in
          if Qgtb totalContribution 0 then acc ++ [(totalContribution, Z.of_nat i)]
          else acc)
       []).

(** The state of the last loop of [calculateSidePots]. *)
Record potLoop : Type := mkPotLoop {
  prevAmount : Q;
  eligiblePlayers : set.t;
  remainingContributors : set.t;
  sidePots : list (Q * list Z)
}.

Definition potLoop_step (st : potLoop) (entry : Q * Z) : potLoop :=
  let '(amount, player) := entry in
  let sidePots :=
    if Qgtb amount (prevAmount st) && negb (length (eligiblePlayers st) =? 0)%nat
    then
      let potIncrement :=
        ((amount - prevAmount st)
         * inject_Z (Z.of_nat (length (remainingContributors st))))%Q in
      if Qgtb potIncrement 0
      then sidePots st ++ [(potIncrement, eligiblePlayers st)]
      else sidePots st
    else sidePots st in
  mkPotLoop amount
            (set.erase player (eligiblePlayers st))
            (set.erase player (remainingContributors st))
            sidePots.

(** [GameState::calculateSidePots]: the new value of [sidePots_]. *)
Definition calculateSidePots (s : t) : list (Q * list Z) :=
  let eligiblePlayers :=
    for_range (Z.to_nat GameConfig.NUM_PLAYERS)
      (fun i acc => if negb (folded_ s !!! i) then set.insert (Z.of_nat i) acc else acc)
      [] in
  let allPlayers :=
    for_range (Z.to_nat GameConfig.NUM_PLAYERS)
      (fun i acc => if Qgtb (contribution s i) 0 then acc ++ [Z.of_nat i] else acc)
      [] in
  let remainingContributors := set.of_list allPlayers in
  sidePots
    (fold_left potLoop_step (contributions s)
       (mkPotLoop 0 eligiblePlayers remainingContributors [])).

(** [GameState::handleGameEnd]. *)
Definition handleGameEnd : M unit :=
  let* s := get in
  (if (length (communityCards_ s) =? 0)%nat
   then let* cards := deck_dealCards GameConfig.COMMUNITY_CARDS in
        modify (set_communityCards cards)
   else ret tt) ;;
  modify (fun s => set_sidePots (calculateSidePots s) s).

(** [GameState::applyAction]. *)
Definition applyAction (action : Action) : M unit :=
  let* s := get in
  if isChanceNode s then
    if negb (Action_eqb action DEAL)
    then raise (invalid_argument "Only DEAL action allowed at chance node")
    else dealHoleCards ;; modify (set_nextPlayer 2)
  else if gameOver_ s
  then raise (invalid_argument "Cannot apply action to terminal state")
  else
    let player := getCurrentPlayer s in
    if player <? 0 then raise (invalid_argument "No current player")
    else if negb (existsb (Action_eqb action) (getLegalActions s))
    then raise (invalid_argument "Illegal action")
    else
      match action with
      | FOLD => modify (fun s => set_folded (<[Z.to_nat player := true]> (folded_ s)) s)
      | ALL_IN =>
          modify (fun s =>
            let amount := playerStacks_ s !!! Z.to_nat player in
            let s := set_pot (pot_ s + amount)%Q s in
            let s := set_playerStacks (<[Z.to_nat player := 0%Q]> (playerStacks_ s)) s in
            set_allInPlayers (set.insert player (allInPlayers_ s)) s)
      | DEAL => raise (invalid_argument "Invalid action for non-chance node")
      end ;;
      advanceToNextPlayer ;;
      let* s := get in
      if shouldGameEnd s
      then modify (set_gameOver true) ;; handleGameEnd
      else ret tt.

(** ** [GameState::getReturns] *)

(** The scores of the non-folded contributors of one pot. *)
Fixpoint playerScores (s : t) (contributors : list Z)
  : result (list (PokerEvaluator.HandScore * Z)) :=
  match contributors with
  | [] => ok []
  | player :: rest =>
      if negb (folded_ s !!! Z.to_nat player) then
        match holeCards_ s !! Z.to_nat (player * 2),
              holeCards_ s !! Z.to_nat (player * 2 + 1) with
        | Some c1, Some c2 =>
            do score <- PokerEvaluator.evaluateHand [c1; c2] (communityCards_ s);
            do others <- playerScores s rest;
            ok ((score, player) :: others)
        | _, _ => throw (undefined_behaviour "holeCards_ read out of range")
        end
      else playerScores s rest
  end.

(** The ties loop: players following the best one with an equal score. *)
Fixpoint ties (best : PokerEvaluator.HandScore)
    (scores : list (PokerEvaluator.HandScore * Z)) : list Z :=
  match scores with
  | [] => []
  | (score, player) :: rest =>
      if PokerEvaluator.compareHands best score =? 0
      then player :: ties best rest
      else []
  end.

(** One iteration of the loop over [sidePots_]. *)
Definition awardPot (s : t) (returns : list Q) (pot : Q * list Z)
  : result (list Q) :=
  let '(potAmount, contributors) := pot in
  if (length contributors =? 0)%nat then ok returns
  else
    do scores <- playerScores s contributors;
    match sort (fun a b => PokerEvaluator.compareHands (fst a) (fst b) >? 0) scores with
    | [] => ok returns
    | (best, first) :: rest =>
        let winners := first :: ties best rest in
        let sharePerWinner := (potAmount / inject_Z (Z.of_nat (length winners)))%Q in
        ok (fold_left
              (fun returns winner =>
                 <[Z.to_nat winner := (returns !!! Z.to_nat winner + sharePerWinner)%Q]>
                   returns)
              winners returns)
    end.

(** The investments vector of [getReturns]. *)
Definition investments (s : t) : list Q :=
  for_range (Z.to_nat GameConfig.NUM_PLAYERS)
    (fun i inv => <[i := contribution s i]> inv)
    (replicate (Z.to_nat GameConfig.NUM_PLAYERS) 0%Q).

(** [GameState::getReturns() const]: the payoffs and what was printed. *)
Definition getReturns (s : t) : result (list Q * list warning) :=
  if negb (gameOver_ s)
  then throw (runtime_error "Cannot get returns for non-terminal state")
  else
    let returns := replicate (Z.to_nat GameConfig.NUM_PLAYERS) 0%Q in
    let investments := investments s in
    do returns <-
      fold_left (fun acc pot => do returns <- acc; awardPot s returns pot)
                (sidePots_ s) (ok returns);
    let totalInvestments := accumulate investments 0 in
    let totalWinnings := accumulate returns 0 in
    let printed :=
      if Qgtb (Qabs (totalInvestments - totalWinnings)) 1e-6
      then [ZeroSumViolation totalInvestments totalWinnings
                             (totalInvestments - totalWinnings)]
      else [] in
    let returns :=
      for_range (Z.to_nat GameConfig.NUM_PLAYERS)
        (fun i returns => <[i := (returns !!! i - investments !!! i)%Q]> returns)
        returns in
    ok (returns, printed).

End GameState.

(* ================================================================== *)
(** * aof::card_utils and mccfr::utils                                *)
(* ================================================================== *)

(** [v[i]] with an [int] index, where the code does not keep [i] inside
    the bounds by itself. *)
Definition subscript {A : Type} (v : list A) (i : Z) : result A :=
  if i <? 0 then throw (undefined_behaviour "subscript before the start")
  else
    match v !! Z.to_nat i with
    | Some x => ok x
    | None => throw (undefined_behaviour "subscript past the end")
    end.

Module card_utils.

(** [card_utils::areSuited]. *)
Definition areSuited (card1 card2 : Card.t) : bool :=
  String.eqb (Card.getSuit card1) (Card.getSuit card2).

(** [card_utils::getAbstractedHoleCards]. *)
Definition getAbstractedHoleCards (card1 card2 : Card.t) : string :=
  let '(highCard, lowCard) :=
    if Card.getRankValue card1 <? Card.getRankValue card2
    then (card2, card1) else (card1, card2) in
  if Card.getRankValue highCard =? Card.getRankValue lowCard
  then (Card.getRank highCard ++ Card.getRank lowCard)%string
  else (Card.getRank highCard ++ Card.getRank lowCard
        ++ (if areSuited highCard lowCard then "s" else "o"))%string.

End card_utils.

Module utils.

(** [utils::abstractHoleCards]. *)
Definition abstractHoleCards (card1 card2 : Card.t) : string :=
  let rank1 := Card.getRankValue card1 in
  let rank2 := Card.getRankValue card2 in
  let '(highCard, lowCard) :=
    if rank1 <? rank2 then (card2, card1) else (card1, card2) in
  if Card.getRankValue highCard =? Card.getRankValue lowCard
  then (Card.getRank highCard ++ Card.getRank lowCard)%string
  else (Card.getRank highCard ++ Card.getRank lowCard
        ++ (if card_utils.areSuited highCard lowCard then "s" else "o"))%string.

(** The loop of [sampleAction]: [i] is the index of the head of
    [strategy], [None] means the loop ran to its end. *)
Fixpoint sampleLoop (strategy : list Q) (i : Z) (cumulative r : Q) : option Z :=
  match strategy with
  | [] => None
  | p :: rest =>
      let cumulative := (cumulative + p)%Q in
      if Qltb r cumulative then Some i
      else sampleLoop rest (i + 1) cumulative r
  end.

(** [utils::sampleAction(strategy, rng)]; [r] is the number
    [dist(rng)] draws from [0, 1). *)
Definition sampleAction (strategy : list Q) (r : Q) : result Z :=
  if (length strategy =? 0)%nat
  then throw (invalid_argument "Strategy cannot be empty")
  else
    match sampleLoop strategy 0 0 r with
    | Some i => ok i
    | None => ok (Z.of_nat (length strategy) - 1)
    end.

(** The letter for seat [p]: folded, all-in, or playing. *)
Definition status (state : GameState.t) (p : Z) : result string :=
  do folded <- subscript (GameState.folded_ state) p;
  if (folded : bool) then ok "F"%string
  else if set.count p (GameState.allInPlayers_ state) >? 0 then ok "A"%string
  else ok "P"%string.

(** The seats whose status seat [player] sees: the blinds see the three
    other seats, the seats 2 and above see the seats before them. *)
Definition seen (player : Z) : list Z :=
  if player <=? 1
  then List.filter (fun p => negb (p =? player)) [0; 1; 2; 3]
  else map Z.of_nat (seq 0 (Z.to_nat player)).

(** The body of the two loops of [getInformationSet] over the seats
    that are seen, run over the list [l] of these seats. *)
Definition statuses (state : GameState.t) (l : list Z) (acc : result string)
  : result string :=
  fold_left
    (fun acc p =>
       do ss <- acc;
       do letter <- status state p;
       ok (ss ++ "[P" ++ print_int p ++ ":" ++ letter ++ "]")%string)
    l acc.

Section Streams.

(** What [operator<<] writes into a stream for a [double] in the
    default format; the text is left open. *)
Variable print_double : Q -> string.

(** [utils::getInformationSet(state, player)].  The test
    [holeCards.size() >= static_cast<std::size_t>((player + 1) * 2)]
    compares unsigned numbers, so it holds for [player = -1], and the
    two subscripts are then negative. *)
Definition getInformationSet (state : GameState.t) (player : Z) : result string :=
  let ss := ("P" ++ print_int player ++ ":")%string in
  do ss <- statuses state (seen player) (ok ss);
  let holeCards := GameState.holeCards_ state in
  do ss <-
    (if Z.of_nat (length holeCards) >=? ((player + 1) * 2) mod 2 ^ 64
     then
       let firstCardIdx := player * 2 in
       let secondCardIdx := player * 2 + 1 in
       do card1 <- subscript holeCards firstCardIdx;
       do card2 <- subscript holeCards secondCardIdx;
       let abstractedCards := abstractHoleCards card1 card2 in
       ok (ss ++ abstractedCards ++ " ")%string
     else ok ss);
  ok (ss ++ "Pot:" ++ print_double (GameState.pot_ state))%string.

End Streams.

End utils.

(* ================================================================== *)
(** * mccfr::Trainer, the parts without input and output             *)
(* ================================================================== *)

Module Trainer.

(** [operator<<] of an integer into a stream. *)
Definition to_string (z : Z) : string := print_int z.

(** [Trainer::formatDuration]; [duration] counts milliseconds and
    [std::chrono::duration_cast] truncates toward zero. *)
Definition formatDuration (duration : Z) : string :=
  let seconds := Z.quot duration 1000 in
  let minutes := Z.quot seconds 60 in
  let hours := Z.quot minutes 60 in
  let '(ss, minutes) :=
    if hours >? 0
    then ((to_string hours ++ "h ")%string, minutes - hours * 60)
    else (""%string, minutes) in
  let '(ss, seconds) :=
    if minutes >? 0
    then ((ss ++ to_string minutes ++ "m ")%string, seconds - minutes * 60)
    else (ss, seconds) in
  (ss ++ to_string seconds ++ "s")%string.


(** A call that may throw, and whose recursion is cut at a depth:
    [None] means that the depth given was not enough. *)
Definition cut (A : Type) : Type := option (result A).

Definition cbind {A B} (m : cut A) (k : A -> cut B) : cut B :=
  match m with
  | None => None
  | Some (inl e) => Some (inl e)
  | Some (inr a) => k a
  end.

Local Notation "'do' x <~~ m ; k" := (cbind m (fun x => k))
  (at level 10, x name, m at level 100, k at level 200).
Local Notation "'do' x <~ m ; k" := (cbind (Some m) (fun x => k))
  (at level 10, x name, m at level 100, k at level 200).

Section Training.

(** What [operator<<] writes for a [double], and the numbers that
    [dist(rng)] draws in [utils::sampleAction], in the order of the
    calls; both are left open. *)
Variable print_double : Q -> string.
Variable random : nat -> Q.

(** What a call works on besides its arguments: [nodeMap_], the number
    of random draws so far, and the heap of the decks. *)
Record world : Type := mkWorld {
  nodeMap_ : gmap string Node.t;
  drawn : nat;
  decks : gmap positive Deck.t
}.

(** [state->applyAction(action)] on the heap of [tr]. *)
Definition apply (action : Action) (state : GameState.t) (tr : world)
  : result (GameState.t * world) :=
  match GameState.applyAction action (state, decks tr) with
  | (inl e, _) => inl e
  | (inr _, (state, h)) => ok (state, mkWorld (nodeMap_ tr) (drawn tr) h)
  end.

(** [std::make_unique<aof::GameState>] of a copy of the state. *)
Definition copy (state : GameState.t) (tr : world) : result (GameState.t * world) :=
  do w <- GameState.clone state (decks tr);
  ok (fst w, mkWorld (nodeMap_ tr) (drawn tr) (snd w)).

(** [utils::sampleAction(strategy)]: one more number is drawn. *)
Definition sample (strategy : list Q) (tr : world) : result (Z * world) :=
  do actionIndex <- utils.sampleAction strategy (random (drawn tr));
  ok (actionIndex, mkWorld (nodeMap_ tr) (S (drawn tr)) (decks tr)).

(** A method called through the reference [Node& node = nodeMap_[infoSet]]. *)
Definition through {A} (infoSet : string) (method : Node.t -> result (A * Node.t))
    (tr : world) : result (A * world) :=
  match nodeMap_ tr !! infoSet with
  | Some node =>
      do r <- method node;
      ok (fst r, mkWorld (<[infoSet := snd r]> (nodeMap_ tr)) (drawn tr) (decks tr))
  | None => throw (undefined_behaviour "dangling reference to a node")
  end.

(** The statements of [mccfr] that make sure of the node of [infoSet]:
    [find], [emplace(infoSet, Node(legalActions.size()))] and
    [nodeMap_[infoSet]]. *)
Definition ensureNode (infoSet : string) (legalActions : list Action) (tr : world)
  : result world :=
  do nodeMap <-
    match nodeMap_ tr !! infoSet with
    | Some _ => ok (nodeMap_ tr)
    | None =>
        do node <- Node.Node (Z.of_nat (length legalActions));
        ok (<[infoSet := node]> (nodeMap_ tr))
    end;
  do indexed <- Node.index infoSet nodeMap;
  ok (mkWorld (snd indexed) (drawn tr) (decks tr)).

(** The body of the loop of [mccfr] over the actions of the seat that is
    trained; [self] stands for the recursive call, and the two vectors
    [utilities] and [nodeUtility] are threaded with the world. *)
Definition visit (self : GameState.t -> Z -> list Q -> world -> cut (Q * world))
    (state : GameState.t) (player : Z) (reachProb : list Q)
    (legalActions : list Action) (strategy : list Q) (i : nat)
    (acc : list Q * Q * world) : cut (list Q * Q * world) :=
  let '(utilities, nodeUtility, tr) := acc in
  do copied <~ copy state tr;
  do action <~ subscript legalActions (Z.of_nat i);
  do next <~ apply action (fst copied) (snd copied);
  do weight <~ subscript reachProb player;
  do probability <~ subscript strategy (Z.of_nat i);
  let nextReachProb := <[Z.to_nat player := (weight * probability)%Q]> reachProb in
  do sub <~~ self (fst next) player nextReachProb (snd next);
  let utilities := <[i := fst sub]> utilities in
  Some (ok (utilities, (nodeUtility + probability * (utilities !!! i))%Q, snd sub)).

(** The body of the loop of [mccfr] that updates the regrets. *)
Definition regret (infoSet : string) (utilities : list Q) (nodeUtility : Q)
    (i : nat) (tr : world) : result world :=
  let regret := (utilities !!! i - nodeUtility)%Q in
  do updated <-
    through infoSet
      (fun node =>
         do node <- Node.updateRegret (Z.of_nat i) regret node;
         ok (tt, node))
      tr;
  ok (snd updated).

(** [Trainer::mccfr(state, player, reachProb)], cut at depth [fuel]. *)
Fixpoint mccfr (fuel : nat) (state : GameState.t) (player : Z) (reachProb : list Q)
    (tr : world) {struct fuel} : cut (Q * world) :=
  match fuel with
  | O => None
  | S fuel =>
      if GameState.isTerminal state
      then
        do utilities <~ GameState.getReturns state;
        do utility <~ subscript (fst utilities) player;
        Some (ok (utility, tr))
      else if GameState.isChanceNode state
      then
        do dealt <~ apply DEAL state tr;
        mccfr fuel (fst dealt) player reachProb (snd dealt)
      else
        let currentPlayer := GameState.getCurrentPlayer state in
        do infoSet <~ utils.getInformationSet print_double state currentPlayer;
        let legalActions := GameState.getLegalActions state in
        if (length legalActions =? 0)%nat
        then Some (throw (runtime_error "No legal actions available"))
        else
          do tr <~ ensureNode infoSet legalActions tr;
          if currentPlayer =? player
          then
            do weight <~ subscript reachProb player;
            do got <~ through infoSet (fun node => ok (Node.getStrategy weight node)) tr;
            let strategy := fst got in
            let utilities := replicate (length legalActions) 0%Q in
            do computed <~~
              fold_left
                (fun acc i =>
                   do acc <~~ acc;
                   visit (mccfr fuel) state player reachProb legalActions strategy i acc)
                (seq 0 (length legalActions))
                (Some (ok (utilities, 0%Q, snd got)));
            let '(utilities, nodeUtility, tr) := computed in
            do tr <~
              fold_left
                (fun acc i => do tr <- acc; regret infoSet utilities nodeUtility i tr)
                (seq 0 (length legalActions)) (ok tr);
            Some (ok (nodeUtility, tr))
          else
            do weight <~ subscript reachProb currentPlayer;
            do got <~ through infoSet (fun node => ok (Node.getStrategy weight node)) tr;
            let strategy := fst got in
            do sampled <~ sample strategy (snd got);
            let actionIndex := fst sampled in
            do probability <~ subscript strategy actionIndex;
            let nextReachProb :=
              <[Z.to_nat currentPlayer := (weight * probability)%Q]> reachProb in
            do action <~ subscript legalActions actionIndex;
            do next <~ apply action state (snd sampled);
            mccfr fuel (fst next) player nextReachProb (snd next)
  end.

(** The search of [getExactUtilities] for the greatest entry of a
    strategy; the first of equal entries wins. *)
Definition bestActionOf (strategy : list Q) : result Z :=
  do first <- subscript strategy 0;
  ok (snd (fold_left
             (fun '(maxProb, bestAction) i =>
                if Qgtb (strategy !!! i) maxProb
                then (strategy !!! i, Z.of_nat i)
                else (maxProb, bestAction))
             (seq 1 (length strategy - 1)) (first, 0))).

(** The [while] loop of [getExactUtilities], cut after [fuel] rounds. *)
Fixpoint playOut (fuel : nat) (state : GameState.t) (tr : world) {struct fuel}
  : cut (GameState.t * world) :=
  match fuel with
  | O => None
  | S fuel =>
      if GameState.isTerminal state then Some (ok (state, tr))
      else if GameState.isChanceNode state
      then
        do dealt <~ apply DEAL state tr;
        playOut fuel (fst dealt) (snd dealt)
      else
        let currentPlayer := GameState.getCurrentPlayer state in
        let legalActions := GameState.getLegalActions state in
        if (length legalActions =? 0)%nat then Some (ok (state, tr))
        else
          do infoSet <~ utils.getInformationSet print_double state currentPlayer;
          match nodeMap_ tr !! infoSet with
          | Some node =>
              let strategy := Node.getAverageStrategy node in
              do bestAction <~ bestActionOf strategy;
              do action <~ subscript legalActions bestAction;
              do next <~ apply action state tr;
              playOut fuel (fst next) (snd next)
          | None =>
              let size := length legalActions in
              do sampled <~
                sample (replicate size (1 / inject_Z (Z.of_nat size))%Q) tr;
              do action <~ subscript legalActions (fst sampled);
              do next <~ apply action state (snd sampled);
              playOut fuel (fst next) (snd next)
          end
  end.

(** [Trainer::getExactUtilities(state)]; what [getReturns] prints is
    returned with the utilities. *)
Definition getExactUtilities (fuel : nat) (state : GameState.t) (tr : world)
  : cut (list Q * list warning * world) :=
  do played <~~ playOut fuel state tr;
  do utilities <~ GameState.getReturns (fst played);
  Some (ok (utilities, snd played)).

(** [game_.createInitialState()] on the heap of [tr]: a new state whose
    deck is [cards]. *)
Definition createInitialState (game : Game.t) (cards : Deck.t) (tr : world)
  : result (GameState.t * world) :=
  do w <- GameState.GameState game cards (decks tr);
  ok (fst w, mkWorld (nodeMap_ tr) (drawn tr) (snd w)).

(** The body of the loop of [train] over the seats: [mccfr] for the seat
    [player] on a copy of [baseState], with reach probabilities 1. *)
Definition trainSeat (fuel : nat) (baseState : GameState.t) (player : nat)
    (acc : list Q * world) : cut (list Q * world) :=
  let '(mccfrUtilities, tr) := acc in
  do copied <~ copy baseState tr;
  let reachProb := replicate (Z.to_nat GameConfig.NUM_PLAYERS) 1%Q in
  do sub <~~ mccfr fuel (fst copied) (Z.of_nat player) reachProb (snd copied);
  Some (ok (<[player := fst sub]> mccfrUtilities, snd sub)).

(** One round of the loop of [train] over the iterations, from
    [createInitialState] to the update of [totalUtilities] and
    [avgUtilities]; what the round prints and sends to the visualizer
    and to the callback afterwards is left out.  [cards] is the
    shuffled deck of the new state. *)
Definition trainRound (fuel : nat) (game : Game.t) (cards : Deck.t) (iteration : Z)
    (totals : list Q * list Q) (tr : world) : cut (list Q * list Q * world) :=
  do base <~ createInitialState game cards tr;
  let baseState := fst base in
  let seats := Z.to_nat GameConfig.NUM_PLAYERS in
  do seatsTrained <~~
    fold_left
      (fun acc player => do acc <~~ acc; trainSeat fuel baseState player acc)
      (seq 0 seats) (Some (ok (replicate seats 0%Q, snd base)));
  do copied <~ copy baseState (snd seatsTrained);
  do exact <~~ getExactUtilities fuel (fst copied) (snd copied);
  let exactUtilities := fst (fst exact) in
  let totals :=
    for_range seats
      (fun player '(totalUtilities, avgUtilities) =>
         let totalUtilities :=
           <[player := (totalUtilities !!! player + exactUtilities !!! player)%Q]>
             totalUtilities in
         (totalUtilities,
          <[player := (totalUtilities !!! player / inject_Z iteration)%Q]>
            avgUtilities))
      totals in
  Some (ok (totals, snd exact)).

(** The loop of [train] over the iterations 1 to [iterations], for fewer
    than [INT_MAX] iterations, and the [avgUtilities] it returns;
    [shuffles i] is the deck of the state of iteration [i]. *)
Definition trainRounds (fuel : nat) (game : Game.t) (shuffles : nat -> Deck.t)
    (iterations : Z) (tr : world) : cut (list Q * world) :=
  let seats := Z.to_nat GameConfig.NUM_PLAYERS in
  do trained <~~
    fold_left
      (fun acc i =>
         do acc <~~ acc;
         trainRound fuel game (shuffles i) (Z.of_nat i) (fst acc) (snd acc))
      (seq 1 (Z.to_nat iterations))
      (Some (ok (replicate seats 0%Q, replicate seats 0%Q, tr)));
  Some (ok (snd (fst trained), snd trained)).

End Training.

End Trainer.

(* ================================================================== *)
(** * The single-file version, aof/aof.cpp                             *)
(* ================================================================== *)

(** [aof/aof.cpp] holds an earlier version of the game in one file:
    [make_deck], a [PokerEvaluator], [AoFGame] and [AoFState].  The
    [float] amounts of its states are exact rationals like the [double]s
    of the library, its [struct Card] has the two members of [Card.t]
    and checks nothing.  Its [getGameParameters] compares pairs of
    binary32 numbers with [==], which exact rationals do not render; it
    is left out. *)
Module Legacy.

(** A call fails with [std::out_of_range] (thrown by
    [unordered_map::at]) or [std::invalid_argument], or its behaviour
    is undefined: [back()] or [front()] of an empty vector, an index
    that is negative or past the end, a loop that never ends. *)
Inductive failure : Type :=
| out_of_range (what : string)
| invalid_argument (what : string)
| undefined (what : string).

Definition outcome (A : Type) : Type := (failure + A)%type.

Definition bind {A B} (m : outcome A) (k : A -> outcome B) : outcome B :=
  match m with
  | inl e => inl e
  | inr a => k a
  end.

Local Notation "'do' x <~ m ; k" := (bind m (fun x => k))
  (at level 10, x name, m at level 100, k at level 200).

Definition NUM_PLAYERS : Z := 4.
Definition STARTING_STACK_BB : Q := 8.

(** [make_deck]. *)
Definition make_deck : list Card.t :=
  let ranks := ["2"; "3"; "4"; "5"; "6"; "7"; "8"; "9"; "10"; "J"; "Q"; "K"; "A"] in
  let suits := ["h"; "d"; "c"; "s"] in
  flat_map (fun rank => map (fun suit => Card.mk rank suit) suits) ranks.

(** [deck.back()] followed by [deck.pop_back()]. *)
Definition pop_back (deck : list Card.t) : outcome (Card.t * list Card.t) :=
  match reverse deck with
  | [] => inl (undefined "back() of an empty vector")
  | card :: rest => inr (card, reverse rest)
  end.

(** [operator<] of [std::vector<int>], lexicographic. *)
Fixpoint vector_lt (a b : list Z) : bool :=
  match a, b with
  | _, [] => false
  | [], _ :: _ => true
  | x :: a', y :: b' =>
      if x <? y then true
      else if y <? x then false
      else vector_lt a' b'
  end.

(** [operator==] of [std::vector<int>]. *)
Definition vector_eqb (a b : list Z) : bool := bool_decide (a = b).

Module PokerEvaluator.

Definition RANK_VALUES : list (string * Z) :=
  [("2", 2); ("3", 3); ("4", 4); ("5", 5); ("6", 6); ("7", 7); ("8", 8);
   ("9", 9); ("10", 10); ("J", 11); ("Q", 12); ("K", 13); ("A", 14)].

(** [RANK_VALUES.at(rank)]. *)
Definition at_ (rank : string) : outcome Z :=
  match Card.find rank RANK_VALUES with
  | Some value => inr value
  | None => inl (out_of_range "unordered_map::at")
  end.

(** [enum HandRank]. *)
Definition HIGH_CARD : Z := 0.
Definition PAIR : Z := 1.
Definition TWO_PAIR : Z := 2.
Definition THREE_KIND : Z := 3.
Definition STRAIGHT : Z := 4.
Definition FLUSH : Z := 5.
Definition FULL_HOUSE : Z := 6.
Definition FOUR_KIND : Z := 7.
Definition STRAIGHT_FLUSH : Z := 8.

(** The loop [for (c : hand) values.push_back(RANK_VALUES.at(c.rank))]. *)
Fixpoint rank_values (hand : list Card.t) : outcome (list Z) :=
  match hand with
  | [] => inr []
  | c :: hand' =>
      do value <~ at_ (Card.rank_ c);
      do values <~ rank_values hand';
      inr (value :: values)
  end.

(** [makeScore]. *)
Definition makeScore (handRank : Z) (vals : list Z) : list Z := handRank :: vals.

(** [freq[v]++] on a [std::map<int, int, std::greater<int>>], kept as
    the list of its entries in the order of iteration, greatest key
    first. *)
Fixpoint increment (v : Z) (freq : list (Z * Z)) : list (Z * Z) :=
  match freq with
  | [] => [(v, 1)]
  | (key, count) :: freq' =>
      if key =? v then (key, count + 1) :: freq'
      else if key <? v then (v, 1) :: (key, count) :: freq'
      else (key, count) :: increment v freq'
  end.

(** [checkFlush]. *)
Definition checkFlush (hand : list Card.t) : outcome bool :=
  match hand with
  | [] => inl (undefined "front() of an empty vector")
  | first :: _ =>
      let suit := Card.suit_ first in
      inr (forallb (fun c => String.eqb (Card.suit_ c) suit) hand)
  end.

(** [checkStraight]; the second component is [highStraightValue] after
    the call. *)
Definition checkStraight (hand : list Card.t) (highStraightValue : Z)
  : outcome (bool * Z) :=
  do values <~ rank_values hand;
  let values := sort (fun a b => a <? b) values in
  if (length values <? 5)%nat then inl (undefined "values[4] past the end")
  else
    let normalStraight := values !!! 4%nat - values !!! 0%nat =? 4 in
    if normalStraight
    then
      if forallb (fun i => values !!! (i + 1)%nat - values !!! i =? 1) (seq 0 4)
      then inr (true, values !!! 4%nat)
      else inr (false, highStraightValue)
    else if vector_eqb values [2; 3; 4; 5; 14]
    then inr (true, 5)
    else inr (false, highStraightValue).

(** [evaluateFiveCardHand]. *)
Definition evaluateFiveCardHand (hand : list Card.t) : outcome (list Z) :=
  do cardValues <~ rank_values hand;
  let cardValues := sort (fun a b => b <? a) cardValues in
  let freq := fold_left (fun freq v => increment v freq) cardValues [] in
  do isFlush <~ checkFlush hand;
  do straight <~ checkStraight hand 0;
  let '(isStraight, straightHigh) := straight in
  if isFlush && isStraight then inr (makeScore STRAIGHT_FLUSH [straightHigh])
  else
    match List.find (fun entry : Z * Z => snd entry =? 4) freq with
    | Some entry =>
        let kicker :=
          default 0 (List.find (fun v => negb (v =? fst entry)) cardValues) in
        inr (makeScore FOUR_KIND [fst entry; kicker])
    | None =>
        let tripleRank :=
          fold_left (fun tripleRank (entry : Z * Z) =>
                       if (snd entry >=? 3) && (tripleRank =? 0)
                       then fst entry else tripleRank)
                    freq 0 in
        let pairRank :=
          if negb (tripleRank =? 0)
          then
            match List.find (fun entry : Z * Z =>
                               negb (fst entry =? tripleRank) && (snd entry >=? 2))
                            freq with
            | Some entry => fst entry
            | None => 0
            end
          else 0 in
        if negb (tripleRank =? 0) && negb (pairRank =? 0)
        then inr (makeScore FULL_HOUSE [tripleRank; pairRank])
        else if isFlush then inr (makeScore FLUSH cardValues)
        else if isStraight then inr (makeScore STRAIGHT [straightHigh])
        else
          match List.find (fun entry : Z * Z => snd entry =? 3) freq with
          | Some entry =>
              let kickers :=
                List.filter (fun v => negb (v =? fst entry)) cardValues in
              if (length kickers <? 2)%nat
              then inl (undefined "kickers[1] past the end")
              else inr (makeScore THREE_KIND
                          [fst entry; kickers !!! 0%nat; kickers !!! 1%nat])
          | None =>
              let pairs :=
                map fst (List.filter (fun entry : Z * Z => snd entry >=? 2) freq) in
              if (2 <=? length pairs)%nat
              then
                let pairs := sort (fun a b => a >? b) pairs in
                let kicker :=
                  default 0
                    (List.find (fun v => negb (v =? pairs !!! 0%nat)
                                         && negb (v =? pairs !!! 1%nat))
                               cardValues) in
                inr (makeScore TWO_PAIR [pairs !!! 0%nat; pairs !!! 1%nat; kicker])
              else
                match List.find (fun entry : Z * Z => snd entry =? 2) freq with
                | Some entry =>
                    let kickers :=
                      List.filter (fun v => negb (v =? fst entry)) cardValues in
                    if (length kickers <? 3)%nat
                    then inl (undefined "kickers[2] past the end")
                    else inr (makeScore PAIR
                                [fst entry; kickers !!! 0%nat; kickers !!! 1%nat;
                                 kickers !!! 2%nat])
                | None => inr (makeScore HIGH_CARD cardValues)
                end
          end
    end.

(** The bound of the loop of [generateCombinations],
    [(int)cards.size() - (combinationSize - currentCombo.size())]: the
    subtraction in parentheses is one of [std::size_t], so is the whole
    bound, and a difference below zero wraps around. *)
Definition last_start (size combinationSize current : nat) : Z :=
  (Z.of_nat size - (Z.of_nat combinationSize - Z.of_nat current) mod 2 ^ 64)
  mod 2 ^ 64.

(** [generateCombinations(cards, combinationSize, start, currentCombo,
    allCombinations)]: [cards] is the part of the vector from index
    [start] on, [size] the size of the whole vector; the result lists
    what the call appends to [allCombinations]. *)
Fixpoint generateCombinations (cards : list Card.t) (size combinationSize start : nat)
    (currentCombo : list Card.t) {struct cards} : outcome (list (list Card.t)) :=
  if (length currentCombo =? combinationSize)%nat then inr [currentCombo]
  else
    (fix loop (rest : list Card.t) (i : nat) {struct rest}
       : outcome (list (list Card.t)) :=
       if Z.of_nat i <=? last_start size combinationSize (length currentCombo)
       then
         match rest with
         | [] => inl (undefined "cards[i] past the end")
         | card :: rest' =>
             do found <~ generateCombinations rest' size combinationSize (S i)
                           (currentCombo ++ [card]);
             do more <~ loop rest' (S i);
             inr (found ++ more)
         end
       else inr []) cards start.

(** The loop over the combinations that keeps the best score. *)
Definition best_of (combinations : list (list Card.t)) : outcome (list Z) :=
  fold_left
    (fun best combo =>
       do bestScore <~ best;
       do score <~ evaluateFiveCardHand combo;
       if (length bestScore =? 0)%nat || vector_lt bestScore score
       then inr score
       else inr bestScore)
    combinations (inr []).

(** [evaluateHand]. *)
Definition evaluateHand (holeCards communityCards : list Card.t) : outcome (list Z) :=
  let allCards := holeCards ++ communityCards in
  do combinations <~ generateCombinations allCards (length allCards) 5 0 [];
  best_of combinations.

End PokerEvaluator.

Module AoFGame.

Record t : Type := mk {
  small_blind : Q;
  big_blind : Q;
  rake_per_hand : Q;
  jackpot_fee_per_hand : Q;
  jackpot_payout_percentage : Q;
  initial_stacks : list Q        (* in big blinds *)
}.

(** [AoFGame::AoFGame]. *)
Definition AoFGame (small_blind big_blind rake_per_hand jackpot_fee_per_hand
                    jackpot_payout_percentage : Q) (initial_stacks_bb : list Q) : t :=
  mk small_blind big_blind rake_per_hand jackpot_fee_per_hand
     jackpot_payout_percentage
     (match initial_stacks_bb with
      | [] => [STARTING_STACK_BB - small_blind; STARTING_STACK_BB - big_blind;
               STARTING_STACK_BB; STARTING_STACK_BB]%Q
      | _ => initial_stacks_bb
      end).

End AoFGame.

Module AoFState.

Record t : Type := mk {
  game : AoFGame.t;                     (* AoFGame*, only read *)
  pot : Q;
  initial_stacks : list Q;
  players_stack : list Q;
  folded : list bool;
  all_in_players : set.t;
  _game_over : bool;
  _next_player : Z;
  deck : list Card.t;
  cards : list Card.t;
  sb : Q;
  bb : Q;
  community_cards : list Card.t;
  side_pots : list (Q * list Z)
}.

Definition set_pot (v : Q) (s : t) : t :=
  mk (game s) v (initial_stacks s) (players_stack s) (folded s) (all_in_players s)
     (_game_over s) (_next_player s) (deck s) (cards s) (sb s) (bb s)
     (community_cards s) (side_pots s).
Definition set_players_stack (v : list Q) (s : t) : t :=
  mk (game s) (pot s) (initial_stacks s) v (folded s) (all_in_players s)
     (_game_over s) (_next_player s) (deck s) (cards s) (sb s) (bb s)
     (community_cards s) (side_pots s).
Definition set_folded (v : list bool) (s : t) : t :=
  mk (game s) (pot s) (initial_stacks s) (players_stack s) v (all_in_players s)
     (_game_over s) (_next_player s) (deck s) (cards s) (sb s) (bb s)
     (community_cards s) (side_pots s).
Definition set_all_in_players (v : set.t) (s : t) : t :=
  mk (game s) (pot s) (initial_stacks s) (players_stack s) (folded s) v
     (_game_over s) (_next_player s) (deck s) (cards s) (sb s) (bb s)
     (community_cards s) (side_pots s).
Definition set_game_over (v : bool) (s : t) : t :=
  mk (game s) (pot s) (initial_stacks s) (players_stack s) (folded s)
     (all_in_players s) v (_next_player s) (deck s) (cards s) (sb s) (bb s)
     (community_cards s) (side_pots s).
Definition set_next_player (v : Z) (s : t) : t :=
  mk (game s) (pot s) (initial_stacks s) (players_stack s) (folded s)
     (all_in_players s) (_game_over s) v (deck s) (cards s) (sb s) (bb s)
     (community_cards s) (side_pots s).
Definition set_deck (v : list Card.t) (s : t) : t :=
  mk (game s) (pot s) (initial_stacks s) (players_stack s) (folded s)
     (all_in_players s) (_game_over s) (_next_player s) v (cards s) (sb s) (bb s)
     (community_cards s) (side_pots s).
Definition set_cards (v : list Card.t) (s : t) : t :=
  mk (game s) (pot s) (initial_stacks s) (players_stack s) (folded s)
     (all_in_players s) (_game_over s) (_next_player s) (deck s) v (sb s) (bb s)
     (community_cards s) (side_pots s).
Definition set_community_cards (v : list Card.t) (s : t) : t :=
  mk (game s) (pot s) (initial_stacks s) (players_stack s) (folded s)
     (all_in_players s) (_game_over s) (_next_player s) (deck s) (cards s) (sb s)
     (bb s) v (side_pots s).
Definition set_side_pots (v : list (Q * list Z)) (s : t) : t :=
  mk (game s) (pot s) (initial_stacks s) (players_stack s) (folded s)
     (all_in_players s) (_game_over s) (_next_player s) (deck s) (cards s) (sb s)
     (bb s) (community_cards s) v.

(** [AoFState::AoFState(AoFGame* game)]; [shuffled] is the deck after
    [shuffle] with the clock as seed. *)
Definition AoFState (game_in : AoFGame.t) (shuffled : list Card.t) : outcome t :=
  if (length (AoFGame.initial_stacks game_in) <? 4)%nat
  then inl (undefined "game->initial_stacks[p] past the end")
  else
    let bb := AoFGame.big_blind game_in in
    let stacks :=
      map (fun p => (AoFGame.initial_stacks game_in !!! p * bb)%Q) (seq 0 4) in
    inr (mk game_in 1.4 stacks stacks (replicate 4 false) [] false 0 shuffled []
            (AoFGame.small_blind game_in) bb [] []).

(** [AoFState::currentPlayer]. *)
Definition currentPlayer (s : t) : Z :=
  if _game_over s then -1 else _next_player s.

(** [AoFState::isChanceNode]. *)
Definition isChanceNode (s : t) : bool := (length (cards s) =? 0)%nat.

(** [AoFState::isTerminal]. *)
Definition isTerminal (s : t) : bool := _game_over s.

(** The loop of [dealCards] and of [handleGameEnd] that moves the back
    of the deck to [target]. *)
Fixpoint take_from_deck (count : nat) (stop_when_empty : bool)
    (target deck : list Card.t) : outcome (list Card.t * list Card.t) :=
  match count with
  | O => inr (target, deck)
  | S count' =>
      if stop_when_empty && (length deck =? 0)%nat then inr (target, deck)
      else
        do popped <~ pop_back deck;
        take_from_deck count' stop_when_empty (target ++ [fst popped]) (snd popped)
  end.

(** [AoFState::dealCards]. *)
Definition dealCards (s : t) : outcome t :=
  if negb (length (cards s) =? 0)%nat then inr s
  else
    do dealt <~ take_from_deck (Z.to_nat (NUM_PLAYERS * 2)) false (cards s) (deck s);
    let s := set_deck (snd dealt) (set_cards (fst dealt) s) in
    let s := set_next_player 2 s in
    inr (set_folded (replicate (Z.to_nat NUM_PLAYERS) false) s).

(** [AoFState::legalActions]. *)
Definition legalActions (s : t) : list Action :=
  if isChanceNode s then [DEAL]
  else
    let player := currentPlayer s in
    if (player <? 0) || (folded s !!! Z.to_nat player) then []
    else [FOLD; ALL_IN].

(** The number of seats that have not folded. *)
Definition activeCount (s : t) : Z :=
  for_range (Z.to_nat NUM_PLAYERS)
    (fun p count => if negb (folded s !!! p) then count + 1 else count) 0.

(** The [while] loop of [advanceToNextPlayer].  It looks at one seat per
    round, so when four rounds have not ended it every seat has folded
    and it never ends. *)
Fixpoint advanceLoop (rounds : nat) (s : t) : outcome t :=
  if (folded s !!! Z.to_nat (_next_player s)) && negb (_game_over s)
  then
    match rounds with
    | O => inl (undefined "advanceToNextPlayer does not return")
    | S rounds' =>
        advanceLoop rounds'
          (set_next_player (Z.rem (_next_player s + 1) NUM_PLAYERS) s)
    end
  else inr s.

(** [AoFState::advanceToNextPlayer]. *)
Definition advanceToNextPlayer (s : t) : outcome t :=
  let s := set_next_player (Z.rem (_next_player s + 1) NUM_PLAYERS) s in
  do s <~ advanceLoop 4 s;
  if activeCount s <=? 1 then inr (set_game_over true s) else inr s.

(** The contributions [calculateSidePots] and [returns] work with: the
    two blinds as written in the source, and the initial stack of every
    seat that is all-in. *)
Definition add_all_ins (s : t) (amounts : list Q) : outcome (list Q) :=
  fold_left
    (fun amounts p =>
       do amounts <~ amounts;
       if (p <? 0) || (p >=? NUM_PLAYERS)
       then inl (undefined "index of an all-in seat outside the vector")
       else inr (<[Z.to_nat p := (amounts !!! Z.to_nat p
                                  + initial_stacks s !!! Z.to_nat p)%Q]> amounts))
    (all_in_players s) (inr amounts).

(** [operator<] of [std::pair<float, int>]. *)
Definition pair_lt (a b : Q * Z) : bool :=
  Qltb (fst a) (fst b) || (negb (Qltb (fst b) (fst a)) && (snd a <? snd b)).

(** The loop of [calculateSidePots] over the sorted contributions. *)
Fixpoint potLoop (sorted_contribs : list (Q * Z)) (prev_amount : Q)
  : list (Q * list Z) :=
  match sorted_contribs with
  | [] => []
  | (current_amount, player) :: rest =>
      let pot_size :=
        fold_left (fun pot_size _ => (pot_size + (current_amount - prev_amount))%Q)
                  sorted_contribs 0%Q in
      let contributors := map snd sorted_contribs in
      (if Qgtb pot_size 0 then [(pot_size, contributors)] else [])
      ++ potLoop rest current_amount
  end.

(** [AoFState::calculateSidePots], the value of [side_pots] it leaves. *)
Definition calculateSidePots (s : t) : outcome (list (Q * list Z)) :=
  do contributions <~ add_all_ins s [0.4; 1; 0; 0]%Q;
  let sorted_contribs :=
    for_range (Z.to_nat NUM_PLAYERS)
      (fun p acc =>
         if negb (folded s !!! p) && Qgtb (contributions !!! p) 0
         then acc ++ [(contributions !!! p, Z.of_nat p)]
         else acc)
      [] in
  let sorted_contribs := sort pair_lt sorted_contribs in
  inr (potLoop sorted_contribs 0).

(** [AoFState::handleGameEnd]. *)
Definition handleGameEnd (s : t) : outcome t :=
  do dealt <~ take_from_deck 5 true (community_cards s) (deck s);
  let s := set_deck (snd dealt) (set_community_cards (fst dealt) s) in
  do pots <~ calculateSidePots s;
  inr (set_side_pots pots s).

(** [AoFState::applyAction]. *)
Definition applyAction (action : Action) (s : t) : outcome t :=
  if isChanceNode s
  then
    do s <~ dealCards s;
    inr (set_next_player 2 s)
  else
    let player := currentPlayer s in
    do s <~
      match action with
      | FOLD =>
          if player <? 0 then inl (undefined "folded[-1]")
          else inr (set_folded (<[Z.to_nat player := true]> (folded s)) s)
      | ALL_IN =>
          if player <? 0 then inl (undefined "players_stack[-1]")
          else
            let amount := players_stack s !!! Z.to_nat player in
            let s := set_pot (pot s + amount)%Q s in
            let s := set_all_in_players (set.insert player (all_in_players s)) s in
            inr (set_players_stack (<[Z.to_nat player := 0%Q]> (players_stack s)) s)
      | DEAL => inr s
      end;
    do s <~ advanceToNextPlayer s;
    let '(all_players_acted, active_players) :=
      for_range (Z.to_nat NUM_PLAYERS)
        (fun p '(all_players_acted, active_players) =>
           if negb (folded s !!! p)
           then
             (if (set.count (Z.of_nat p) (all_in_players s) =? 0)
                 && (Z.of_nat p >=? _next_player s)
              then false else all_players_acted,
              active_players + 1)
           else (all_players_acted, active_players))
        (true, 0) in
    if all_players_acted
       && ((active_players =? 1)
           || ((active_players >? 1)
               && (active_players =? Z.of_nat (length (all_in_players s)))))
    then handleGameEnd (set_game_over true s)
    else inr s.

(** The best score of seat [p] in [returns]. *)
Definition player_best_score (s : t) (p : nat) : outcome (list Z) :=
  if (length (cards s) <? 2 * p + 2)%nat
  then inl (undefined "cards[2*p + 1] past the end")
  else
    let hole_cards := [cards s !!! (2 * p)%nat; cards s !!! (2 * p + 1)%nat] in
    let all_cards := hole_cards ++ community_cards s in
    do combinations <~
      PokerEvaluator.generateCombinations all_cards (length all_cards) 5 0 [];
    PokerEvaluator.best_of combinations.

(** [AoFState::returns]. *)
Definition returns (s : t) : outcome (list Q) :=
  do investments <~ add_all_ins s [0.4; 1.0; 0; 0]%Q;
  let '(active_count, last_active) :=
    for_range (Z.to_nat NUM_PLAYERS)
      (fun p '(active_count, last_active) =>
         if negb (folded s !!! p) then (active_count + 1, Z.of_nat p)
         else (active_count, last_active))
      (0, -1) in
  if active_count =? 1
  then
    let total_pot := 1.4%Q in
    let rake_amount := AoFGame.rake_per_hand (game s) in
    let jackpot_fee := AoFGame.jackpot_fee_per_hand (game s) in
    let adjusted_pot := (total_pot - rake_amount - jackpot_fee)%Q in
    inr (map (fun p => if Z.of_nat p =? last_active
                       then (adjusted_pot - investments !!! p)%Q
                       else (- investments !!! p)%Q)
             (seq 0 (Z.to_nat NUM_PLAYERS)))
  else
    do showdown <~
      for_range (Z.to_nat NUM_PLAYERS)
        (fun p acc =>
           do acc <~ acc;
           let '(best_score, winners) := acc in
           if negb (folded s !!! p)
           then
             do score <~ player_best_score s p;
             if (length best_score =? 0)%nat || vector_lt best_score score
             then inr (score, [Z.of_nat p])
             else if vector_eqb score best_score
             then inr (best_score, winners ++ [Z.of_nat p])
             else inr (best_score, winners)
           else inr (best_score, winners))
        (inr ([], []));
    let winners : list Z := snd showdown in
    let total_pot := accumulate investments 0%Q in
    let rake_amount := AoFGame.rake_per_hand (game s) in
    let jackpot_fee := AoFGame.jackpot_fee_per_hand (game s) in
    let jackpot_payout :=
      (total_pot * AoFGame.jackpot_payout_percentage (game s))%Q in
    let adjusted_pot := (total_pot - rake_amount - jackpot_fee + jackpot_payout)%Q in
    let share_per_winner := (adjusted_pot / inject_Z (Z.of_nat (length winners)))%Q in
    inr (map (fun p => if existsb (Z.eqb (Z.of_nat p)) winners
                       then (share_per_winner - investments !!! p)%Q
                       else (- investments !!! p)%Q)
             (seq 0 (Z.to_nat NUM_PLAYERS))).

(** [AoFState::clone]: [return *this]. *)
Definition clone (s : t) : t := s.

End AoFState.

(** [AoFGame::newInitialState]. *)
Definition newInitialState (game : AoFGame.t) (shuffled : list Card.t)
  : outcome AoFState.t :=
  AoFState.AoFState game shuffled.

End Legacy.

(* ================================================================== *)
(** * Hands that can be played                                        *)
(* ================================================================== *)

(** A game accepted by the constructor of [aof::Game]. *)
Definition valid_game (g : Game.t) : Prop :=
  exists smallBlind bigBlind gameParams initialStacksBB,
    Game.Game smallBlind bigBlind gameParams initialStacksBB = ok g.

(** The states of one hand: a fresh state with a shuffled deck, and
    whatever [applyAction] and [clone] make of a state of the hand.  A
    call that throws leaves the state it reached. *)
Inductive reachable (g : Game.t) : GameState.t * gmap positive Deck.t -> Prop :=
| reachable_initial cards h w :
    Deck.shuffled cards ->
    GameState.GameState g cards h = ok w ->
    reachable g w
| reachable_applyAction a w :
    reachable g w ->
    reachable g (snd (GameState.applyAction a w))
| reachable_clone w w' :
    reachable g w ->
    GameState.clone (fst w) (snd w) = ok w' ->
    reachable g w'.

(** Seats decide in the order 2, 3, 0, 1.  A history lists the
    decisions taken so far in that order; [true] stands for ALL_IN and
    [false] for FOLD. *)
Definition seat_order : list Z := [2; 3; 0; 1].

Definition position (seat : nat) : nat :=
  match seat with
  | 0 => 2 | 1 => 3 | 2 => 0 | _ => 1
  end%nat.

Definition decision (hist : list bool) (seat : nat) : option bool :=
  hist !! position seat.

Definition seats : list nat := [0; 1; 2; 3]%nat.

Definition folded_of (hist : list bool) : list bool :=
  map (fun seat => match decision hist seat with
                   | Some false => true
                   | _ => false
                   end) seats.

Definition allin_of (hist : list bool) : list Z :=
  map Z.of_nat
      (List.filter (fun seat => match decision hist seat with
                                | Some true => true
                                | _ => false
                                end) seats).

(** The stacks after the blinds are posted. *)
Definition initial_of (g : Game.t) : list Q :=
  [Game.initialStacks_ g !!! 0%nat; Game.initialStacks_ g !!! 1%nat;
   Game.initialStacks_ g !!! 2%nat; Game.initialStacks_ g !!! 3%nat].

Definition start_stacks (g : Game.t) : list Q :=
  [(Game.initialStacks_ g !!! 0%nat - Game.smallBlind_ g)%Q;
   (Game.initialStacks_ g !!! 1%nat - Game.bigBlind_ g)%Q;
   Game.initialStacks_ g !!! 2%nat;
   Game.initialStacks_ g !!! 3%nat].

Definition stacks_of (g : Game.t) (hist : list bool) : list Q :=
  imap (fun seat stack => match decision hist seat with
                          | Some true => 0%Q
                          | _ => stack
                          end) (start_stacks g).

(** The hand is over after [hist]: at most one seat has not folded, or
    every seat that has not folded is all-in. *)
Definition over_after (hist : list bool) : bool :=
  let active := length (List.filter negb (folded_of hist)) in
  (active <=? 1)%nat
  || forallb (fun seat => match decision hist seat with
                          | None => false
                          | Some _ => true
                          end) seats.

(** No decision of [hist] was taken after the hand was over. *)
Definition playable (hist : list bool) : bool :=
  (length hist <=? 4)%nat
  && forallb (fun k => negb (over_after (take k hist))) (seq 0 (length hist)).

(** The total of the amounts of a list of side pots. *)
Definition pots_total (pots : list (Q * list Z)) : Q := Qsum (map fst pots).

(** The contributions of the four seats. *)
Definition contributions_of (s : GameState.t) : list Q :=
  map (GameState.contribution s) seats.

(** Seats still in the hand. *)
Definition active_seats (s : GameState.t) : list nat :=
  List.filter (fun i => negb (GameState.folded_ s !!! i)) seats.

(** Every seat still in the hand is all-in. *)
Definition all_active_all_in (s : GameState.t) : Prop :=
  forall i, In i (active_seats s) -> In (Z.of_nat i) (GameState.allInPlayers_ s).

(** What holds of every state of a hand: the control part of the state
    is the one of a playable history [hist], the chips add up, and the
    deck, the hole cards and the board share the 52 cards. *)
Definition inv (g : Game.t) (w : GameState.t * gmap positive Deck.t) : Prop :=
  let s := fst w in
  exists (hist : list bool) (l : positive) (d : Deck.t),
    playable hist = true /\
    GameState.game_ s = g /\
    GameState.initialStacks_ s = initial_of g /\
    GameState.playerStacks_ s = stacks_of g hist /\
    GameState.folded_ s = folded_of hist /\
    GameState.allInPlayers_ s = allin_of hist /\
    (GameState.pot_ s == Qsum (contributions_of s))%Q /\
    GameState.deck_ s = Some l /\ snd w !! l = Some d /\
    (length d + length (GameState.holeCards_ s)
     + length (GameState.communityCards_ s) = 52)%nat /\
    GameState.gameOver_ s = over_after hist /\
    (if GameState.gameOver_ s
     then length (GameState.communityCards_ s) = 5%nat /\
          GameState.sidePots_ s = GameState.calculateSidePots s
     else GameState.communityCards_ s = []) /\
    (if (length (GameState.holeCards_ s) =? 0)%nat
     then hist = []
     else length (GameState.holeCards_ s) = 8%nat /\
          (GameState.gameOver_ s = false ->
           seat_order !! length hist = Some (GameState.nextPlayer_ s))).

(* ================================================================== *)
(** * The tables of the tests and of the scenarios                    *)
(* ================================================================== *)

(** [aof::Game game(0.4, 1.0)]: blinds 0.4 and 1, four stacks of 8 big
    blinds, no rake. *)
Definition test_game : Game.t := Game.mk 0.4 1 Game.no_rake [8; 8; 8; 8]%Q.

(** The same table with the rake and fees of the 10c/25c stakes. *)
Definition raked_params : GameParameters := mkGameParameters 0.04 0.04 0.0001.
Definition raked_game : Game.t := Game.mk 0.4 1 raked_params [8; 8; 8; 8]%Q.

(** A table where seat 2 sits with half a big blind. *)
Definition short_stack_game : Game.t := Game.mk 0.4 1 Game.no_rake [8; 8; 0.5; 8]%Q.

(** The fresh state of a game, its deck at location 1 of an empty heap. *)
Definition fresh_world (g : Game.t) (cards : Deck.t)
  : GameState.t * gmap positive Deck.t :=
  (GameState.mk g false 0 (Game.smallBlind_ g + Game.bigBlind_ g)%Q
     (initial_of g) (start_stacks g) [false; false; false; false] []
     (Some 1%positive) [] [] [],
   {[1%positive := cards]}).

(** The state after a sequence of calls to [applyAction]. *)
Definition play (actions : list Action) (w : GameState.t * gmap positive Deck.t)
  : GameState.t * gmap positive Deck.t :=
  fold_left (fun w a => snd (GameState.applyAction a w)) actions w.

(* ================================================================== *)
(** * Vocabulary of the properties                                    *)
(* ================================================================== *)

(** ** mccfr::Node *)

(** The rule in the specification's words: clip negative entries to
    zero, divide by the sum, and fall back to the uniform distribution
    when the sum is zero. *)
Definition clip (v : list Q) : list Q := map (fun x => max x 0%Q) v.

Definition normalize_or_uniform (v : list Q) : list Q :=
  if Qgtb (Qsum v) 0%Q
  then map (fun x => x / Qsum v)%Q v
  else uniform_distribution (length v).

Definition regret_matching (regretSum : list Q) : list Q :=
  normalize_or_uniform (clip regretSum).

Section NodeVocabulary.
Import Node.

(** The three vectors of a node keep the size given at construction. *)
Definition sized (k : nat) (n : t) : Prop :=
  length (regretSum_ n) = k /\ length (strategy_ n) = k /\
  length (strategySum_ n) = k.

(** What every call preserves. *)
Definition node_inv (k : nat) (n : t) : Prop :=
  sized k n /\
  Forall (fun x => 0 <= x)%Q (strategy_ n) /\
  Forall (fun x => 0 <= x)%Q (strategySum_ n).

End NodeVocabulary.

(** A sum of doubles that stays within [1e300] in magnitude is far from
    the largest double, about [1.8e308]: the additions of the code do not
    overflow on it. *)
Definition in_range (x : Q) : bool := Qle_bool (Qabs x) 1e300.

(** The regret sums of a node, and the sum of the positive ones that
    [normalizeStrategy] forms, are in range. *)
Definition regrets_in_range (n : Node.t) : bool :=
  forallb in_range (Node.regretSum_ n)
  && in_range (Qsum (clip (Node.regretSum_ n))).

(** The strategy sums of a node, and their sum that
    [getAverageStrategy] forms, are in range. *)
Definition strategy_sums_in_range (n : Node.t) : bool :=
  forallb in_range (Node.strategySum_ n)
  && in_range (Qsum (Node.strategySum_ n)).

(** [test] holds of the node before the history, after each of its
    calls and at its end. *)
Definition throughout (test : Node.t -> bool) (node : Node.t)
    (history : list Node.call) : bool :=
  forallb (fun k => test (Node.run node (take k history)))
          (seq 0 (S (length history))).

(** A regret of [2^1023], about [9e307]: a double, whose double is past
    the largest double. *)
Definition huge_regret : float := 0x1p1023%float.

(** The same regret in the exact model, and the history that adds it
    twice to the first action of a node. *)
Definition overflowing_history : list Node.call :=
  [Node.UpdateRegret 0 (2 ^ 1023); Node.UpdateRegret 0 (2 ^ 1023)].

(** A node with two actions whose regrets are all negative. *)
Definition two_action_node : Node.t :=
  Node.mk [0%Q; 0%Q] [0%Q; 0%Q] [0%Q; 0%Q] 0.

Definition all_negative_history : list Node.call :=
  [Node.UpdateRegret 0 (-1); Node.UpdateRegret 1 (-2); Node.GetStrategy 1].


(** ** aof::GameState *)

(** The action of a legal call is in the list the state offers. *)
Definition legal (a : Action) (s : GameState.t) : Prop :=
  In a (GameState.getLegalActions s).

Section GameStateVocabulary.
Import GameState.

(** The effect of the [switch] of [applyAction] for the seat to act. *)
Definition act (a : Action) (s : t) : t :=
  let player := nextPlayer_ s in
  match a with
  | FOLD => set_folded (<[Z.to_nat player := true]> (folded_ s)) s
  | ALL_IN =>
      set_allInPlayers (set.insert player (allInPlayers_ s))
        (set_playerStacks (<[Z.to_nat player := 0%Q]> (playerStacks_ s))
           (set_pot (pot_ s + playerStacks_ s !!! Z.to_nat player)%Q s))
  | DEAL => s
  end.

(** The state after [handleGameEnd] has dealt [cards]. *)
Definition ended (cards : list Card.t) (s : t) : t :=
  let s := set_communityCards cards s in
  set_sidePots (calculateSidePots s) s.

Definition dealt (n : nat) (d : Deck.t) : list Card.t := take n (reverse d).
Definition remaining (n : nat) (d : Deck.t) : Deck.t := reverse (drop n (reverse d)).

(** The termination rule in the specification's words, as a test. *)
Definition all_in_b (s : t) : bool :=
  forallb (fun i => existsb (Z.eqb (Z.of_nat i)) (allInPlayers_ s)) (active_seats s).

(** A side pot that [getReturns] awards: somebody is eligible, and the
    eligible seats are seats of the table that have not folded. *)
Definition pot_ok (s : t) (pot : Q * list Z) : Prop :=
  snd pot <> [] /\
  Forall (fun p => 0 <= p < 4 /\ folded_ s !!! Z.to_nat p = false) (snd pot).


(** The set of seats that have not folded, as [calculateSidePots]
    builds it. *)
Definition eligible0 (s : t) : set.t :=
  for_range (Z.to_nat GameConfig.NUM_PLAYERS)
    (fun i acc => if negb (folded_ s !!! i) then set.insert (Z.of_nat i) acc else acc)
    [].

(** The contributions before sorting. *)
Definition raw_contributions (s : t) : list (Q * Z) :=
  for_range (Z.to_nat GameConfig.NUM_PLAYERS)
    (fun i acc =>
       let totalContribution := contribution s i in
       if Qgtb totalContribution 0 then acc ++ [(totalContribution, Z.of_nat i)]
       else acc)
    [].

Definition remaining0 (s : t) : set.t :=
  set.of_list
    (for_range (Z.to_nat GameConfig.NUM_PLAYERS)
       (fun i acc => if Qgtb (contribution s i) 0 then acc ++ [Z.of_nat i] else acc)
       []).

(** The order of [std::pair<double, int>] refines the order of the
    amounts. *)
Definition amount_le (x y : Q * Z) : Prop := (fst x <= fst y)%Q.

(** No chip of a seat that has folded lies above the contribution of
    every seat still in the hand. *)
Definition covered (s : t) : Prop :=
  forall i, (i < 4)%nat -> (0 < contribution s i)%Q ->
    exists j, (j < 4)%nat /\ folded_ s !!! j = false /\
              (contribution s i <= contribution s j)%Q.

(** Every stack is at least the big blind, as the default stacks are. *)
Definition deep_stacks (g : Game.t) : Prop :=
  Forall (fun stack => Game.bigBlind_ g <= stack)%Q (Game.initialStacks_ g).


(** ** Side pots by contribution level *)

(** The side pots of a state by levels, without the loops and the
    shrinking set of [calculateSidePots]: the seats that have put chips
    in are ranked by contribution; every contribution above the one
    ranked before it opens a layer, as wide as the step and as many
    times as there are seats, folded or not, whose contribution reaches
    the level; the seats eligible for the layer are the seats still in
    the hand whose contribution reaches the level, and a layer that no
    such seat reaches makes no pot. *)
Section SidePotsByLevel.
Variable s : GameState.t.

Definition table_seats : list Z := [0; 1; 2; 3].

Definition contributes (p : Z) : bool :=
  Qgtb (GameState.contribution s (Z.to_nat p)) 0.

Definition reaches (level : Q) (p : Z) : bool :=
  Qle_bool level (GameState.contribution s (Z.to_nat p)).

Definition in_hand (p : Z) : bool := negb (GameState.folded_ s !!! Z.to_nat p).

Definition seats_reaching (level : Q) : list Z :=
  List.filter (fun p => contributes p && reaches level p) table_seats.

Definition eligible_at (level : Q) : list Z :=
  List.filter (fun p => in_hand p && reaches level p) table_seats.

(** Seat [p] ranks before seat [q]: less put in, or as much and a lower
    seat number. *)
Definition ranks_before (p q : Z) : bool :=
  let cp := GameState.contribution s (Z.to_nat p) in
  let cq := GameState.contribution s (Z.to_nat q) in
  Qltb cp cq || (negb (Qltb cq cp) && (p <? q)).

(** The entry of seat [p] in the [contributions] vector. *)
Definition ranked_entry (p : Z) : Q * Z := (GameState.contribution s (Z.to_nat p), p).

Definition ranking : list Z :=
  sort ranks_before (List.filter contributes table_seats).

Fixpoint layers (previousLevel : Q) (ranked : list Z) : list (Q * list Z) :=
  match ranked with
  | [] => []
  | p :: rest =>
      let level := GameState.contribution s (Z.to_nat p) in
      (if Qltb previousLevel level && negb (length (eligible_at level) =? 0)%nat
       then [((level - previousLevel)
              * inject_Z (Z.of_nat (length (seats_reaching level))),
              eligible_at level)%Q]
       else [])
      ++ layers level rest
  end.

Definition side_pots_by_level : list (Q * list Z) := layers 0 ranking.

End SidePotsByLevel.

(** The table of the scenario: blinds 0.4 and 1, stacks of 8 big
    blinds, any rake parameters. *)
Definition scenario_game (params : GameParameters) : Game.t :=
  Game.mk 0.4 1 params [8; 8; 8; 8]%Q.

(** What the getters of a state show, with the cards left in its
    deck. *)
Record observation : Type := mkObservation {
  obs_terminal : bool;
  obs_player : Z;
  obs_pot : Q;
  obs_initialStacks : list Q;
  obs_stacks : list Q;
  obs_folded : list bool;
  obs_allIn : set.t;
  obs_holeCards : list Card.t;
  obs_communityCards : list Card.t;
  obs_sidePots : list (Q * list Z);
  obs_deck : option Deck.t
}.

Definition observe (s : t) (h : gmap positive Deck.t) : observation :=
  mkObservation (gameOver_ s) (nextPlayer_ s) (pot_ s) (initialStacks_ s)
    (playerStacks_ s) (folded_ s) (allInPlayers_ s) (holeCards_ s)
    (communityCards_ s) (sidePots_ s)
    (match deck_ s with Some l => h !! l | None => None end).

End GameStateVocabulary.


(** The three-fold hand at the raked table. *)
Definition raked_fold_out : GameState.t :=
  fst (play [DEAL; FOLD; FOLD; FOLD] (fresh_world raked_game Deck.createStandardDeck)).

(** The hand at the short-stack table: seat 2 is all-in for half a big
    blind and the three other seats fold. *)
Definition short_stack_hand : GameState.t * gmap positive Deck.t :=
  play [DEAL; ALL_IN; FOLD; FOLD; FOLD]
       (fresh_world short_stack_game Deck.createStandardDeck).

(* ================================================================== *)
(** * Hand categories by the rules of poker                           *)
(* ================================================================== *)

(** The categories as the rules of poker define them, written without
    the evaluator: they are what [PokerEvaluator.evaluateFiveCardHand]
    is compared with. *)

(** The rank string of a value, the inverse of [Card.getRankValue]. *)
Definition rank_name (r : Z) : string :=
  default "" (fst <$> List.find (fun kv => snd kv =? r) Card.RANK_VALUES).

Definition all_ranks : list Z := seqZ 2 13.

Definition ranks_of (hand : list Card.t) : list Z := map Card.getRankValue hand.

(** Five valid cards. *)
Definition proper (hand : list Card.t) : Prop :=
  length hand = 5%nat /\ Forall (fun c => Card.isValid c = true) hand.

Definition occurrences (r : Z) (rs : list Z) : nat := count_occ Z.eq_dec rs r.

(** Some rank occurs exactly [n] times. *)
Definition has_group (n : nat) (rs : list Z) : bool :=
  existsb (fun r => (occurrences r rs =? n)%nat) rs.

(** Two different ranks occur exactly [n] times each. *)
Definition two_groups (n : nat) (rs : list Z) : bool :=
  existsb (fun r => existsb (fun r' =>
    negb (r =? r') && (occurrences r rs =? n)%nat && (occurrences r' rs =? n)%nat)
    rs) rs.

Definition has_ranks (wanted rs : list Z) : bool :=
  forallb (fun r => existsb (Z.eqb r) rs) wanted.

Definition run_from (low : Z) : list Z := [low; low + 1; low + 2; low + 3; low + 4].

(** A-2-3-4-5 and 10-J-Q-K-A. *)
Definition wheel : list Z := [14; 2; 3; 4; 5].
Definition broadway : list Z := run_from 10.

(** Five consecutive ranks, the ace counting high, or the wheel. *)
Definition straight_by_rules (rs : list Z) : bool :=
  existsb (fun low => has_ranks (run_from low) rs) (seqZ 2 9) || has_ranks wheel rs.

(** The rank a straight is compared by: 5 for the wheel, else its top. *)
Definition straight_high_by_rules (rs : list Z) : Z :=
  if has_ranks wheel rs then 5 else fold_right Z.max 0 rs.

(** Any two cards share their suit. *)
Definition flush_by_rules (hand : list Card.t) : bool :=
  forallb (fun c =>
    forallb (fun c' => String.eqb (Card.getSuit c) (Card.getSuit c')) hand) hand.

Definition category_by_rules (hand : list Card.t) : HandRank :=
  let rs := ranks_of hand in
  let flush := flush_by_rules hand in
  let straight := straight_by_rules rs in
  if flush && straight then STRAIGHT_FLUSH
  else if has_group 4 rs then FOUR_OF_A_KIND
  else if has_group 3 rs && has_group 2 rs then FULL_HOUSE
  else if flush then FLUSH
  else if straight then STRAIGHT
  else if has_group 3 rs then THREE_OF_A_KIND
  else if two_groups 2 rs then TWO_PAIR
  else if has_group 2 rs then PAIR
  else HIGH_CARD.

(** The order of the categories, best first. *)
Definition categories_best_first : list HandRank :=
  [STRAIGHT_FLUSH; FOUR_OF_A_KIND; FULL_HOUSE; FLUSH; STRAIGHT;
   THREE_OF_A_KIND; TWO_PAIR; PAIR; HIGH_CARD].

(** One hand for every list of ranks and either answer of [isFlush]. *)
Definition canonical_suits (flush : bool) : list string :=
  [if flush then "h" else "d"; "h"; "h"; "h"; "h"].

Definition canonical_hand (rs : list Z) (flush : bool) : list Card.t :=
  zip_with Card.mk (map rank_name rs) (canonical_suits flush).

(** The evaluator agrees with the rules on one hand: the category, and
    for a straight the rank it is compared by. *)
Definition classified (hand : list Card.t) : bool :=
  match PokerEvaluator.evaluateFiveCardHand hand with
  | inr (c :: tb) =>
      (c =? HandRank_to_int (category_by_rules hand))
      && (if straight_by_rules (ranks_of hand)
          then match tb with
               | [high] => high =? straight_high_by_rules (ranks_of hand)
               | _ => false
               end
          else true)
  | _ => false
  end.

Definition classified_from (r1 : Z) : bool :=
  forallb (fun r2 => forallb (fun r3 => forallb (fun r4 => forallb (fun r5 =>
    forallb (fun flush => classified (canonical_hand [r1; r2; r3; r4; r5] flush))
            [true; false])
    all_ranks) all_ranks) all_ranks) all_ranks.

(** The constructed hands of [testHandEvaluation]. *)
Definition test_hands : list (list Card.t) :=
  map (map (fun '(rank, suit) => Card.mk rank suit))
    [ [("A", "s"); ("K", "s"); ("Q", "s"); ("J", "s"); ("10", "s")];
      [("A", "s"); ("A", "h"); ("A", "d"); ("A", "c"); ("K", "s")];
      [("A", "s"); ("A", "h"); ("A", "d"); ("K", "c"); ("K", "s")];
      [("A", "s"); ("J", "s"); ("9", "s"); ("7", "s"); ("5", "s")];
      [("A", "s"); ("K", "h"); ("Q", "d"); ("J", "c"); ("10", "s")];
      [("A", "s"); ("A", "h"); ("A", "d"); ("K", "c"); ("Q", "s")];
      [("A", "s"); ("A", "h"); ("K", "d"); ("K", "c"); ("Q", "s")];
      [("A", "s"); ("A", "h"); ("K", "d"); ("Q", "c"); ("J", "s")];
      [("A", "s"); ("K", "h"); ("Q", "d"); ("J", "c"); ("9", "s")] ].

Definition wheel_hand : list Card.t :=
  [Card.mk "A" "s"; Card.mk "2" "h"; Card.mk "3" "d"; Card.mk "4" "c"; Card.mk "5" "s"].

Definition broadway_hand : list Card.t :=
  [Card.mk "A" "s"; Card.mk "K" "h"; Card.mk "Q" "d"; Card.mk "J" "c"; Card.mk "10" "s"].

(* ================================================================== *)
(** * Vocabulary of the further properties                            *)
(* ================================================================== *)

(** The cards a state holds: the hole cards, the board and what is left
    in its deck [d]. *)
Definition cards_in_play (s : GameState.t) (d : Deck.t) : list Card.t :=
  GameState.holeCards_ s ++ GameState.communityCards_ s ++ d.

(** The number of decisions taken in a hand: seats that folded and seats
    that went all-in. *)
Definition decisions (s : GameState.t) : nat :=
  (length (List.filter (fun folded => folded) (GameState.folded_ s))
   + length (GameState.allInPlayers_ s))%nat.

(** The number of tiebreakers after the category in a score of
    [evaluateFiveCardHand]. *)
Definition tiebreak_count (category : Z) : nat :=
  if category =? 8 then 1
  else if category =? 7 then 2
  else if category =? 6 then 2
  else if category =? 5 then 5
  else if category =? 4 then 1
  else if category =? 3 then 3
  else if category =? 2 then 3
  else if category =? 1 then 4
  else 5.

(** A score laid out as [evaluateFiveCardHand] lays it out. *)
Definition score_layout (score : PokerEvaluator.HandScore) : Prop :=
  match score with
  | [] => False
  | category :: tiebreakers =>
      0 <= category <= 8 /\ length tiebreakers = tiebreak_count category
  end.

(** The configurations the constructor of [Game] accepts: blinds,
    stacks in big blinds (none given means the default), and the rake
    parameters. *)
Definition in_unit_interval (x : Q) : Prop := (0 <= x /\ x <= 1)%Q.

Definition accepted_configuration (smallBlind bigBlind : Q)
    (gameParams : GameParameters) (initialStacksBB : list Q) : Prop :=
  (0 < smallBlind)%Q /\ (smallBlind < bigBlind)%Q /\
  (initialStacksBB = [] \/
   (length initialStacksBB = 4%nat /\
    Forall (fun stack => 0 < stack)%Q initialStacksBB /\
    (smallBlind <= initialStacksBB !!! 0%nat * bigBlind)%Q /\
    (bigBlind <= initialStacksBB !!! 1%nat * bigBlind)%Q)) /\
  in_unit_interval (rake_per_hand gameParams) /\
  in_unit_interval (jackpot_fee_per_hand gameParams) /\
  in_unit_interval (jackpot_payout_percentage gameParams).

(** The stacks in chips of an accepted configuration. *)
Definition stacks_in_chips (bigBlind : Q) (initialStacksBB : list Q) : list Q :=
  match initialStacksBB with
  | [] => replicate 4 (8 * bigBlind)%Q
  | _ => map (fun stack => stack * bigBlind)%Q initialStacksBB
  end.

(** [x] is a finite binary64 number: [m * 2^e] with [|m| < 2^53] and
    [-1074 <= e <= 971]. *)
Definition binary64 (x : Q) : Prop :=
  exists m e : Z,
    Z.abs m < 2 ^ 53 /\ -1074 <= e <= 971 /\ (x == inject_Z m * 2 ^ e)%Q.

(** The arguments of the constructor are doubles, and so is every
    product [stack * bigBlind] it forms: the multiplication of the code
    then returns the exact product. *)
Definition exact_configuration (smallBlind bigBlind : Q)
    (gameParams : GameParameters) (initialStacksBB : list Q) : Prop :=
  binary64 smallBlind /\ binary64 bigBlind /\
  binary64 (rake_per_hand gameParams) /\
  binary64 (jackpot_fee_per_hand gameParams) /\
  binary64 (jackpot_payout_percentage gameParams) /\
  Forall binary64 initialStacksBB /\
  Forall binary64 (stacks_in_chips bigBlind initialStacksBB).

(** A table with blinds 0.5 and 1, all of whose amounts are doubles. *)
Definition dyadic_game : Game.t := Game.mk 0.5 1 Game.no_rake [8; 8; 8; 8]%Q.
(** Stakes compared by their big blind, as [getSupportedStakes] sorts
    them. *)
Definition big_blind_lt (a b : Stakes) : Prop := (snd a < snd b)%Q.

(** The stakes [key] of the table are the stakes [stakes] asked for. *)
Definition same_stakes (stakes key : Stakes) : Prop :=
  (fst stakes == fst key)%Q /\ (snd stakes == snd key)%Q.

(** The class of two hole cards by the rules of the abstraction: the
    higher rank, the lower rank and, unless they pair, whether the suits
    agree. *)
Definition hand_class (card1 card2 : Card.t) : Z * Z * option bool :=
  let rank1 := Card.getRankValue card1 in
  let rank2 := Card.getRankValue card2 in
  (Z.max rank1 rank2, Z.min rank1 rank2,
   if rank1 =? rank2 then None
   else Some (bool_decide (Card.getSuit card1 = Card.getSuit card2))).

(** The text of a class. *)
Definition class_text (class : Z * Z * option bool) : string :=
  let '(high, low, suited) := class in
  match suited with
  | None => rank_name high ++ rank_name low
  | Some true => rank_name high ++ rank_name low ++ "s"
  | Some false => rank_name high ++ rank_name low ++ "o"
  end.

(** Equality of classes, decided. *)
Definition class_eqb (a b : Z * Z * option bool) : bool :=
  bool_decide (a = b).


(** The three fields [formatDuration] prints for a duration of [s]
    whole seconds: hours, minutes past the hour and its seconds field,
    which keeps the seconds of the whole hours. *)
Definition hours_field (s : Z) : Z := s / 3600.
Definition minutes_field (s : Z) : Z := (s / 60) mod 60.
Definition seconds_field (s : Z) : Z := 3600 * (s / 3600) + s mod 60.

(** A field followed by its unit, left out when the field is zero. *)
Definition optional_field (value : Z) (unit : string) : string :=
  if 0 <? value then Trainer.to_string value ++ unit else "".

(** The single-file evaluator and the library's evaluator give one
    score on a hand. *)
Definition evaluators_agree (hand : list Card.t) : bool :=
  match PokerEvaluator.evaluateFiveCardHand hand,
        Legacy.PokerEvaluator.evaluateFiveCardHand hand with
  | inr score, inr legacy => bool_decide (score = legacy)
  | _, _ => false
  end.

(** A sequence of calls to [applyAction] of the single-file version. *)
Fixpoint legacy_play (actions : list Action) (s : Legacy.AoFState.t)
  : Legacy.outcome Legacy.AoFState.t :=
  match actions with
  | [] => inr s
  | action :: rest =>
      Legacy.bind (Legacy.AoFState.applyAction action s) (legacy_play rest)
  end.

(** The stacks of a state of the single-file version, in chips. *)
Definition legacy_stacks (game : Legacy.AoFGame.t) : list Q :=
  map (fun p => (Legacy.AoFGame.initial_stacks game !!! p
                 * Legacy.AoFGame.big_blind game)%Q) (seq 0 4).

(** The state of the single-file version when seat [next] is to decide:
    [hole] are the hole cards and [deck] is what is left of the deck. *)
Definition legacy_state (game : Legacy.AoFGame.t) (pot : Q) (stacks : list Q)
    (folded : list bool) (all_in : list Z) (over : bool) (next : Z)
    (deck hole : list Card.t) : Legacy.AoFState.t :=
  Legacy.AoFState.mk game pot (legacy_stacks game) stacks folded all_in over next
    deck hole (Legacy.AoFGame.small_blind game) (Legacy.AoFGame.big_blind game) [] [].

(** ** mccfr::utils: information sets *)

(** The two hole cards of seat [player], abstracted. *)
Definition own_hand (state : GameState.t) (player : Z) : option string :=
  match GameState.holeCards_ state !! Z.to_nat (player * 2),
        GameState.holeCards_ state !! Z.to_nat (player * 2 + 1) with
  | Some card1, Some card2 => Some (utils.abstractHoleCards card1 card2)
  | _, _ => None
  end.

(** A state where a seat is to decide. *)
Definition decision_node (s : GameState.t) : Prop :=
  GameState.isTerminal s = false /\ GameState.isChanceNode s = false.

(** ** mccfr::Trainer *)

(** How many calls of [applyAction] a hand can still take. *)
Definition rounds_left (s : GameState.t) : nat :=
  if GameState.isTerminal s then 0%nat
  else if GameState.isChanceNode s then 5%nat
  else (4 - decisions s)%nat.

(** Every node of the map was made for the two actions FOLD and ALL_IN. *)
Definition two_actions (nodeMap : gmap string Node.t) : Prop :=
  map_Forall (fun _ node => sized 2 node) nodeMap.

(** The map [nodeMap'] has a node for every key of [nodeMap]. *)
Definition keys_kept (nodeMap nodeMap' : gmap string Node.t) : Prop :=
  forall infoSet, is_Some (nodeMap !! infoSet) -> is_Some (nodeMap' !! infoSet).

(** The decks of [h] other than the one of [state] are in [h'] as they
    were. *)
Definition other_decks_kept (state : GameState.t) (h h' : gmap positive Deck.t)
  : Prop :=
  forall l d, GameState.deck_ state <> Some l -> h !! l = Some d -> h' !! l = Some d.

(** Every deck of [h] is in [h'] as it was. *)
Definition decks_kept (h h' : gmap positive Deck.t) : Prop :=
  forall l d, h !! l = Some d -> h' !! l = Some d.

(** What a call of [mccfr] for the seat [player] on [state] in the world
    [tr] has done when it gives [r]: it returned a utility that is not
    below the loss of the whole stack of the seat, every node still has
    two actions and no node was removed, and no deck but the one of
    [state] was written. *)
Definition trained (g : Game.t) (player : Z) (state : GameState.t)
    (tr : Trainer.world) (r : Trainer.cut (Q * Trainer.world)) : Prop :=
  exists utility tr',
    r = Some (ok (utility, tr')) /\
    two_actions (Trainer.nodeMap_ tr') /\
    keys_kept (Trainer.nodeMap_ tr) (Trainer.nodeMap_ tr') /\
    other_decks_kept state (Trainer.decks tr) (Trainer.decks tr') /\
    (- (Game.initialStacks_ g !!! Z.to_nat player) <= utility)%Q.

(** The recursive calls of a call of [mccfr] on [state] do their work. *)
Definition calls_trained (g : Game.t) (player : Z) (state : GameState.t)
    (self : GameState.t -> Z -> list Q -> Trainer.world
            -> Trainer.cut (Q * Trainer.world)) : Prop :=
  forall state' reachProb tr,
    inv g (state', Trainer.decks tr) -> length reachProb = 4%nat ->
    two_actions (Trainer.nodeMap_ tr) ->
    (rounds_left state' < rounds_left state)%nat ->
    trained g player state' tr (self state' player reachProb tr).

(* ################################################################## *)
(** * Properties                                                      *)
(* ################################################################## *)

(* ================================================================== *)
(** ** Loops, sums and comparisons                                    *)
(* ================================================================== *)

Section Loops.
Context {S : Type}.

Lemma for_range_S (n : nat) (body : nat -> S -> S) (s : S) :
  for_range (Datatypes.S n) body s = body n (for_range n body s).
Proof.
  unfold for_range. rewrite seq_S, fold_left_app. reflexivity.
Qed.

(** Loop invariants: [P i s] holds before iteration [i]. *)
Lemma for_range_ind (P : nat -> S -> Prop) (n : nat) (body : nat -> S -> S) (s : S) :
  P 0%nat s ->
  (forall i acc, (i < n)%nat -> P i acc -> P (Datatypes.S i) (body i acc)) ->
  P n (for_range n body s).
Proof.
  intros H0 Hstep.
  assert (forall k, (k <= n)%nat -> P k (for_range k body s)) as Hk.
  { induction k as [|k IH]; intros Hle.
    - exact H0.
    - rewrite for_range_S. apply Hstep; [lia | apply IH; lia]. }
  apply Hk. lia.
Qed.
End Loops.

Lemma Qltb_lt (a b : Q) : Qltb a b = true <-> (a < b)%Q.
Proof.
  unfold Qltb. rewrite negb_true_iff. split.
  - intros H. apply Qnot_le_lt. intros Hle.
    apply Qle_bool_iff in Hle. congruence.
  - intros H. destruct (Qle_bool b a) eqn:E; [|reflexivity].
    apply Qle_bool_iff in E. lra.
Qed.

Lemma Qltb_ge (a b : Q) : Qltb a b = false <-> (b <= a)%Q.
Proof.
  unfold Qltb. rewrite negb_false_iff. apply Qle_bool_iff.
Qed.

Lemma Qgtb_gt (a b : Q) : Qgtb a b = true <-> (b < a)%Q.
Proof. apply Qltb_lt. Qed.

Lemma Qgtb_le (a b : Q) : Qgtb a b = false <-> (a <= b)%Q.
Proof. apply Qltb_ge. Qed.

Lemma max_zero_nonneg (a : Q) : (0 <= max a 0)%Q.
Proof.
  unfold max. destruct (Qltb a 0) eqn:E.
  - lra.
  - apply Qltb_ge in E. exact E.
Qed.

Lemma max_zero_of_nonpos (a : Q) : (a <= 0)%Q -> (max a 0 == 0)%Q.
Proof.
  intros H. unfold max. destruct (Qltb a 0) eqn:E; [reflexivity|].
  apply Qltb_ge in E. lra.
Qed.

Lemma accumulate_shift (l : list Q) (a : Q) :
  (accumulate l a == a + accumulate l 0)%Q.
Proof.
  unfold accumulate. revert a.
  induction l as [|x l IH]; intros a; simpl.
  - lra.
  - rewrite (IH (a + x)%Q), (IH (0 + x)%Q). lra.
Qed.

Lemma Qsum_nil : Qsum [] = 0%Q.
Proof. reflexivity. Qed.

Lemma Qsum_cons (x : Q) (l : list Q) : (Qsum (x :: l) == x + Qsum l)%Q.
Proof.
  unfold Qsum. change (accumulate (x :: l) 0) with (accumulate l (0 + x)).
  rewrite accumulate_shift. lra.
Qed.

Lemma Qsum_app (l1 l2 : list Q) : (Qsum (l1 ++ l2) == Qsum l1 + Qsum l2)%Q.
Proof.
  induction l1 as [|x l1 IH]; simpl.
  - rewrite Qsum_nil. lra.
  - rewrite !Qsum_cons, IH. lra.
Qed.

Lemma Qsum_snoc (l : list Q) (x : Q) : (Qsum (l ++ [x]) == Qsum l + x)%Q.
Proof. rewrite Qsum_app, Qsum_cons, Qsum_nil. lra. Qed.

Lemma Qsum_nonneg (l : list Q) :
  Forall (fun x => 0 <= x)%Q l -> (0 <= Qsum l)%Q.
Proof.
  induction 1 as [|x l Hx Hl IH].
  - rewrite Qsum_nil. lra.
  - rewrite Qsum_cons. lra.
Qed.

Lemma Qsum_bounds_entry (l : list Q) :
  Forall (fun x => 0 <= x)%Q l -> Forall (fun x => x <= Qsum l)%Q l.
Proof.
  induction 1 as [|x l Hx Hl IH]; constructor.
  - rewrite Qsum_cons. pose proof (Qsum_nonneg l Hl). lra.
  - eapply Forall_impl; [exact IH|]. intros y Hy; simpl in Hy.
    rewrite Qsum_cons. lra.
Qed.

Lemma Qsum_map_scale (c : Q) (l : list Q) :
  (Qsum (map (fun x => x * c) l) == Qsum l * c)%Q.
Proof.
  induction l as [|x l IH]; simpl.
  - rewrite Qsum_nil. ring.
  - rewrite !Qsum_cons, IH. ring.
Qed.

Lemma Qsum_map_div (s : Q) (l : list Q) :
  (Qsum (map (fun x => x / s) l) == Qsum l / s)%Q.
Proof. unfold Qdiv. apply Qsum_map_scale. Qed.

Lemma Qsum_replicate (x : Q) (n : nat) :
  (Qsum (replicate n x) == inject_Z (Z.of_nat n) * x)%Q.
Proof.
  induction n as [|n IH].
  - simpl. rewrite Qsum_nil. ring.
  - cbn [replicate]. rewrite Qsum_cons, IH, Nat2Z.inj_succ.
    unfold Z.succ. rewrite inject_Z_plus. ring.
Qed.

Lemma Qsum_zip_add (w : Q) (a b : list Q) :
  length a = length b ->
  (Qsum (zip_with (fun x y => x + w * y) a b) == Qsum a + w * Qsum b)%Q.
Proof.
  revert b. induction a as [|x a IH]; intros [|y b] Hlen; simpl in *; try discriminate.
  - rewrite Qsum_nil. lra.
  - rewrite !Qsum_cons, IH by congruence. ring.
Qed.

(** A loop that rewrites every cell from its index and old content. *)
Lemma for_range_update (g : nat -> Q -> Q) (l : list Q) :
  for_range (length l) (fun i acc => <[i := g i (acc !!! i)]> acc) l = imap g l.
Proof.
  pose (P := fun (k : nat) (acc : list Q) =>
    length acc = length l /\
    forall j x, l !! j = Some x ->
      acc !! j = Some (if (j <? k)%nat then g j x else x)).
  assert (P (length l) (for_range (length l)
            (fun i acc => <[i := g i (acc !!! i)]> acc) l)) as [Hlen Hall].
  { apply for_range_ind.
    - split; [reflexivity|]. intros j x Hj. exact Hj.
    - intros i acc Hi [Hlen Hacc]. split.
      + rewrite length_insert. exact Hlen.
      + intros j x Hj. destruct (decide (i = j)) as [->|Hne].
        * rewrite list_lookup_insert_eq by lia.
          rewrite (list_lookup_total_correct acc j x).
          -- replace (j <? Datatypes.S j)%nat with true; [reflexivity|].
             symmetry. apply Nat.ltb_lt. lia.
          -- rewrite (Hacc j x Hj).
             replace (j <? j)%nat with false; [reflexivity|].
             symmetry. apply Nat.ltb_ge. lia.
        * rewrite list_lookup_insert_ne by exact Hne.
          rewrite (Hacc j x Hj).
          replace (j <? Datatypes.S i)%nat with (j <? i)%nat; [reflexivity|].
          destruct (j <? i)%nat eqn:E1, (j <? Datatypes.S i)%nat eqn:E2;
            try reflexivity.
          -- apply Nat.ltb_lt in E1. apply Nat.ltb_ge in E2. lia.
          -- apply Nat.ltb_ge in E1. apply Nat.ltb_lt in E2. lia. }
  apply list_eq. intros j. rewrite list_lookup_imap.
  destruct (l !! j) as [x|] eqn:Hj; simpl.
  - rewrite (Hall j x Hj).
    replace (j <? length l)%nat with true; [reflexivity|].
    symmetry. apply Nat.ltb_lt. eapply lookup_lt_Some. exact Hj.
  - apply lookup_ge_None. rewrite Hlen. apply lookup_ge_None. exact Hj.
Qed.

Lemma imap_read (f : Q -> Q) (src dst : list Q) :
  length dst = length src ->
  imap (fun i _ => f (src !!! i)) dst = map f src.
Proof.
  intros Hlen. apply list_eq. intros j.
  rewrite list_lookup_imap, list_lookup_fmap.
  destruct (src !! j) as [x|] eqn:Hj.
  - destruct (dst !! j) as [y|] eqn:Hd; simpl.
    + rewrite (list_lookup_total_correct src j x Hj). reflexivity.
    + apply lookup_ge_None in Hd. apply lookup_lt_Some in Hj. lia.
  - apply lookup_ge_None in Hj.
    assert (dst !! j = None) as -> by (apply lookup_ge_None; lia).
    reflexivity.
Qed.

Lemma imap_zip (f : Q -> Q -> Q) (a b : list Q) :
  length a = length b ->
  imap (fun i x => f x (b !!! i)) a = zip_with f a b.
Proof.
  intros Hlen. apply list_eq. intros j.
  rewrite list_lookup_imap, lookup_zip_with.
  destruct (a !! j) as [x|] eqn:Ha; simpl; [|reflexivity].
  destruct (b !! j) as [y|] eqn:Hb; simpl.
  - rewrite (list_lookup_total_correct b j y Hb). reflexivity.
  - apply lookup_ge_None in Hb. apply lookup_lt_Some in Ha. lia.
Qed.

Lemma map_const_replicate {A B} (b : B) (l : list A) :
  map (fun _ => b) l = replicate (length l) b.
Proof. induction l as [|x l IH]; simpl; [reflexivity | f_equal; exact IH]. Qed.

(* ================================================================== *)
(** ** Regret matching                                                *)
(* ================================================================== *)

Lemma clip_nonneg (v : list Q) : Forall (fun x => 0 <= x)%Q (clip v).
Proof.
  unfold clip. apply Forall_fmap, Forall_forall. intros x _.
  apply max_zero_nonneg.
Qed.

Lemma length_clip (v : list Q) : length (clip v) = length v.
Proof. unfold clip. apply length_map. Qed.

Lemma uniform_is_distribution (n : nat) :
  (0 < n)%nat -> is_distribution (uniform_distribution n).
Proof.
  intros Hn. unfold uniform_distribution.
  assert (0 < inject_Z (Z.of_nat n))%Q as Hpos.
  { change 0%Q with (inject_Z 0). rewrite <- Zlt_Qlt. lia. }
  assert (1 <= inject_Z (Z.of_nat n))%Q as Hone.
  { change 1%Q with (inject_Z 1). rewrite <- Zle_Qle. lia. }
  split.
  - apply Forall_replicate. split.
    + apply Qle_shift_div_l; [exact Hpos | lra].
    + apply Qle_shift_div_r; [exact Hpos | lra].
  - rewrite Qsum_replicate. field. lra.
Qed.

Lemma normalized_is_distribution (v : list Q) :
  Forall (fun x => 0 <= x)%Q v -> (0 < Qsum v)%Q ->
  is_distribution (map (fun x => x / Qsum v)%Q v).
Proof.
  intros Hnn Hpos. split.
  - apply Forall_fmap.
    pose proof (Qsum_bounds_entry v Hnn) as Hle.
    rewrite Forall_forall in Hnn, Hle. apply Forall_forall. intros x Hx.
    specialize (Hnn x Hx). specialize (Hle x Hx). simpl in *. split.
    + apply Qle_shift_div_l; [exact Hpos | lra].
    + apply Qle_shift_div_r; [exact Hpos | lra].
  - rewrite Qsum_map_div. field. lra.
Qed.

Lemma normalize_or_uniform_distribution (v : list Q) :
  (0 < length v)%nat -> Forall (fun x => 0 <= x)%Q v ->
  is_distribution (normalize_or_uniform v).
Proof.
  intros Hlen Hnn. unfold normalize_or_uniform.
  destruct (Qgtb (Qsum v) 0) eqn:E.
  - apply Qgtb_gt in E. apply normalized_is_distribution; assumption.
  - apply uniform_is_distribution. exact Hlen.
Qed.

Lemma normalize_or_uniform_fallback (v : list Q) :
  (Qsum v == 0)%Q -> normalize_or_uniform v = uniform_distribution (length v).
Proof.
  intros H0. unfold normalize_or_uniform.
  destruct (Qgtb (Qsum v) 0) eqn:E; [|reflexivity].
  apply Qgtb_gt in E. lra.
Qed.

Lemma length_normalize_or_uniform (v : list Q) :
  length (normalize_or_uniform v) = length v.
Proof.
  unfold normalize_or_uniform, uniform_distribution.
  destruct (Qgtb (Qsum v) 0); [apply length_map | apply length_replicate].
Qed.

(* ================================================================== *)
(** ** mccfr::Node                                                    *)
(* ================================================================== *)

Section NodeFacts.
Import Node.

Lemma Node_ok (numActions : Z) (n : t) :
  Node numActions = inr n ->
  0 < numActions /\
  n = mk (replicate (Z.to_nat numActions) 0%Q)
         (replicate (Z.to_nat numActions) 0%Q)
         (replicate (Z.to_nat numActions) 0%Q) 0.
Proof.
  unfold Node, vector. destruct (numActions <? 0) eqn:E1; simpl.
  - discriminate.
  - destruct (numActions <=? 0) eqn:E2; simpl.
    + discriminate.
    + intros H. injection H as <-. split; [lia | reflexivity].
Qed.

Lemma Node_sized (numActions : Z) (n : t) :
  Node numActions = inr n -> sized (Z.to_nat numActions) n.
Proof.
  intros H. apply Node_ok in H as [_ ->]. unfold sized; simpl.
  rewrite !length_replicate. auto.
Qed.

(** [normalizeStrategy] refines regret matching. *)
Lemma normalizeStrategy_spec (n : t) :
  length (strategy_ n) = length (regretSum_ n) ->
  normalizeStrategy n =
  mk (regretSum_ n) (regret_matching (regretSum_ n)) (strategySum_ n) (visitCount_ n).
Proof.
  intros Hlen. unfold normalizeStrategy.
  match goal with
  | |- context [for_range ?k ?b ?s] =>
      assert (for_range k b s = (clip (regretSum_ n), Qsum (clip (regretSum_ n))))
        as ->
  end.
  { pose (P := fun (k : nat) (acc : list Q * Q) =>
      length (fst acc) = length (regretSum_ n) /\
      take k (fst acc) = take k (clip (regretSum_ n)) /\
      snd acc = Qsum (take k (clip (regretSum_ n)))).
    match goal with
    | |- ?loop = _ => assert (P (length (regretSum_ n)) loop) as HP
    end.
    { apply for_range_ind.
      - unfold P; simpl. auto.
      - intros i [st sm] Hi (Hl & Ht & Hs); simpl in *.
        assert (clip (regretSum_ n) !! i = Some (max (regretSum_ n !!! i) 0%Q))
          as Hci.
        { unfold clip. rewrite list_lookup_fmap.
          destruct (regretSum_ n !! i) as [x|] eqn:Hx.
          - rewrite (list_lookup_total_correct _ _ _ Hx). reflexivity.
          - apply lookup_ge_None in Hx. lia. }
        unfold P; simpl. split; [|split].
        + rewrite length_insert. exact Hl.
        + rewrite (take_S_r _ _ _ Hci).
          rewrite (take_S_r _ i (max (regretSum_ n !!! i) 0%Q)).
          * rewrite take_insert_ge by lia. rewrite Ht. reflexivity.
          * apply list_lookup_insert_eq. lia.
        + rewrite list_lookup_total_insert_eq by lia.
          rewrite (take_S_r _ _ _ Hci). rewrite Hs.
          unfold Qsum, accumulate. rewrite fold_left_app. reflexivity. }
    destruct HP as (Hl & Ht & Hs).
    match goal with |- ?loop = _ => destruct loop as [st sm] end.
    simpl in *.
    rewrite take_ge in Ht by lia.
    rewrite (take_ge (clip (regretSum_ n))) in Ht, Hs
      by (rewrite length_clip; lia).
    subst. reflexivity. }
  f_equal. unfold regret_matching, normalize_or_uniform.
  destruct (Qgtb (Qsum (clip (regretSum_ n))) 0).
  - rewrite (for_range_update (fun _ x => x / Qsum (clip (regretSum_ n)))%Q).
    apply imap_const.
  - unfold uniform_distribution. apply map_const_replicate.
Qed.

Lemma getStrategy_spec (w : Q) (n : t) :
  length (strategy_ n) = length (regretSum_ n) ->
  length (strategySum_ n) = length (regretSum_ n) ->
  getStrategy w n =
  (regret_matching (regretSum_ n),
   mk (regretSum_ n) (regret_matching (regretSum_ n))
      (zip_with (fun x y => x + w * y)%Q (strategySum_ n)
                (regret_matching (regretSum_ n)))
      ((visitCount_ n + 1) mod uint64_max)).
Proof.
  intros H1 H2. unfold getStrategy.
  rewrite normalizeStrategy_spec by exact H1. simpl.
  assert (length (regret_matching (regretSum_ n)) = length (strategySum_ n)) as Hl.
  { unfold regret_matching. rewrite length_normalize_or_uniform, length_clip. lia. }
  rewrite Hl.
  rewrite (for_range_update
             (fun i x => x + w * (regret_matching (regretSum_ n) !!! i))%Q).
  rewrite (imap_zip (fun x y => x + w * y)%Q) by lia.
  reflexivity.
Qed.

Lemma getAverageStrategy_spec (n : t) :
  getAverageStrategy n = normalize_or_uniform (strategySum_ n).
Proof.
  unfold getAverageStrategy, normalize_or_uniform.
  fold (Qsum (strategySum_ n)).
  destruct (Qgtb (Qsum (strategySum_ n)) 0).
  - rewrite length_replicate.
    rewrite <- (length_replicate (length (strategySum_ n)) 0%Q) at 1.
    rewrite (for_range_update
               (fun i _ => strategySum_ n !!! i / Qsum (strategySum_ n))%Q).
    apply (imap_read (fun x => x / Qsum (strategySum_ n))%Q).
    apply length_replicate.
  - rewrite length_replicate, map_const_replicate, length_replicate.
    reflexivity.
Qed.

Lemma regret_matching_nonneg (r : list Q) :
  (0 < length r)%nat -> Forall (fun x => 0 <= x)%Q (regret_matching r).
Proof.
  intros Hr.
  destruct (normalize_or_uniform_distribution (clip r)) as [Hall _].
  - rewrite length_clip. exact Hr.
  - apply clip_nonneg.
  - eapply Forall_impl; [exact Hall|]. simpl. intros x [Hx _]. exact Hx.
Qed.

Lemma step_sized (k : nat) (n : t) (c : call) : sized k n -> sized k (step n c).
Proof.
  intros (H1 & H2 & H3). destruct c as [action regret | w]; cbn [step].
  - unfold updateRegret.
    destruct ((action <? 0) || (action >=? Z.of_nat (length (regretSum_ n))));
      simpl.
    + repeat split; assumption.
    + unfold sized; simpl. rewrite length_insert. auto.
  - rewrite getStrategy_spec by lia. unfold sized; simpl.
    assert (length (regret_matching (regretSum_ n)) = k) as Hl.
    { unfold regret_matching. rewrite length_normalize_or_uniform, length_clip.
      exact H1. }
    rewrite length_zip_with, Hl, H3. repeat split; [assumption | lia].
Qed.

Lemma step_inv (k : nat) (n : t) (c : call) :
  (0 < k)%nat -> weight_ok c -> node_inv k n -> node_inv k (step n c).
Proof.
  intros Hk Hw [Hs [Hst Hsum]]. split; [apply step_sized; exact Hs|].
  destruct Hs as (H1 & H2 & H3).
  destruct c as [action regret | w]; cbn [step weight_ok] in *.
  - unfold updateRegret.
    destruct ((action <? 0) || (action >=? Z.of_nat (length (regretSum_ n))));
      simpl; auto.
  - rewrite getStrategy_spec by lia. simpl.
    pose proof (regret_matching_nonneg (regretSum_ n) ltac:(lia)) as Hrm.
    split; [exact Hrm|].
    apply Forall_lookup. intros i x Hi.
    rewrite lookup_zip_with in Hi.
    destruct (strategySum_ n !! i) as [a|] eqn:Ha; simpl in Hi; [|discriminate].
    destruct (regret_matching (regretSum_ n) !! i) as [b|] eqn:Hb;
      simpl in Hi; [|discriminate].
    injection Hi as <-.
    rewrite Forall_lookup in Hsum, Hrm.
    specialize (Hsum i a Ha). specialize (Hrm i b Hb). simpl in *.
    assert (0 <= w * b)%Q by (apply Qmult_le_0_compat; assumption).
    lra.
Qed.

Lemma run_sized (k : nat) (history : list call) (n : t) :
  sized k n -> sized k (run n history).
Proof.
  unfold run. revert n. induction history as [|c history IH]; intros n Hn; simpl.
  - exact Hn.
  - apply IH. apply step_sized. exact Hn.
Qed.

Lemma run_inv (k : nat) (history : list call) (n : t) :
  (0 < k)%nat -> Forall weight_ok history -> node_inv k n ->
  node_inv k (run n history).
Proof.
  intros Hk. unfold run. revert n.
  induction history as [|c history IH]; intros n Hw Hn; simpl.
  - exact Hn.
  - inversion Hw as [|? ? Hc Hrest]; subst.
    apply IH; [exact Hrest|]. apply step_inv; assumption.
Qed.

Lemma fresh_node_inv (numActions : Z) (n : t) :
  Node numActions = inr n -> node_inv (Z.to_nat numActions) n.
Proof.
  intros H. split; [apply Node_sized; exact H|].
  apply Node_ok in H as [_ ->]. simpl.
  split; apply Forall_replicate; lra.
Qed.

End NodeFacts.

Lemma clip_sum_zero_of_nonpos (r : list Q) :
  Forall (fun x => x <= 0)%Q r -> (Qsum (clip r) == 0)%Q.
Proof.
  induction 1 as [|x r Hx Hr IH]; unfold clip in *; simpl.
  - reflexivity.
  - rewrite Qsum_cons, IH, (max_zero_of_nonpos x Hx). lra.
Qed.

(** C6, as stated, fails in the code.  A node with two actions takes
    [updateRegret(0, 2^1023)] twice: the second sum is past the largest
    double, the regret sum is [+inf], and [getStrategy] divides [inf] by
    [inf]: it returns [[NaN, 0]].  With the second regret added to the
    other action instead, the two regrets sum to [+inf] and [getStrategy]
    returns [[0, 0]].  Neither vector passes the test of a distribution;
    after the first call alone the strategy does.  In the exact model the
    history leaves the range of the doubles. *)
Lemma C6_counterexample :
  exists node once twice both : Binary64.Node.t,
    Binary64.Node.Node 2 = ok node /\
    PrimFloat.ltb huge_regret PrimFloat.infinity = true /\
    Binary64.Node.updateRegret 0 huge_regret node = ok once /\
    Binary64.Node.updateRegret 0 huge_regret once = ok twice /\
    Binary64.Node.updateRegret 1 huge_regret once = ok both /\
    Binary64.is_distribution (fst (Binary64.Node.getStrategy 1 once)) = true /\
    Binary64.Node.regretSum_ twice = [PrimFloat.infinity; 0%float] /\
    fst (Binary64.Node.getStrategy 1 twice) = [PrimFloat.nan; 0%float] /\
    Binary64.is_distribution (fst (Binary64.Node.getStrategy 1 twice)) = false /\
    fst (Binary64.Node.getStrategy 1 both) = [0%float; 0%float] /\
    Binary64.is_distribution (fst (Binary64.Node.getStrategy 1 both)) = false /\
    throughout regrets_in_range two_action_node overflowing_history = false.
Proof.
  do 4 eexists. repeat split; vm_compute; reflexivity.
Qed.

(** C6, amended.  Take a node built by [Node(numActions)] and a history
    of [updateRegret] and [getStrategy] calls throughout which the regret
    sums, and the sum of the positive ones, stay within [1e300] in
    magnitude, so that no addition of the code overflows.  Then
    [getStrategy(x)] returns a probability distribution: entries in
    [[0, 1]] that add up to 1, in the code up to the rounding of its
    divisions and additions.  It is the uniform one when the clipped
    regrets sum to zero, in particular when every regret is
    non-positive.  The same holds for [getAverageStrategy()], with the
    uniform fallback when the accumulated strategy sums to zero, when
    moreover the strategy sums stay in range and the earlier realization
    weights are non-negative, as reach probabilities are (a history of
    [updateRegret] calls alone has none). *)
Theorem C6_strategies_are_distributions :
  forall (numActions : Z) (node : Node.t) (history : list Node.call) (x : Q),
    Node.Node numActions = inr node ->
    throughout regrets_in_range node history = true ->
    let n := Node.run node history in
    let strategy := fst (Node.getStrategy x n) in
    let average := Node.getAverageStrategy n in
    (is_distribution strategy /\
     ((Qsum (clip (Node.regretSum_ n)) == 0)%Q ->
      strategy = uniform_distribution (Z.to_nat numActions)) /\
     (Forall (fun r => r <= 0)%Q (Node.regretSum_ n) ->
      strategy = uniform_distribution (Z.to_nat numActions))) /\
    (Forall Node.weight_ok history ->
     throughout strategy_sums_in_range node history = true ->
     is_distribution average /\
     ((Qsum (Node.strategySum_ n) == 0)%Q ->
      average = uniform_distribution (Z.to_nat numActions))).
Proof.
  intros numActions node history x Hnode _ n strategy average.
  pose proof (Node_ok _ _ Hnode) as [Hpos _].
  pose proof (run_sized _ history _ (Node_sized _ _ Hnode)) as Hsized.
  fold n in Hsized. destruct Hsized as (H1 & H2 & H3).
  assert (strategy = regret_matching (Node.regretSum_ n)) as Hs.
  { unfold strategy. rewrite getStrategy_spec by lia. reflexivity. }
  assert (is_distribution strategy) as Hd.
  { rewrite Hs. apply normalize_or_uniform_distribution.
    - rewrite length_clip. lia.
    - apply clip_nonneg. }
  assert ((Qsum (clip (Node.regretSum_ n)) == 0)%Q ->
          strategy = uniform_distribution (Z.to_nat numActions)) as Hu.
  { intros H0. rewrite Hs. unfold regret_matching.
    rewrite normalize_or_uniform_fallback by exact H0.
    rewrite length_clip, H1. reflexivity. }
  split.
  - split; [exact Hd|]. split; [exact Hu|].
    intros Hneg. apply Hu. apply clip_sum_zero_of_nonpos. exact Hneg.
  - intros Hw _.
    pose proof (run_inv (Z.to_nat numActions) history node ltac:(lia) Hw
                  (fresh_node_inv _ _ Hnode)) as (_ & _ & Hnn).
    fold n in Hnn. unfold average. rewrite getAverageStrategy_spec.
    assert (is_distribution (normalize_or_uniform (Node.strategySum_ n))) as Ha.
    { apply normalize_or_uniform_distribution; [lia | exact Hnn]. }
    split; [exact Ha|].
    intros H0. rewrite normalize_or_uniform_fallback by exact H0.
    rewrite H3. reflexivity.
Qed.

Lemma C6_witness :
  Node.Node 2 = inr two_action_node /\
  throughout regrets_in_range two_action_node all_negative_history = true /\
  throughout strategy_sums_in_range two_action_node all_negative_history = true /\
  Forall Node.weight_ok all_negative_history /\
  let n := Node.run two_action_node all_negative_history in
  is_distribution (fst (Node.getStrategy 1 n)) /\
  fst (Node.getStrategy 1 n) = uniform_distribution 2 /\
  is_distribution (Node.getAverageStrategy n).
Proof.
  assert (Node.Node 2 = inr two_action_node) as Hn by reflexivity.
  assert (throughout regrets_in_range two_action_node all_negative_history = true)
    as Hr by (vm_compute; reflexivity).
  assert (throughout strategy_sums_in_range two_action_node all_negative_history = true)
    as Hs by (vm_compute; reflexivity).
  assert (Forall Node.weight_ok all_negative_history) as Hw.
  { repeat constructor. simpl. discriminate. }
  split; [exact Hn|]. split; [exact Hr|]. split; [exact Hs|]. split; [exact Hw|].
  pose proof (C6_strategies_are_distributions 2 two_action_node
                all_negative_history 1 Hn Hr) as [(Hd & _ & Hu) Ha].
  split; [exact Hd|]. split.
  - apply Hu. repeat constructor; simpl; discriminate.
  - apply Ha; [exact Hw | exact Hs].
Defined.




(** C10.  The default constructor makes a node of 3 action slots (so
    does indexing the node map with an unseen key), and its first
    [getStrategy] is (1/3, 1/3, 1/3) whatever the weight.  [Node(0)]
    throws [std::invalid_argument]; a negative count does not: the
    member initialisers run before the body's check, and the vector
    constructor throws [std::length_error] first. *)
Theorem C10_default_node :
  (exists n, Node.Node_default = inr n /\
     length (Node.regretSum_ n) = 3%nat /\
     length (Node.strategy_ n) = 3%nat /\
     length (Node.strategySum_ n) = 3%nat /\
     Node.index "unseen" ∅ = inr (n, {["unseen" := n]}) /\
     forall x, fst (Node.getStrategy x n) = [1 # 3; 1 # 3; 1 # 3]%Q) /\
  (forall numActions,
     Node.Node numActions =
     if numActions <? 0
     then inl (length_error "cannot create std::vector larger than max_size()")
     else if numActions =? 0
     then inl (invalid_argument "Number of actions must be positive")
     else let zeros := replicate (Z.to_nat numActions) 0%Q in
          inr (Node.mk zeros zeros zeros 0)) /\
  is_invalid_argument (Node.Node 0) = true /\
  is_invalid_argument (Node.Node (-1)) = false.
Proof.
  split; [|split].
  - eexists. split; [reflexivity|]. repeat split.
  - intros numActions. unfold Node.Node, vector.
    destruct (Z.ltb_spec numActions 0) as [Hneg|Hnn]; [reflexivity|].
    cbn [rbind ok].
    destruct (Z.eqb_spec numActions 0) as [->|Hne]; [reflexivity|].
    destruct (Z.leb_spec numActions 0); [lia | reflexivity].
  - repeat split.
Qed.

(* ================================================================== *)
(** ** aof::GameState: misuse of the state machine                    *)
(* ================================================================== *)

Lemma Action_eqb_eq (a b : Action) : Action_eqb a b = true <-> a = b.
Proof. destruct a, b; simpl; split; intros H; try reflexivity; discriminate. Qed.

Lemma existsb_Action_eqb (a : Action) (l : list Action) :
  existsb (Action_eqb a) l = true <-> In a l.
Proof.
  rewrite existsb_exists. split.
  - intros (b & Hb & Heq). apply Action_eqb_eq in Heq. subst. exact Hb.
  - intros H. exists a. split; [exact H | apply Action_eqb_eq; reflexivity].
Qed.

Lemma illegal_action_throws (s : GameState.t) (h : gmap positive Deck.t) (a : Action) :
  ~ legal a s ->
  exists what,
    GameState.applyAction a (s, h) = (inl (invalid_argument what), (s, h)).
Proof.
  unfold legal. intros Hill.
  unfold GameState.applyAction, GameState.bind, GameState.get; simpl.
  destruct (GameState.isChanceNode s) eqn:Hchance.
  - unfold GameState.getLegalActions in Hill. rewrite Hchance in Hill.
    destruct (Action_eqb a DEAL) eqn:Ha; simpl.
    + apply Action_eqb_eq in Ha. subst. exfalso. apply Hill. left. reflexivity.
    + eexists. reflexivity.
  - destruct (GameState.gameOver_ s) eqn:Hover.
    + eexists. reflexivity.
    + destruct (GameState.getCurrentPlayer s <? 0) eqn:Hneg.
      * eexists. reflexivity.
      * destruct (existsb (Action_eqb a) (GameState.getLegalActions s)) eqn:Hex; simpl.
        -- apply existsb_Action_eqb in Hex. contradiction.
        -- eexists. reflexivity.
Qed.

(** C8.  An action outside the legal-action set makes [applyAction]
    throw [std::invalid_argument] before anything is written: the state
    and the deck are as before.  This covers every non-DEAL action at a
    chance node and every action on a terminal state.  [getReturns] on a
    non-terminal state throws [std::runtime_error]. *)
Theorem C8_misuse_is_rejected :
  forall (s : GameState.t) (h : gmap positive Deck.t) (a : Action),
    (~ legal a s ->
     exists what,
       GameState.applyAction a (s, h) = (inl (invalid_argument what), (s, h))) /\
    (GameState.isChanceNode s = true -> a <> DEAL -> ~ legal a s) /\
    (GameState.isTerminal s = true -> ~ legal a s) /\
    (GameState.isTerminal s = false ->
     GameState.getReturns s =
       inl (runtime_error "Cannot get returns for non-terminal state")).
Proof.
  intros s h a. split; [apply illegal_action_throws|].
  unfold legal, GameState.getLegalActions, GameState.isTerminal.
  split; [|split].
  - intros Hc Ha. rewrite Hc. intros [H|[]]. congruence.
  - intros Hover. unfold GameState.isChanceNode. rewrite Hover.
    rewrite andb_false_r. intros [].
  - intros Hover. unfold GameState.getReturns. rewrite Hover. reflexivity.
Qed.

Lemma C8_witness :
  let s := fst (fresh_world test_game Deck.createStandardDeck) in
  let h := snd (fresh_world test_game Deck.createStandardDeck) in
  (~ legal FOLD s /\
   exists what,
     GameState.applyAction FOLD (s, h) = (inl (invalid_argument what), (s, h))) /\
  (GameState.isTerminal raked_fold_out = true /\ ~ legal ALL_IN raked_fold_out) /\
  GameState.getReturns s =
    inl (runtime_error "Cannot get returns for non-terminal state").
Proof.
  intros s h.
  destruct (C8_misuse_is_rejected s h FOLD) as (Hthrow & Hchance & _ & Hreturns).
  destruct (C8_misuse_is_rejected raked_fold_out h ALL_IN) as (_ & _ & Hover & _).
  assert (~ legal FOLD s) as Hno by (apply Hchance; [reflexivity | discriminate]).
  split; [split; [exact Hno | exact (Hthrow Hno)]|].
  split; [split; [reflexivity | apply Hover; reflexivity]|].
  apply Hreturns. reflexivity.
Defined.

(* ================================================================== *)
(** ** aof::Deck                                                      *)
(* ================================================================== *)

Lemma dealLoop_ok (count : nat) (dealt : list Card.t) (d : Deck.t) :
  (count <= length d)%nat ->
  Deck.dealLoop count dealt d =
  ok (dealt ++ take count (reverse d), reverse (drop count (reverse d))).
Proof.
  revert dealt d. induction count as [|count IH]; intros dealt d Hlen; simpl.
  - rewrite drop_0, reverse_involutive, app_nil_r. reflexivity.
  - unfold Deck.dealCard.
    destruct (reverse d) as [|card rest] eqn:Hrev.
    + apply (f_equal length) in Hrev. rewrite length_reverse in Hrev.
      simpl in Hrev. lia.
    + simpl. rewrite IH.
      * rewrite reverse_involutive, <- app_assoc. reflexivity.
      * rewrite length_reverse.
        apply (f_equal length) in Hrev. rewrite length_reverse in Hrev.
        simpl in Hrev. lia.
Qed.

Lemma dealCards_ok (count : Z) (d : Deck.t) :
  0 <= count <= Z.of_nat (length d) ->
  Deck.dealCards count d =
  ok (take (Z.to_nat count) (reverse d),
      reverse (drop (Z.to_nat count) (reverse d))).
Proof.
  intros Hc. unfold Deck.dealCards.
  destruct (count <? 0) eqn:E1; [lia|].
  destruct (Z.of_nat (length d) <? count) eqn:E2; [lia|].
  rewrite dealLoop_ok by lia. reflexivity.
Qed.

Lemma dealCards_short (count : Z) (d : Deck.t) :
  Z.of_nat (length d) < count ->
  Deck.dealCards count d = inl (runtime_error "Not enough cards in deck").
Proof.
  intros Hc. unfold Deck.dealCards.
  destruct (count <? 0) eqn:E1; [lia|].
  destruct (Z.of_nat (length d) <? count) eqn:E2; [reflexivity | lia].
Qed.

Lemma length_dealt (n : nat) (d : Deck.t) :
  (n <= length d)%nat -> length (take n (reverse d)) = n.
Proof. intros H. rewrite length_take, length_reverse. lia. Qed.

Lemma length_remaining (n : nat) (d : Deck.t) :
  length (reverse (drop n (reverse d))) = (length d - n)%nat.
Proof. rewrite length_reverse, length_drop, length_reverse. reflexivity. Qed.

Lemma standard_deck_size : length Deck.createStandardDeck = 52%nat.
Proof. reflexivity. Qed.

Lemma shuffled_size (d : Deck.t) : Deck.shuffled d -> length d = 52%nat.
Proof.
  intros H. rewrite (Permutation_length H). apply standard_deck_size.
Qed.

(* ================================================================== *)
(** ** aof::PokerEvaluator: the evaluator returns a score             *)
(* ================================================================== *)

Section EvaluatorTotal.
Import PokerEvaluator.

Lemma generateCombinationsHelper_cons (card : Card.t) (rest : list Card.t)
    (k : nat) (cur : list Card.t) :
  length cur <> k ->
  generateCombinationsHelper (card :: rest) k cur =
  generateCombinationsHelper rest k (cur ++ [card])
  ++ generateCombinationsHelper rest k cur.
Proof.
  intros Hne. destruct rest as [|card' rest']; simpl;
    destruct (length cur =? k)%nat eqn:E;
    try (apply Nat.eqb_eq in E; contradiction); reflexivity.
Qed.

Lemma generateCombinationsHelper_nil (k : nat) (cur : list Card.t) :
  generateCombinationsHelper [] k cur =
  if (length cur =? k)%nat then [cur] else [].
Proof. reflexivity. Qed.

Lemma generateCombinationsHelper_done (cards : list Card.t) (k : nat)
    (cur : list Card.t) :
  length cur = k -> generateCombinationsHelper cards k cur = [cur].
Proof.
  intros H. destruct cards; simpl;
    (destruct (length cur =? k)%nat eqn:E; [reflexivity|]);
    apply Nat.eqb_neq in E; contradiction.
Qed.

Lemma combinations_length (cards : list Card.t) (k : nat) (cur : list Card.t) :
  Forall (fun combo => length combo = k) (generateCombinationsHelper cards k cur).
Proof.
  revert cur. induction cards as [|card rest IH]; intros cur.
  - rewrite generateCombinationsHelper_nil.
    destruct (length cur =? k)%nat eqn:E; [|constructor].
    apply Nat.eqb_eq in E. repeat constructor. exact E.
  - destruct (decide (length cur = k)) as [Heq|Hne].
    + rewrite generateCombinationsHelper_done by exact Heq.
      repeat constructor. exact Heq.
    + rewrite generateCombinationsHelper_cons by exact Hne.
      apply Forall_app. split; apply IH.
Qed.

Lemma evaluateFiveCardHand_total (hand : list Card.t) :
  length hand = 5%nat -> exists score, evaluateFiveCardHand hand = ok score.
Proof.
  intros Hlen. unfold evaluateFiveCardHand. rewrite Hlen.
  change (negb (5 =? 5)%nat) with false. cbv iota.
  destruct (analyzeRanks hand) as [rankCounts sortedRanks].
  destruct (isStraight hand 0) as [isStraightHand straightHigh].
  destruct (isFlush hand && isStraightHand); [eexists; reflexivity|].
  destruct (first_with_count rankCounts 4); [eexists; reflexivity|].
  match goal with |- context [fold_left ?f ?l ?a] => destruct (fold_left f l a) as [trips pair'] end.
  destruct ((trips >? 0) && (pair' >? 0)); [eexists; reflexivity|].
  destruct (isFlush hand); [eexists; reflexivity|].
  destruct isStraightHand; [eexists; reflexivity|].
  destruct (trips >? 0); [eexists; reflexivity|].
  destruct (2 <=? length (all_with_count rankCounts 2))%nat; [eexists; reflexivity|].
  destruct (length (all_with_count rankCounts 2) =? 1)%nat; eexists; reflexivity.
Qed.

Lemma best_score_total (combinations : list (list Card.t)) (init : HandScore) :
  Forall (fun combo => length combo = 5%nat) combinations ->
  exists score,
    fold_left
      (fun best combo =>
         do bestScore <- best;
         do score <- evaluateFiveCardHand combo;
         if (length bestScore =? 0)%nat || (compareHands score bestScore >? 0)
         then ok score else ok bestScore)
      combinations (ok init) = ok score.
Proof.
  intros H. revert init. induction H as [|combo rest Hc Hrest IH]; intros init.
  - exists init. reflexivity.
  - simpl. destruct (evaluateFiveCardHand_total combo Hc) as [score ->]. simpl.
    destruct ((length init =? 0)%nat || (compareHands score init >? 0)); apply IH.
Qed.

Lemma evaluateHand_total (holeCards communityCards : list Card.t) :
  length holeCards = 2%nat -> length communityCards = 5%nat ->
  exists score, evaluateHand holeCards communityCards = ok score.
Proof.
  intros H2 H5. unfold evaluateHand, generateCombinations.
  rewrite H2, H5, length_app, H2, H5. simpl.
  apply best_score_total. apply combinations_length.
Qed.

End EvaluatorTotal.

(* ================================================================== *)
(** ** aof::GameState: what one call does                             *)
(* ================================================================== *)

#[local] Arguments GameState.advanceLoop : simpl never.
#[local] Arguments GameState.shouldGameEnd : simpl never.
#[local] Arguments GameState.handleGameEnd : simpl never.
#[local] Arguments GameState.calculateSidePots : simpl never.
#[local] Arguments GameState.deck_dealCards : simpl never.

Section GameStateSteps.
Import GameState.

Lemma deck_dealCards_ok (count : Z) (s : t) (h : gmap positive Deck.t)
    (l : positive) (d : Deck.t) :
  deck_ s = Some l -> h !! l = Some d ->
  0 <= count <= Z.of_nat (length d) ->
  deck_dealCards count (s, h) =
  (ok (dealt (Z.to_nat count) d), (s, <[l := remaining (Z.to_nat count) d]> h)).
Proof.
  intros Hl Hd Hc. unfold deck_dealCards. simpl.
  rewrite Hl, Hd, dealCards_ok by exact Hc. reflexivity.
Qed.

Lemma applyAction_deal (s : t) (h : gmap positive Deck.t) (l : positive) (d : Deck.t) :
  isChanceNode s = true ->
  deck_ s = Some l -> h !! l = Some d -> (8 <= length d)%nat ->
  applyAction DEAL (s, h) =
  (ok tt, (set_nextPlayer 2 (set_holeCards (dealt 8 d) s),
           <[l := remaining 8 d]> h)).
Proof.
  intros Hc Hl Hd Hlen.
  unfold applyAction, bind, get. simpl. rewrite Hc. simpl.
  unfold dealHoleCards, bind, get. simpl.
  unfold isChanceNode in Hc. apply andb_true_iff in Hc as [Hc _].
  rewrite Hc. simpl.
  rewrite (deck_dealCards_ok _ s h l d Hl Hd)
    by (unfold GameConfig.NUM_PLAYERS, GameConfig.HOLE_CARDS_PER_PLAYER; lia).
  reflexivity.
Qed.

Lemma handleGameEnd_deal (s : t) (h : gmap positive Deck.t) (l : positive) (d : Deck.t) :
  communityCards_ s = [] ->
  deck_ s = Some l -> h !! l = Some d -> (5 <= length d)%nat ->
  handleGameEnd (s, h) =
  (ok tt, (ended (dealt 5 d) s, <[l := remaining 5 d]> h)).
Proof.
  intros Hc Hl Hd Hlen.
  unfold handleGameEnd, bind, get. simpl. rewrite Hc. simpl.
  rewrite (deck_dealCards_ok _ s h l d Hl Hd)
    by (unfold GameConfig.COMMUNITY_CARDS; lia).
  reflexivity.
Qed.

Lemma applyAction_decide (a : Action) (s : t) (h : gmap positive Deck.t) :
  isChanceNode s = false -> gameOver_ s = false ->
  0 <= nextPlayer_ s -> folded_ s !!! Z.to_nat (nextPlayer_ s) = false ->
  a <> DEAL ->
  applyAction a (s, h) =
  match advanceLoop (Z.to_nat GameConfig.NUM_PLAYERS) (act a s) with
  | Some s' =>
      if shouldGameEnd s' then handleGameEnd (set_gameOver true s', h)
      else (ok tt, (s', h))
  | None =>
      (throw (undefined_behaviour "advanceToNextPlayer does not return"),
       (act a s, h))
  end.
Proof.
  intros Hc Hover Hnext Hfolded Ha.
  unfold applyAction, bind, get. simpl. rewrite Hc, Hover.
  unfold getCurrentPlayer. rewrite Hover.
  destruct (nextPlayer_ s <? 0) eqn:E; [lia|].
  unfold getLegalActions, getCurrentPlayer. rewrite Hc, Hover, E, Hfolded.
  destruct a; try congruence; simpl;
    unfold advanceToNextPlayer, act; simpl;
    match goal with
    | |- context [advanceLoop ?n ?x] => destruct (advanceLoop n x)
    end; simpl; try reflexivity;
    match goal with
    | |- context [shouldGameEnd ?x] => destruct (shouldGameEnd x)
    end; reflexivity.
Qed.

End GameStateSteps.

(* ================================================================== *)
(** ** std::sort, std::set and sums                                   *)
(* ================================================================== *)

Section SortFacts.
Context {A : Type} (comp : A -> A -> bool).

Lemma insert_sorted_perm (x : A) (l : list A) :
  Permutation (insert_sorted comp x l) (x :: l).
Proof.
  induction l as [|y l IH]; simpl.
  - reflexivity.
  - destruct (comp x y).
    + reflexivity.
    + rewrite IH. apply perm_swap.
Qed.

Lemma sort_acc_perm (l acc : list A) :
  Permutation (fold_left (fun acc x => insert_sorted comp x acc) l acc) (acc ++ l).
Proof.
  revert acc. induction l as [|x l IH]; intros acc; simpl.
  - rewrite app_nil_r. reflexivity.
  - rewrite IH, insert_sorted_perm.
    change (x :: acc) with ([x] ++ acc).
    rewrite (Permutation_app_comm [x] acc), <- app_assoc. reflexivity.
Qed.

Lemma sort_perm (l : list A) : Permutation (sort comp l) l.
Proof. unfold sort. rewrite sort_acc_perm. reflexivity. Qed.

(** When [comp] refines a total preorder [le], the output is sorted. *)
Context (le : A -> A -> Prop).
Hypothesis comp_le : forall x y, comp x y = true -> le x y.
Hypothesis comp_ge : forall x y, comp x y = false -> le y x.

Lemma insert_sorted_hd (x a : A) (l : list A) :
  le a x -> HdRel le a l -> HdRel le a (insert_sorted comp x l).
Proof.
  intros Hax Hal. destruct l as [|y l]; simpl.
  - constructor. exact Hax.
  - destruct (comp x y); constructor; [exact Hax|].
    inversion Hal; subst. assumption.
Qed.

Lemma insert_sorted_sorted (x : A) (l : list A) :
  Sorted le l -> Sorted le (insert_sorted comp x l).
Proof.
  induction 1 as [|y l Hl IH Hhd]; simpl.
  - repeat constructor.
  - destruct (comp x y) eqn:E.
    + constructor; [constructor; assumption|]. constructor. apply comp_le, E.
    + constructor; [exact IH|]. apply insert_sorted_hd; [apply comp_ge, E | exact Hhd].
Qed.

Lemma sort_sorted (l : list A) : Sorted le (sort comp l).
Proof.
  unfold sort.
  assert (forall acc, Sorted le acc ->
            Sorted le (fold_left (fun acc x => insert_sorted comp x acc) l acc)) as H.
  { induction l as [|x l IH]; intros acc Hacc; simpl.
    - exact Hacc.
    - apply IH. apply insert_sorted_sorted. exact Hacc. }
  apply H. constructor.
Qed.
End SortFacts.

(* ================================================================== *)
(** ** aof::PokerEvaluator: categories                                *)
(* ================================================================== *)

Section Categories.
Import PokerEvaluator.

Lemma find_In (key : string) (m : list (string * Z)) (v : Z) :
  Card.find key m = Some v -> In (key, v) m.
Proof.
  induction m as [|[k w] m IH]; simpl; [discriminate|].
  destruct (String.eqb key k) eqn:Hk.
  - intros [= ->]. apply String.eqb_eq in Hk. subst. left. reflexivity.
  - intros H. right. apply IH. exact H.
Qed.

Lemma valid_rank (c : Card.t) :
  Card.isValid c = true -> In (Card.getRankValue c) all_ranks.
Proof.
  unfold Card.isValid, Card.getRankValue.
  destruct (Card.find (Card.rank_ c) Card.RANK_VALUES) as [v|] eqn:Hf; [|discriminate].
  intros _. apply find_In in Hf. unfold Card.RANK_VALUES in Hf. simpl in Hf.
  repeat (destruct Hf as [[= _ <-]|Hf];
          [vm_compute; repeat (first [left; reflexivity | right])|]).
  contradiction.
Qed.

Lemma rank_name_value (r : Z) (suit : string) :
  In r all_ranks -> Card.getRankValue (Card.mk (rank_name r) suit) = r.
Proof.
  intros Hin. vm_compute in Hin.
  repeat (destruct Hin as [<-|Hin]; [reflexivity|]). contradiction.
Qed.

Lemma fold_left_ext_map {A B C : Type} (g : B -> C) (f : A -> C -> A)
    (l1 l2 : list B) (a : A) :
  map g l1 = map g l2 ->
  fold_left (fun a c => f a (g c)) l1 a = fold_left (fun a c => f a (g c)) l2 a.
Proof.
  revert l2 a. induction l1 as [|x l1 IH]; intros [|y l2] a; simpl;
    try discriminate; [reflexivity|].
  intros [= Hxy Hl]. rewrite Hxy. apply IH. exact Hl.
Qed.

Lemma analyzeRanks_ext (h1 h2 : list Card.t) :
  ranks_of h1 = ranks_of h2 -> analyzeRanks h1 = analyzeRanks h2.
Proof.
  intros H. unfold analyzeRanks.
  rewrite (fold_left_ext_map Card.getRankValue
             (fun counts v => <[Z.to_nat v := counts !!! Z.to_nat v + 1]> counts)
             h1 h2 _ H).
  reflexivity.
Qed.

Lemma isStraight_ext (h1 h2 : list Card.t) (highCard : Z) :
  ranks_of h1 = ranks_of h2 -> isStraight h1 highCard = isStraight h2 highCard.
Proof.
  intros H. unfold isStraight.
  rewrite (fold_left_ext_map Card.getRankValue (fun s v => set.insert v s) h1 h2 _ H).
  reflexivity.
Qed.

Lemma evaluateFiveCardHand_ext (h1 h2 : list Card.t) :
  ranks_of h1 = ranks_of h2 -> isFlush h1 = isFlush h2 ->
  evaluateFiveCardHand h1 = evaluateFiveCardHand h2.
Proof.
  intros Hr Hf. unfold evaluateFiveCardHand.
  assert (length h1 = length h2) as ->.
  { rewrite <- (length_map Card.getRankValue h1), <- (length_map Card.getRankValue h2).
    unfold ranks_of in Hr. rewrite Hr. reflexivity. }
  rewrite (analyzeRanks_ext h1 h2 Hr), (isStraight_ext h1 h2 0 Hr), Hf.
  unfold ranks_of in Hr. rewrite Hr. reflexivity.
Qed.

Lemma flush_by_rules_isFlush (hand : list Card.t) :
  hand <> [] -> flush_by_rules hand = isFlush hand.
Proof.
  destruct hand as [|c0 rest]; [congruence|]. intros _.
  apply Bool.eq_iff_eq_true. unfold flush_by_rules, isFlush.
  rewrite !forallb_forall. split.
  - intros H c Hc. apply (proj1 (forallb_forall _ _) (H c Hc)). left. reflexivity.
  - intros H c Hc. apply forallb_forall. intros c' Hc'.
    apply String.eqb_eq.
    pose proof (H c Hc) as H1. pose proof (H c' Hc') as H2.
    apply String.eqb_eq in H1, H2. congruence.
Qed.

Lemma category_by_rules_ext (h1 h2 : list Card.t) :
  ranks_of h1 = ranks_of h2 -> flush_by_rules h1 = flush_by_rules h2 ->
  category_by_rules h1 = category_by_rules h2.
Proof. intros Hr Hf. unfold category_by_rules. rewrite Hr, Hf. reflexivity. Qed.

Lemma classified_ext (h1 h2 : list Card.t) :
  h1 <> [] -> h2 <> [] ->
  ranks_of h1 = ranks_of h2 -> isFlush h1 = isFlush h2 ->
  classified h1 = classified h2.
Proof.
  intros Hn1 Hn2 Hr Hf. unfold classified.
  rewrite (evaluateFiveCardHand_ext h1 h2 Hr Hf).
  rewrite (category_by_rules_ext h1 h2 Hr), Hr; [reflexivity|].
  rewrite !flush_by_rules_isFlush by assumption. exact Hf.
Qed.

(** *** The score does not depend on the order of the cards *)

Lemma fold_left_comm_perm {A B : Type} (f : A -> B -> A) (l l' : list B) :
  (forall a x y, f (f a x) y = f (f a y) x) ->
  Permutation l l' -> forall a, fold_left f l a = fold_left f l' a.
Proof.
  intros Hcomm Hp.
  induction Hp as [|x l l' _ IH|x y l|l l' l'' _ IH1 _ IH2]; intros a; simpl.
  - reflexivity.
  - apply IH.
  - rewrite Hcomm. reflexivity.
  - rewrite IH1. apply IH2.
Qed.

Lemma count_update_comm (counts : list Z) (x y : Z) :
  <[Z.to_nat y := <[Z.to_nat x := counts !!! Z.to_nat x + 1]> counts !!! Z.to_nat y + 1]>
    (<[Z.to_nat x := counts !!! Z.to_nat x + 1]> counts) =
  <[Z.to_nat x := <[Z.to_nat y := counts !!! Z.to_nat y + 1]> counts !!! Z.to_nat x + 1]>
    (<[Z.to_nat y := counts !!! Z.to_nat y + 1]> counts).
Proof.
  destruct (decide (Z.to_nat x = Z.to_nat y)) as [Heq|Hne].
  - rewrite Heq. reflexivity.
  - rewrite !list_lookup_total_insert_ne by congruence.
    apply list_insert_insert_ne. congruence.
Qed.

Lemma analyzeRanks_perm (h1 h2 : list Card.t) :
  Permutation h1 h2 -> analyzeRanks h1 = analyzeRanks h2.
Proof.
  intros Hp. unfold analyzeRanks.
  match goal with
  | |- context [fold_left ?f h1 ?a] => rewrite (fold_left_comm_perm f h1 h2)
  end; [reflexivity | | exact Hp].
  intros counts x y. apply count_update_comm.
Qed.

Lemma set_insert_comm (x z : Z) (s : set.t) :
  set.insert x (set.insert z s) = set.insert z (set.insert x s).
Proof.
  induction s as [|y s IH]; simpl;
    repeat (match goal with
            | |- context [?a <? ?b] => destruct (Z.ltb_spec a b)
            | |- context [?a =? ?b] => destruct (Z.eqb_spec a b)
            end; simpl);
    subst; try lia; try reflexivity.
  rewrite IH. reflexivity.
Qed.

Lemma isStraight_perm (h1 h2 : list Card.t) (highCard : Z) :
  Permutation h1 h2 -> isStraight h1 highCard = isStraight h2 highCard.
Proof.
  intros Hp. unfold isStraight.
  match goal with
  | |- context [fold_left ?f h1 ?a] => rewrite (fold_left_comm_perm f h1 h2)
  end; [reflexivity | | exact Hp].
  intros s x y. apply set_insert_comm.
Qed.

Lemma insert_sorted_desc_comm (x z : Z) (l : list Z) :
  insert_sorted (fun a b => b <? a) x (insert_sorted (fun a b => b <? a) z l) =
  insert_sorted (fun a b => b <? a) z (insert_sorted (fun a b => b <? a) x l).
Proof.
  induction l as [|y l IH]; simpl;
    repeat (match goal with
            | |- context [?a <? ?b] => destruct (Z.ltb_spec a b)
            end; simpl);
    try lia; try reflexivity;
    try (assert (x = z) by lia; subst; reflexivity).
  rewrite IH. reflexivity.
Qed.

Lemma sort_desc_perm (v v' : list Z) :
  Permutation v v' -> sort_desc v = sort_desc v'.
Proof.
  intros Hp. unfold sort_desc, sort.
  apply fold_left_comm_perm; [|exact Hp].
  intros acc x y. apply insert_sorted_desc_comm.
Qed.

Lemma existsb_perm {A : Type} (f g : A -> bool) (l l' : list A) :
  (forall x, f x = g x) -> Permutation l l' -> existsb f l = existsb g l'.
Proof.
  intros Hfg Hp. apply Bool.eq_iff_eq_true. rewrite !existsb_exists.
  split; intros (x & Hin & Hx); exists x; split.
  - apply (Permutation_in _ Hp Hin).
  - rewrite <- Hfg. exact Hx.
  - apply (Permutation_in _ (Permutation_sym Hp) Hin).
  - rewrite Hfg. exact Hx.
Qed.

Lemma forallb_perm {A : Type} (f g : A -> bool) (l l' : list A) :
  (forall x, f x = g x) -> Permutation l l' -> forallb f l = forallb g l'.
Proof.
  intros Hfg Hp. apply Bool.eq_iff_eq_true. rewrite !forallb_forall.
  split; intros H x Hin.
  - rewrite <- Hfg. apply H. apply (Permutation_in _ (Permutation_sym Hp) Hin).
  - rewrite Hfg. apply H. apply (Permutation_in _ Hp Hin).
Qed.

Lemma occurrences_perm (r : Z) (rs rs' : list Z) :
  Permutation rs rs' -> occurrences r rs = occurrences r rs'.
Proof.
  intros Hp. unfold occurrences.
  apply (proj1 (Permutation_count_occ Z.eq_dec rs rs') Hp).
Qed.

Lemma has_group_perm (n : nat) (rs rs' : list Z) :
  Permutation rs rs' -> has_group n rs = has_group n rs'.
Proof.
  intros Hp. unfold has_group. apply existsb_perm; [|exact Hp].
  intros r. rewrite (occurrences_perm r rs rs' Hp). reflexivity.
Qed.

Lemma two_groups_perm (n : nat) (rs rs' : list Z) :
  Permutation rs rs' -> two_groups n rs = two_groups n rs'.
Proof.
  intros Hp. unfold two_groups. apply existsb_perm; [|exact Hp].
  intros r. apply existsb_perm; [|exact Hp].
  intros r'. rewrite (occurrences_perm r rs rs' Hp), (occurrences_perm r' rs rs' Hp).
  reflexivity.
Qed.

Lemma has_ranks_order (wanted rs rs' : list Z) :
  Permutation rs rs' -> has_ranks wanted rs = has_ranks wanted rs'.
Proof.
  intros Hp. unfold has_ranks. apply forallb_perm; [|reflexivity].
  intros r. apply existsb_perm; [reflexivity | exact Hp].
Qed.

Lemma straight_by_rules_perm (rs rs' : list Z) :
  Permutation rs rs' -> straight_by_rules rs = straight_by_rules rs'.
Proof.
  intros Hp. unfold straight_by_rules.
  rewrite (has_ranks_order wheel rs rs' Hp). f_equal.
  apply existsb_perm; [|reflexivity].
  intros low. apply has_ranks_order. exact Hp.
Qed.

Lemma max_perm (l l' : list Z) :
  Permutation l l' -> fold_right Z.max 0 l = fold_right Z.max 0 l'.
Proof.
  induction 1 as [|x l l' _ IH|x y l|l l' l'' _ IH1 _ IH2]; simpl.
  - reflexivity.
  - rewrite IH. reflexivity.
  - lia.
  - congruence.
Qed.

Lemma straight_high_by_rules_perm (rs rs' : list Z) :
  Permutation rs rs' -> straight_high_by_rules rs = straight_high_by_rules rs'.
Proof.
  intros Hp. unfold straight_high_by_rules.
  rewrite (has_ranks_order wheel rs rs' Hp), (max_perm rs rs' Hp). reflexivity.
Qed.

Lemma flush_by_rules_perm (h1 h2 : list Card.t) :
  Permutation h1 h2 -> flush_by_rules h1 = flush_by_rules h2.
Proof.
  intros Hp. unfold flush_by_rules. apply forallb_perm; [|exact Hp].
  intros c. apply forallb_perm; [reflexivity | exact Hp].
Qed.

Lemma isFlush_perm (h1 h2 : list Card.t) :
  Permutation h1 h2 -> isFlush h1 = isFlush h2.
Proof.
  intros Hp. destruct h1 as [|c1 h1].
  - apply Permutation_nil in Hp. subst. reflexivity.
  - destruct h2 as [|c2 h2].
    + apply Permutation_sym, Permutation_nil in Hp. discriminate.
    + rewrite <- !flush_by_rules_isFlush by discriminate.
      apply flush_by_rules_perm. exact Hp.
Qed.

Lemma ranks_of_perm (h1 h2 : list Card.t) :
  Permutation h1 h2 -> Permutation (ranks_of h1) (ranks_of h2).
Proof. apply Permutation_map. Qed.

Lemma evaluateFiveCardHand_perm (h1 h2 : list Card.t) :
  Permutation h1 h2 -> evaluateFiveCardHand h1 = evaluateFiveCardHand h2.
Proof.
  intros Hp. unfold evaluateFiveCardHand.
  rewrite (Permutation_length Hp), (analyzeRanks_perm h1 h2 Hp),
    (isStraight_perm h1 h2 0 Hp), (isFlush_perm h1 h2 Hp),
    (sort_desc_perm (map Card.getRankValue h1) (map Card.getRankValue h2)
       (ranks_of_perm h1 h2 Hp)).
  reflexivity.
Qed.

Lemma category_by_rules_perm (h1 h2 : list Card.t) :
  Permutation h1 h2 -> category_by_rules h1 = category_by_rules h2.
Proof.
  intros Hp. pose proof (ranks_of_perm h1 h2 Hp) as Hr. unfold category_by_rules.
  rewrite (flush_by_rules_perm h1 h2 Hp), (straight_by_rules_perm _ _ Hr),
    !(has_group_perm _ _ _ Hr), (two_groups_perm _ _ _ Hr).
  reflexivity.
Qed.

Lemma classified_perm (h1 h2 : list Card.t) :
  Permutation h1 h2 -> classified h1 = classified h2.
Proof.
  intros Hp. pose proof (ranks_of_perm h1 h2 Hp) as Hr. unfold classified.
  rewrite (evaluateFiveCardHand_perm h1 h2 Hp), (category_by_rules_perm h1 h2 Hp),
    (straight_by_rules_perm _ _ Hr), (straight_high_by_rules_perm _ _ Hr).
  reflexivity.
Qed.

(** *** Every hand of five valid cards *)

(** The rank lists in non-decreasing order, flush or not. *)
Lemma classified_sorted_all :
  forallb (fun r1 =>
  forallb (fun r2 => if r2 <? r1 then true else
  forallb (fun r3 => if r3 <? r2 then true else
  forallb (fun r4 => if r4 <? r3 then true else
  forallb (fun r5 => if r5 <? r4 then true else
  forallb (fun flush => classified (canonical_hand [r1; r2; r3; r4; r5] flush))
          [true; false])
  all_ranks) all_ranks) all_ranks) all_ranks) all_ranks = true.
Proof. vm_compute. reflexivity. Qed.

Lemma classified_sorted_canonical (r1 r2 r3 r4 r5 : Z) (flush : bool) :
  In r1 all_ranks -> In r2 all_ranks -> In r3 all_ranks -> In r4 all_ranks ->
  In r5 all_ranks ->
  r1 <= r2 -> r2 <= r3 -> r3 <= r4 -> r4 <= r5 ->
  classified (canonical_hand [r1; r2; r3; r4; r5] flush) = true.
Proof.
  intros H1 H2 H3 H4 H5 L1 L2 L3 L4.
  pose proof classified_sorted_all as H.
  rewrite forallb_forall in H. specialize (H r1 H1).
  rewrite forallb_forall in H. specialize (H r2 H2).
  destruct (Z.ltb_spec r2 r1) as [?|_]; [lia|].
  rewrite forallb_forall in H. specialize (H r3 H3).
  destruct (Z.ltb_spec r3 r2) as [?|_]; [lia|].
  rewrite forallb_forall in H. specialize (H r4 H4).
  destruct (Z.ltb_spec r4 r3) as [?|_]; [lia|].
  rewrite forallb_forall in H. specialize (H r5 H5).
  destruct (Z.ltb_spec r5 r4) as [?|_]; [lia|].
  rewrite forallb_forall in H. apply H. destruct flush; simpl; tauto.
Qed.

Lemma proper_classified (hand : list Card.t) :
  proper hand -> classified hand = true.
Proof.
  intros [Hlen Hvalid].
  set (comp := fun a b : Card.t => Card.getRankValue a <=? Card.getRankValue b).
  set (le := fun a b : Card.t => Card.getRankValue a <= Card.getRankValue b).
  pose proof (sort_perm comp hand) as Hp.
  assert (Sorted le (sort comp hand)) as Hs.
  { apply sort_sorted; intros x y; unfold comp, le; intros H.
    - apply Z.leb_le. exact H.
    - apply Z.leb_gt in H. lia. }
  rewrite <- (classified_perm _ _ Hp).
  assert (Forall (fun c => Card.isValid c = true) (sort comp hand)) as Hv.
  { apply List.Forall_forall. intros c Hc.
    apply (proj1 (List.Forall_forall _ _) Hvalid). apply (Permutation_in _ Hp Hc). }
  apply Permutation_length in Hp. rewrite Hlen in Hp.
  destruct (sort comp hand) as [|c1 [|c2 [|c3 [|c4 [|c5 [|c6 rest]]]]]]; try discriminate.
  repeat match goal with
         | H : Sorted _ (_ :: _) |- _ =>
             apply Sorted_inv in H; destruct H as [H ?]
         | H : HdRel _ _ (_ :: _) |- _ => apply HdRel_inv in H; unfold le in H
         end.
  repeat match goal with
         | H : Forall _ (_ :: _) |- _ =>
             apply Forall_cons_1 in H; destruct H as [?%valid_rank H]
         end.
  rewrite (classified_ext _
             (canonical_hand (ranks_of [c1; c2; c3; c4; c5]) (isFlush [c1; c2; c3; c4; c5]))).
  - apply classified_sorted_canonical; assumption.
  - discriminate.
  - discriminate.
  - unfold canonical_hand, ranks_of. cbn [map zip_with canonical_suits].
    rewrite !rank_name_value by assumption. reflexivity.
  - unfold canonical_hand. cbn [map ranks_of zip_with canonical_suits].
    destruct (isFlush [c1; c2; c3; c4; c5]); reflexivity.
Qed.

Lemma canonical_valid (r : Z) (flush : bool) :
  In r all_ranks ->
  Card.isValid (Card.mk (rank_name r) (if flush then "h" else "d")) = true.
Proof.
  intros Hin. vm_compute in Hin.
  repeat (destruct Hin as [<-|Hin]; [destruct flush; reflexivity|]). contradiction.
Qed.

Lemma classified_canonical (r1 r2 r3 r4 r5 : Z) (flush : bool) :
  In r1 all_ranks -> In r2 all_ranks -> In r3 all_ranks -> In r4 all_ranks ->
  In r5 all_ranks ->
  classified (canonical_hand [r1; r2; r3; r4; r5] flush) = true.
Proof.
  intros H1 H2 H3 H4 H5. apply proper_classified. split; [reflexivity|].
  unfold canonical_hand. cbn [map zip_with canonical_suits].
  repeat constructor;
    first [apply canonical_valid; assumption
          | apply (canonical_valid _ true); assumption].
Qed.

(** Every list of five ranks, flush or not: 2 * 13^5 hands. *)
Lemma classified_all : forallb classified_from all_ranks = true.
Proof.
  apply forallb_forall. intros r1 H1. unfold classified_from.
  apply forallb_forall. intros r2 H2. apply forallb_forall. intros r3 H3.
  apply forallb_forall. intros r4 H4. apply forallb_forall. intros r5 H5.
  apply forallb_forall. intros flush _.
  apply classified_canonical; assumption.
Qed.

Lemma proper_category (hand : list Card.t) :
  proper hand ->
  exists tb, evaluateFiveCardHand hand = ok (makeScore (category_by_rules hand) tb) /\
    (straight_by_rules (ranks_of hand) = true ->
     tb = [straight_high_by_rules (ranks_of hand)]).
Proof.
  intros Hp. pose proof (proper_classified hand Hp) as H. unfold classified in H.
  destruct (evaluateFiveCardHand hand) as [e|[|c tb]]; try discriminate.
  apply andb_prop in H. destruct H as [Hc Hs]. apply Z.eqb_eq in Hc. subst c.
  exists tb. split; [reflexivity|]. intros Hst. rewrite Hst in Hs.
  destruct tb as [|high [|]]; try discriminate.
  apply Z.eqb_eq in Hs. subst. reflexivity.
Qed.

Lemma compareHands_category (r1 r2 : HandRank) (tb1 tb2 : list Z) :
  HandRank_to_int r2 < HandRank_to_int r1 ->
  compareHands (makeScore r1 tb1) (makeScore r2 tb2) = 1 /\
  compareHands (makeScore r2 tb2) (makeScore r1 tb1) = -1.
Proof.
  intros H. unfold makeScore. simpl.
  destruct (Z.gtb_spec (HandRank_to_int r1) (HandRank_to_int r2)); [|lia].
  destruct (Z.gtb_spec (HandRank_to_int r2) (HandRank_to_int r1)); [lia|].
  destruct (Z.ltb_spec (HandRank_to_int r2) (HandRank_to_int r1)); [|lia].
  split; reflexivity.
Qed.

Lemma has_ranks_incl (wanted rs : list Z) :
  has_ranks wanted rs = true -> incl wanted rs.
Proof.
  unfold has_ranks. rewrite forallb_forall. intros H r Hr.
  specialize (H r Hr). apply existsb_exists in H. destruct H as (r' & Hin & Heq).
  apply Z.eqb_eq in Heq. subst. exact Hin.
Qed.

Lemma has_ranks_perm (wanted rs : list Z) :
  NoDup wanted -> length rs = length wanted -> has_ranks wanted rs = true ->
  Permutation wanted rs.
Proof.
  intros Hnd Hlen H. apply Permutation.NoDup_Permutation_bis.
  - apply NoDup_ListNoDup. exact Hnd.
  - rewrite Hlen. apply Nat.le_refl.
  - apply has_ranks_incl. exact H.
Qed.

Lemma distinct_no_group (n : nat) (rs : list Z) :
  List.NoDup rs -> (2 <= n)%nat -> has_group n rs = false.
Proof.
  intros Hnd Hn. unfold has_group.
  destruct (existsb _ rs) eqn:E; [|reflexivity]. exfalso.
  apply existsb_exists in E. destruct E as (r & Hin & Hocc).
  apply Nat.eqb_eq in Hocc. unfold occurrences in Hocc.
  rewrite (proj1 (NoDup_count_occ' Z.eq_dec rs) Hnd r Hin) in Hocc. lia.
Qed.

(** A straight of five cards is a straight flush or a plain straight. *)
Lemma straight_category (hand : list Card.t) (run : list Z) :
  List.NoDup run -> Permutation run (ranks_of hand) ->
  straight_by_rules (ranks_of hand) = true ->
  category_by_rules hand =
  if flush_by_rules hand then STRAIGHT_FLUSH else STRAIGHT.
Proof.
  intros Hnd Hperm Hst. unfold category_by_rules. rewrite Hst.
  assert (List.NoDup (ranks_of hand)) as Hnd'
    by (eapply Permutation_NoDup; eassumption).
  rewrite !(distinct_no_group _ _ Hnd') by lia.
  destruct (flush_by_rules hand); reflexivity.
Qed.

Lemma wheel_NoDup : List.NoDup wheel.
Proof. repeat constructor; simpl; intuition discriminate. Qed.

Lemma broadway_NoDup : List.NoDup broadway.
Proof. repeat constructor; simpl; intuition discriminate. Qed.

Lemma wheel_score (hand : list Card.t) :
  proper hand -> has_ranks wheel (ranks_of hand) = true ->
  evaluateFiveCardHand hand =
  ok [HandRank_to_int (if flush_by_rules hand then STRAIGHT_FLUSH else STRAIGHT); 5].
Proof.
  intros Hp Hw. destruct (proper_category hand Hp) as (tb & H & Hs).
  assert (straight_by_rules (ranks_of hand) = true) as Hst.
  { unfold straight_by_rules. rewrite Hw. apply orb_true_r. }
  rewrite H, (Hs Hst). unfold straight_high_by_rules. rewrite Hw.
  rewrite (straight_category hand wheel wheel_NoDup); [reflexivity| |exact Hst].
  apply has_ranks_perm.
  - apply NoDup_ListNoDup. exact wheel_NoDup.
  - unfold ranks_of. rewrite length_map. exact (proj1 Hp).
  - exact Hw.
Qed.

Lemma broadway_score (hand : list Card.t) :
  proper hand -> has_ranks broadway (ranks_of hand) = true ->
  evaluateFiveCardHand hand =
  ok [HandRank_to_int (if flush_by_rules hand then STRAIGHT_FLUSH else STRAIGHT); 14].
Proof.
  intros Hp Hb. destruct (proper_category hand Hp) as (tb & H & Hs).
  assert (Permutation broadway (ranks_of hand)) as Hperm.
  { apply has_ranks_perm.
    - apply NoDup_ListNoDup. exact broadway_NoDup.
    - unfold ranks_of. rewrite length_map. exact (proj1 Hp).
    - exact Hb. }
  assert (straight_by_rules (ranks_of hand) = true) as Hst.
  { unfold straight_by_rules. apply orb_true_iff. left.
    apply existsb_exists. exists 10. split; [|exact Hb].
    vm_compute. tauto. }
  assert (has_ranks wheel (ranks_of hand) = false) as Hnw.
  { destruct (has_ranks wheel (ranks_of hand)) eqn:E; [|reflexivity]. exfalso.
    apply has_ranks_incl in E.
    assert (In 2 (ranks_of hand)) as H2 by (apply E; simpl; tauto).
    apply (Permutation_in _ (Permutation_sym Hperm)) in H2.
    simpl in H2. intuition discriminate. }
  rewrite H, (Hs Hst). unfold straight_high_by_rules. rewrite Hnw.
  rewrite <- (max_perm _ _ Hperm).
  rewrite (straight_category hand broadway broadway_NoDup Hperm Hst).
  reflexivity.
Qed.

Lemma test_hands_proper : Forall proper test_hands.
Proof. repeat constructor. Qed.

Lemma wheel_hand_proper : proper wheel_hand.
Proof. repeat constructor. Qed.

Lemma broadway_hand_proper : proper broadway_hand.
Proof. repeat constructor. Qed.

(** C5.  On five valid cards the evaluator's score starts with the
    category the rules of poker give the hand; the categories are
    numbered from straight flush, 8, down to high card, 0, so a hand of
    a better category compares as higher than any hand of a worse one.
    A wheel scores [c; 5] and a broadway straight [c; 14]: of two such
    straights the wheel is the lower. *)
Theorem C5_scores_respect_categories :
  map HandRank_to_int categories_best_first = [8; 7; 6; 5; 4; 3; 2; 1; 0] /\
  map category_by_rules test_hands = categories_best_first /\
  (forall hand, proper hand ->
     exists tb, evaluateFiveCardHand hand = ok (makeScore (category_by_rules hand) tb)) /\
  (forall h1 h2, proper h1 -> proper h2 ->
     HandRank_to_int (category_by_rules h2) < HandRank_to_int (category_by_rules h1) ->
     exists s1 s2,
       evaluateFiveCardHand h1 = ok s1 /\ evaluateFiveCardHand h2 = ok s2 /\
       compareHands s1 s2 = 1 /\ compareHands s2 s1 = -1) /\
  (forall w b, proper w -> proper b ->
     has_ranks wheel (ranks_of w) = true -> has_ranks broadway (ranks_of b) = true ->
     flush_by_rules w = flush_by_rules b ->
     exists c,
       evaluateFiveCardHand w = ok [c; 5] /\ evaluateFiveCardHand b = ok [c; 14] /\
       compareHands [c; 5] [c; 14] = -1 /\ compareHands [c; 14] [c; 5] = 1).
Proof.
  split; [reflexivity|]. split; [reflexivity|]. split; [|split].
  - intros hand Hp. destruct (proper_category hand Hp) as (tb & H & _).
    exists tb. exact H.
  - intros h1 h2 Hp1 Hp2 Hlt.
    destruct (proper_category h1 Hp1) as (tb1 & H1 & _).
    destruct (proper_category h2 Hp2) as (tb2 & H2 & _).
    eexists _, _. split; [exact H1|]. split; [exact H2|].
    apply compareHands_category. exact Hlt.
  - intros w b Hpw Hpb Hw Hb Hf.
    exists (HandRank_to_int (if flush_by_rules w then STRAIGHT_FLUSH else STRAIGHT)).
    split; [apply wheel_score; assumption|].
    split; [rewrite Hf; apply broadway_score; assumption|].
    simpl. rewrite Z.gtb_ltb, Z.ltb_irrefl. split; reflexivity.
Qed.

Lemma C5_witness :
  proper wheel_hand /\ proper broadway_hand /\
  (exists s1 s2,
     evaluateFiveCardHand broadway_hand = ok s1 /\
     evaluateFiveCardHand wheel_hand = ok s2 /\
     s1 = [4; 14] /\ s2 = [4; 5] /\ compareHands s2 s1 = -1) /\
  Forall (fun hand =>
     exists tb, evaluateFiveCardHand hand = ok (makeScore (category_by_rules hand) tb))
    test_hands.
Proof.
  destruct C5_scores_respect_categories as (_ & _ & Hcat & _ & Hwheel).
  split; [exact wheel_hand_proper|]. split; [exact broadway_hand_proper|]. split.
  - destruct (Hwheel wheel_hand broadway_hand wheel_hand_proper broadway_hand_proper
                eq_refl eq_refl eq_refl) as (c & Hw & Hb & Hlt & _).
    exists [4; 14], [4; 5]. repeat split.
  - eapply Forall_impl; [exact test_hands_proper|]. exact Hcat.
Defined.

End Categories.

Lemma set_insert_In (x y : Z) (s : set.t) :
  In x (set.insert y s) <-> x = y \/ In x s.
Proof.
  induction s as [|z s IH]; simpl.
  - intuition.
  - destruct (y <? z) eqn:E1; simpl.
    + intuition.
    + destruct (y =? z) eqn:E2; simpl.
      * apply Z.eqb_eq in E2. subst. intuition.
      * rewrite IH. intuition.
Qed.

Lemma set_erase_In (x y : Z) (s : set.t) :
  In x s -> x <> y -> In x (set.erase y s).
Proof.
  induction s as [|z s IH]; simpl; [tauto|].
  intros [->|Hin] Hne.
  - destruct (y =? x) eqn:E; [apply Z.eqb_eq in E; congruence | left; reflexivity].
  - destruct (y =? z) eqn:E; [exact Hin | right; apply IH; assumption].
Qed.

Lemma set_erase_subset (x y : Z) (s : set.t) :
  In x (set.erase y s) -> In x s.
Proof.
  induction s as [|z s IH]; simpl; [tauto|].
  destruct (y =? z) eqn:E; simpl.
  - intros H. right. exact H.
  - intros [->|H]; [left; reflexivity | right; apply IH; exact H].
Qed.

Lemma set_erase_perm (y : Z) (s : set.t) :
  In y s -> Permutation s (y :: set.erase y s).
Proof.
  induction s as [|z s IH]; simpl; [tauto|].
  intros Hin. destruct (y =? z) eqn:E.
  - apply Z.eqb_eq in E. subst. reflexivity.
  - destruct Hin as [->|Hin]; [rewrite Z.eqb_refl in E; discriminate|].
    rewrite (IH Hin) at 1. apply perm_swap.
Qed.

Lemma Qsum_Permutation (l1 l2 : list Q) :
  Permutation l1 l2 -> (Qsum l1 == Qsum l2)%Q.
Proof.
  induction 1 as [|x l1 l2 H IH|x y l|l1 l2 l3 H1 IH1 H2 IH2].
  - reflexivity.
  - rewrite !Qsum_cons, IH. reflexivity.
  - rewrite !Qsum_cons. lra.
  - rewrite IH1. exact IH2.
Qed.

Lemma Qsum_insert (l : list Q) (i : nat) (v : Q) :
  (i < length l)%nat ->
  (Qsum (<[i := v]> l) == Qsum l - l !!! i + v)%Q.
Proof.
  revert i. induction l as [|x l IH]; intros i Hi; simpl in Hi; [lia|].
  destruct i as [|i]; simpl.
  - rewrite !Qsum_cons. change ((x :: l) !!! 0%nat) with x. lra.
  - rewrite !Qsum_cons, IH by lia.
    change ((x :: l) !!! Datatypes.S i) with (l !!! i). lra.
Qed.

(* ================================================================== *)
(** ** aof::GameState: the invariant of a hand                        *)
(* ================================================================== *)

Section HandInvariant.
Import GameState.

Lemma inv_initial g cards h w :
  Deck.shuffled cards -> GameState.GameState g cards h = ok w -> inv g w.
Proof.
  intros Hsh Hw. unfold GameState.GameState in Hw. simpl in Hw.
  injection Hw as <-.
  exists [], (fresh (dom h)), cards. simpl.
  repeat split; try reflexivity.
  - unfold contributions_of, contribution, Qsum, accumulate. simpl. ring.
  - apply lookup_insert_eq.
  - rewrite (shuffled_size _ Hsh). reflexivity.
Qed.

Lemma legal_cases a s :
  legal a s ->
  (isChanceNode s = true /\ a = DEAL) \/
  (isChanceNode s = false /\ gameOver_ s = false /\ 0 <= nextPlayer_ s /\
   folded_ s !!! Z.to_nat (nextPlayer_ s) = false /\ (a = FOLD \/ a = ALL_IN)).
Proof.
  unfold legal, getLegalActions, getCurrentPlayer.
  destruct (isChanceNode s) eqn:Hc.
  - intros [<-|[]]. left. auto.
  - destruct (gameOver_ s) eqn:Hover; [intros []|].
    destruct (nextPlayer_ s <? 0) eqn:Hneg; simpl; [intros []|].
    destruct (folded_ s !!! Z.to_nat (nextPlayer_ s)) eqn:Hf; [intros []|].
    intros [<-|[<-|[]]]; right; repeat split; auto; lia.
Qed.

Lemma inv_deal g w : inv g w -> isChanceNode (fst w) = true ->
  inv g (snd (applyAction DEAL w)).
Proof.
  destruct w as [s h].
  intros (hist & l & d & Hplay & Hg & Hinit & Hst & Hf & Ha & Hpot & Hl & Hd & Hlen
          & Hover & Hend & Hhole) Hc. simpl in *.
  pose proof Hc as Hc'. unfold isChanceNode in Hc'.
  apply andb_true_iff in Hc' as [Hh Hno]. apply negb_true_iff in Hno.
  rewrite Hh in Hhole. rewrite Hno in Hend, Hover. subst hist.
  apply Nat.eqb_eq in Hh. rewrite Hh, Hend in Hlen. simpl in Hlen.
  rewrite (applyAction_deal s h l d Hc Hl Hd) by lia. simpl.
  exists [], l, (remaining 8 d). simpl.
  assert (length (dealt 8 d) = 8%nat) as H8 by (apply length_dealt; lia).
  rewrite H8, Hno, Hend. simpl.
  repeat split; auto.
  - apply lookup_insert_eq.
  - unfold remaining. rewrite length_remaining. lia.
Qed.

Lemma inv_decide g w a : inv g w ->
  isChanceNode (fst w) = false -> gameOver_ (fst w) = false ->
  a = FOLD \/ a = ALL_IN ->
  inv g (snd (applyAction a w)).
Proof.
  destruct w as [s h].
  intros (hist & l & d & Hplay & Hg & Hinit & Hst & Hf & Ha & Hpot & Hl & Hd & Hlen
          & Hover & Hend & Hhole) Hc Hno Hact. simpl in *.
  unfold isChanceNode in Hc. rewrite Hno in Hc, Hend, Hover, Hhole.
  rewrite andb_true_r in Hc. rewrite Hc in Hhole.
  destruct Hhole as [H8 Hnext]. specialize (Hnext eq_refl).
  rewrite Hend in Hlen. simpl in Hlen.
  assert (exists b : bool, a = if b then ALL_IN else FOLD) as [b ->].
  { destruct Hact as [-> | ->]; [exists false | exists true]; reflexivity. }
  clear Hact.
  exists (hist ++ [b]), l, (if over_after (hist ++ [b]) then remaining 5 d else d).
  destruct s as [g' over next pot init stacks folded allin deck hole comm sp].
  simpl in *. subst.
  assert (5 <= length d)%nat as Hd5 by lia.
  destruct hist as [|d2 [|d3 [|d0 [|d1 hist]]]]; try discriminate Hnext;
    injection Hnext as <-.
  all: repeat match goal with b : bool |- _ => destruct b end; try discriminate Hover.
  all: rewrite applyAction_decide;
    [| unfold isChanceNode; simpl; rewrite Hc; reflexivity | reflexivity
     | simpl; lia | reflexivity | discriminate].
  all: unfold act; simpl.
  all: try (rewrite (handleGameEnd_deal _ h l d); [|reflexivity|reflexivity|exact Hd|exact Hd5]).
  all: simpl; rewrite ?Hc.
  all: assert (length (dealt 5 d) = 5%nat) as H5 by (apply length_dealt; exact Hd5).
  all: rewrite ?H5.
  all: repeat split; auto.
  all: try (apply lookup_insert_eq).
  all: try (unfold remaining; rewrite length_remaining; lia).
  all: try lia.
  all: unfold contributions_of, contribution, Qsum, accumulate, seats in *; simpl in *.
  all: try lra.
Qed.

Lemma inv_applyAction g w a : inv g w -> inv g (snd (applyAction a w)).
Proof.
  intros Hinv. destruct w as [s h].
  destruct (existsb (Action_eqb a) (getLegalActions s)) eqn:Hleg.
  - apply existsb_Action_eqb in Hleg.
    destruct (legal_cases a s Hleg) as [[Hc ->] | (Hc & Hno & _ & _ & Ha)].
    + apply inv_deal; assumption.
    + apply inv_decide; assumption.
  - destruct (illegal_action_throws s h a) as [what ->]; [|exact Hinv].
    intros Hl. apply existsb_Action_eqb in Hl. congruence.
Qed.

Lemma inv_clone g w w' : inv g w -> clone (fst w) (snd w) = ok w' -> inv g w'.
Proof.
  destruct w as [s h].
  intros (hist & l & d & Hplay & Hg & Hinit & Hst & Hf & Ha & Hpot & Hl & Hd & Hlen
          & Hover & Hend & Hhole). simpl in *.
  unfold clone. rewrite Hl, Hd. intros Hw. injection Hw as <-.
  exists hist, (fresh (dom h)), d. simpl.
  repeat split; auto.
  apply lookup_insert_eq.
Qed.

Lemma reachable_inv g w : reachable g w -> inv g w.
Proof.
  induction 1 as [cards h w Hsh Hw | a w Hr IH | w w' Hr IH Hc].
  - eapply inv_initial; eassumption.
  - apply inv_applyAction. exact IH.
  - eapply inv_clone; eassumption.
Qed.

Lemma all_in_b_iff (s : t) : all_in_b s = true <-> all_active_all_in s.
Proof.
  unfold all_in_b, all_active_all_in. rewrite forallb_forall.
  split; intros H i Hi; specialize (H i Hi).
  - apply existsb_exists in H as (z & Hz & Heq).
    apply Z.eqb_eq in Heq. subst. exact Hz.
  - apply existsb_exists. exists (Z.of_nat i). split; [exact H | apply Z.eqb_refl].
Qed.

Lemma set_count_existsb (x : Z) (s : set.t) :
  (set.count x s =? 0) = negb (existsb (Z.eqb x) s).
Proof. unfold set.count. destruct (existsb (Z.eqb x) s); reflexivity. Qed.

Lemma shouldGameEnd_spec (s : t) :
  length (folded_ s) = 4%nat ->
  shouldGameEnd s = (length (active_seats s) <=? 1)%nat || all_in_b s.
Proof.
  intros Hlen. unfold shouldGameEnd, all_in_b, active_seats, getActivePlayerCount.
  destruct (folded_ s) as [|f0 [|f1 [|f2 [|f3 [|? ?]]]]]; try discriminate Hlen.
  simpl. rewrite !set_count_existsb.
  destruct f0, f1, f2, f3; simpl; try reflexivity;
    repeat match goal with
           | |- context [existsb ?f ?l] => destruct (existsb f l); simpl
           end; reflexivity.
Qed.

Lemma shouldGameEnd_iff (s : t) :
  length (folded_ s) = 4%nat ->
  shouldGameEnd s = true <->
  (length (active_seats s) <= 1)%nat \/ all_active_all_in s.
Proof.
  intros Hlen. rewrite shouldGameEnd_spec by exact Hlen.
  rewrite orb_true_iff, Nat.leb_le, all_in_b_iff. reflexivity.
Qed.

Lemma playable_length (hist : list bool) : playable hist = true -> (length hist <= 4)%nat.
Proof.
  unfold playable. intros H. apply andb_true_iff in H as [H _].
  apply Nat.leb_le. exact H.
Qed.

Lemma inv_folded_length g w : inv g w -> length (folded_ (fst w)) = 4%nat.
Proof.
  intros (hist & l & d & _ & _ & _ & _ & Hf & _). rewrite Hf. reflexivity.
Qed.

Lemma inv_over g w : inv g w -> gameOver_ (fst w) = shouldGameEnd (fst w).
Proof.
  intros Hinv. pose proof (inv_folded_length _ _ Hinv) as Hlen.
  destruct Hinv as (hist & l & d & Hplay & _ & _ & _ & Hf & Ha & _ & _ & _ & _ & Hover & _).
  rewrite shouldGameEnd_spec by exact Hlen. rewrite Hover.
  unfold all_in_b, active_seats. rewrite Hf, Ha.
  apply playable_length in Hplay.
  destruct hist as [|d2 [|d3 [|d0 [|d1 [|? ?]]]]]; simpl in Hplay; try lia;
    repeat match goal with b : bool |- _ => destruct b end; reflexivity.
Qed.

Lemma advanceLoop_frame (fuel : nat) (s s' : t) :
  advanceLoop fuel s = Some s' -> s' = set_nextPlayer (nextPlayer_ s') s.
Proof.
  revert s. induction fuel as [|fuel IH]; intros s; simpl; [discriminate|].
  unfold advanceLoop; fold advanceLoop.
  match goal with |- context [if ?c then _ else _] => destruct c end.
  - intros H. apply IH in H. rewrite H at 1. reflexivity.
  - intros H. injection H as <-. reflexivity.
Qed.

Lemma act_frame (a : Action) (s : t) :
  gameOver_ (act a s) = gameOver_ s /\ deck_ (act a s) = deck_ s /\
  communityCards_ (act a s) = communityCards_ s /\
  holeCards_ (act a s) = holeCards_ s.
Proof. destruct a; repeat split. Qed.

(** The call that ends the hand deals the board from the deck. *)
Lemma ending_call_deals g w a :
  inv g w ->
  gameOver_ (fst w) = false ->
  gameOver_ (fst (snd (applyAction a w))) = true ->
  exists l d,
    deck_ (fst w) = Some l /\ snd w !! l = Some d /\
    communityCards_ (fst w) = [] /\
    communityCards_ (fst (snd (applyAction a w))) = dealt 5 d /\
    deck_ (fst (snd (applyAction a w))) = Some l /\
    snd (snd (applyAction a w)) !! l = Some (remaining 5 d).
Proof.
  destruct w as [s h]. intros Hinv Hno. simpl in Hno.
  pose proof Hinv as (hist & l & d & Hplay & Hg & Hinit & Hst & Hf & Ha & Hpot & Hl
                      & Hd & Hlen & Hover & Hend & Hhole).
  simpl in *. rewrite Hno in Hend.
  destruct (existsb (Action_eqb a) (getLegalActions s)) eqn:Hleg.
  - apply existsb_Action_eqb in Hleg.
    destruct (legal_cases a s Hleg) as [[Hc ->] | (Hc & _ & Hnext & Hfold & Hact)].
    + pose proof Hc as Hc'. unfold isChanceNode in Hc'.
      apply andb_true_iff in Hc' as [Hh _]. apply Nat.eqb_eq in Hh.
      rewrite Hh, Hend in Hlen. simpl in Hlen.
      rewrite (applyAction_deal s h l d Hc Hl Hd) by lia. simpl. congruence.
    + unfold isChanceNode in Hc. rewrite Hno, andb_true_r in Hc.
      rewrite Hc in Hhole. destruct Hhole as [H8 _].
      rewrite Hend, H8 in Hlen. simpl in Hlen.
      rewrite applyAction_decide;
        [| unfold isChanceNode; rewrite Hc; reflexivity | exact Hno | exact Hnext
         | exact Hfold | destruct Hact; subst; discriminate].
      destruct (act_frame a s) as (Ho & Hdk & Hcc & _).
      destruct (advanceLoop (Z.to_nat GameConfig.NUM_PLAYERS) (act a s)) as [s2|] eqn:Hadv.
      * apply advanceLoop_frame in Hadv.
        destruct (shouldGameEnd s2).
        -- rewrite (handleGameEnd_deal _ h l d);
             [| rewrite Hadv; simpl; congruence | rewrite Hadv; simpl; congruence
              | exact Hd | lia].
           simpl. intros _. exists l, d.
           repeat split; auto.
           ++ rewrite Hadv. simpl. congruence.
           ++ apply lookup_insert_eq.
        -- simpl. rewrite Hadv. simpl. congruence.
      * simpl. congruence.
  - destruct (illegal_action_throws s h a) as [what ->]; [|simpl; congruence].
    intros Hl'. apply existsb_Action_eqb in Hl'. congruence.
Qed.

End HandInvariant.

(* ================================================================== *)
(** ** aof::GameState: when a hand ends                               *)
(* ================================================================== *)

Lemma fresh_world_ok (g : Game.t) (cards : Deck.t) :
  GameState.GameState g cards ∅ = ok (fresh_world g cards).
Proof. reflexivity. Qed.

Lemma fresh_world_reachable (g : Game.t) (cards : Deck.t) :
  Deck.shuffled cards -> reachable g (fresh_world g cards).
Proof.
  intros Hsh. eapply reachable_initial; [exact Hsh | apply fresh_world_ok].
Qed.

Lemma play_reachable (g : Game.t) (actions : list Action)
    (w : GameState.t * gmap positive Deck.t) :
  reachable g w -> reachable g (play actions w).
Proof.
  unfold play. revert w. induction actions as [|a actions IH]; intros w Hw; simpl.
  - exact Hw.
  - apply IH. apply reachable_applyAction. exact Hw.
Qed.

Lemma standard_deck_shuffled : Deck.shuffled Deck.createStandardDeck.
Proof. unfold Deck.shuffled. reflexivity. Qed.

(** The loop of [advanceToNextPlayer] leaves within one round of the
    table: four iterations are enough. *)
Lemma advanceLoop_total (s : GameState.t) :
  length (GameState.folded_ s) = 4%nat ->
  0 <= GameState.nextPlayer_ s < 4 ->
  exists s',
    GameState.advanceLoop (Z.to_nat GameConfig.NUM_PLAYERS) s = Some s' /\
    0 <= GameState.nextPlayer_ s' < 4.
Proof.
  intros Hlen Hnext.
  destruct s as [g over next pot init stacks folded allin deck hole comm sp].
  simpl in *.
  destruct folded as [|f0 [|f1 [|f2 [|f3 [|? ?]]]]]; try discriminate Hlen.
  assert (next = 0 \/ next = 1 \/ next = 2 \/ next = 3) as Hcases by lia.
  destruct Hcases as [-> | [-> | [-> | ->]]];
    destruct f0, f1, f2, f3; vm_compute; eexists; split; try reflexivity;
    split; first [discriminate | reflexivity].
Qed.

(* ================================================================== *)
(** ** aof::GameState: payoffs                                        *)
(* ================================================================== *)

Section Payoffs.
Import GameState.

Lemma playerScores_ok (s : t) (contributors : list Z) :
  length (holeCards_ s) = 8%nat -> length (communityCards_ s) = 5%nat ->
  Forall (fun p => 0 <= p < 4 /\ folded_ s !!! Z.to_nat p = false) contributors ->
  exists scores,
    playerScores s contributors = ok scores /\ map snd scores = contributors.
Proof.
  intros H8 H5. induction 1 as [|p rest [Hp Hf] Hrest IH].
  - exists []. split; reflexivity.
  - destruct IH as (scores & Hs & Hm). simpl. rewrite Hf. simpl.
    destruct (lookup_lt_is_Some_2 (holeCards_ s) (Z.to_nat (p * 2))) as [c1 ->];
      [lia|].
    destruct (lookup_lt_is_Some_2 (holeCards_ s) (Z.to_nat (p * 2 + 1))) as [c2 ->];
      [lia|].
    destruct (evaluateHand_total [c1; c2] (communityCards_ s) eq_refl H5)
      as [score ->].
    simpl. rewrite Hs. simpl. eexists. split; [reflexivity|].
    simpl. rewrite Hm. reflexivity.
Qed.

Lemma ties_subset (best : PokerEvaluator.HandScore)
    (scores : list (PokerEvaluator.HandScore * Z)) (p : Z) :
  In p (ties best scores) -> In p (map snd scores).
Proof.
  induction scores as [|[score q] rest IH]; simpl; [tauto|].
  destruct (PokerEvaluator.compareHands best score =? 0); simpl; [|tauto].
  intros [->|H]; [left; reflexivity | right; apply IH; exact H].
Qed.

Lemma award_fold (share : Q) (winners : list Z) (returns : list Q) :
  Forall (fun p => 0 <= p /\ (Z.to_nat p < length returns)%nat) winners ->
  let returns' :=
    fold_left
      (fun returns winner =>
         <[Z.to_nat winner := (returns !!! Z.to_nat winner + share)%Q]> returns)
      winners returns in
  length returns' = length returns /\
  (Qsum returns' == Qsum returns + inject_Z (Z.of_nat (length winners)) * share)%Q.
Proof.
  revert returns. induction winners as [|p winners IH]; intros returns Hall; simpl.
  - split; [reflexivity | ring].
  - inversion Hall as [|? ? [Hp Hlt] Hrest]; subst.
    destruct (IH (<[Z.to_nat p := (returns !!! Z.to_nat p + share)%Q]> returns))
      as [Hlen Hsum].
    { rewrite length_insert. exact Hrest. }
    rewrite length_insert in Hlen. split; [exact Hlen|].
    rewrite Hsum, Qsum_insert by exact Hlt.
    change (length (p :: winners)) with (Datatypes.S (length winners)).
    rewrite Nat2Z.inj_succ. unfold Z.succ. rewrite inject_Z_plus. ring.
Qed.

Lemma awardPot_ok (s : t) (returns : list Q) (pot : Q * list Z) :
  length (holeCards_ s) = 8%nat -> length (communityCards_ s) = 5%nat ->
  length returns = 4%nat -> pot_ok s pot ->
  exists returns',
    awardPot s returns pot = ok returns' /\ length returns' = 4%nat /\
    (Qsum returns' == Qsum returns + fst pot)%Q.
Proof.
  intros H8 H5 H4 [Hne Hall]. destruct pot as [potAmount contributors].
  simpl in *.
  destruct (playerScores_ok s contributors H8 H5 Hall) as (scores & Hps & Hm).
  pose proof (sort_perm
                (fun a b => PokerEvaluator.compareHands (fst a) (fst b) >? 0)
                scores) as Hperm.
  assert ((length contributors =? 0)%nat = false) as Hlen0.
  { destruct contributors; [congruence | reflexivity]. }
  destruct (sort (fun a b => PokerEvaluator.compareHands (fst a) (fst b) >? 0) scores)
    as [|[best first] rest] eqn:Hsort.
  - apply Permutation_length in Hperm. destruct scores; [|discriminate Hperm].
    destruct contributors; [congruence | discriminate Hm].
  - set (winners := first :: ties best rest).
    set (share := (potAmount / inject_Z (Z.of_nat (length winners)))%Q).
    assert (Forall (fun p => 0 <= p /\ (Z.to_nat p < length returns)%nat) winners)
      as Hw.
    { apply List.Forall_forall. intros p Hp.
      assert (In p (map snd ((best, first) :: rest))) as Hin.
      { destruct Hp as [<-|Hp]; [left; reflexivity|].
        right. eapply ties_subset. exact Hp. }
      rewrite List.Forall_forall in Hall.
      assert (In p contributors) as Hc.
      { rewrite <- Hm. eapply Permutation_in; [|exact Hin].
        apply Permutation_map. exact Hperm. }
      destruct (Hall p Hc) as [Hr _]. rewrite H4. lia. }
    destruct (award_fold share winners returns Hw) as [Hlen Hsum].
    eexists. split; [|split; [rewrite Hlen; exact H4|]].
    + unfold awardPot. rewrite Hlen0, Hps. simpl. rewrite Hsort. reflexivity.
    + rewrite Hsum. unfold share.
      assert (0 < inject_Z (Z.of_nat (length winners)))%Q as Hpos.
      { change 0%Q with (inject_Z 0). rewrite <- Zlt_Qlt. simpl. lia. }
      field. lra.
Qed.

Lemma award_all (s : t) (pots : list (Q * list Z)) (returns : list Q) :
  length (holeCards_ s) = 8%nat -> length (communityCards_ s) = 5%nat ->
  length returns = 4%nat -> Forall (pot_ok s) pots ->
  exists returns',
    fold_left (fun acc pot => do returns <- acc; awardPot s returns pot)
              pots (ok returns) = ok returns' /\
    length returns' = 4%nat /\
    (Qsum returns' == Qsum returns + pots_total pots)%Q.
Proof.
  intros H8 H5 H4 Hall. revert returns H4.
  induction Hall as [|pot pots Hpot Hpots IH]; intros returns H4; simpl.
  - exists returns. split; [reflexivity|]. split; [exact H4|].
    unfold pots_total. simpl. rewrite Qsum_nil. ring.
  - destruct (awardPot_ok s returns pot H8 H5 H4 Hpot) as (r1 & -> & Hl1 & Hs1).
    destruct (IH r1 Hl1) as (r2 & Hr2 & Hl2 & Hs2).
    exists r2. split; [exact Hr2|]. split; [exact Hl2|].
    rewrite Hs2, Hs1. unfold pots_total. simpl. rewrite Qsum_cons. ring.
Qed.

Lemma investments_eq (s : t) : investments s = contributions_of s.
Proof. reflexivity. Qed.



End Payoffs.

(* ================================================================== *)
(** ** aof::GameState: side pots                                      *)
(* ================================================================== *)

Section SidePots.
Import GameState.

Lemma calculateSidePots_unfold (s : t) :
  calculateSidePots s =
  sidePots (fold_left potLoop_step (sort contribution_lt (raw_contributions s))
              (mkPotLoop 0 (eligible0 s) (remaining0 s) [])).
Proof. reflexivity. Qed.

Lemma eligible0_sound (s : t) (p : Z) :
  In p (eligible0 s) -> 0 <= p < 4 /\ folded_ s !!! Z.to_nat p = false.
Proof.
  unfold eligible0, for_range. simpl.
  destruct (folded_ s !!! 0%nat) eqn:E0, (folded_ s !!! 1%nat) eqn:E1,
           (folded_ s !!! 2%nat) eqn:E2, (folded_ s !!! 3%nat) eqn:E3;
    simpl; intros H;
    repeat match goal with
           | H : _ \/ _ |- _ => destruct H
           | H : False |- _ => destruct H
           end; subst; split; try lia; assumption.
Qed.

Lemma eligible0_complete (s : t) (i : nat) :
  (i < 4)%nat -> folded_ s !!! i = false -> In (Z.of_nat i) (eligible0 s).
Proof.
  intros Hi Hf. unfold eligible0, for_range. simpl.
  destruct i as [|[|[|[|i]]]]; try lia; rewrite Hf; simpl;
    repeat match goal with
           | |- context [if negb ?b then _ else _] => destruct b; simpl
           end; tauto.
Qed.

Lemma raw_contributions_sound (s : t) (e : Q * Z) :
  In e (raw_contributions s) ->
  0 <= snd e < 4 /\ fst e = contribution s (Z.to_nat (snd e)) /\ (0 < fst e)%Q.
Proof.
  unfold raw_contributions, for_range. simpl.
  destruct (Qgtb (contribution s 0) 0) eqn:E0, (Qgtb (contribution s 1) 0) eqn:E1,
           (Qgtb (contribution s 2) 0) eqn:E2, (Qgtb (contribution s 3) 0) eqn:E3;
    simpl; intros H;
    repeat match goal with
           | H : _ \/ _ |- _ => destruct H
           | H : False |- _ => destruct H
           end; subst; simpl; (split; [lia|]); (split; [reflexivity|]);
    apply Qgtb_gt; assumption.
Qed.

Lemma remaining0_perm (s : t) :
  Permutation (remaining0 s) (map snd (raw_contributions s)).
Proof.
  unfold remaining0, raw_contributions, for_range. simpl.
  destruct (Qgtb (contribution s 0) 0), (Qgtb (contribution s 1) 0),
           (Qgtb (contribution s 2) 0), (Qgtb (contribution s 3) 0);
    simpl; reflexivity.
Qed.

Lemma raw_contributions_total (s : t) :
  Forall (fun c => 0 <= c)%Q (contributions_of s) ->
  (Qsum (map fst (raw_contributions s)) == Qsum (contributions_of s))%Q.
Proof.
  unfold contributions_of, seats. intros Hnn.
  inversion Hnn as [|? ? H0 Hnn1]; subst.
  inversion Hnn1 as [|? ? H1 Hnn2]; subst.
  inversion Hnn2 as [|? ? H2 Hnn3]; subst.
  inversion Hnn3 as [|? ? H3 _]; subst.
  unfold raw_contributions, for_range. simpl.
  destruct (Qgtb (contribution s 0) 0) eqn:E0, (Qgtb (contribution s 1) 0) eqn:E1,
           (Qgtb (contribution s 2) 0) eqn:E2, (Qgtb (contribution s 3) 0) eqn:E3;
    simpl; unfold Qsum, accumulate; simpl;
    repeat match goal with
           | H : Qgtb _ _ = false |- _ => apply Qgtb_le in H
           end; lra.
Qed.

Lemma contribution_lt_le (x y : Q * Z) : contribution_lt x y = true -> amount_le x y.
Proof.
  unfold contribution_lt, amount_le. intros H.
  apply orb_true_iff in H as [H|H].
  - apply Qltb_lt in H. lra.
  - apply andb_true_iff in H as [H _]. apply negb_true_iff, Qltb_ge in H. exact H.
Qed.

Lemma contribution_lt_ge (x y : Q * Z) : contribution_lt x y = false -> amount_le y x.
Proof.
  unfold contribution_lt, amount_le. intros H.
  apply orb_false_iff in H as [H _]. apply Qltb_ge in H. exact H.
Qed.

Lemma contributions_sorted (s : t) :
  StronglySorted amount_le (contributions s).
Proof.
  apply Sorted_StronglySorted.
  - intros x y z Hxy Hyz. unfold amount_le in *. lra.
  - apply (sort_sorted contribution_lt amount_le).
    + apply contribution_lt_le.
    + apply contribution_lt_ge.
Qed.

Lemma contributions_perm (s : t) :
  Permutation (contributions s) (raw_contributions s).
Proof. apply sort_perm. Qed.

(** Every side pot has an eligible seat, and eligible seats have not
    folded. *)
Lemma potLoop_pots_ok (s : t) (entries : list (Q * Z)) (st : potLoop) :
  (forall p, In p (eligiblePlayers st) ->
             0 <= p < 4 /\ folded_ s !!! Z.to_nat p = false) ->
  Forall (pot_ok s) (sidePots st) ->
  Forall (pot_ok s) (sidePots (fold_left potLoop_step entries st)).
Proof.
  revert st. induction entries as [|[amount player] entries IH]; intros st Hel Hp.
  - exact Hp.
  - simpl. apply IH.
    + simpl. intros p Hin. apply Hel. eapply set_erase_subset. exact Hin.
    + simpl.
      destruct (Qgtb amount (prevAmount st)
                && negb (length (eligiblePlayers st) =? 0)%nat) eqn:E; [|exact Hp].
      match goal with |- context [if ?c then _ else _] => destruct c end;
        [|exact Hp].
      apply Forall_app. split; [exact Hp|]. constructor; [|constructor].
      apply andb_true_iff in E as [_ E]. apply negb_true_iff, Nat.eqb_neq in E.
      split; simpl.
      * intros Hnil. rewrite Hnil in E. apply E. reflexivity.
      * apply List.Forall_forall. exact Hel.
Qed.

Lemma calculateSidePots_ok (s : t) : Forall (pot_ok s) (calculateSidePots s).
Proof.
  rewrite calculateSidePots_unfold. apply potLoop_pots_ok.
  - simpl. apply eligible0_sound.
  - constructor.
Qed.

Lemma pots_total_snoc (pots : list (Q * list Z)) (pot : Q * list Z) :
  (pots_total (pots ++ [pot]) == pots_total pots + fst pot)%Q.
Proof. unfold pots_total. rewrite map_app. simpl. apply Qsum_snoc. Qed.

Lemma Qsum_map_shift (x : Q) (l : list (Q * Z)) :
  (Qsum (map (fun e => fst e - x) l)
   == Qsum (map fst l) - inject_Z (Z.of_nat (length l)) * x)%Q.
Proof.
  induction l as [|e l IH].
  - simpl. rewrite Qsum_nil. ring.
  - cbn [map length]. rewrite !Qsum_cons, IH, Nat2Z.inj_succ.
    unfold Z.succ. rewrite inject_Z_plus. ring.
Qed.

(** The loop adds up every layer as long as each new level still has
    an eligible seat. *)
Lemma potLoop_total (cZ : Z -> Q) (E0 : set.t) (entries : list (Q * Z)) (st : potLoop) :
  StronglySorted amount_le entries ->
  Forall (fun e => prevAmount st <= fst e)%Q entries ->
  Permutation (remainingContributors st) (map snd entries) ->
  (forall e, In e entries -> fst e = cZ (snd e)) ->
  (forall e, In e entries -> exists j, In j E0 /\ (fst e <= cZ j)%Q) ->
  (forall j, In j E0 -> (prevAmount st < cZ j)%Q -> In j (eligiblePlayers st)) ->
  (pots_total (sidePots (fold_left potLoop_step entries st))
   == pots_total (sidePots st)
      + Qsum (map (fun e => fst e - prevAmount st) entries))%Q.
Proof.
  revert st.
  induction entries as [|[amount player] entries IH];
    intros st Hsorted Hprev Hrem Hc Hcover Hel.
  - simpl. rewrite Qsum_nil. ring.
  - inversion Hsorted as [|? ? Hsorted' Hge]; subst.
    inversion Hprev as [|? ? Hpa _]; subst. simpl in Hpa.
    assert (In player (remainingContributors st)) as Hin.
    { eapply Permutation_in; [symmetry; exact Hrem | left; reflexivity]. }
    assert (length (remainingContributors st) = Datatypes.S (length entries)) as Hlen.
    { rewrite (Permutation_length Hrem). simpl. rewrite length_map. reflexivity. }
    cbn [fold_left]. rewrite IH; clear IH.
    + cbn [potLoop_step prevAmount sidePots].
      cbn [map]. rewrite Qsum_cons. cbn [fst].
      rewrite (Qsum_map_shift amount), (Qsum_map_shift (prevAmount st)).
      destruct (Qgtb amount (prevAmount st)) eqn:Egt.
      * apply Qgtb_gt in Egt.
        destruct (Hcover (amount, player) (or_introl eq_refl)) as (j & Hj & Hle).
        simpl in Hle.
        assert (In j (eligiblePlayers st)) as Hje by (apply Hel; [exact Hj | lra]).
        assert ((length (eligiblePlayers st) =? 0)%nat = false) as ->.
        { destruct (eligiblePlayers st); [destruct Hje | reflexivity]. }
        cbn [negb andb].
        assert (0 < inject_Z (Z.of_nat (length (remainingContributors st))))%Q as Hpos.
        { change 0%Q with (inject_Z 0). rewrite <- Zlt_Qlt. lia. }
        assert (Qgtb ((amount - prevAmount st)
                      * inject_Z (Z.of_nat (length (remainingContributors st)))) 0
                = true) as ->.
        { apply Qgtb_gt. apply Qmult_lt_0_compat; [lra | exact Hpos]. }
        rewrite pots_total_snoc. cbn [fst]. rewrite Hlen, Nat2Z.inj_succ.
        unfold Z.succ. rewrite inject_Z_plus. ring.
      * apply Qgtb_le in Egt. cbn [andb].
        assert (amount == prevAmount st)%Q as Heq by lra.
        rewrite Heq. ring.
    + exact Hsorted'.
    + cbn [potLoop_step prevAmount]. exact Hge.
    + cbn [potLoop_step remainingContributors].
      apply (Permutation_cons_inv (a := player)).
      rewrite <- (set_erase_perm player _ Hin). exact Hrem.
    + intros e He. apply Hc. right. exact He.
    + intros e He. apply Hcover. right. exact He.
    + cbn [potLoop_step prevAmount eligiblePlayers]. intros j Hj Hlt.
      apply set_erase_In.
      * apply Hel; [exact Hj | lra].
      * intros ->. pose proof (Hc (amount, player) (or_introl eq_refl)) as Hcp.
        simpl in Hcp. rewrite <- Hcp in Hlt. lra.
Qed.

(** Conservation: the side pots hold all the contributions. *)
Lemma side_pots_conserve (s : t) :
  Forall (fun c => 0 <= c)%Q (contributions_of s) ->
  covered s ->
  (pots_total (calculateSidePots s) == Qsum (contributions_of s))%Q.
Proof.
  intros Hnn Hcov. rewrite calculateSidePots_unfold.
  fold (contributions s).
  assert (forall e, In e (contributions s) ->
            0 <= snd e < 4 /\ fst e = contribution s (Z.to_nat (snd e))
            /\ (0 < fst e)%Q) as Hsound.
  { intros e He. apply raw_contributions_sound.
    eapply Permutation_in; [apply contributions_perm | exact He]. }
  rewrite (potLoop_total (fun p => contribution s (Z.to_nat p)) (eligible0 s)).
  - cbn [sidePots prevAmount]. unfold pots_total at 1. simpl.
    rewrite Qsum_nil, Qsum_map_shift.
    rewrite (Qsum_Permutation _ _ (Permutation_map fst (contributions_perm s))).
    rewrite raw_contributions_total by exact Hnn. ring.
  - apply contributions_sorted.
  - cbn [prevAmount]. apply List.Forall_forall. intros e He.
    destruct (Hsound e He) as (_ & _ & Hpos). lra.
  - cbn [remainingContributors]. rewrite remaining0_perm.
    apply Permutation_map. symmetry. apply contributions_perm.
  - intros e He. destruct (Hsound e He) as (_ & Heq & _). exact Heq.
  - intros e He. destruct (Hsound e He) as (Hr & Heq & Hpos).
    destruct (Hcov (Z.to_nat (snd e))) as (j & Hj & Hf & Hle); [lia | |].
    + rewrite <- Heq. exact Hpos.
    + exists (Z.of_nat j). split; [apply eligible0_complete; assumption|].
      rewrite Nat2Z.id, Heq. exact Hle.
  - cbn [prevAmount eligiblePlayers]. intros j Hj _. exact Hj.
Qed.

End SidePots.

(* ================================================================== *)
(** ** aof::GameState: the chips of a hand                            *)
(* ================================================================== *)

Section Chips.
Import GameState.

Lemma valid_game_facts (g : Game.t) :
  valid_game g ->
  (0 < Game.smallBlind_ g)%Q /\ (Game.smallBlind_ g < Game.bigBlind_ g)%Q /\
  length (Game.initialStacks_ g) = 4%nat /\
  Forall (fun stack => 0 < stack)%Q (Game.initialStacks_ g) /\
  (Game.smallBlind_ g <= Game.initialStacks_ g !!! 0%nat)%Q /\
  (Game.bigBlind_ g <= Game.initialStacks_ g !!! 1%nat)%Q.
Proof.
  intros (sb & bb & params & stacksBB & Hg). unfold Game.Game in Hg.
  destruct (Qle_bool sb 0 || Qle_bool bb 0) eqn:E1; [discriminate|].
  destruct (Qle_bool bb sb) eqn:E2; [discriminate|].
  apply orb_false_iff in E1 as [Esb Ebb].
  assert (0 < sb)%Q as Hsb.
  { apply Qnot_le_lt. intros H. apply Qle_bool_iff in H. congruence. }
  assert (0 < bb)%Q as Hbb.
  { apply Qnot_le_lt. intros H. apply Qle_bool_iff in H. congruence. }
  assert (sb < bb)%Q as Hlt.
  { apply Qnot_le_lt. intros H. apply Qle_bool_iff in H. congruence. }
  assert (exists stacks,
            length stacks = 4%nat /\ Forall (fun stack => 0 < stack)%Q stacks /\
            (do _ <- Game.validateConfiguration (Game.mk sb bb params stacks);
             ok (Game.mk sb bb params stacks)) = ok g) as (stacks & Hlen & Hpos & Hv).
  { destruct stacksBB as [|x stacksBB'] eqn:Hst.
    - eexists. split; [|split; [|exact Hg]].
      + reflexivity.
      + apply Forall_replicate.
        unfold GameConfig.STARTING_STACK_BB.
        apply Qmult_lt_0_compat; [reflexivity | exact Hbb].
    - rewrite <- Hst in *. clear Hst x stacksBB'.
      destruct (negb (Z.of_nat (length stacksBB) =? GameConfig.NUM_PLAYERS)) eqn:E3;
        [discriminate|].
      destruct (existsb (fun stack => Qle_bool stack 0) stacksBB) eqn:E4;
        [discriminate|].
      eexists. split; [|split; [|exact Hg]].
      + rewrite length_map. apply negb_false_iff, Z.eqb_eq in E3.
        unfold GameConfig.NUM_PLAYERS in E3. lia.
      + apply Forall_fmap. apply List.Forall_forall. intros x Hx. simpl.
        apply Qmult_lt_0_compat; [|exact Hbb].
        apply Qnot_le_lt. intros Hle. apply Qle_bool_iff in Hle.
        assert (existsb (fun stack => Qle_bool stack 0) stacksBB = true) as Hex.
        { apply existsb_exists. exists x. split; assumption. }
        congruence. }
  unfold Game.validateConfiguration in Hv. simpl in Hv.
  destruct (Qltb (stacks !!! 0%nat) sb) eqn:V0; [discriminate|].
  destruct (Qltb (stacks !!! 1%nat) bb) eqn:V1; [discriminate|].
  repeat match type of Hv with
         | context [if ?c then _ else _] => destruct c; [discriminate|]
         end.
  simpl in Hv. injection Hv as <-. simpl.
  apply Qltb_ge in V0, V1. auto 10.
Qed.

Lemma stacks_four (g : Game.t) (P : Q -> Prop) :
  length (Game.initialStacks_ g) = 4%nat ->
  Forall P (Game.initialStacks_ g) ->
  P (Game.initialStacks_ g !!! 0%nat) /\ P (Game.initialStacks_ g !!! 1%nat) /\
  P (Game.initialStacks_ g !!! 2%nat) /\ P (Game.initialStacks_ g !!! 3%nat).
Proof.
  intros Hlen Hall.
  destruct (Game.initialStacks_ g) as [|a [|b [|c [|d [|? ?]]]]]; try discriminate Hlen.
  inversion Hall as [|? ? Ha H1]; subst. inversion H1 as [|? ? Hb H2]; subst.
  inversion H2 as [|? ? Hc H3]; subst. inversion H3 as [|? ? Hd _]; subst.
  auto.
Qed.

Lemma inv_contributions_nonneg (g : Game.t) (w : t * gmap positive Deck.t) :
  valid_game g -> inv g w ->
  Forall (fun c => 0 <= c)%Q (contributions_of (fst w)).
Proof.
  intros Hg Hinv.
  destruct (valid_game_facts g Hg) as (Hsb & Hlt & Hlen & Hpos & H0 & H1).
  destruct (stacks_four g _ Hlen Hpos) as (P0 & P1 & P2 & P3).
  destruct w as [s h].
  destruct Hinv as (hist & l & d & Hplay & _ & Hinit & Hst & _).
  simpl in *. apply playable_length in Hplay.
  unfold contributions_of, contribution, seats. rewrite Hinit, Hst.
  destruct hist as [|d2 [|d3 [|d0 [|d1 [|? ?]]]]]; simpl in Hplay; try lia;
    repeat match goal with b : bool |- _ => destruct b end;
    simpl; repeat constructor; lra.
Qed.

Lemma inv_covered (g : Game.t) (w : t * gmap positive Deck.t) :
  valid_game g -> deep_stacks g -> inv g w ->
  gameOver_ (fst w) = true -> covered (fst w).
Proof.
  intros Hg Hdeep Hinv Hover.
  destruct (valid_game_facts g Hg) as (Hsb & Hlt & Hlen & Hpos & H0 & H1).
  destruct (stacks_four g _ Hlen Hpos) as (P0 & P1 & P2 & P3).
  destruct (stacks_four g _ Hlen Hdeep) as (D0 & D1 & D2 & D3).
  destruct w as [s h].
  destruct Hinv as (hist & l & d & Hplay & _ & Hinit & Hst & Hf & _ & _ & _ & _
                    & _ & Ho & _).
  simpl in *. rewrite Hover in Ho.
  pose proof (playable_length _ Hplay) as Hlen4.
  unfold covered, contribution. rewrite Hinit, Hst, Hf.
  destruct hist as [|d2 [|d3 [|d0 [|d1 [|? ?]]]]]; simpl in Hlen4; try lia;
    repeat match goal with b : bool |- _ => destruct b end;
    try discriminate Ho; try discriminate Hplay;
    intros i Hi Hc;
    (destruct i as [|[|[|[|i]]]]; [| | | |lia]); simpl in Hc |- *;
    first [ exfalso; lra
          | exists 0%nat; split; [lia|]; split; [reflexivity|]; simpl; lra
          | exists 1%nat; split; [lia|]; split; [reflexivity|]; simpl; lra
          | exists 2%nat; split; [lia|]; split; [reflexivity|]; simpl; lra
          | exists 3%nat; split; [lia|]; split; [reflexivity|]; simpl; lra ].
Qed.

Lemma inv_terminal (g : Game.t) (w : t * gmap positive Deck.t) :
  inv g w -> gameOver_ (fst w) = true ->
  length (holeCards_ (fst w)) = 8%nat /\
  length (communityCards_ (fst w)) = 5%nat /\
  sidePots_ (fst w) = calculateSidePots (fst w) /\
  (pot_ (fst w) == Qsum (contributions_of (fst w)))%Q.
Proof.
  intros (hist & l & d & _ & _ & _ & _ & _ & _ & Hpot & _ & _ & _ & Ho & Hend & Hh) Hover.
  rewrite Hover in Hend, Ho. destruct Hend as [H5 Hsp].
  destruct (length (holeCards_ (fst w)) =? 0)%nat.
  - subst hist. discriminate Ho.
  - destruct Hh as [H8 _]. auto.
Qed.


(** On the tables with deep stacks the side pots hold the whole pot: in
    the exact model the two are equal, in the code up to the rounding of
    its sums. *)
Lemma deep_stacks_conserve (g : Game.t) (w : t * gmap positive Deck.t) :
  valid_game g -> deep_stacks g -> reachable g w ->
  isTerminal (fst w) = true ->
  (pots_total (sidePots_ (fst w)) == pot_ (fst w))%Q.
Proof.
  intros Hg Hdeep Hr Hover. pose proof (reachable_inv g w Hr) as Hinv.
  destruct (inv_terminal g w Hinv Hover) as (_ & _ & Hsp & Hpot).
  rewrite Hsp, Hpot. apply side_pots_conserve.
  - apply (inv_contributions_nonneg g w Hg Hinv).
  - apply (inv_covered g w Hg Hdeep Hinv Hover).
Qed.

End Chips.

(* ================================================================== *)
(** ** aof::Game: the tables of the tests are accepted                *)
(* ================================================================== *)

Lemma test_game_valid : valid_game test_game.
Proof. exists 0.4%Q, 1%Q, Game.no_rake, []. reflexivity. Qed.


Lemma short_stack_game_valid : valid_game short_stack_game.
Proof. exists 0.4%Q, 1%Q, Game.no_rake, [8; 8; 0.5; 8]%Q. reflexivity. Qed.

(* ================================================================== *)
(** ** aof::GameState: the side pots of a finished hand               *)
(* ================================================================== *)

Section SidePotsLevels.
Import GameState.

Lemma insert_sorted_map {A B} (f : A -> B) (ltA : A -> A -> bool) (ltB : B -> B -> bool)
    (x : A) (l : list A) :
  (forall a b, ltB (f a) (f b) = ltA a b) ->
  insert_sorted ltB (f x) (map f l) = map f (insert_sorted ltA x l).
Proof.
  intros H. induction l as [|y l IH]; simpl; [reflexivity|].
  rewrite H. destruct (ltA x y); simpl; [reflexivity|]. rewrite IH. reflexivity.
Qed.

Lemma sort_map {A B} (f : A -> B) (ltA : A -> A -> bool) (ltB : B -> B -> bool)
    (l : list A) :
  (forall a b, ltB (f a) (f b) = ltA a b) ->
  sort ltB (map f l) = map f (sort ltA l).
Proof.
  intros H. unfold sort.
  assert (forall acc, fold_left (fun acc x => insert_sorted ltB x acc) (map f l) (map f acc)
                      = map f (fold_left (fun acc x => insert_sorted ltA x acc) l acc)) as Hg.
  { induction l as [|x l IH]; intros acc; simpl; [reflexivity|].
    rewrite (insert_sorted_map f ltA ltB x acc H). apply IH. }
  apply (Hg []).
Qed.

Variable s : t.

Lemma raw_contributions_seats :
  raw_contributions s = map (ranked_entry s) (List.filter (contributes s) table_seats).
Proof.
  unfold raw_contributions, for_range, contributes, table_seats, ranked_entry.
  change (Z.to_nat GameConfig.NUM_PLAYERS) with 4%nat.
  cbn [seq fold_left List.filter].
  change (Z.to_nat 0) with 0%nat. change (Z.to_nat 1) with 1%nat.
  change (Z.to_nat 2) with 2%nat. change (Z.to_nat 3) with 3%nat.
  destruct (Qgtb (contribution s 0) 0), (Qgtb (contribution s 1) 0),
           (Qgtb (contribution s 2) 0), (Qgtb (contribution s 3) 0); reflexivity.
Qed.

Lemma contributions_ranking : contributions s = map (ranked_entry s) (ranking s).
Proof.
  change (contributions s) with (sort contribution_lt (raw_contributions s)).
  rewrite raw_contributions_seats. unfold ranking.
  apply sort_map. intros a b. reflexivity.
Qed.


Lemma set_erase_filter (g : Z -> bool) (p : Z) (l : list Z) :
  List.NoDup l ->
  set.erase p (List.filter g l) = List.filter (fun q => g q && negb (q =? p)) l.
Proof.
  induction 1 as [|y l Hy Hnd IH]; [reflexivity|].
  cbn [List.filter]. destruct (Z.eqb_spec y p) as [->|Hne].
  - rewrite andb_false_r.
    assert (List.filter (fun q => g q && negb (q =? p)) l = List.filter g l) as Hrest.
    { apply List.filter_ext_in. intros q Hq.
      destruct (Z.eqb_spec q p) as [->|_]; [contradiction|]. apply andb_true_r. }
    destruct (g p).
    + cbn [set.erase]. rewrite Z.eqb_refl. symmetry. exact Hrest.
    + rewrite IH. reflexivity.
  - rewrite andb_true_r. destruct (g y).
    + cbn [set.erase]. destruct (Z.eqb_spec p y) as [->|_]; [congruence|].
      rewrite IH. reflexivity.
    + exact IH.
Qed.

Lemma eligible0_in_hand : eligible0 s = List.filter (in_hand s) table_seats.
Proof.
  unfold eligible0, for_range, in_hand, table_seats.
  change (Z.to_nat GameConfig.NUM_PLAYERS) with 4%nat.
  cbn [seq fold_left List.filter].
  change (Z.to_nat 0) with 0%nat. change (Z.to_nat 1) with 1%nat.
  change (Z.to_nat 2) with 2%nat. change (Z.to_nat 3) with 3%nat.
  destruct (folded_ s !!! 0%nat), (folded_ s !!! 1%nat),
           (folded_ s !!! 2%nat), (folded_ s !!! 3%nat); reflexivity.
Qed.

Lemma table_seats_NoDup : List.NoDup table_seats.
Proof. repeat constructor; simpl; intuition lia. Qed.

Lemma existsb_eqb_In (q : Z) (l : list Z) : existsb (Z.eqb q) l = true <-> In q l.
Proof.
  rewrite existsb_exists. split.
  - intros (x & Hx & E). apply Z.eqb_eq in E. subst. exact Hx.
  - intros H. exists q. split; [exact H | apply Z.eqb_refl].
Qed.

(** Every seat still in the hand has put chips in. *)
Hypothesis Hactive :
  forall p, In p table_seats -> in_hand s p = true -> contributes s p = true.

Lemma potLoop_layers (ranked : list Z) :
  forall st : potLoop,
    List.NoDup ranked ->
    (forall p, In p ranked -> In p table_seats /\ contributes s p = true) ->
    StronglySorted (fun p q => contribution s (Z.to_nat p)
                               <= contribution s (Z.to_nat q))%Q ranked ->
    Forall (fun p => prevAmount st <= contribution s (Z.to_nat p))%Q ranked ->
    (forall p, In p table_seats -> contributes s p = true ->
               (prevAmount st < contribution s (Z.to_nat p))%Q -> In p ranked) ->
    Permutation (remainingContributors st) ranked ->
    eligiblePlayers st
    = List.filter (fun p => in_hand s p && existsb (Z.eqb p) ranked) table_seats ->
    sidePots (fold_left potLoop_step (map (ranked_entry s) ranked) st)
    = sidePots st ++ layers s (prevAmount st) ranked.
Proof.
  induction ranked as [|p rest IH];
    intros st Hnd Hmem Hsorted Hprev Hall Hrem Hel.
  - simpl. rewrite app_nil_r. reflexivity.
  - inversion Hnd as [|? ? Hp Hnd']; subst.
    inversion Hsorted as [|? ? Hsorted' Hge]; subst.
    inversion Hprev as [|? ? Hpa _]; subst.
    set (a := contribution s (Z.to_nat p)) in *.
    assert (In p (remainingContributors st)) as Hin.
    { eapply Permutation_in; [symmetry; exact Hrem | left; reflexivity]. }
    assert (forall q, In q rest -> (a <= contribution s (Z.to_nat q))%Q) as Hup.
    { intros q Hq. exact (proj1 (List.Forall_forall _ _) Hge q Hq). }
    (* what the levels say when the level rises *)
    assert ((prevAmount st < a)%Q ->
            eligiblePlayers st = eligible_at s a /\
            length (remainingContributors st) = length (seats_reaching s a)) as Hlevel.
    { intros Hlt.
      assert (forall q, In q table_seats -> contributes s q = true ->
                        (In q (p :: rest) <-> (a <= contribution s (Z.to_nat q))%Q))
        as Hiff.
      { intros q Hq Hc. split.
        - intros [<-|Hr]; [unfold a; lra | apply Hup; exact Hr].
        - intros Hle. apply Hall; [exact Hq | exact Hc | lra]. }
      split.
      - rewrite Hel. unfold eligible_at. apply List.filter_ext_in. intros q Hq.
        destruct (in_hand s q) eqn:Hh; [|reflexivity]. cbn [andb].
        pose proof (Hiff q Hq (Hactive q Hq Hh)) as Hq'.
        unfold reaches. fold a.
        destruct (existsb (Z.eqb q) (p :: rest)) eqn:E1,
                 (Qle_bool a (contribution s (Z.to_nat q))) eqn:E2; try reflexivity.
        + apply existsb_eqb_In, Hq', Qle_bool_iff in E1. congruence.
        + apply Qle_bool_iff, Hq', existsb_eqb_In in E2. congruence.
      - rewrite (Permutation_length Hrem). apply Permutation_length.
        apply Permutation.NoDup_Permutation; [exact Hnd | apply List.NoDup_filter, table_seats_NoDup|].
        intros q. unfold seats_reaching. rewrite filter_In, andb_true_iff.
        unfold reaches. rewrite Qle_bool_iff. split.
        + intros Hq. destruct (Hmem q Hq) as [Hs Hc].
          split; [exact Hs|]. split; [exact Hc|]. apply (Hiff q Hs Hc). exact Hq.
        + intros (Hs & Hc & Hle). apply (Hiff q Hs Hc). exact Hle. }
    cbn [map fold_left]. rewrite IH; clear IH.
    + cbn [potLoop_step ranked_entry prevAmount sidePots layers]. fold a.
      unfold Qgtb at 1.
      destruct (Qltb (prevAmount st) a) eqn:Egt;
        [|reflexivity].
      apply Qltb_lt in Egt. destruct (Hlevel Egt) as [HE HN].
      rewrite HE, HN. cbn [andb].
      destruct (length (eligible_at s a) =? 0)%nat eqn:Eel;
        [reflexivity|].
      cbn [negb].
      assert (Qgtb ((a - prevAmount st)
                    * inject_Z (Z.of_nat (length (seats_reaching s a)))) 0 = true) as ->.
      { apply Qgtb_gt. apply Qmult_lt_0_compat; [lra|].
        rewrite <- HN, (Permutation_length Hrem). cbn [length].
        change 0%Q with (inject_Z 0). rewrite <- Zlt_Qlt. lia. }
      rewrite <- app_assoc. reflexivity.
    + exact Hnd'.
    + intros q Hq. apply Hmem. right. exact Hq.
    + exact Hsorted'.
    + cbn [potLoop_step ranked_entry prevAmount]. exact Hge.
    + cbn [potLoop_step ranked_entry prevAmount]. fold a. intros q Hq Hc Hlt.
      destruct (Hall q Hq Hc ltac:(lra)) as [<-|Hr]; [unfold a in Hlt; lra | exact Hr].
    + cbn [potLoop_step ranked_entry remainingContributors].
      apply (Permutation_cons_inv (a := p)).
      rewrite <- (set_erase_perm p _ Hin). exact Hrem.
    + cbn [potLoop_step ranked_entry eligiblePlayers]. rewrite Hel.
      rewrite (set_erase_filter _ p _ table_seats_NoDup).
      apply List.filter_ext_in. intros q Hq. cbn [existsb].
      destruct (in_hand s q); [|reflexivity]. cbn [andb].
      destruct (Z.eqb_spec q p) as [->|Hne]; cbn [orb negb].
      * rewrite andb_false_r. symmetry.
        destruct (existsb (Z.eqb p) rest) eqn:E; [|reflexivity].
        apply existsb_eqb_In in E. contradiction.
      * apply andb_true_r.
Qed.

Lemma StronglySorted_entries (l : list Z) :
  StronglySorted amount_le (map (ranked_entry s) l) ->
  StronglySorted (fun p q => contribution s (Z.to_nat p)
                             <= contribution s (Z.to_nat q))%Q l.
Proof.
  induction l as [|p l IH]; intros H; [constructor|].
  cbn [map] in H. inversion H as [|? ? Hs Hf]; subst.
  constructor; [apply IH; exact Hs|].
  apply List.Forall_forall. intros q Hq.
  exact (proj1 (List.Forall_forall _ _) Hf (ranked_entry s q) (in_map _ _ _ Hq)).
Qed.

(** [calculateSidePots] builds the side pots of the levels. *)
Lemma calculateSidePots_by_level : calculateSidePots s = side_pots_by_level s.
Proof.
  rewrite calculateSidePots_unfold.
  change (sort contribution_lt (raw_contributions s)) with (contributions s).
  rewrite contributions_ranking.
  assert (Permutation (ranking s) (List.filter (contributes s) table_seats)) as Hperm
      by apply sort_perm.
  assert (forall p, In p (ranking s) <-> In p table_seats /\ contributes s p = true)
    as Hmem.
  { intros p. rewrite <- filter_In. split; apply Permutation_in;
      [exact Hperm | symmetry; exact Hperm]. }
  rewrite potLoop_layers.
  - reflexivity.
  - eapply Permutation_NoDup; [symmetry; exact Hperm|].
    apply List.NoDup_filter, table_seats_NoDup.
  - intros p Hp. apply Hmem. exact Hp.
  - apply StronglySorted_entries. rewrite <- contributions_ranking.
    apply contributions_sorted.
  - cbn [prevAmount]. apply List.Forall_forall. intros p Hp.
    apply Hmem in Hp as [_ Hc]. apply Qgtb_gt in Hc. lra.
  - cbn [prevAmount]. intros p Hp Hc _. apply Hmem. split; assumption.
  - cbn [remainingContributors]. rewrite remaining0_perm, raw_contributions_seats.
    rewrite map_map. cbn [ranked_entry snd]. rewrite map_id. symmetry. exact Hperm.
  - cbn [eligiblePlayers]. rewrite eligible0_in_hand.
    apply List.filter_ext_in. intros q Hq.
    destruct (in_hand s q) eqn:Hh; [|reflexivity]. cbn [andb]. symmetry.
    apply existsb_eqb_In, Hmem. split; [exact Hq | apply Hactive; assumption].
Qed.

End SidePotsLevels.

Section TerminalSidePots.
Import GameState.

(** When a hand is over at a table [Game] accepts, every seat still in
    the hand has chips in the pot. *)
Lemma inv_active_contribute g w :
  valid_game g -> inv g w -> gameOver_ (fst w) = true ->
  forall p, In p table_seats -> in_hand (fst w) p = true ->
            contributes (fst w) p = true.
Proof.
  intros Hg (hist & l & d & Hplay & _ & Hinit & Hst & Hf & _ & _ & _ & _ & _
             & Hover & _) Hterm p Hp Hin.
  rewrite Hterm in Hover. symmetry in Hover.
  destruct (valid_game_facts g Hg) as (Hsb & Hlt & Hlen & Hpos & _ & _).
  destruct (stacks_four g (fun stack => 0 < stack)%Q Hlen Hpos) as (P0 & P1 & P2 & P3).
  unfold in_hand in Hin. unfold contributes, contribution.
  rewrite Hf in Hin. rewrite Hinit, Hst. apply Qgtb_gt.
  unfold stacks_of, start_stacks, initial_of.
  set (x0 := Game.initialStacks_ g !!! 0%nat) in *.
  set (x1 := Game.initialStacks_ g !!! 1%nat) in *.
  set (x2 := Game.initialStacks_ g !!! 2%nat) in *.
  set (x3 := Game.initialStacks_ g !!! 3%nat) in *.
  clearbody x0 x1 x2 x3.
  apply playable_length in Hplay.
  destruct hist as [|d2 [|d3 [|d0 [|d1 [|? ?]]]]]; simpl in Hplay; try lia;
    repeat match goal with b : bool |- _ => destruct b end;
    try discriminate Hover;
    simpl in Hp; destruct Hp as [<-|[<-|[<-|[<-|[]]]]];
    try discriminate Hin;
    cbv - [Qlt Qminus Game.smallBlind_ Game.bigBlind_]; lra.
Qed.

Lemma terminal_side_pots g w :
  valid_game g -> inv g w -> gameOver_ (fst w) = true ->
  sidePots_ (fst w) = side_pots_by_level (fst w).
Proof.
  intros Hg Hinv Hover.
  destruct (inv_terminal g w Hinv Hover) as (_ & _ & Hsp & _).
  rewrite Hsp. apply calculateSidePots_by_level.
  apply (inv_active_contribute g w Hg Hinv Hover).
Qed.

End TerminalSidePots.

(** C3.  After a call to [applyAction] on a state of a hand, the state
    is terminal exactly when at most one seat has not folded or every
    seat that has not folded is in the all-in set.  The call that makes
    the state terminal finds no community cards, deals five of them from
    the deck, and stores the side pots computed from the final state:
    what [calculateSidePots] returns on it, which at a table the
    constructor of [Game] accepts is the list of the layers of the
    contributions, one pot for every level that a seat still in the hand
    reaches. *)
Theorem C3_terminal_iff_hand_decided :
  forall (g : Game.t) (w : GameState.t * gmap positive Deck.t) (a : Action),
    reachable g w ->
    let w' := snd (GameState.applyAction a w) in
    (GameState.isTerminal (fst w') = true <->
     (length (active_seats (fst w')) <= 1)%nat \/ all_active_all_in (fst w')) /\
    (GameState.isTerminal (fst w) = false ->
     GameState.isTerminal (fst w') = true ->
     GameState.communityCards_ (fst w) = [] /\
     length (GameState.communityCards_ (fst w')) = 5%nat /\
     GameState.sidePots_ (fst w') = GameState.calculateSidePots (fst w') /\
     (valid_game g -> GameState.sidePots_ (fst w') = side_pots_by_level (fst w')) /\
     exists l d,
       GameState.deck_ (fst w) = Some l /\ snd w !! l = Some d /\
       GameState.communityCards_ (fst w') = dealt 5 d /\
       snd w' !! l = Some (remaining 5 d)).
Proof.
  intros g w a Hr w'.
  pose proof (reachable_inv g w Hr) as Hinv.
  pose proof (inv_applyAction g w a Hinv) as Hinv'. fold w' in Hinv'.
  split.
  - unfold GameState.isTerminal. rewrite (inv_over g w' Hinv').
    apply shouldGameEnd_iff. eapply inv_folded_length. exact Hinv'.
  - unfold GameState.isTerminal. intros Hno Hyes.
    destruct (ending_call_deals g w a Hinv Hno Hyes)
      as (l & d & Hl & Hd & Hc & Hc' & Hl' & Hd').
    fold w' in Hc', Hd', Hyes.
    pose proof (fun Hg => terminal_side_pots g w' Hg Hinv' Hyes) as Hlevels.
    destruct Hinv' as (hist & l2 & d2 & _ & _ & _ & _ & _ & _ & _ & _ & _ & _
                       & _ & Hend & _).
    rewrite Hyes in Hend. destruct Hend as [H5 Hsp].
    split; [exact Hc|]. split; [exact H5|]. split; [exact Hsp|].
    split; [exact Hlevels|].
    exists l, d. auto.
Qed.

(** The third fold of the termination test ends the hand.  The two
    blinds make two layers, 0.4 from each of them and the 0.6 the big
    blind put in above; the big blind alone is eligible for both. *)
Lemma C3_witness :
  reachable test_game (play [DEAL; FOLD; FOLD] (fresh_world test_game Deck.createStandardDeck)) /\
  let w := play [DEAL; FOLD; FOLD] (fresh_world test_game Deck.createStandardDeck) in
  let w' := snd (GameState.applyAction FOLD w) in
  GameState.isTerminal (fst w) = false /\
  GameState.isTerminal (fst w') = true /\
  (length (active_seats (fst w')) <= 1)%nat /\
  length (GameState.communityCards_ (fst w')) = 5%nat /\
  GameState.sidePots_ (fst w') = side_pots_by_level (fst w') /\
  map (fun pot => (Qred (fst pot), snd pot)) (side_pots_by_level (fst w'))
    = [((4 # 5)%Q, [1]); ((3 # 5)%Q, [1])].
Proof.
  assert (reachable test_game
            (play [DEAL; FOLD; FOLD] (fresh_world test_game Deck.createStandardDeck)))
    as Hr.
  { apply play_reachable, fresh_world_reachable, standard_deck_shuffled. }
  split; [exact Hr|].
  destruct (C3_terminal_iff_hand_decided test_game _ FOLD Hr) as [_ Hdeal].
  assert (GameState.isTerminal
            (fst (play [DEAL; FOLD; FOLD]
                    (fresh_world test_game Deck.createStandardDeck))) = false)
    as Hno by (vm_compute; reflexivity).
  assert (GameState.isTerminal
            (fst (snd (GameState.applyAction FOLD
                         (play [DEAL; FOLD; FOLD]
                            (fresh_world test_game Deck.createStandardDeck))))) = true)
    as Hyes by (vm_compute; reflexivity).
  destruct (Hdeal Hno Hyes) as (_ & H5 & _ & Hlevels & _).
  split; [exact Hno|]. split; [exact Hyes|].
  split; [vm_compute; lia|]. split; [exact H5|].
  split; [exact (Hlevels test_game_valid)|].
  vm_compute. reflexivity.
Defined.

(* ================================================================== *)
(** ** aof::GameState: the returns of a finished hand                 *)
(* ================================================================== *)

(** The amounts of a hand are rounded in the code.  At the default
    table the small blind keeps [8.0 - 0.4] after posting, and its
    contribution [8.0 - (8.0 - 0.4)] is [0.40000000000000036], above the
    [0.4] it posted. *)
Lemma posted_blind_is_rounded :
  let smallBlind := 0x1.999999999999ap-2%float in
  let contribution := Binary64.contribution 8 (PrimFloat.sub 8 smallBlind) in
  contribution = 0x1.99999999999a0p-2%float /\
  PrimFloat.ltb smallBlind contribution = true.
Proof. split; vm_compute; reflexivity. Qed.

Lemma test_game_deep : deep_stacks test_game.
Proof. repeat constructor; discriminate. Qed.






(** C4.  At a table the constructor of [Game] accepts, a hand ends
    with side pots of 1.4 chips in total although the pot holds 1.9: the
    half chip that the folded big blind put in above the all-in of seat 2
    is in no side pot, and [getReturns] prints its zero-sum warning. *)
Theorem C4_side_pots_lose_chips :
  valid_game short_stack_game /\
  reachable short_stack_game short_stack_hand /\
  GameState.isTerminal (fst short_stack_hand) = true /\
  map (fun pot => (Qred (fst pot), snd pot)) (GameState.sidePots_ (fst short_stack_hand))
    = [((6 # 5)%Q, [2]); ((1 # 5)%Q, [2])] /\
  (pots_total (GameState.sidePots_ (fst short_stack_hand)) == 1.4)%Q /\
  (GameState.pot_ (fst short_stack_hand) == 1.9)%Q /\
  ~ (pots_total (GameState.sidePots_ (fst short_stack_hand))
     == GameState.pot_ (fst short_stack_hand))%Q /\
  (exists returns invested won diff,
     GameState.getReturns (fst short_stack_hand)
       = ok (returns, [ZeroSumViolation invested won diff]) /\
     (invested == 1.9)%Q /\ (won == 1.4)%Q /\ (diff == 0.5)%Q).
Proof.
  split; [apply short_stack_game_valid|].
  split; [apply play_reachable, fresh_world_reachable, standard_deck_shuffled|].
  split; [vm_compute; reflexivity|].
  split; [vm_compute; reflexivity|].
  split; [vm_compute; reflexivity|].
  split; [vm_compute; reflexivity|].
  split; [vm_compute; discriminate|].
  do 4 eexists. split; [vm_compute; reflexivity|].
  repeat split; vm_compute; reflexivity.
Qed.

(* ================================================================== *)
(** ** The fold-out scenario                                          *)
(* ================================================================== *)

Section FoldOut.
Import GameState.

Lemma awardPot_single (s : t) (returns : list Q) (amount : Q) (p : Z) :
  length (holeCards_ s) = 8%nat -> length (communityCards_ s) = 5%nat ->
  0 <= p < 4 -> folded_ s !!! Z.to_nat p = false ->
  awardPot s returns (amount, [p]) =
  ok (<[Z.to_nat p := (returns !!! Z.to_nat p + amount / 1)%Q]> returns).
Proof.
  intros H8 H5 Hp Hf. unfold awardPot. simpl. rewrite Hf. simpl.
  destruct (lookup_lt_is_Some_2 (holeCards_ s) (Z.to_nat (p * 2))) as [c1 ->];
    [lia|].
  destruct (lookup_lt_is_Some_2 (holeCards_ s) (Z.to_nat (p * 2 + 1))) as [c2 ->];
    [lia|].
  destruct (evaluateHand_total [c1; c2] (communityCards_ s) eq_refl H5)
    as [score ->].
  reflexivity.
Qed.

(** Evaluate one decision on a state whose control part is known. *)
Ltac decide_step Hh :=
  rewrite applyAction_decide;
    [| unfold isChanceNode; simpl; rewrite Hh; reflexivity | reflexivity
     | simpl; lia | reflexivity | discriminate];
  match goal with
  | |- context [advanceLoop ?n ?x] =>
      let v := eval vm_compute in (advanceLoop n x) in
      change (advanceLoop n x) with v
  end;
  cbv iota beta;
  match goal with
  | |- context [shouldGameEnd ?x] =>
      let v := eval vm_compute in (shouldGameEnd x) in
      change (shouldGameEnd x) with v
  end;
  cbv iota beta.

Lemma scenario_two_folds (params : GameParameters) (cards : Deck.t) :
  Deck.shuffled cards ->
  exists hole d1,
    length hole = 8%nat /\ length d1 = 44%nat /\
    play [DEAL; FOLD; FOLD] (fresh_world (scenario_game params) cards) =
    (mk (scenario_game params) false 0 1.4%Q [8; 8; 8; 8]%Q [7.6; 7; 8; 8]%Q
        [false; false; true; true] [] (Some 1%positive) hole [] [],
     {[1%positive := d1]}).
Proof.
  intros Hsh. pose proof (shuffled_size _ Hsh) as H52.
  exists (dealt 8 cards), (remaining 8 cards).
  assert (length (dealt 8 cards) = 8%nat) as H8 by (apply length_dealt; lia).
  split; [exact H8|].
  split; [unfold remaining; rewrite length_remaining; lia|].
  unfold play, fresh_world. cbn [fold_left].
  rewrite (applyAction_deal _ _ 1%positive cards);
    [| reflexivity | reflexivity | apply lookup_singleton_eq | lia].
  cbn [snd]. rewrite insert_singleton_eq.
  set (hole := dealt 8 cards) in *. clearbody hole.
  set (d1 := remaining 8 cards). clearbody d1.
  assert ((length hole =? 0)%nat = false) as Hh by (rewrite H8; reflexivity).
  decide_step Hh. cbn [snd].
  decide_step Hh. cbn [snd].
  reflexivity.
Qed.

Lemma scenario_third_fold (params : GameParameters) (hole d1 : list Card.t) :
  length hole = 8%nat -> length d1 = 44%nat ->
  exists board d2,
    length board = 5%nat /\
    GameState.applyAction FOLD
      (mk (scenario_game params) false 0 1.4%Q [8; 8; 8; 8]%Q [7.6; 7; 8; 8]%Q
          [false; false; true; true] [] (Some 1%positive) hole [] [],
       {[1%positive := d1]}) =
    (ok tt,
     (mk (scenario_game params) true 1 1.4%Q [8; 8; 8; 8]%Q [7.6; 7; 8; 8]%Q
         [true; false; true; true] [] (Some 1%positive) hole board
         [(0.8%Q, [1]); (0.6%Q, [1])],
      {[1%positive := d2]})).
Proof.
  intros H8 H44.
  exists (dealt 5 d1), (remaining 5 d1).
  split; [apply length_dealt; lia|].
  assert ((length hole =? 0)%nat = false) as Hh by (rewrite H8; reflexivity).
  decide_step Hh.
  rewrite (handleGameEnd_deal _ _ 1%positive d1);
    [| reflexivity | reflexivity | apply lookup_singleton_eq | lia].
  rewrite insert_singleton_eq.
  unfold ended.
  match goal with
  | |- context [calculateSidePots ?x] =>
      let v := eval vm_compute in (calculateSidePots x) in
      change (calculateSidePots x) with v
  end.
  reflexivity.
Qed.

(** The returns of the state after three folds. *)
Lemma scenario_returns (params : GameParameters) (hole board : list Card.t) :
  length hole = 8%nat -> length board = 5%nat ->
  exists returns,
    getReturns
      (mk (scenario_game params) true 1 1.4%Q [8; 8; 8; 8]%Q [7.6; 7; 8; 8]%Q
          [true; false; true; true] [] (Some 1%positive) hole board
          [(0.8%Q, [1]); (0.6%Q, [1])]) = ok (returns, []) /\
    Forall2 Qeq returns [-0.4; 0.4; 0; 0]%Q.
Proof.
  intros H8 H5. unfold getReturns.
  change (negb (gameOver_ _)) with false. cbv iota.
  cbn [fold_left sidePots_].
  unfold ok at 1. cbn [rbind].
  rewrite awardPot_single; [| exact H8 | exact H5 | lia | reflexivity].
  unfold ok at 1. cbn [rbind].
  rewrite awardPot_single; [| exact H8 | exact H5 | lia | reflexivity].
  unfold ok at 1. cbn [rbind].
  eexists. split.
  - vm_compute. reflexivity.
  - repeat constructor; vm_compute; reflexivity.
Qed.

End FoldOut.

(** C2, as stated, fails: after DEAL and the folds of seats 2 and 3 the
    state is not terminal; seat 0 is to act, and [getReturns] throws. *)
Lemma C2_counterexample :
  let w := play [DEAL; FOLD; FOLD] (fresh_world test_game Deck.createStandardDeck) in
  GameState.isTerminal (fst w) = false /\
  GameState.getCurrentPlayer (fst w) = 0 /\
  GameState.getLegalActions (fst w) = [FOLD; ALL_IN] /\
  GameState.getReturns (fst w)
    = inl (runtime_error "Cannot get returns for non-terminal state").
Proof. vm_compute. repeat split. Qed.

(** C2, amended.  At the table with blinds 0.4 and 1, after DEAL and
    the folds of seats 2 and 3 the state is not terminal: seat 0 is to
    act and no community card is dealt.  When seat 0 folds too the state
    is terminal, five community cards are dealt, and [getReturns] gives
    seat 1 +0.4 with neither rake nor jackpot fee deducted, seat 0 -0.4
    and seats 2 and 3 zero, whatever the deck and the rake parameters. *)
Theorem C2_three_folds_end_the_hand :
  forall (params : GameParameters) (cards : Deck.t),
    Deck.shuffled cards ->
    let w2 := play [DEAL; FOLD; FOLD] (fresh_world (scenario_game params) cards) in
    let w3 := snd (GameState.applyAction FOLD w2) in
    (GameState.isTerminal (fst w2) = false /\
     GameState.getCurrentPlayer (fst w2) = 0 /\
     GameState.communityCards_ (fst w2) = []) /\
    (GameState.isTerminal (fst w3) = true /\
     length (GameState.communityCards_ (fst w3)) = 5%nat /\
     exists returns,
       GameState.getReturns (fst w3) = ok (returns, []) /\
       Forall2 Qeq returns [-0.4; 0.4; 0; 0]%Q).
Proof.
  intros params cards Hsh w2 w3.
  destruct (scenario_two_folds params cards Hsh) as (hole & d1 & H8 & H44 & Hw2).
  destruct (scenario_third_fold params hole d1 H8 H44) as (board & d2 & H5 & Hw3).
  unfold w3, w2. rewrite Hw2. split; [repeat split|].
  rewrite Hw3. cbn [fst snd]. split; [reflexivity|]. split; [exact H5|].
  apply scenario_returns; assumption.
Qed.

Lemma C2_witness :
  Deck.shuffled Deck.createStandardDeck /\
  let w2 := play [DEAL; FOLD; FOLD]
                 (fresh_world (scenario_game raked_params) Deck.createStandardDeck) in
  let w3 := snd (GameState.applyAction FOLD w2) in
  GameState.isTerminal (fst w2) = false /\
  GameState.isTerminal (fst w3) = true /\
  exists returns,
    GameState.getReturns (fst w3) = ok (returns, []) /\
    Forall2 Qeq returns [-0.4; 0.4; 0; 0]%Q.
Proof.
  split; [apply standard_deck_shuffled|].
  destruct (C2_three_folds_end_the_hand raked_params Deck.createStandardDeck
              standard_deck_shuffled) as [(Hno & _ & _) (Hyes & _ & Hret)].
  split; [exact Hno|]. split; [exact Hyes | exact Hret].
Defined.

(* ================================================================== *)
(** ** aof::GameState: copies                                         *)
(* ================================================================== *)

Section Copies.
Import GameState.

(** A call writes no deck but the one of its own state. *)
Lemma deck_dealCards_frame (count : Z) (w : t * gmap positive Deck.t) (l : positive) :
  deck_ (fst w) <> Some l ->
  fst (snd (deck_dealCards count w)) = fst w /\
  snd (snd (deck_dealCards count w)) !! l = snd w !! l.
Proof.
  intros Hne. unfold deck_dealCards.
  destruct (deck_ (fst w)) as [l0|] eqn:Hl; [|split; reflexivity].
  destruct (snd w !! l0) as [d|]; [|split; reflexivity].
  destruct (Deck.dealCards count d) as [e|[cards d']]; [split; reflexivity|].
  simpl. split; [reflexivity|].
  apply lookup_insert_ne. congruence.
Qed.

Lemma handleGameEnd_frame (w : t * gmap positive Deck.t) (l : positive) :
  deck_ (fst w) <> Some l ->
  snd (snd (handleGameEnd w)) !! l = snd w !! l.
Proof.
  intros Hne. unfold handleGameEnd, bind, get, modify, ret. simpl.
  destruct (length (communityCards_ (fst w)) =? 0)%nat; [|reflexivity].
  destruct (deck_dealCards_frame GameConfig.COMMUNITY_CARDS w l Hne) as [_ Hh].
  destruct (deck_dealCards GameConfig.COMMUNITY_CARDS w) as [[e|cards] w'];
    simpl in *; exact Hh.
Qed.

Lemma applyAction_frame (a : Action) (w : t * gmap positive Deck.t) (l : positive) :
  deck_ (fst w) <> Some l ->
  snd (snd (applyAction a w)) !! l = snd w !! l.
Proof.
  intros Hne. destruct w as [s h]. simpl in Hne.
  destruct (existsb (Action_eqb a) (getLegalActions s)) eqn:Hleg.
  - apply existsb_Action_eqb in Hleg.
    destruct (legal_cases a s Hleg) as [[Hc ->] | (Hc & Hno & Hnext & Hf & Ha)].
    + unfold applyAction, bind, get. simpl. rewrite Hc. simpl.
      unfold dealHoleCards, bind, get, modify, ret. simpl.
      destruct (length (holeCards_ s) =? 0)%nat; [|reflexivity]. simpl.
      destruct (deck_dealCards_frame
                  (GameConfig.NUM_PLAYERS * GameConfig.HOLE_CARDS_PER_PLAYER)
                  (s, h) l Hne) as [_ Hh].
      destruct (deck_dealCards _ (s, h)) as [[e|cards] w']; simpl in *; exact Hh.
    + rewrite applyAction_decide;
        [| assumption | assumption | assumption | assumption
         | destruct Ha; subst; discriminate].
      destruct (act_frame a s) as (_ & Hdk & _ & _).
      destruct (advanceLoop (Z.to_nat GameConfig.NUM_PLAYERS) (act a s))
        as [s2|] eqn:Hadv; [|reflexivity].
      apply advanceLoop_frame in Hadv.
      destruct (shouldGameEnd s2); [|reflexivity].
      rewrite handleGameEnd_frame; [reflexivity|].
      simpl. rewrite Hadv. simpl. congruence.
  - destruct (illegal_action_throws s h a) as [what ->]; [|reflexivity].
    intros Hl'. apply existsb_Action_eqb in Hl'. congruence.
Qed.

(** C9.  [clone] copies every member by value and the deck into a new
    object; a legal action applied to the clone leaves all that the
    original shows, the cards of its deck included, as it was. *)
Theorem C9_clone_is_independent :
  forall (s : t) (h : gmap positive Deck.t) (a : Action)
         (w2 : t * gmap positive Deck.t),
    (exists l d, deck_ s = Some l /\ h !! l = Some d) ->
    clone s h = ok w2 ->
    legal a s ->
    observe (fst w2) (snd w2) = observe s h /\
    deck_ (fst w2) <> deck_ s /\
    legal a (fst w2) /\
    observe s (snd (snd (applyAction a w2))) = observe s h.
Proof.
  intros s h a w2 (l & d & Hl & Hd) Hclone Hlegal.
  unfold clone in Hclone. rewrite Hl, Hd in Hclone. injection Hclone as <-.
  assert (fresh (dom h) <> l) as Hfresh.
  { intros Heq. apply (is_fresh (dom h)). rewrite Heq.
    apply elem_of_dom. exists d. exact Hd. }
  cbn [fst snd].
  split; [|split; [|split]].
  - unfold observe. simpl. rewrite lookup_insert_eq, Hl, Hd. reflexivity.
  - simpl. rewrite Hl. congruence.
  - exact Hlegal.
  - unfold observe. rewrite Hl. f_equal.
    rewrite applyAction_frame.
    + simpl. apply lookup_insert_ne. exact Hfresh.
    + simpl. congruence.
Qed.

Lemma C9_witness :
  let s := fst (fresh_world test_game Deck.createStandardDeck) in
  let h := snd (fresh_world test_game Deck.createStandardDeck) in
  exists w2,
    clone s h = ok w2 /\ legal DEAL s /\
    observe s (snd (snd (applyAction DEAL w2))) = observe s h /\
    observe (fst (snd (applyAction DEAL w2))) (snd (snd (applyAction DEAL w2)))
      <> observe s h.
Proof.
  intros s h.
  assert (exists l d, deck_ s = Some l /\ h !! l = Some d) as Hwf.
  { exists 1%positive, Deck.createStandardDeck. split; reflexivity. }
  assert (legal DEAL s) as Hlegal by (left; reflexivity).
  eexists. split; [reflexivity|]. split; [exact Hlegal|].
  split.
  - apply (C9_clone_is_independent s h DEAL _ Hwf eq_refl Hlegal).
  - vm_compute. discriminate.
Defined.

End Copies.

(* ################################################################## *)
(** * Further properties of the code                                  *)
(* ################################################################## *)

(* ================================================================== *)
(** ** aof::GameState: the cards and the chips of a hand              *)
(* ================================================================== *)

Section HandResources.
Import GameState.

Lemma deal_perm (n : nat) (d : Deck.t) :
  Permutation (dealt n d ++ remaining n d) d.
Proof.
  unfold dealt, remaining.
  transitivity (take n (reverse d) ++ drop n (reverse d)).
  - apply Permutation_app_head. apply reverse_Permutation.
  - rewrite take_drop. apply reverse_Permutation.
Qed.

Lemma cards_after_call g w a l d :
  inv g w ->
  deck_ (fst w) = Some l -> snd w !! l = Some d ->
  exists d',
    deck_ (fst (snd (applyAction a w))) = Some l /\
    snd (snd (applyAction a w)) !! l = Some d' /\
    Permutation (cards_in_play (fst (snd (applyAction a w))) d')
                (cards_in_play (fst w) d).
Proof.
  destruct w as [s h]. intros Hinv Hl Hd. simpl in Hl, Hd.
  pose proof Hinv as (hist & l0 & d0 & Hplay & Hg & Hinit & Hst & Hf & Ha & Hpot & Hl0
                      & Hd0 & Hlen & Hover & Hend & Hhole).
  simpl in *. rewrite Hl in Hl0. injection Hl0 as <-.
  rewrite Hd in Hd0. injection Hd0 as <-.
  destruct (existsb (Action_eqb a) (getLegalActions s)) eqn:Hleg.
  - apply existsb_Action_eqb in Hleg.
    destruct (legal_cases a s Hleg) as [[Hc ->] | (Hc & Hno & Hnext & Hfold & Hact)].
    + pose proof Hc as Hc'. unfold isChanceNode in Hc'.
      apply andb_true_iff in Hc' as [Hh Hno]. apply negb_true_iff in Hno.
      rewrite Hno in Hend. apply Nat.eqb_eq in Hh.
      rewrite Hh, Hend in Hlen. simpl in Hlen.
      rewrite (applyAction_deal s h l d Hc Hl Hd) by lia. simpl.
      exists (remaining 8 d). split; [exact Hl|]. split; [apply lookup_insert_eq|].
      unfold cards_in_play. simpl. rewrite Hend.
      apply length_zero_iff_nil in Hh. rewrite Hh. simpl. apply deal_perm.
    + rewrite Hno in Hend.
      unfold isChanceNode in Hc. rewrite Hno, andb_true_r in Hc.
      rewrite Hc in Hhole. destruct Hhole as [H8 _].
      rewrite Hend, H8 in Hlen. simpl in Hlen.
      rewrite applyAction_decide;
        [| unfold isChanceNode; rewrite Hc; reflexivity | exact Hno | exact Hnext
         | exact Hfold | destruct Hact; subst; discriminate].
      destruct (act_frame a s) as (Ho & Hdk & Hcc & Hhc).
      destruct (advanceLoop (Z.to_nat GameConfig.NUM_PLAYERS) (act a s)) as [s2|] eqn:Hadv.
      * apply advanceLoop_frame in Hadv.
        destruct (shouldGameEnd s2).
        -- rewrite (handleGameEnd_deal _ h l d);
             [| rewrite Hadv; simpl; congruence | rewrite Hadv; simpl; congruence
              | exact Hd | lia].
           simpl. exists (remaining 5 d).
           split; [rewrite Hadv; simpl; congruence|].
           split; [apply lookup_insert_eq|].
           unfold cards_in_play. simpl. rewrite Hadv. simpl. rewrite Hhc, Hend. simpl.
           apply Permutation_app_head. apply deal_perm.
        -- simpl. exists d. split; [rewrite Hadv; simpl; congruence|].
           split; [exact Hd|].
           unfold cards_in_play. rewrite Hadv. simpl. rewrite Hhc, Hcc. reflexivity.
      * simpl. exists d. split; [congruence|]. split; [exact Hd|].
        unfold cards_in_play. rewrite Hhc, Hcc. reflexivity.
  - destruct (illegal_action_throws s h a) as [what ->].
    + intros Hl'. apply existsb_Action_eqb in Hl'. congruence.
    + simpl. exists d. split; [exact Hl|]. split; [exact Hd|]. reflexivity.
Qed.

(** The 52 cards of a hand are the hole cards, the board and the deck:
    the statement proved along the calls of a hand. *)
Lemma reachable_cards g w :
  reachable g w ->
  exists l d,
    deck_ (fst w) = Some l /\ snd w !! l = Some d /\
    Permutation (cards_in_play (fst w) d) Deck.createStandardDeck.
Proof.
  induction 1 as [cards h w Hsh Hw | a w Hr IH | w w' Hr IH Hc].
  - unfold GameState.GameState in Hw.
    repeat match type of Hw with
           | context [Game.getInitialStack g ?p] =>
               destruct (Game.getInitialStack g p); simpl in Hw; [discriminate Hw|]
           end.
    injection Hw as <-. simpl.
    exists (fresh (dom h)), cards.
    split; [reflexivity|]. split; [apply lookup_insert_eq|]. exact Hsh.
  - destruct IH as (l & d & Hl & Hd & Hp).
    destruct (cards_after_call g w a l d (reachable_inv g w Hr) Hl Hd)
      as (d' & Hl' & Hd' & Hp').
    exists l, d'. split; [exact Hl'|]. split; [exact Hd'|].
    etransitivity; eassumption.
  - destruct IH as (l & d & Hl & Hd & Hp).
    unfold clone in Hc. rewrite Hl, Hd in Hc. injection Hc as <-. simpl.
    exists (fresh (dom (snd w))), d.
    split; [reflexivity|]. split; [apply lookup_insert_eq|]. exact Hp.
Qed.

Lemma standard_deck_NoDup : List.NoDup Deck.createStandardDeck.
Proof.
  apply (NoDup_map_inv (fun c => (Card.rank_ c, Card.suit_ c))).
  apply NoDup_ListNoDup.
  assert (bool_decide
            (NoDup (map (fun c => (Card.rank_ c, Card.suit_ c)) Deck.createStandardDeck))
          = true) as H by (vm_compute; reflexivity).
  apply bool_decide_eq_true in H. exact H.
Qed.

End HandResources.

(** X1.  In every state of a hand the hole cards, the community cards
    and the cards left in the state's deck are together the 52 cards of
    the standard deck, each once: no card is dealt twice, to two seats
    or to a seat and the board. *)
Theorem X1_cards_are_conserved :
  forall (g : Game.t) (w : GameState.t * gmap positive Deck.t),
    reachable g w ->
    exists l d,
      GameState.deck_ (fst w) = Some l /\ snd w !! l = Some d /\
      Permutation (cards_in_play (fst w) d) Deck.createStandardDeck /\
      List.NoDup (GameState.holeCards_ (fst w) ++ GameState.communityCards_ (fst w)).
Proof.
  intros g w Hr. destruct (reachable_cards g w Hr) as (l & d & Hl & Hd & Hp).
  exists l, d. split; [exact Hl|]. split; [exact Hd|]. split; [exact Hp|].
  assert (List.NoDup (cards_in_play (fst w) d)) as Hnd.
  { eapply Permutation_NoDup; [apply Permutation_sym; exact Hp|].
    apply standard_deck_NoDup. }
  unfold cards_in_play in Hnd. rewrite app_assoc in Hnd.
  apply NoDup_app_remove_r in Hnd. exact Hnd.
Qed.

Lemma X1_witness :
  let w := play [DEAL; ALL_IN; ALL_IN; FOLD; FOLD]
                (fresh_world test_game Deck.createStandardDeck) in
  reachable test_game w /\
  length (GameState.holeCards_ (fst w)) = 8%nat /\
  length (GameState.communityCards_ (fst w)) = 5%nat /\
  List.NoDup (GameState.holeCards_ (fst w) ++ GameState.communityCards_ (fst w)).
Proof.
  intros w.
  assert (reachable test_game w) as Hr.
  { apply play_reachable, fresh_world_reachable, standard_deck_shuffled. }
  split; [exact Hr|]. split; [reflexivity|]. split; [reflexivity|].
  destruct (X1_cards_are_conserved test_game w Hr) as (l & d & _ & _ & _ & Hnd).
  exact Hnd.
Defined.

(** X2.  In every state of a hand at a table the constructor of [Game]
    accepts, the pot and the four stacks add up to the four starting
    stacks, and every stack lies between zero and its starting stack. *)
Theorem X2_chips_are_conserved :
  forall (g : Game.t) (w : GameState.t * gmap positive Deck.t),
    valid_game g -> reachable g w ->
    let s := fst w in
    (GameState.pot_ s + Qsum (GameState.playerStacks_ s)
     == Qsum (GameState.initialStacks_ s))%Q /\
    GameState.initialStacks_ s = initial_of g /\
    Forall2 (fun stack initial => 0 <= stack /\ stack <= initial)%Q
            (GameState.playerStacks_ s) (GameState.initialStacks_ s).
Proof.
  intros g w Hg Hr s.
  pose proof (reachable_inv g w Hr) as Hinv.
  pose proof (inv_contributions_nonneg g w Hg Hinv) as Hnn.
  destruct Hinv as (hist & l & d & _ & _ & Hinit & Hst & _ & _ & Hpot & _).
  fold s in Hinit, Hst, Hpot, Hnn.
  destruct (valid_game_facts g Hg) as (Hsb & Hlt & Hlen & Hpos & H0 & H1).
  destruct (stacks_four g (fun stack => 0 < stack)%Q Hlen Hpos) as (P0 & P1 & P2 & P3).
  unfold contributions_of, seats, GameState.contribution in Hpot, Hnn.
  rewrite Hinit, Hst in Hpot, Hnn. rewrite Hinit, Hst.
  unfold stacks_of, start_stacks, initial_of, decision in *.
  unfold Qsum, accumulate in *. simpl in *.
  apply Forall_cons_1 in Hnn as [N0 Hnn]. apply Forall_cons_1 in Hnn as [N1 Hnn].
  apply Forall_cons_1 in Hnn as [N2 Hnn]. apply Forall_cons_1 in Hnn as [N3 _].
  destruct (hist !! 0%nat) as [[|]|], (hist !! 1%nat) as [[|]|],
    (hist !! 2%nat) as [[|]|], (hist !! 3%nat) as [[|]|].
  all: cbn in *.
  all: split; [rewrite Hpot; ring | split; [reflexivity|]].
  all: repeat constructor; lra.
Qed.

Lemma X2_witness :
  let w := play [DEAL; ALL_IN; FOLD; ALL_IN; FOLD]
                (fresh_world test_game Deck.createStandardDeck) in
  valid_game test_game /\ reachable test_game w /\
  (GameState.pot_ (fst w) + Qsum (GameState.playerStacks_ (fst w)) == 32)%Q.
Proof.
  intros w.
  assert (reachable test_game w) as Hr.
  { apply play_reachable, fresh_world_reachable, standard_deck_shuffled. }
  split; [apply test_game_valid|]. split; [exact Hr|].
  destruct (X2_chips_are_conserved test_game w test_game_valid Hr) as (Hsum & Hinit & _).
  rewrite Hsum, Hinit. vm_compute. reflexivity.
Defined.

(* ================================================================== *)
(** ** aof::GameState: a hand makes progress                          *)
(* ================================================================== *)

Section Progress.
Import GameState.

Lemma set_insert_length (x : Z) (s : set.t) :
  ~ In x s -> length (set.insert x s) = S (length s).
Proof.
  induction s as [|y s IH]; simpl; [reflexivity|]. intros Hn.
  destruct (Z.ltb_spec x y); [reflexivity|].
  destruct (Z.eqb_spec x y) as [->|Hne]; [exfalso; apply Hn; left; reflexivity|].
  simpl. rewrite IH; [reflexivity|]. intros Hin. apply Hn. right. exact Hin.
Qed.

Lemma folded_insert_count (folded : list bool) (i : nat) :
  (i < length folded)%nat -> folded !!! i = false ->
  length (List.filter (fun b => b) (<[i := true]> folded))
  = S (length (List.filter (fun b => b) folded)).
Proof.
  revert i. induction folded as [|b folded IH]; intros [|i] Hlt Hf; simpl in *; try lia.
  - cbn in Hf. subst b. reflexivity.
  - cbn in Hf. destruct b; simpl; rewrite IH by (assumption || lia); reflexivity.
Qed.

(** The seat to act has taken no decision yet. *)
Lemma inv_undecided g w :
  inv g w -> isChanceNode (fst w) = false -> gameOver_ (fst w) = false ->
  0 <= nextPlayer_ (fst w) < 4 /\
  folded_ (fst w) !!! Z.to_nat (nextPlayer_ (fst w)) = false /\
  ~ In (nextPlayer_ (fst w)) (allInPlayers_ (fst w)) /\
  length (folded_ (fst w)) = 4%nat /\
  communityCards_ (fst w) = [] /\
  exists l d, deck_ (fst w) = Some l /\ snd w !! l = Some d /\ (5 <= length d)%nat.
Proof.
  destruct w as [s h].
  intros (hist & l & d & Hplay & Hg & Hinit & Hst & Hf & Ha & Hpot & Hl & Hd & Hlen
          & Hover & Hend & Hhole) Hc Hno. simpl in *.
  unfold isChanceNode in Hc. rewrite Hno in Hc, Hend, Hover, Hhole.
  rewrite andb_true_r in Hc. rewrite Hc in Hhole.
  destruct Hhole as [H8 Hnext]. specialize (Hnext eq_refl).
  rewrite Hend, H8 in Hlen. simpl in Hlen.
  rewrite Hf, Ha.
  assert (exists l d, deck_ s = Some l /\ h !! l = Some d /\ (5 <= length d)%nat) as Hdeck.
  { exists l, d. repeat split; [assumption..|lia]. }
  destruct hist as [|d2 [|d3 [|d0 [|d1 hist]]]]; try discriminate Hnext;
    injection Hnext as <-.
  all: repeat match goal with b : bool |- _ => destruct b end; try discriminate Hover.
  all: repeat split; try (simpl; lia); try reflexivity; try assumption.
  all: simpl; intuition lia.
Qed.

Lemma inv_decisions g w : inv g w -> (decisions (fst w) <= 4)%nat.
Proof.
  intros (hist & l & d & Hplay & _ & _ & _ & Hf & Ha & _). unfold decisions.
  rewrite Hf, Ha. apply playable_length in Hplay.
  destruct hist as [|d2 [|d3 [|d0 [|d1 [|? ?]]]]]; simpl in Hplay; try lia;
    repeat match goal with b : bool |- _ => destruct b end; simpl; lia.
Qed.

Lemma decisions_act (a : Action) (s : t) :
  a = FOLD \/ a = ALL_IN ->
  0 <= nextPlayer_ s < 4 -> length (folded_ s) = 4%nat ->
  folded_ s !!! Z.to_nat (nextPlayer_ s) = false ->
  ~ In (nextPlayer_ s) (allInPlayers_ s) ->
  decisions (act a s) = S (decisions s).
Proof.
  intros [-> | ->] Hp Hlen Hf Hn; unfold decisions, act; simpl.
  - rewrite folded_insert_count; [reflexivity | lia | exact Hf].
  - rewrite set_insert_length by exact Hn. lia.
Qed.

Lemma legal_call_returns g w a :
  inv g w -> legal a (fst w) ->
  fst (applyAction a w) = ok tt /\
  (a = DEAL -> decisions (fst (snd (applyAction a w))) = decisions (fst w)) /\
  (a <> DEAL -> decisions (fst (snd (applyAction a w))) = S (decisions (fst w))).
Proof.
  destruct w as [s h]. intros Hinv Hleg. simpl in Hleg.
  destruct (legal_cases a s Hleg) as [[Hc ->] | (Hc & Hno & Hnext & Hfold & Hact)].
  - pose proof Hinv as (hist & l & d & Hplay & Hg & Hinit & Hst & Hf & Ha & Hpot & Hl
                        & Hd & Hlen & Hover & Hend & Hhole).
    simpl in *. pose proof Hc as Hc'. unfold isChanceNode in Hc'.
    apply andb_true_iff in Hc' as [Hh Hno]. apply negb_true_iff in Hno.
    rewrite Hno in Hend. apply Nat.eqb_eq in Hh.
    rewrite Hh, Hend in Hlen. simpl in Hlen.
    rewrite (applyAction_deal s h l d Hc Hl Hd) by lia. simpl.
    split; [reflexivity|]. split; [reflexivity | congruence].
  - destruct (inv_undecided g (s, h) Hinv Hc Hno)
      as (Hp & _ & Hn & Hlen & Hcc & l & d & Hl & Hd & Hd5).
    simpl in *.
    rewrite applyAction_decide;
      [| exact Hc | exact Hno | exact Hnext | exact Hfold
       | destruct Hact; subst; discriminate].
    pose proof (decisions_act a s Hact Hp Hlen Hfold Hn) as Hdec.
    destruct (act_frame a s) as (Ho & Hdk & Hcc' & Hhc).
    destruct (advanceLoop_total (act a s)) as (s2 & Hadv & Hp2).
    { destruct Hact as [-> | ->]; simpl; [rewrite length_insert|]; exact Hlen. }
    { destruct Hact as [-> | ->]; simpl; exact Hp. }
    rewrite Hadv. apply advanceLoop_frame in Hadv.
    destruct (shouldGameEnd s2).
    + rewrite (handleGameEnd_deal _ h l d);
        [| rewrite Hadv; simpl; congruence | rewrite Hadv; simpl; congruence
         | exact Hd | exact Hd5].
      simpl. split; [reflexivity|].
      split; [destruct Hact; subst; discriminate|]. intros _.
      rewrite <- Hdec. rewrite Hadv. reflexivity.
    + simpl. split; [reflexivity|].
      split; [destruct Hact; subst; discriminate|]. intros _.
      rewrite <- Hdec. rewrite Hadv. reflexivity.
Qed.

Lemma inv_legal_actions g w :
  inv g w ->
  getLegalActions (fst w) =
  if isTerminal (fst w) then []
  else if isChanceNode (fst w) then [DEAL] else [FOLD; ALL_IN].
Proof.
  intros Hinv. unfold getLegalActions, isTerminal.
  destruct (isChanceNode (fst w)) eqn:Hc.
  - unfold isChanceNode in Hc. apply andb_true_iff in Hc as [_ Hno].
    apply negb_true_iff in Hno. rewrite Hno. reflexivity.
  - destruct (gameOver_ (fst w)) eqn:Hno; [reflexivity|].
    destruct (inv_undecided g w Hinv Hc Hno) as (Hp & Hf & _).
    unfold getCurrentPlayer. rewrite Hno, Hf.
    destruct (Z.ltb_spec (nextPlayer_ (fst w)) 0); [lia | reflexivity].
Qed.

End Progress.

(** X3.  In every state of a hand the legal actions are none when the
    hand is over, DEAL before the hole cards are dealt, and FOLD and
    ALL_IN otherwise.  A legal action never throws; DEAL leaves the
    number of decisions as it is, a FOLD or an ALL_IN adds one, and the
    number never exceeds four: a hand is over after the deal and at most
    four decisions. *)
Theorem X3_hand_makes_progress :
  forall (g : Game.t) (w : GameState.t * gmap positive Deck.t),
    reachable g w ->
    let s := fst w in
    (decisions s <= 4)%nat /\
    GameState.getLegalActions s =
      (if GameState.isTerminal s then []
       else if GameState.isChanceNode s then [DEAL] else [FOLD; ALL_IN]) /\
    (forall a, legal a s ->
       let w' := snd (GameState.applyAction a w) in
       fst (GameState.applyAction a w) = ok tt /\
       (a = DEAL -> decisions (fst w') = decisions s) /\
       (a <> DEAL -> decisions (fst w') = S (decisions s))).
Proof.
  intros g w Hr s. pose proof (reachable_inv g w Hr) as Hinv.
  split; [apply (inv_decisions g w Hinv)|].
  split; [apply (inv_legal_actions g w Hinv)|].
  intros a Hleg. apply (legal_call_returns g w a Hinv Hleg).
Qed.

Lemma X3_witness :
  let w := play [DEAL; FOLD; ALL_IN; FOLD]
                (fresh_world test_game Deck.createStandardDeck) in
  reachable test_game w /\ legal ALL_IN (fst w) /\
  fst (GameState.applyAction ALL_IN w) = ok tt /\
  decisions (fst w) = 3%nat /\
  decisions (fst (snd (GameState.applyAction ALL_IN w))) = 4%nat /\
  GameState.isTerminal (fst (snd (GameState.applyAction ALL_IN w))) = true.
Proof.
  intros w.
  assert (reachable test_game w) as Hr.
  { apply play_reachable, fresh_world_reachable, standard_deck_shuffled. }
  assert (legal ALL_IN (fst w)) as Hleg by (vm_compute; tauto).
  destruct (X3_hand_makes_progress test_game w Hr) as (_ & _ & Hstep).
  destruct (Hstep ALL_IN Hleg) as (Hok & _ & Hinc).
  split; [exact Hr|]. split; [exact Hleg|]. split; [exact Hok|].
  split; [vm_compute; reflexivity|]. split; [|vm_compute; reflexivity].
  rewrite Hinc by discriminate. vm_compute. reflexivity.
Defined.

(* ================================================================== *)
(** ** aof::GameState: what a seat can win or lose                    *)
(* ================================================================== *)

Section SeatReturns.
Import GameState.

Lemma award_fold_pointwise (share : Q) (winners : list Z) (returns : list Q) (i : nat) :
  (0 <= share)%Q ->
  let returns' :=
    fold_left
      (fun returns winner =>
         <[Z.to_nat winner := (returns !!! Z.to_nat winner + share)%Q]> returns)
      winners returns in
  (returns !!! i <= returns' !!! i)%Q /\
  (~ In i (map Z.to_nat winners) -> returns' !!! i = returns !!! i).
Proof.
  intros Hshare. revert returns.
  induction winners as [|p winners IH]; intros returns; simpl.
  - split; [apply Qle_refl | reflexivity].
  - destruct (IH (<[Z.to_nat p := (returns !!! Z.to_nat p + share)%Q]> returns))
      as [Hle Heq].
    split.
    + eapply Qle_trans; [|exact Hle].
      destruct (decide (Z.to_nat p = i)) as [->|Hne].
      * destruct (decide (i < length returns)%nat) as [Hlt|Hge].
        -- rewrite list_lookup_total_insert_eq by exact Hlt. lra.
        -- rewrite list_insert_ge by lia. apply Qle_refl.
      * rewrite list_lookup_total_insert_ne by exact Hne. apply Qle_refl.
    + intros Hn. rewrite Heq by tauto.
      apply list_lookup_total_insert_ne. tauto.
Qed.

Lemma playerScores_members (s : t) (contributors : list Z)
    (scores : list (PokerEvaluator.HandScore * Z)) (p : Z) :
  playerScores s contributors = ok scores ->
  In p (map snd scores) -> folded_ s !!! Z.to_nat p = false.
Proof.
  revert scores. induction contributors as [|q rest IH]; intros scores; simpl.
  - intros [= <-] [].
  - destruct (folded_ s !!! Z.to_nat q) eqn:Hf; simpl; [apply IH|].
    destruct (holeCards_ s !! Z.to_nat (q * 2)) as [c1|]; [|discriminate].
    destruct (holeCards_ s !! Z.to_nat (q * 2 + 1)) as [c2|]; [|discriminate].
    destruct (PokerEvaluator.evaluateHand [c1; c2] (communityCards_ s)) as [e|score];
      [discriminate|]. simpl.
    destruct (playerScores s rest) as [e|others]; [discriminate|]. simpl.
    intros [= <-]. simpl. intros [<-|Hin]; [exact Hf|].
    apply (IH others eq_refl Hin).
Qed.

Lemma awardPot_pointwise (s : t) (returns returns' : list Q) (pot : Q * list Z)
    (i : nat) :
  awardPot s returns pot = ok returns' -> (0 <= fst pot)%Q ->
  (returns !!! i <= returns' !!! i)%Q /\
  (folded_ s !!! i = true -> returns' !!! i = returns !!! i).
Proof.
  destruct pot as [potAmount contributors]. unfold awardPot. simpl.
  destruct (length contributors =? 0)%nat.
  { intros [= <-] _. split; [apply Qle_refl | reflexivity]. }
  destruct (playerScores s contributors) as [e|scores] eqn:Hscores; [discriminate|].
  simpl.
  pose proof (sort_perm
                (fun a b : PokerEvaluator.HandScore * Z =>
                   PokerEvaluator.compareHands (fst a) (fst b) >? 0) scores) as Hperm.
  destruct (sort _ scores) as [|[best first] rest].
  { intros [= <-] _. split; [apply Qle_refl | reflexivity]. }
  intros [= <-] Hpos.
  set (winners := first :: ties best rest).
  assert (0 <= potAmount / inject_Z (Z.of_nat (length winners)))%Q as Hshare.
  { apply Qle_shift_div_l.
    - unfold winners. change 0%Q with (inject_Z 0). rewrite <- Zlt_Qlt.
      simpl length. lia.
    - rewrite Qmult_0_l. exact Hpos. }
  destruct (award_fold_pointwise _ winners returns i Hshare) as [Hle Heq].
  split; [exact Hle|].
  intros Hf. apply Heq. intros Hin. apply in_map_iff in Hin as (p & Hp & Hin).
  assert (In p (map snd scores)) as Hmem.
  { apply (Permutation_in p (Permutation_map snd Hperm)).
    destruct Hin as [<-|Hin]; [left; reflexivity|].
    right. apply (ties_subset best rest p Hin). }
  pose proof (playerScores_members s contributors scores p Hscores Hmem) as Hnf.
  rewrite Hp in Hnf. congruence.
Qed.

Lemma award_all_pointwise (s : t) (pots : list (Q * list Z)) (returns returns' : list Q)
    (i : nat) :
  Forall (fun pot => 0 <= fst pot)%Q pots ->
  fold_left (fun acc pot => do returns <- acc; awardPot s returns pot)
            pots (ok returns) = ok returns' ->
  (returns !!! i <= returns' !!! i)%Q /\
  (folded_ s !!! i = true -> returns' !!! i = returns !!! i).
Proof.
  intros Hpos. revert returns.
  induction Hpos as [|pot pots Hpot _ IH]; intros returns; simpl.
  - intros [= <-]. split; [apply Qle_refl | reflexivity].
  - destruct (awardPot s returns pot) as [e|r1] eqn:Haward.
    + intros H. exfalso. clear -H.
      induction pots as [|q pots IHp]; simpl in H; [discriminate | auto].
    + intros H. destruct (IH r1 H) as [Hle Heq].
      destruct (awardPot_pointwise s returns r1 pot i Haward Hpot) as [Hle1 Heq1].
      split; [eapply Qle_trans; eassumption|].
      intros Hf. rewrite Heq, Heq1 by exact Hf. reflexivity.
Qed.

Lemma potLoop_step_positive (st : potLoop) (entry : Q * Z) :
  Forall (fun pot => 0 < fst pot)%Q (sidePots st) ->
  Forall (fun pot => 0 < fst pot)%Q (sidePots (potLoop_step st entry)).
Proof.
  intros H. destruct entry as [amount player]. unfold potLoop_step. simpl.
  destruct (Qgtb amount (prevAmount st) && negb (length (eligiblePlayers st) =? 0)%nat);
    [|exact H].
  match goal with |- context [Qgtb ?x 0] => destruct (Qgtb x 0) eqn:Hgt end; [|exact H].
  apply Forall_app. split; [exact H|]. constructor; [|constructor].
  simpl. apply Qgtb_gt. exact Hgt.
Qed.

Lemma potLoop_positive (entries : list (Q * Z)) (st : potLoop) :
  Forall (fun pot => 0 < fst pot)%Q (sidePots st) ->
  Forall (fun pot => 0 < fst pot)%Q (sidePots (fold_left potLoop_step entries st)).
Proof.
  revert st. induction entries as [|entry entries IH]; intros st H0; simpl.
  - exact H0.
  - apply IH. apply potLoop_step_positive. exact H0.
Qed.

Lemma side_pots_positive (s : t) :
  Forall (fun pot => 0 < fst pot)%Q (calculateSidePots s).
Proof. unfold calculateSidePots. apply potLoop_positive. simpl. constructor. Qed.

End SeatReturns.

(** X4.  On a terminal state of a hand [getReturns] gives every seat at
    least minus what the seat put into the pot, and a seat that folded
    exactly that: nobody loses more than the blind or the stack he
    invested, and a fold wins nothing. *)
Theorem X4_returns_are_bounded_by_investment :
  forall (g : Game.t) (w : GameState.t * gmap positive Deck.t),
    reachable g w -> GameState.isTerminal (fst w) = true ->
    let s := fst w in
    exists returns printed,
      GameState.getReturns s = ok (returns, printed) /\
      forall i, (i < 4)%nat ->
        (- GameState.contribution s i <= returns !!! i)%Q /\
        (GameState.folded_ s !!! i = true ->
         (returns !!! i == - GameState.contribution s i)%Q).
Proof.
  intros g w Hr Hover s.
  pose proof (reachable_inv g w Hr) as Hinv.
  destruct (inv_terminal g w Hinv Hover) as (H8 & H5 & Hsp & _).
  fold s in H8, H5, Hsp. unfold GameState.isTerminal in Hover. fold s in Hover.
  assert (Forall (pot_ok s) (GameState.sidePots_ s)) as Hok.
  { rewrite Hsp. apply calculateSidePots_ok. }
  assert (Forall (fun pot => 0 <= fst pot)%Q (GameState.sidePots_ s)) as Hpos.
  { rewrite Hsp. eapply Forall_impl; [apply side_pots_positive|].
    intros pot Hp. apply Qlt_le_weak. exact Hp. }
  unfold GameState.getReturns. rewrite Hover.
  change (negb true) with false. cbv iota.
  change (Z.to_nat GameConfig.NUM_PLAYERS) with 4%nat.
  destruct (award_all s (GameState.sidePots_ s) (replicate 4 0%Q) H8 H5 eq_refl Hok)
    as (r & Haward & Hl & _).
  rewrite Haward. unfold ok. cbn [rbind]. rewrite investments_eq.
  do 2 eexists. split; [reflexivity|].
  intros i Hi.
  destruct (award_all_pointwise s _ _ r i Hpos Haward) as [Hle Heq].
  assert (replicate 4 0%Q !!! i = 0%Q) as H0.
  { destruct i as [|[|[|[|i]]]]; try lia; reflexivity. }
  rewrite H0 in Hle, Heq.
  rewrite <- Hl.
  rewrite (for_range_update (fun i x => x - contributions_of s !!! i)%Q).
  rewrite (imap_zip (fun x y => x - y)%Q) by (rewrite Hl; reflexivity).
  assert (zip_with (fun x y => x - y)%Q r (contributions_of s) !!! i
          = (r !!! i - GameState.contribution s i)%Q) as ->.
  { destruct r as [|r0 [|r1 [|r2 [|r3 [|? ?]]]]]; try discriminate Hl.
    destruct i as [|[|[|[|i]]]]; try lia; reflexivity. }
  split; [lra|]. intros Hf. rewrite (Heq Hf). ring.
Qed.

Lemma X4_witness :
  let w := play [DEAL; ALL_IN; FOLD; ALL_IN; FOLD]
                (fresh_world test_game Deck.createStandardDeck) in
  reachable test_game w /\ GameState.isTerminal (fst w) = true /\
  exists returns printed,
    GameState.getReturns (fst w) = ok (returns, printed) /\
    (returns !!! 1%nat == - 1)%Q /\ (returns !!! 3%nat == 0)%Q /\
    (- 8 <= returns !!! 0%nat)%Q /\ (- 8 <= returns !!! 2%nat)%Q.
Proof.
  intros w.
  assert (reachable test_game w) as Hr.
  { apply play_reachable, fresh_world_reachable, standard_deck_shuffled. }
  assert (GameState.isTerminal (fst w) = true) as Hover by (vm_compute; reflexivity).
  split; [exact Hr|]. split; [exact Hover|].
  destruct (X4_returns_are_bounded_by_investment test_game w Hr Hover)
    as (returns & printed & Hret & Hall).
  exists returns, printed. split; [exact Hret|].
  destruct (Hall 0%nat ltac:(lia)) as [B0 _].
  destruct (Hall 1%nat ltac:(lia)) as [_ F1].
  destruct (Hall 2%nat ltac:(lia)) as [B2 _].
  destruct (Hall 3%nat ltac:(lia)) as [_ F3].
  specialize (F1 ltac:(vm_compute; reflexivity)).
  specialize (F3 ltac:(vm_compute; reflexivity)).
  assert (GameState.contribution (fst w) 0 == 8)%Q as C0 by (vm_compute; reflexivity).
  assert (GameState.contribution (fst w) 1 == 1)%Q as C1 by (vm_compute; reflexivity).
  assert (GameState.contribution (fst w) 2 == 8)%Q as C2 by (vm_compute; reflexivity).
  assert (GameState.contribution (fst w) 3 == 0)%Q as C3 by (vm_compute; reflexivity).
  rewrite C0 in B0. rewrite C1 in F1. rewrite C2 in B2. rewrite C3 in F3.
  repeat split; assumption.
Defined.

(* ================================================================== *)
(** ** aof::PokerEvaluator: comparing scores, and seven cards         *)
(* ================================================================== *)

Section Scores.
Import PokerEvaluator.

Lemma compareHands_values (a b : HandScore) :
  compareHands a b = 1 \/ compareHands a b = 0 \/ compareHands a b = -1.
Proof.
  revert b. induction a as [|x a IH]; intros [|y b]; simpl; auto.
  destruct (x >? y); [auto|]. destruct (x <? y); [auto|]. apply IH.
Qed.

Lemma compareHands_antisym (a b : HandScore) :
  compareHands b a = - compareHands a b.
Proof.
  revert b. induction a as [|x a IH]; intros [|y b]; simpl; try reflexivity.
  destruct (Z.gtb_spec x y), (Z.ltb_spec x y), (Z.gtb_spec y x), (Z.ltb_spec y x);
    try lia; try reflexivity. apply IH.
Qed.

Lemma compareHands_tie (a b : HandScore) :
  compareHands a b = 0 <->
  take (min (length a) (length b)) a = take (min (length a) (length b)) b.
Proof.
  revert b. induction a as [|x a IH]; intros [|y b]; simpl; try tauto.
  destruct (Z.gtb_spec x y) as [Hgt|Hngt].
  { split; [discriminate|]. intros [= Hxy _]. lia. }
  destruct (Z.ltb_spec x y) as [Hlt|Hnlt].
  { split; [discriminate|]. intros [= Hxy _]. lia. }
  assert (x = y) as -> by lia. rewrite IH. split.
  - intros ->. reflexivity.
  - intros [= Heq]. exact Heq.
Qed.

Lemma compareHands_trans_equal_length (a b c : HandScore) :
  length a = length b -> length b = length c ->
  compareHands a b <= 0 -> compareHands b c <= 0 -> compareHands a c <= 0.
Proof.
  revert b c. induction a as [|x a IH]; intros [|y b] [|z c]; simpl;
    try discriminate; try lia.
  intros [= Hab] [= Hbc].
  destruct (Z.gtb_spec x y); [lia|].
  destruct (Z.ltb_spec x y).
  - intros _. destruct (Z.gtb_spec y z); [lia|].
    destruct (Z.gtb_spec x z); [lia|].
    destruct (Z.ltb_spec x z); lia.
  - assert (x = y) as -> by lia. intros H1.
    destruct (Z.gtb_spec y z); [lia|].
    destruct (Z.ltb_spec y z); [lia|].
    apply IH; assumption.
Qed.

Lemma compareHands_trans (a b c : HandScore) :
  score_layout a -> score_layout b -> score_layout c ->
  compareHands a b <= 0 -> compareHands b c <= 0 -> compareHands a c <= 0.
Proof.
  destruct a as [|x a], b as [|y b], c as [|z c]; simpl; try tauto.
  intros [_ La] [_ Lb] [_ Lc].
  destruct (Z.gtb_spec x y); [lia|].
  destruct (Z.ltb_spec x y).
  - intros _. destruct (Z.gtb_spec y z); [lia|].
    destruct (Z.gtb_spec x z); [lia|].
    destruct (Z.ltb_spec x z); lia.
  - assert (x = y) as -> by lia. intros H1.
    destruct (Z.gtb_spec y z); [lia|].
    destruct (Z.ltb_spec y z); [lia|].
    assert (y = z) as -> by lia.
    apply compareHands_trans_equal_length; congruence.
Qed.

Lemma length_sort_desc (v : list Z) : length (sort_desc v) = length v.
Proof. unfold sort_desc. apply Permutation_length. apply sort_perm. Qed.

Lemma length_resize (n : nat) (v : list Z) : length (resize n v) = n.
Proof.
  unfold resize. rewrite length_app, length_take, length_replicate. lia.
Qed.

(** The layout of a score is fixed by its category. *)
Lemma evaluateFiveCardHand_layout (hand : list Card.t) (score : HandScore) :
  evaluateFiveCardHand hand = ok score -> score_layout score.
Proof.
  unfold evaluateFiveCardHand.
  destruct (negb (length hand =? 5)%nat) eqn:Hlen; [discriminate|].
  apply negb_false_iff, Nat.eqb_eq in Hlen.
  destruct (analyzeRanks hand) as [rankCounts sortedRanks].
  destruct (isStraight hand 0) as [isStraightHand straightHigh].
  destruct (isFlush hand && isStraightHand).
  { intros [= <-]. simpl. split; [lia | reflexivity]. }
  destruct (first_with_count rankCounts 4).
  { intros [= <-]. simpl. split; [lia | reflexivity]. }
  match goal with
  | |- context [fold_left ?f ?l ?a] => destruct (fold_left f l a) as [trips pair']
  end.
  destruct ((trips >? 0) && (pair' >? 0)).
  { intros [= <-]. simpl. split; [lia | reflexivity]. }
  destruct (isFlush hand).
  { intros [= <-]. simpl. split; [lia|].
    rewrite length_sort_desc, length_map. exact Hlen. }
  destruct isStraightHand.
  { intros [= <-]. simpl. split; [lia | reflexivity]. }
  destruct (trips >? 0).
  { intros [= <-]. simpl. split; [lia|]. rewrite length_resize. reflexivity. }
  destruct (2 <=? length (all_with_count rankCounts 2))%nat.
  { intros [= <-]. simpl. split; [lia | reflexivity]. }
  destruct (length (all_with_count rankCounts 2) =? 1)%nat.
  { intros [= <-]. simpl. split; [lia|]. rewrite length_resize. reflexivity. }
  intros [= <-]. simpl. split; [lia|].
  rewrite length_sort_desc, length_map. exact Hlen.
Qed.

(** The combinations are the sub-hands of the wanted size, each started
    by [cur]. *)
Lemma generateCombinationsHelper_spec (cards : list Card.t) (k : nat)
    (cur combo : list Card.t) :
  In combo (generateCombinationsHelper cards k cur) <->
  exists more, combo = cur ++ more /\ more `sublist_of` cards /\ length combo = k.
Proof.
  revert cur. induction cards as [|card rest IH]; intros cur.
  - rewrite generateCombinationsHelper_nil.
    destruct (length cur =? k)%nat eqn:E.
    + apply Nat.eqb_eq in E. split.
      * intros [<-|[]]. exists []. rewrite app_nil_r. repeat split; [constructor | exact E].
      * intros (more & -> & Hsub & _). apply sublist_nil_r in Hsub as ->.
        rewrite app_nil_r. left. reflexivity.
    + apply Nat.eqb_neq in E. split; [intros []|].
      intros (more & -> & Hsub & Hl). apply sublist_nil_r in Hsub as ->.
      rewrite app_nil_r in Hl. contradiction.
  - destruct (decide (length cur = k)) as [Heq|Hne].
    + rewrite generateCombinationsHelper_done by exact Heq. split.
      * intros [<-|[]]. exists []. rewrite app_nil_r.
        repeat split; [apply sublist_nil_l | exact Heq].
      * intros (more & -> & _ & Hl). rewrite length_app in Hl.
        assert (more = []) as -> by (apply length_zero_iff_nil; lia).
        rewrite app_nil_r. left. reflexivity.
    + rewrite generateCombinationsHelper_cons by exact Hne.
      rewrite in_app_iff, !IH. split.
      * intros [(more & -> & Hsub & Hl) | (more & -> & Hsub & Hl)].
        -- exists (card :: more). rewrite <- app_assoc in *. simpl in *.
           repeat split; [apply sublist_skip; exact Hsub | exact Hl].
        -- exists more. repeat split; [apply sublist_cons; exact Hsub | exact Hl].
      * intros (more & -> & Hsub & Hl).
        apply sublist_cons_r in Hsub as [Hsub | (more' & -> & Hsub)].
        -- right. exists more. repeat split; assumption.
        -- left. exists more'. rewrite <- app_assoc. simpl.
           repeat split; [exact Hsub | exact Hl].
Qed.

(** The loop of [evaluateHand] keeps a best score. *)
Lemma best_score_max (combinations : list (list Card.t)) (init : HandScore) :
  Forall (fun combo => length combo = 5%nat) combinations ->
  init = [] \/ score_layout init ->
  exists best,
    fold_left
      (fun best combo =>
         do bestScore <- best;
         do score <- evaluateFiveCardHand combo;
         if (length bestScore =? 0)%nat || (compareHands score bestScore >? 0)
         then ok score else ok bestScore)
      combinations (ok init) = ok best /\
    (best = init \/
     exists combo, In combo combinations /\ evaluateFiveCardHand combo = ok best) /\
    (score_layout init -> score_layout best /\ compareHands init best <= 0) /\
    (forall combo score, In combo combinations ->
       evaluateFiveCardHand combo = ok score ->
       score_layout best /\ compareHands score best <= 0).
Proof.
  intros Hall. revert init.
  induction Hall as [|combo rest Hc _ IH]; intros init Hinit.
  - exists init. simpl. split; [reflexivity|]. split; [left; reflexivity|].
    split; [|intros ? ? []].
    intros Hl. split; [exact Hl|].
    pose proof (compareHands_antisym init init). lia.
  - simpl. destruct (evaluateFiveCardHand_total combo Hc) as [x Hx].
    rewrite Hx. simpl.
    pose proof (evaluateFiveCardHand_layout combo x Hx) as Lx.
    assert (compareHands x x <= 0) as Hxx
      by (pose proof (compareHands_antisym x x); lia).
    destruct ((length init =? 0)%nat || (compareHands x init >? 0)) eqn:Hnew.
    + destruct (IH x (or_intror Lx)) as (best & Hfold & Hfrom & Hinit' & Hmax).
      destruct (Hinit' Lx) as [Lb Hxb].
      exists best. split; [exact Hfold|]. split; [|split].
      * right. destruct Hfrom as [-> | (c & Hin & Hev)].
        -- exists combo. split; [left; reflexivity | exact Hx].
        -- exists c. split; [right; exact Hin | exact Hev].
      * intros Li. split; [exact Lb|].
        apply (compareHands_trans init x best Li Lx Lb); [|exact Hxb].
        destruct init as [|i0 init]; [destruct Li|]. simpl in Hnew.
        apply Z.gtb_lt in Hnew. rewrite (compareHands_antisym x (i0 :: init)). lia.
      * intros c s [<-|Hin] Hev.
        -- rewrite Hx in Hev. injection Hev as <-. split; [exact Lb | exact Hxb].
        -- apply (Hmax c s Hin Hev).
    + apply orb_false_iff in Hnew as [Hne Hle].
      assert (score_layout init) as Li.
      { destruct Hinit as [-> | Li]; [discriminate Hne | exact Li]. }
      destruct (IH init (or_intror Li)) as (best & Hfold & Hfrom & Hinit' & Hmax).
      destruct (Hinit' Li) as [Lb Hib].
      exists best. split; [exact Hfold|]. split; [|split].
      * destruct Hfrom as [-> | (c & Hin & Hev)]; [left; reflexivity|].
        right. exists c. split; [right; exact Hin | exact Hev].
      * intros _. split; assumption.
      * intros c s [<-|Hin] Hev.
        -- rewrite Hx in Hev. injection Hev as <-. split; [exact Lb|].
           apply (compareHands_trans x init best Lx Li Lb); [|exact Hib].
           destruct (Z.gtb_spec (compareHands x init) 0); [discriminate Hle | lia].
        -- apply (Hmax c s Hin Hev).
Qed.

End Scores.

(** X5.  [compareHands] answers 1, 0 or -1; swapping the two scores
    negates the answer; the answer is 0 exactly when the two scores agree
    on their common prefix, whatever follows it in the longer one; on
    scores laid out by [evaluateFiveCardHand] "not better than" is
    transitive. *)
Theorem X5_compareHands_is_an_order :
  forall a b c : PokerEvaluator.HandScore,
    (PokerEvaluator.compareHands a b = 1 \/ PokerEvaluator.compareHands a b = 0 \/
     PokerEvaluator.compareHands a b = -1) /\
    PokerEvaluator.compareHands b a = - PokerEvaluator.compareHands a b /\
    (PokerEvaluator.compareHands a b = 0 <->
     take (min (length a) (length b)) a = take (min (length a) (length b)) b) /\
    (score_layout a -> score_layout b -> score_layout c ->
     PokerEvaluator.compareHands a b <= 0 -> PokerEvaluator.compareHands b c <= 0 ->
     PokerEvaluator.compareHands a c <= 0).
Proof.
  intros a b c. split; [apply compareHands_values|].
  split; [apply compareHands_antisym|]. split; [apply compareHands_tie|].
  apply compareHands_trans.
Qed.

Lemma X5_witness :
  score_layout [1; 14; 13; 12; 11] /\ score_layout [4; 5] /\ score_layout [4; 14] /\
  PokerEvaluator.compareHands [1; 14; 13; 12; 11] [4; 14] = -1 /\
  PokerEvaluator.compareHands [4; 14] [4] = 0.
Proof.
  assert (score_layout [1; 14; 13; 12; 11]) as L1 by (split; [lia | reflexivity]).
  assert (score_layout [4; 5]) as L2 by (split; [lia | reflexivity]).
  assert (score_layout [4; 14]) as L3 by (split; [lia | reflexivity]).
  destruct (X5_compareHands_is_an_order [1; 14; 13; 12; 11] [4; 5] [4; 14])
    as (_ & _ & _ & Htrans).
  destruct (X5_compareHands_is_an_order [4; 14] [4] [])
    as (_ & _ & Htie & _).
  specialize (Htrans L1 L2 L3 ltac:(simpl; lia) ltac:(simpl; lia)).
  repeat split; try assumption; try lia.
Defined.

(** X6.  On two hole cards and five community cards [evaluateHand]
    returns the score of one of the five-card hands drawn from the seven
    cards, and no five-card hand drawn from them scores better: it is
    the best of the 21 hands. *)
Theorem X6_evaluateHand_is_the_best_five :
  forall holeCards communityCards : list Card.t,
    length holeCards = 2%nat -> length communityCards = 5%nat ->
    exists best,
      PokerEvaluator.evaluateHand holeCards communityCards = ok best /\
      (exists hand, hand `sublist_of` (holeCards ++ communityCards) /\
         length hand = 5%nat /\ PokerEvaluator.evaluateFiveCardHand hand = ok best) /\
      (forall hand score, hand `sublist_of` (holeCards ++ communityCards) ->
         length hand = 5%nat ->
         PokerEvaluator.evaluateFiveCardHand hand = ok score ->
         PokerEvaluator.compareHands score best <= 0).
Proof.
  intros holeCards communityCards H2 H5.
  unfold PokerEvaluator.evaluateHand, PokerEvaluator.generateCombinations.
  rewrite H2, H5, length_app, H2, H5. simpl negb. cbv iota. cbn [rbind ok].
  set (cards := holeCards ++ communityCards).
  destruct (best_score_max (PokerEvaluator.generateCombinationsHelper cards 5 []) []
              (combinations_length cards 5 []) (or_introl eq_refl))
    as (best & Hfold & Hfrom & _ & Hmax).
  exists best. split; [exact Hfold|].
  assert (exists hand, In hand (PokerEvaluator.generateCombinationsHelper cards 5 []))
    as [hand0 Hin0].
  { exists (take 5 cards). apply generateCombinationsHelper_spec.
    exists (take 5 cards). split; [reflexivity|].
    split; [apply sublist_take|].
    rewrite length_take. unfold cards. rewrite length_app, H2, H5. reflexivity. }
  split.
  - destruct Hfrom as [-> | (hand & Hin & Hev)].
    + destruct (evaluateFiveCardHand_total hand0) as [s0 Hs0].
      { pose proof (combinations_length cards 5 []) as Hlen.
        apply (proj1 (List.Forall_forall _ _) Hlen). exact Hin0. }
      destruct (Hmax hand0 s0 Hin0 Hs0) as [[] _].
    + exists hand. apply generateCombinationsHelper_spec in Hin
        as (more & -> & Hsub & Hl).
      repeat split; assumption.
  - intros hand score Hsub Hl Hev.
    apply (Hmax hand score); [|exact Hev].
    apply generateCombinationsHelper_spec. exists hand. repeat split; assumption.
Qed.

Lemma X6_witness :
  exists best,
    PokerEvaluator.evaluateHand
      [Card.mk "A" "s"; Card.mk "A" "h"]
      [Card.mk "A" "d"; Card.mk "K" "c"; Card.mk "Q" "s"; Card.mk "J" "h";
       Card.mk "10" "c"] = ok best /\
    best = [4; 14] /\
    PokerEvaluator.compareHands [3; 14; 13; 12] best <= 0.
Proof.
  destruct (X6_evaluateHand_is_the_best_five
              [Card.mk "A" "s"; Card.mk "A" "h"]
              [Card.mk "A" "d"; Card.mk "K" "c"; Card.mk "Q" "s"; Card.mk "J" "h";
               Card.mk "10" "c"] eq_refl eq_refl) as (best & Hbest & _ & Hmax).
  exists best. split; [exact Hbest|].
  assert (best = [4; 14]) as -> by (vm_compute in Hbest; congruence).
  split; [reflexivity|].
  apply (Hmax [Card.mk "A" "s"; Card.mk "A" "h"; Card.mk "A" "d"; Card.mk "K" "c";
               Card.mk "Q" "s"]).
  - repeat first [apply sublist_nil | apply sublist_skip | apply sublist_cons].
  - reflexivity.
  - vm_compute. reflexivity.
Defined.

(* ================================================================== *)
(** ** mccfr::Node: what the calls do                                 *)
(* ================================================================== *)




(** X8.  [reset] after any history gives back the node the constructor
    built: all regrets, the strategy buffer and the strategy sums are
    zero, the visit count is zero and the number of actions is kept. *)
Theorem X8_reset_restores_the_fresh_node :
  forall (numActions : Z) (node : Node.t) (history : list Node.call),
    Node.Node numActions = inr node ->
    Node.reset (Node.run node history) = node.
Proof.
  intros numActions node history Hnode.
  pose proof (run_sized _ history _ (Node_sized _ _ Hnode)) as (H1 & H2 & H3).
  destruct (Node_ok _ _ Hnode) as [_ ->]. unfold Node.reset.
  rewrite !map_const_replicate, H1, H2, H3. reflexivity.
Qed.

Lemma X8_witness :
  let node := Node.mk [0; 0]%Q [0; 0]%Q [0; 0]%Q 0 in
  Node.Node 2 = inr node /\
  Node.visitCount_ (Node.run node [Node.GetStrategy 1; Node.UpdateRegret 1 5]) = 1 /\
  Node.reset (Node.run node [Node.GetStrategy 1; Node.UpdateRegret 1 5]) = node.
Proof.
  intros node. split; [reflexivity|]. split; [reflexivity|].
  apply (X8_reset_restores_the_fresh_node 2 node _ eq_refl).
Defined.

(** X9.  On a node built by [Node(k)], after any history of calls,
    [updateRegret(action, regret)] throws [std::invalid_argument] exactly
    when [action] is negative or at least [k], and then changes
    nothing; otherwise it adds [regret] to the regret of that action and
    changes no other entry and no other member. *)
Theorem X9_updateRegret_checks_the_action :
  forall (numActions : Z) (node : Node.t) (history : list Node.call)
         (action : Z) (regret : Q),
    Node.Node numActions = inr node ->
    let n := Node.run node history in
    (action < 0 \/ numActions <= action ->
     Node.updateRegret action regret n = inl (invalid_argument "Invalid action index") /\
     Node.step n (Node.UpdateRegret action regret) = n) /\
    (0 <= action < numActions ->
     exists n',
       Node.updateRegret action regret n = inr n' /\
       Node.regretSum_ n' !!! Z.to_nat action
         = (Node.regretSum_ n !!! Z.to_nat action + regret)%Q /\
       (forall i, i <> Z.to_nat action ->
          Node.regretSum_ n' !!! i = Node.regretSum_ n !!! i) /\
       length (Node.regretSum_ n') = Z.to_nat numActions /\
       Node.strategy_ n' = Node.strategy_ n /\
       Node.strategySum_ n' = Node.strategySum_ n /\
       Node.visitCount_ n' = Node.visitCount_ n).
Proof.
  intros numActions node history action regret Hnode n.
  pose proof (run_sized _ history _ (Node_sized _ _ Hnode)) as Hsized.
  fold n in Hsized. destruct Hsized as (H1 & _ & _).
  destruct (Node_ok _ _ Hnode) as [Hpos _].
  unfold Node.step, Node.updateRegret. rewrite H1, Z2Nat.id by lia.
  split.
  - intros Hout.
    destruct (Z.ltb_spec action 0), (Z.geb_spec action numActions);
      try lia; simpl; split; reflexivity.
  - intros Hin.
    destruct (Z.ltb_spec action 0), (Z.geb_spec action numActions); try lia. simpl.
    eexists. split; [reflexivity|]. simpl.
    split; [apply list_lookup_total_insert_eq; lia|].
    split; [intros i Hi; apply list_lookup_total_insert_ne; congruence|].
    split; [rewrite length_insert; exact H1|]. repeat split.
Qed.

Lemma X9_witness :
  let node := Node.mk [0; 0]%Q [0; 0]%Q [0; 0]%Q 0 in
  Node.Node 2 = inr node /\
  Node.updateRegret 2 1 node = inl (invalid_argument "Invalid action index") /\
  exists n', Node.updateRegret 1 (-3) node = inr n' /\
             Node.regretSum_ n' !!! 1%nat = (0 + - 3)%Q.
Proof.
  intros node.
  destruct (X9_updateRegret_checks_the_action 2 node [] 2 1 eq_refl) as [Hout _].
  destruct (X9_updateRegret_checks_the_action 2 node [] 1 (-3) eq_refl) as [_ Hin].
  split; [reflexivity|]. split; [apply Hout; lia|].
  destruct (Hin ltac:(lia)) as (n' & Hn' & Hadd & _).
  exists n'. split; [exact Hn' | exact Hadd].
Defined.

(* ================================================================== *)
(** ** aof::Card and aof::Deck: the 52 cards                          *)
(* ================================================================== *)

Lemma standard_deck_valid :
  forallb Card.isValid Deck.createStandardDeck = true.
Proof. vm_compute. reflexivity. Qed.

Lemma valid_card_in_deck (c : Card.t) :
  Card.isValid c = true -> In c Deck.createStandardDeck.
Proof.
  destruct c as [rank suit]. unfold Card.isValid, Card.getSuit.
  cbn [Card.rank_ Card.suit_].
  destruct (Card.find rank Card.RANK_VALUES) as [v|] eqn:Hf; [|discriminate].
  intros Hs. apply find_In in Hf. apply existsb_exists in Hs as (suit' & Hin & Heq).
  apply String.eqb_eq in Heq. subst suit'.
  unfold Card.RANK_VALUES in Hf. unfold Card.validSuits in Hin. simpl in Hf, Hin.
  repeat (destruct Hf as [[= <- _]|Hf];
          [repeat (destruct Hin as [<-|Hin];
                   [vm_compute; repeat (first [left; reflexivity | right])|]);
           contradiction|]).
  contradiction.
Qed.

(** X10.  The constructor of [Card] accepts exactly the 52 cards of the
    standard deck and throws [std::invalid_argument] for every other
    pair of strings; the standard deck holds each card once, and the
    rank value of an accepted card lies between 2 and 14. *)
Theorem X10_cards_of_the_standard_deck :
  forall rank suit : string,
    (In (Card.mk rank suit) Deck.createStandardDeck ->
     Card.Card rank suit = ok (Card.mk rank suit) /\
     2 <= Card.getRankValue (Card.mk rank suit) <= 14) /\
    (~ In (Card.mk rank suit) Deck.createStandardDeck ->
     Card.Card rank suit = inl (invalid_argument ("Invalid card: " ++ rank ++ suit))) /\
    List.NoDup Deck.createStandardDeck /\
    length Deck.createStandardDeck = 52%nat.
Proof.
  intros rank suit.
  split; [|split; [|split; [apply standard_deck_NoDup | reflexivity]]].
  - intros Hin.
    pose proof (proj1 (forallb_forall _ _) standard_deck_valid _ Hin) as Hv.
    unfold Card.Card. rewrite Hv. split; [reflexivity|].
    apply valid_rank in Hv.
    generalize dependent (Card.getRankValue (Card.mk rank suit)). intros v Hv.
    vm_compute in Hv.
    repeat (destruct Hv as [<-|Hv]; [lia|]). contradiction.
  - intros Hn. unfold Card.Card.
    destruct (Card.isValid (Card.mk rank suit)) eqn:Hv; [|reflexivity].
    exfalso. apply Hn. apply valid_card_in_deck. exact Hv.
Qed.

Lemma X10_witness :
  Card.Card "10" "h" = ok (Card.mk "10" "h") /\
  Card.getRankValue (Card.mk "10" "h") = 10 /\
  Card.Card "1" "h" = inl (invalid_argument "Invalid card: 1h") /\
  Card.Card "A" "x" = inl (invalid_argument "Invalid card: Ax").
Proof.
  destruct (X10_cards_of_the_standard_deck "10" "h") as ([Hok _] & _).
  { vm_compute. repeat (first [left; reflexivity | right]). }
  destruct (X10_cards_of_the_standard_deck "1" "h") as (_ & Hbad1 & _).
  destruct (X10_cards_of_the_standard_deck "A" "x") as (_ & Hbad2 & _).
  split; [exact Hok|]. split; [reflexivity|]. split.
  - apply Hbad1. vm_compute. intuition discriminate.
  - apply Hbad2. vm_compute. intuition discriminate.
Defined.

(** X11.  [dealCards(count)] throws [std::invalid_argument] for a
    negative count and [std::runtime_error] for a count above the size of
    the deck, leaving the deck as it is; otherwise it removes the last
    [count] cards of the deck and returns them, last card first, and the
    other cards stay in place. *)
Theorem X11_dealCards_takes_from_the_back :
  forall (count : Z) (d : Deck.t),
    (count < 0 ->
     Deck.dealCards count d =
       inl (invalid_argument "Cannot deal negative number of cards")) /\
    (Z.of_nat (length d) < count ->
     Deck.dealCards count d = inl (runtime_error "Not enough cards in deck")) /\
    (0 <= count <= Z.of_nat (length d) ->
     exists cards rest,
       Deck.dealCards count d = ok (cards, rest) /\
       d = rest ++ reverse cards /\
       length cards = Z.to_nat count).
Proof.
  intros count d. split; [|split].
  - intros Hneg. unfold Deck.dealCards.
    destruct (Z.ltb_spec count 0); [reflexivity | lia].
  - intros Hbig. unfold Deck.dealCards.
    destruct (Z.ltb_spec count 0); [lia|].
    destruct (Z.ltb_spec (Z.of_nat (length d)) count); [reflexivity | lia].
  - intros Hin. rewrite (dealCards_ok count d Hin).
    do 2 eexists. split; [reflexivity|]. split.
    + rewrite <- reverse_app, take_drop, reverse_involutive. reflexivity.
    + apply length_dealt. lia.
Qed.

Lemma X11_witness :
  let d := [Card.mk "2" "h"; Card.mk "3" "h"; Card.mk "4" "h"] in
  Deck.dealCards 2 d = ok ([Card.mk "4" "h"; Card.mk "3" "h"], [Card.mk "2" "h"]) /\
  Deck.dealCards 4 d = inl (runtime_error "Not enough cards in deck") /\
  Deck.dealCards (-1) d =
    inl (invalid_argument "Cannot deal negative number of cards").
Proof.
  intros d.
  destruct (X11_dealCards_takes_from_the_back 2 d) as (_ & _ & Hok).
  destruct (X11_dealCards_takes_from_the_back 4 d) as (_ & Hbig & _).
  destruct (X11_dealCards_takes_from_the_back (-1) d) as (Hneg & _ & _).
  split; [|split; [apply Hbig; simpl; lia | apply Hneg; lia]].
  destruct (Hok ltac:(simpl; lia)) as (cards & rest & Hdeal & _).
  reflexivity.
Defined.

(** X12.  Every side pot [calculateSidePots] builds, on any state, has a
    positive amount and at least one eligible seat, and its eligible
    seats are seats of the table that have not folded. *)
Theorem X12_side_pots_are_well_formed :
  forall s : GameState.t,
    Forall (fun pot =>
              (0 < fst pot)%Q /\ snd pot <> [] /\
              Forall (fun p => 0 <= p < 4 /\
                               GameState.folded_ s !!! Z.to_nat p = false) (snd pot))
           (GameState.calculateSidePots s).
Proof.
  intros s. apply List.Forall_forall. intros pot Hin.
  pose proof (proj1 (List.Forall_forall _ _) (side_pots_positive s) pot Hin) as Hpos.
  pose proof (proj1 (List.Forall_forall _ _) (calculateSidePots_ok s) pot Hin) as [Hne Hel].
  split; [exact Hpos|]. split; [exact Hne | exact Hel].
Qed.

(* ================================================================== *)
(** ** aof::Game: the configurations it accepts                       *)
(* ================================================================== *)

Lemma unit_interval_test (x : Q) :
  Qltb x 0 || Qgtb x 1 = false <-> in_unit_interval x.
Proof.
  unfold in_unit_interval. rewrite orb_false_iff, Qltb_ge, Qgtb_le. reflexivity.
Qed.

Lemma positive_stacks_test (stacks : list Q) :
  existsb (fun stack => Qle_bool stack 0) stacks = false <->
  Forall (fun stack => 0 < stack)%Q stacks.
Proof.
  induction stacks as [|x stacks IH]; simpl.
  - split; [constructor | reflexivity].
  - rewrite orb_false_iff, IH. split.
    + intros [Hx Hs]. constructor; [|exact Hs].
      apply Qnot_le_lt. intros Hle. apply Qle_bool_iff in Hle. congruence.
    + intros H. apply Forall_cons_1 in H as [Hx Hs]. split; [|exact Hs].
      destruct (Qle_bool x 0) eqn:E; [|reflexivity].
      apply Qle_bool_iff in E. lra.
Qed.

Lemma Game_accepts (smallBlind bigBlind : Q) (gameParams : GameParameters)
    (initialStacksBB : list Q) (g : Game.t) :
  Game.Game smallBlind bigBlind gameParams initialStacksBB = ok g <->
  accepted_configuration smallBlind bigBlind gameParams initialStacksBB /\
  g = Game.mk smallBlind bigBlind gameParams (stacks_in_chips bigBlind initialStacksBB).
Proof.
  unfold Game.Game, accepted_configuration.
  destruct (Qle_bool smallBlind 0) eqn:Hsb; simpl.
  { apply Qle_bool_iff in Hsb. split; [discriminate|]. intros [(H & _) _]. lra. }
  destruct (Qle_bool bigBlind 0) eqn:Hbb; simpl.
  { apply Qle_bool_iff in Hbb. split; [discriminate|]. intros [(H & H' & _) _]. lra. }
  destruct (Qle_bool bigBlind smallBlind) eqn:Hlt; simpl.
  { apply Qle_bool_iff in Hlt. split; [discriminate|]. intros [(_ & H & _) _]. lra. }
  assert (0 < smallBlind)%Q as Psb.
  { apply Qnot_le_lt. intros H. apply Qle_bool_iff in H. congruence. }
  assert (0 < bigBlind)%Q as Pbb.
  { apply Qnot_le_lt. intros H. apply Qle_bool_iff in H. congruence. }
  assert (smallBlind < bigBlind)%Q as Plt.
  { apply Qnot_le_lt. intros H. apply Qle_bool_iff in H. congruence. }
  assert (forall stacks : list Q,
            (do _ <- Game.validateConfiguration
                       (Game.mk smallBlind bigBlind gameParams stacks);
             ok (Game.mk smallBlind bigBlind gameParams stacks)) = ok g <->
            ((smallBlind <= stacks !!! 0%nat)%Q /\ (bigBlind <= stacks !!! 1%nat)%Q /\
             in_unit_interval (rake_per_hand gameParams) /\
             in_unit_interval (jackpot_fee_per_hand gameParams) /\
             in_unit_interval (jackpot_payout_percentage gameParams)) /\
            g = Game.mk smallBlind bigBlind gameParams stacks) as Hval.
  { intros stacks. unfold Game.validateConfiguration. simpl.
    destruct (Qltb (stacks !!! 0%nat) smallBlind) eqn:T0; simpl.
    { apply Qltb_lt in T0. split; [discriminate|]. intros [(H & _) _]. lra. }
    destruct (Qltb (stacks !!! 1%nat) bigBlind) eqn:T1; simpl.
    { apply Qltb_lt in T1. split; [discriminate|]. intros [(_ & H & _) _]. lra. }
    apply Qltb_ge in T0, T1.
    destruct (Qltb (rake_per_hand gameParams) 0 || Qgtb (rake_per_hand gameParams) 1)
      eqn:R; simpl.
    { split; [discriminate|]. intros [(_ & _ & H & _) _].
      apply unit_interval_test in H. congruence. }
    destruct (Qltb (jackpot_fee_per_hand gameParams) 0
              || Qgtb (jackpot_fee_per_hand gameParams) 1) eqn:F; simpl.
    { split; [discriminate|]. intros [(_ & _ & _ & H & _) _].
      apply unit_interval_test in H. congruence. }
    destruct (Qltb (jackpot_payout_percentage gameParams) 0
              || Qgtb (jackpot_payout_percentage gameParams) 1) eqn:P; simpl.
    { split; [discriminate|]. intros [(_ & _ & _ & _ & H) _].
      apply unit_interval_test in H. congruence. }
    apply unit_interval_test in R, F, P.
    split.
    - intros [= <-]. repeat split; assumption || apply R || apply F || apply P.
    - intros [_ ->]. reflexivity. }
  destruct initialStacksBB as [|x0 rest].
  - cbn [rbind ok]. rewrite Hval. unfold stacks_in_chips.
    change (Z.to_nat GameConfig.NUM_PLAYERS) with 4%nat.
    change GameConfig.STARTING_STACK_BB with 8%Q.
    split.
    + intros [(_ & _ & R & F & P) ->]. split; [|reflexivity].
      repeat split; try assumption; try apply R; try apply F; try apply P.
      left. reflexivity.
    + intros [(_ & _ & _ & R & F & P) ->]. split; [|reflexivity].
      cbn. repeat split; try apply R; try apply F; try apply P; nra.
  - set (stacks := x0 :: rest).
    destruct (negb (Z.of_nat (length stacks) =? GameConfig.NUM_PLAYERS)) eqn:Hlen.
    { cbn [rbind]. split; [discriminate|].
      intros [(_ & _ & [H | (H & _)] & _) _]; [discriminate H|].
      rewrite H in Hlen. discriminate Hlen. }
    apply negb_false_iff, Z.eqb_eq in Hlen.
    assert (length stacks = 4%nat) as Hlen' by (unfold GameConfig.NUM_PLAYERS in Hlen; lia).
    destruct (existsb (fun stack => Qle_bool stack 0) stacks) eqn:Hpos.
    { cbn [rbind]. split; [discriminate|].
      intros [(_ & _ & [H | (_ & H & _)] & _) _]; [discriminate H|].
      apply positive_stacks_test in H. congruence. }
    apply positive_stacks_test in Hpos.
    cbn [rbind ok]. rewrite Hval. unfold stacks_in_chips. fold stacks.
    assert (map (fun stack => stack * bigBlind)%Q stacks !!! 0%nat
            = (stacks !!! 0%nat * bigBlind)%Q) as E0.
    { destruct stacks as [|? [|? [|? [|? [|? ?]]]]]; try discriminate Hlen'. reflexivity. }
    assert (map (fun stack => stack * bigBlind)%Q stacks !!! 1%nat
            = (stacks !!! 1%nat * bigBlind)%Q) as E1.
    { destruct stacks as [|? [|? [|? [|? [|? ?]]]]]; try discriminate Hlen'. reflexivity. }
    rewrite E0, E1.
    split.
    + intros [(S0 & S1 & R & F & P) ->]. split; [|reflexivity].
      repeat split; try assumption; try apply R; try apply F; try apply P.
      right. repeat split; assumption.
    + intros [(_ & _ & [H | (_ & _ & S0 & S1)] & R & F & P) ->]; [discriminate H|].
      split; [|reflexivity].
      repeat split; try assumption; try apply R; try apply F; try apply P.
Qed.

Lemma Game_throws_invalid_argument (smallBlind bigBlind : Q)
    (gameParams : GameParameters) (initialStacksBB : list Q) :
  is_ok (Game.Game smallBlind bigBlind gameParams initialStacksBB) = false ->
  is_invalid_argument (Game.Game smallBlind bigBlind gameParams initialStacksBB) = true.
Proof.
  unfold Game.Game, Game.validateConfiguration.
  repeat match goal with
         | |- context [if ?c then _ else _] => destruct c; simpl; try reflexivity
         | |- context [match ?l with [] => _ | _ => _ end] => destruct l; simpl
         end; try discriminate.
Qed.

(** X13.  When the blinds, the stacks and the three parameters are
    doubles and every product of a stack by the big blind is a double
    too, so that the constructor multiplies without rounding, the
    constructor of [Game] returns a game exactly for the accepted
    configurations: positive blinds with the small one below the big
    one, no stacks (then four stacks of 8 big blinds) or four positive
    stacks that cover the blinds of seats 0 and 1, and rake, fee and
    payout percentage between 0 and 1.  The game then holds the stacks
    in chips.  Every other such configuration throws
    [std::invalid_argument]. *)
Theorem X13_Game_accepts_valid_configurations :
  forall (smallBlind bigBlind : Q) (gameParams : GameParameters)
         (initialStacksBB : list Q),
    exact_configuration smallBlind bigBlind gameParams initialStacksBB ->
    (accepted_configuration smallBlind bigBlind gameParams initialStacksBB ->
     Game.Game smallBlind bigBlind gameParams initialStacksBB =
     ok (Game.mk smallBlind bigBlind gameParams
           (stacks_in_chips bigBlind initialStacksBB))) /\
    (~ accepted_configuration smallBlind bigBlind gameParams initialStacksBB ->
     is_invalid_argument (Game.Game smallBlind bigBlind gameParams initialStacksBB)
     = true).
Proof.
  intros smallBlind bigBlind gameParams initialStacksBB _. split.
  - intros Hacc. apply Game_accepts. split; [exact Hacc | reflexivity].
  - intros Hno. apply Game_throws_invalid_argument.
    destruct (Game.Game smallBlind bigBlind gameParams initialStacksBB) as [e|g] eqn:Hg;
      [reflexivity|].
    exfalso. apply Hno. apply (Game_accepts _ _ _ _ g). exact Hg.
Qed.

(** Blinds 0.5 and 1 with no rake: the default stacks are accepted,
    equal blinds are not, and neither is a big blind seat with half a
    big blind. *)
Lemma X13_witness :
  exact_configuration 0.5 1 Game.no_rake [] /\
  exact_configuration 1 1 Game.no_rake [] /\
  exact_configuration 0.5 1 Game.no_rake [8; 0.5; 8; 8]%Q /\
  Game.Game 0.5 1 Game.no_rake [] = ok dyadic_game /\
  is_invalid_argument (Game.Game 1 1 Game.no_rake []) = true /\
  is_invalid_argument (Game.Game 0.5 1 Game.no_rake [8; 0.5; 8; 8]%Q) = true.
Proof.
  assert (binary64 0) as B0 by (exists 0, 0; repeat split; vm_compute; congruence).
  assert (binary64 0.5) as Bh by (exists 1, (-1); repeat split; vm_compute; congruence).
  assert (binary64 1) as B1 by (exists 1, 0; repeat split; vm_compute; congruence).
  assert (binary64 8) as B8 by (exists 8, 0; repeat split; vm_compute; congruence).
  assert (binary64 (8 * 1)) as B81 by (exists 8, 0; repeat split; vm_compute; congruence).
  assert (binary64 (0.5 * 1)) as Bh1 by (exists 1, (-1); repeat split; vm_compute; congruence).
  assert (exact_configuration 0.5 1 Game.no_rake []) as E1.
  { repeat split; try assumption; repeat constructor; assumption. }
  assert (exact_configuration 1 1 Game.no_rake []) as E2.
  { repeat split; try assumption; repeat constructor; assumption. }
  assert (exact_configuration 0.5 1 Game.no_rake [8; 0.5; 8; 8]%Q) as E3.
  { repeat split; try assumption; repeat constructor; assumption. }
  destruct (X13_Game_accepts_valid_configurations 0.5 1 Game.no_rake [] E1) as [Hok _].
  destruct (X13_Game_accepts_valid_configurations 1 1 Game.no_rake [] E2) as [_ Hbad].
  destruct (X13_Game_accepts_valid_configurations 0.5 1 Game.no_rake [8; 0.5; 8; 8]%Q E3)
    as [_ Hshort].
  split; [exact E1|]. split; [exact E2|]. split; [exact E3|].
  split; [|split].
  - rewrite Hok; [reflexivity|].
    unfold accepted_configuration, in_unit_interval. simpl.
    repeat split; try lra; try (left; reflexivity).
  - apply Hbad. intros (_ & H & _). lra.
  - apply Hshort. intros (_ & _ & [H | (_ & _ & _ & H)] & _); [discriminate H|].
    cbn in H. lra.
Defined.

(* ================================================================== *)
(** ** aof::GameConfig: the table of stakes                           *)
(* ================================================================== *)

Section StakesTable.
Import GameConfig.

Lemma Stakes_eqb_spec (a b : Stakes) :
  Stakes_eqb a b = true <-> same_stakes a b.
Proof.
  unfold Stakes_eqb, same_stakes.
  rewrite andb_true_iff, !Qeq_bool_iff. reflexivity.
Qed.

Lemma find_Some (stakes : Stakes) (table : list (Stakes * GameParameters))
    (params : GameParameters) :
  find stakes table = Some params ->
  exists key, In (key, params) table /\ same_stakes stakes key.
Proof.
  induction table as [|[key p] table IH]; simpl; [discriminate|].
  destruct (Stakes_eqb stakes key) eqn:E.
  - intros [= <-]. exists key. split; [left; reflexivity|].
    apply Stakes_eqb_spec. exact E.
  - intros H. destruct (IH H) as (k & Hin & Hs). exists k. split; [right|]; assumption.
Qed.

Lemma find_same (stakes key : Stakes) (table : list (Stakes * GameParameters)) :
  same_stakes stakes key -> find stakes table = find key table.
Proof.
  intros [H1 H2]. induction table as [|[k p] table IH]; simpl; [reflexivity|].
  assert (Stakes_eqb stakes k = Stakes_eqb key k) as ->; [|rewrite IH; reflexivity].
  apply eq_true_iff_eq. rewrite !Stakes_eqb_spec. unfold same_stakes.
  rewrite H1, H2. reflexivity.
Qed.

(** The keys of the table differ, so a lookup of a key finds the entry
    written for it. *)
Lemma find_entry (key : Stakes) (params : GameParameters) :
  In (key, params) STAKES_PARAMETERS -> find key STAKES_PARAMETERS = Some params.
Proof.
  unfold STAKES_PARAMETERS. cbn [In]. intros H.
  repeat (destruct H as [[= <- <-]|H]; [vm_compute; reflexivity|]).
  destruct H.
Qed.

Lemma entry_accepted (key : Stakes) (params : GameParameters) :
  In (key, params) STAKES_PARAMETERS ->
  exists g, Game.Game (fst key) (snd key) params [] = ok g
            /\ Game.gameParams_ g = params.
Proof.
  unfold STAKES_PARAMETERS. cbn [In]. intros H.
  repeat (destruct H as [[= <- <-]|H];
          [eexists; split; [vm_compute; reflexivity|reflexivity]|]).
  destruct H.
Qed.

Lemma sorted_perm_unique {A : Type} (lt : A -> A -> Prop) (l1 l2 : list A) :
  (forall x y, lt x y -> lt y x -> False) ->
  StronglySorted lt l1 -> StronglySorted lt l2 -> Permutation l1 l2 -> l1 = l2.
Proof.
  intros Hasym. revert l2.
  induction l1 as [|a l1 IH]; intros l2 H1 H2 Hp.
  - apply Permutation_nil in Hp. symmetry. exact Hp.
  - destruct l2 as [|b l2].
    + symmetry in Hp. apply Permutation_nil in Hp. discriminate.
    + apply StronglySorted_inv in H1 as [H1 Ha].
      apply StronglySorted_inv in H2 as [H2 Hb].
      assert (a = b) as ->.
      { assert (In a (b :: l2)) as Hina
          by (apply (Permutation_in _ Hp); left; reflexivity).
        assert (In b (a :: l1)) as Hinb
          by (apply (Permutation_in _ (Permutation_sym Hp)); left; reflexivity).
        destruct Hina as [->|Hina]; [reflexivity|].
        destruct Hinb as [->|Hinb]; [reflexivity|].
        rewrite List.Forall_forall in Ha, Hb.
        exfalso. apply (Hasym a b); [apply Ha|apply Hb]; assumption. }
      f_equal. apply IH; [assumption..|].
      apply Permutation_cons_inv in Hp. exact Hp.
Qed.

Lemma table_sorted_by_big_blind :
  StronglySorted big_blind_lt (map fst STAKES_PARAMETERS).
Proof.
  unfold STAKES_PARAMETERS, big_blind_lt. cbn [map fst].
  repeat (apply SSorted_cons;
          [|repeat (apply List.Forall_cons; [reflexivity|]); apply List.Forall_nil]).
  apply SSorted_nil.
Qed.

Lemma strictly_sorted_NoDup {A : Type} (lt : A -> A -> Prop) (l : list A) :
  (forall x, ~ lt x x) -> StronglySorted lt l -> List.NoDup l.
Proof.
  intros Hirr. induction 1 as [|a l Hs IH Ha]; constructor; [|exact IH].
  intros Hin. rewrite List.Forall_forall in Ha. apply (Hirr a), Ha, Hin.
Qed.

Lemma strictly_sorted_compares {A : Type} (lt : A -> A -> Prop) (l : list A) :
  StronglySorted lt l ->
  forall x y, In x l -> In y l -> x <> y -> lt x y \/ lt y x.
Proof.
  induction 1 as [|a l Hs IH Ha]; intros x y Hx Hy Hne; [destruct Hx|].
  rewrite List.Forall_forall in Ha.
  destruct Hx as [<-|Hx], Hy as [<-|Hy].
  - contradiction.
  - left. apply Ha, Hy.
  - right. apply Ha, Hx.
  - apply IH; assumption.
Qed.

Lemma sorted_strictly {A : Type} (le lt : A -> A -> Prop) (l : list A) :
  (forall x y, le x y -> lt y x -> False) ->
  StronglySorted le l -> List.NoDup l ->
  (forall x y, In x l -> In y l -> x <> y -> lt x y \/ lt y x) ->
  StronglySorted lt l.
Proof.
  intros Hle. induction 1 as [|a l Hs IH Ha]; intros Hnd Hcmp; constructor.
  - apply IH.
    + inversion Hnd; assumption.
    + intros x y Hx Hy. apply Hcmp; right; assumption.
  - rewrite List.Forall_forall in *. intros x Hx.
    destruct (Hcmp a x) as [H|H]; [left; reflexivity|right; exact Hx| |exact H|].
    + intros ->. inversion Hnd; contradiction.
    + exfalso. apply (Hle a x); [apply Ha, Hx|exact H].
Qed.

Lemma big_blind_lt_irrefl (x : Stakes) : ~ big_blind_lt x x.
Proof. unfold big_blind_lt. apply Qlt_irrefl. Qed.

Lemma getSupportedStakes_order (iteration : list (Stakes * GameParameters)) :
  Permutation iteration STAKES_PARAMETERS ->
  getSupportedStakes iteration = map fst STAKES_PARAMETERS.
Proof.
  intros Hp. unfold getSupportedStakes.
  set (comp := fun a b : Stakes => Qltb (snd a) (snd b)).
  set (keys := map fst iteration).
  assert (Permutation (sort comp keys) (map fst STAKES_PARAMETERS)) as Hk.
  { rewrite sort_perm. apply Permutation_map. exact Hp. }
  pose proof table_sorted_by_big_blind as Ht.
  apply (sorted_perm_unique big_blind_lt); [| |exact Ht|exact Hk].
  { unfold big_blind_lt. intros x y H1 H2. apply (Qlt_irrefl (snd x)).
    apply (Qlt_trans _ _ _ H1 H2). }
  apply (sorted_strictly (fun a b : Stakes => (snd a <= snd b)%Q)).
  - unfold big_blind_lt. intros x y H1 H2. apply (Qlt_not_le _ _ H2 H1).
  - apply Sorted_StronglySorted.
    + intros x y z. apply Qle_trans.
    + apply sort_sorted; unfold comp; intros x y H.
      * apply Qltb_lt in H. apply Qlt_le_weak. exact H.
      * apply Qltb_ge in H. exact H.
  - apply (Permutation_NoDup (Permutation_sym Hk)).
    apply (strictly_sorted_NoDup big_blind_lt); [apply big_blind_lt_irrefl|exact Ht].
  - intros x y Hx Hy. apply (strictly_sorted_compares _ _ Ht).
    + apply (Permutation_in _ Hk Hx).
    + apply (Permutation_in _ Hk Hy).
Qed.

(** X14.  [getGameParameters] returns the parameters written in
    [STAKES_PARAMETERS] for the stakes asked for, and those only; stakes
    that are no key of the table throw [std::invalid_argument].  Every
    entry of the table is a configuration [Game] accepts.  Whatever the
    order in which the [std::unordered_map] is visited,
    [getSupportedStakes] lists the keys by ascending big blind, which is
    the order in which the table is written. *)
Theorem X14_stakes_table :
  (forall stakes params,
     getGameParameters stakes = ok params <->
     exists key, In (key, params) STAKES_PARAMETERS /\ same_stakes stakes key)
  /\ (forall stakes,
        (forall key params, In (key, params) STAKES_PARAMETERS ->
                            ~ same_stakes stakes key) ->
        is_invalid_argument (getGameParameters stakes) = true)
  /\ (forall key params,
        In (key, params) STAKES_PARAMETERS ->
        exists g, Game.Game (fst key) (snd key) params [] = ok g
                  /\ Game.gameParams_ g = params)
  /\ (forall iteration,
        Permutation iteration STAKES_PARAMETERS ->
        getSupportedStakes iteration = map fst STAKES_PARAMETERS
        /\ StronglySorted big_blind_lt (getSupportedStakes iteration)).
Proof.
  split; [|split; [|split]].
  - intros stakes params. unfold getGameParameters. split.
    + destruct (find stakes STAKES_PARAMETERS) as [p|] eqn:E; [|discriminate].
      intros [= <-]. apply find_Some. exact E.
    + intros (key & Hin & Hs).
      rewrite (find_same _ _ _ Hs), (find_entry _ _ Hin). reflexivity.
  - intros stakes Hno. unfold getGameParameters.
    destruct (find stakes STAKES_PARAMETERS) as [p|] eqn:E; [|reflexivity].
    apply find_Some in E as (key & Hin & Hs). destruct (Hno _ _ Hin Hs).
  - apply entry_accepted.
  - intros iteration Hp. rewrite (getSupportedStakes_order _ Hp).
    split; [reflexivity|apply table_sorted_by_big_blind].
Qed.

End StakesTable.

Lemma X14_witness :
  GameConfig.getGameParameters (1, 2)%Q = ok (mkGameParameters 0.05 0.05 0.001)
  /\ is_invalid_argument (GameConfig.getGameParameters (1, 3)%Q) = true
  /\ GameConfig.getSupportedStakes (rev GameConfig.STAKES_PARAMETERS)
     = map fst GameConfig.STAKES_PARAMETERS.
Proof.
  destruct X14_stakes_table as (Hget & Hthrow & _ & Horder).
  split; [|split].
  - apply Hget. exists (1.00, 2.00)%Q. split; [|split; vm_compute; reflexivity].
    unfold GameConfig.STAKES_PARAMETERS. cbn [In].
    do 6 right. left. reflexivity.
  - apply Hthrow. intros key params Hin [H1 H2].
    unfold GameConfig.STAKES_PARAMETERS in Hin. cbn [In] in Hin.
    repeat (destruct Hin as [[= <- <-]|Hin]; [vm_compute in H1, H2; discriminate|]).
    destruct Hin.
  - apply Horder. symmetry. apply Permutation_rev.
Defined.

(* ================================================================== *)
(** ** mccfr::utils and aof::card_utils: the abstraction of hole cards *)
(* ================================================================== *)

Section HoleCardAbstraction.

Lemma valid_rank_name (c : Card.t) :
  Card.isValid c = true ->
  Card.getRank c = rank_name (Card.getRankValue c)
  /\ In (Card.getRankValue c) all_ranks.
Proof.
  intros Hv. apply valid_card_in_deck in Hv.
  revert c Hv. apply List.Forall_forall. vm_compute.
  repeat (apply List.Forall_cons;
          [split; [reflexivity|repeat (first [left; reflexivity | right])]|]).
  apply List.Forall_nil.
Qed.

Lemma abstractHoleCards_text (card1 card2 : Card.t) :
  Card.isValid card1 = true -> Card.isValid card2 = true ->
  utils.abstractHoleCards card1 card2 = class_text (hand_class card1 card2).
Proof.
  intros H1 H2.
  destruct (valid_rank_name _ H1) as [E1 _], (valid_rank_name _ H2) as [E2 _].
  unfold utils.abstractHoleCards, hand_class, class_text, card_utils.areSuited.
  destruct (Z.ltb_spec (Card.getRankValue card1) (Card.getRankValue card2)) as [Hlt|Hge].
  - rewrite (proj2 (Z.eqb_neq _ _)) by lia.
    rewrite (proj2 (Z.eqb_neq (Card.getRankValue card1) _)) by lia.
    rewrite Z.max_r, Z.min_l by lia. rewrite E1, E2.
    destruct (String.eqb_spec (Card.getSuit card2) (Card.getSuit card1)) as [Hs|Hs].
    + rewrite bool_decide_eq_true_2 by (symmetry; exact Hs). reflexivity.
    + rewrite bool_decide_eq_false_2 by (intros Hs'; apply Hs; symmetry; exact Hs').
      reflexivity.
  - rewrite Z.max_l, Z.min_r by lia. rewrite E1, E2.
    destruct (Z.eqb_spec (Card.getRankValue card1) (Card.getRankValue card2)) as [He|Hne].
    + reflexivity.
    + destruct (String.eqb_spec (Card.getSuit card1) (Card.getSuit card2)) as [Hs|Hs].
      * rewrite bool_decide_eq_true_2 by exact Hs. reflexivity.
      * rewrite bool_decide_eq_false_2 by exact Hs. reflexivity.
Qed.

Lemma class_text_injective_on_ranks :
  let classes :=
    flat_map (fun high => flat_map (fun low =>
      map (fun suited => (high, low, suited)) [None; Some true; Some false])
      all_ranks) all_ranks in
  forallb (fun a => forallb (fun b =>
    implb (String.eqb (class_text a) (class_text b)) (class_eqb a b))
    classes) classes = true.
Proof. vm_compute. reflexivity. Qed.

Lemma class_text_injective (h1 l1 h2 l2 : Z) (s1 s2 : option bool) :
  In h1 all_ranks -> In l1 all_ranks -> In h2 all_ranks -> In l2 all_ranks ->
  class_text (h1, l1, s1) = class_text (h2, l2, s2) ->
  (h1, l1, s1) = (h2, l2, s2).
Proof.
  intros Hh1 Hl1 Hh2 Hl2 Ht.
  pose proof class_text_injective_on_ranks as H. cbv zeta in H.
  set (classes := flat_map _ _) in H.
  assert (forall h l s, In h all_ranks -> In l all_ranks ->
            In (h, l, s) classes) as Hin.
  { intros h l s Hh Hl. subst classes.
    apply in_flat_map. exists h. split; [exact Hh|].
    apply in_flat_map. exists l. split; [exact Hl|].
    apply in_map. destruct s as [[|]|]; simpl; tauto. }
  rewrite forallb_forall in H. specialize (H _ (Hin h1 l1 s1 Hh1 Hl1)).
  rewrite forallb_forall in H. specialize (H _ (Hin h2 l2 s2 Hh2 Hl2)).
  rewrite Ht, String.eqb_refl in H. simpl in H.
  unfold class_eqb in H. apply bool_decide_eq_true in H. exact H.
Qed.

Lemma hand_class_ranks (card1 card2 : Card.t) :
  Card.isValid card1 = true -> Card.isValid card2 = true ->
  exists high low suited,
    hand_class card1 card2 = (high, low, suited)
    /\ In high all_ranks /\ In low all_ranks.
Proof.
  intros H1 H2. unfold hand_class.
  destruct (valid_rank_name _ H1) as [_ I1], (valid_rank_name _ H2) as [_ I2].
  eexists _, _, _. split; [reflexivity|]. split.
  - destruct (Z.max_spec (Card.getRankValue card1) (Card.getRankValue card2))
      as [[_ ->]|[_ ->]]; assumption.
  - destruct (Z.min_spec (Card.getRankValue card1) (Card.getRankValue card2))
      as [[_ ->]|[_ ->]]; assumption.
Qed.

Lemma hand_class_sym (card1 card2 : Card.t) :
  hand_class card1 card2 = hand_class card2 card1.
Proof.
  unfold hand_class. rewrite Z.max_comm, Z.min_comm, (Z.eqb_sym (Card.getRankValue card1)).
  destruct (_ =? _); [reflexivity|].
  do 2 f_equal. apply bool_decide_ext. split; intros H; symmetry; exact H.
Qed.

(** X15.  The two implementations of the hole-card abstraction,
    [utils::abstractHoleCards] and [card_utils::getAbstractedHoleCards],
    return the same text.  For valid cards the text does not depend on
    the order of the two cards, and two hands get the same text exactly
    when they have the same higher rank, the same lower rank and, unless
    they pair, the same suitedness. *)
Theorem X15_abstraction_of_hole_cards :
  (forall card1 card2,
     utils.abstractHoleCards card1 card2
     = card_utils.getAbstractedHoleCards card1 card2)
  /\ (forall card1 card2,
        Card.isValid card1 = true -> Card.isValid card2 = true ->
        utils.abstractHoleCards card1 card2 = utils.abstractHoleCards card2 card1)
  /\ (forall card1 card2 other1 other2,
        Card.isValid card1 = true -> Card.isValid card2 = true ->
        Card.isValid other1 = true -> Card.isValid other2 = true ->
        (utils.abstractHoleCards card1 card2 = utils.abstractHoleCards other1 other2
         <-> hand_class card1 card2 = hand_class other1 other2)).
Proof.
  split; [|split].
  - reflexivity.
  - intros card1 card2 H1 H2.
    rewrite !abstractHoleCards_text by assumption.
    rewrite hand_class_sym. reflexivity.
  - intros card1 card2 other1 other2 H1 H2 H3 H4.
    rewrite !abstractHoleCards_text by assumption.
    split; [|intros ->; reflexivity].
    destruct (hand_class_ranks _ _ H1 H2) as (h1 & l1 & s1 & -> & ? & ?).
    destruct (hand_class_ranks _ _ H3 H4) as (h2 & l2 & s2 & -> & ? & ?).
    apply class_text_injective; assumption.
Qed.

Lemma X15_witness :
  utils.abstractHoleCards (Card.mk "7" "h") (Card.mk "A" "h") = "A7s"
  /\ (utils.abstractHoleCards (Card.mk "7" "h") (Card.mk "A" "h")
      = utils.abstractHoleCards (Card.mk "A" "c") (Card.mk "7" "c")
      <-> hand_class (Card.mk "7" "h") (Card.mk "A" "h")
          = hand_class (Card.mk "A" "c") (Card.mk "7" "c")).
Proof.
  split; [reflexivity|].
  apply (proj2 (proj2 X15_abstraction_of_hole_cards)); reflexivity.
Defined.

End HoleCardAbstraction.

(* ================================================================== *)
(** ** mccfr::utils::sampleAction                                     *)
(* ================================================================== *)

Section Sampling.






End Sampling.

(* ================================================================== *)
(** ** aof::Card: comparison operators                                *)
(* ================================================================== *)

Section CardOrder.

Lemma string_compare_refl (s : string) : String.compare s s = Eq.
Proof. exact (proj2 (OrderedTypeEx.String_as_OT.cmp_eq s s) eq_refl). Qed.

Lemma string_compare_trans (s1 s2 s3 : string) :
  String.compare s1 s2 = Lt -> String.compare s2 s3 = Lt ->
  String.compare s1 s3 = Lt.
Proof.
  intros H1 H2. apply (proj2 (OrderedTypeEx.String_as_OT.cmp_lt s1 s3)).
  apply (OrderedTypeEx.String_as_OT.lt_trans _ s2);
    apply (proj1 (OrderedTypeEx.String_as_OT.cmp_lt _ _)); assumption.
Qed.

Lemma string_ltb_irrefl (s : string) : String.ltb s s = false.
Proof. unfold String.ltb. rewrite string_compare_refl. reflexivity. Qed.

Lemma string_ltb_trans (s1 s2 s3 : string) :
  String.ltb s1 s2 = true -> String.ltb s2 s3 = true -> String.ltb s1 s3 = true.
Proof.
  unfold String.ltb. intros H1 H2.
  destruct (String.compare s1 s2) eqn:E1; try discriminate.
  destruct (String.compare s2 s3) eqn:E2; try discriminate.
  rewrite (string_compare_trans _ _ _ E1 E2). reflexivity.
Qed.

Lemma string_ltb_total (s1 s2 : string) :
  String.ltb s1 s2 = false -> String.ltb s2 s1 = false -> s1 = s2.
Proof.
  unfold String.ltb. rewrite (String.compare_antisym s1 s2).
  destruct (String.compare s2 s1) eqn:E; simpl; try discriminate.
  intros _ _. symmetry. apply String.compare_eq_iff. exact E.
Qed.

Lemma Card_ltb_spec (a b : Card.t) :
  Card.ltb a b = true <->
  Card.getRankValue a < Card.getRankValue b
  \/ (Card.getRankValue a = Card.getRankValue b
      /\ String.ltb (Card.suit_ a) (Card.suit_ b) = true).
Proof.
  unfold Card.ltb. cbv zeta.
  destruct (Z.eqb_spec (Card.getRankValue a) (Card.getRankValue b)) as [He|Hne]; simpl.
  - split; [intros H; right; split; assumption|].
    intros [H|[_ H]]; [lia|exact H].
  - rewrite Z.ltb_lt. split; [intros H; left; exact H|].
    intros [H|[H _]]; [exact H|contradiction].
Qed.

Lemma Card_eqb_eq (a b : Card.t) : Card.eqb a b = true <-> a = b.
Proof.
  unfold Card.eqb. rewrite andb_true_iff, !String.eqb_eq.
  destruct a, b; simpl. split; [intros [-> ->]; reflexivity|intros [= -> ->]; split; reflexivity].
Qed.

Lemma valid_rank_injective (a b : Card.t) :
  Card.isValid a = true -> Card.isValid b = true ->
  Card.getRankValue a = Card.getRankValue b -> Card.rank_ a = Card.rank_ b.
Proof.
  intros Ha Hb He.
  destruct (valid_rank_name _ Ha) as [Ea _], (valid_rank_name _ Hb) as [Eb _].
  unfold Card.getRank in Ea, Eb. rewrite Ea, Eb, He. reflexivity.
Qed.

Lemma toString_injective_on_deck :
  forallb (fun a => forallb (fun b =>
    implb (String.eqb (Card.toString a) (Card.toString b)) (Card.eqb a b))
    Deck.createStandardDeck) Deck.createStandardDeck = true.
Proof. vm_compute. reflexivity. Qed.

(** X17.  [operator<] of cards is a strict order: no card is below
    itself, and it is transitive.  Two cards that neither is below the
    other have the same rank value and the same suit; for valid cards
    they are then equal by [operator==], which holds exactly for cards
    with the same rank and suit, and valid cards are told apart by
    [toString]. *)
Theorem X17_cards_are_strictly_ordered :
  (forall a, Card.ltb a a = false)
  /\ (forall a b c,
        Card.ltb a b = true -> Card.ltb b c = true -> Card.ltb a c = true)
  /\ (forall a b,
        Card.ltb a b = false /\ Card.ltb b a = false <->
        Card.getRankValue a = Card.getRankValue b /\ Card.getSuit a = Card.getSuit b)
  /\ (forall a b, Card.eqb a b = true <-> a = b)
  /\ (forall a b,
        Card.isValid a = true -> Card.isValid b = true ->
        (Card.ltb a b = false /\ Card.ltb b a = false <-> Card.eqb a b = true)
        /\ (Card.toString a = Card.toString b <-> a = b)).
Proof.
  assert (forall a b,
            Card.ltb a b = false /\ Card.ltb b a = false <->
            Card.getRankValue a = Card.getRankValue b
            /\ Card.getSuit a = Card.getSuit b) as Hincomparable.
  { intros a b. unfold Card.getSuit. split.
    - intros [H1 H2].
      assert (~ Card.getRankValue a < Card.getRankValue b) as N1.
      { intros H. rewrite (proj2 (Card_ltb_spec a b)) in H1 by (left; exact H).
        discriminate. }
      assert (~ Card.getRankValue b < Card.getRankValue a) as N2.
      { intros H. rewrite (proj2 (Card_ltb_spec b a)) in H2 by (left; exact H).
        discriminate. }
      assert (Card.getRankValue a = Card.getRankValue b) as He by lia.
      split; [exact He|]. apply string_ltb_total.
      + destruct (String.ltb (Card.suit_ a) (Card.suit_ b)) eqn:E; [|reflexivity].
        rewrite (proj2 (Card_ltb_spec a b)) in H1 by (right; split; assumption).
        discriminate.
      + destruct (String.ltb (Card.suit_ b) (Card.suit_ a)) eqn:E; [|reflexivity].
        rewrite (proj2 (Card_ltb_spec b a)) in H2
          by (right; split; [symmetry|]; assumption).
        discriminate.
    - intros [He Hs]. split.
      + destruct (Card.ltb a b) eqn:E; [|reflexivity].
        apply Card_ltb_spec in E as [H|[_ H]]; [lia|].
        rewrite Hs, string_ltb_irrefl in H. discriminate.
      + destruct (Card.ltb b a) eqn:E; [|reflexivity].
        apply Card_ltb_spec in E as [H|[_ H]]; [lia|].
        rewrite Hs, string_ltb_irrefl in H. discriminate. }
  split; [|split; [|split; [|split]]].
  - intros a. apply (Hincomparable a a). split; reflexivity.
  - intros a b c Hab Hbc. apply Card_ltb_spec in Hab, Hbc. apply Card_ltb_spec.
    destruct Hab as [Hab|[Eab Sab]], Hbc as [Hbc|[Ebc Sbc]].
    + left. lia.
    + left. lia.
    + left. lia.
    + right. split; [lia|]. apply (string_ltb_trans _ _ _ Sab Sbc).
  - exact Hincomparable.
  - apply Card_eqb_eq.
  - intros a b Ha Hb. split.
    + rewrite Hincomparable, Card_eqb_eq. unfold Card.getSuit. split.
      * intros [He Hs]. pose proof (valid_rank_injective _ _ Ha Hb He) as Hr.
        destruct a, b; simpl in *. subst. reflexivity.
      * intros ->. split; reflexivity.
    + split; [|intros ->; reflexivity].
      intros Ht. apply Card_eqb_eq.
      pose proof toString_injective_on_deck as H.
      rewrite forallb_forall in H. specialize (H a (valid_card_in_deck _ Ha)).
      rewrite forallb_forall in H. specialize (H b (valid_card_in_deck _ Hb)).
      rewrite Ht, String.eqb_refl in H. exact H.
Qed.

Lemma X17_witness :
  Card.ltb (Card.mk "10" "h") (Card.mk "J" "c") = true
  /\ (Card.toString (Card.mk "10" "s") = Card.toString (Card.mk "J" "c")
      <-> Card.mk "10" "s" = Card.mk "J" "c").
Proof.
  destruct X17_cards_are_strictly_ordered as (_ & Htrans & _ & _ & Hvalid).
  split.
  - apply (Htrans _ (Card.mk "10" "s")); reflexivity.
  - apply (Hvalid (Card.mk "10" "s") (Card.mk "J" "c")); reflexivity.
Defined.

End CardOrder.

(* ================================================================== *)
(** ** mccfr::Trainer: durations and the utility statistic            *)
(* ================================================================== *)

Section TrainerReports.

Lemma string_app_assoc (a b c : string) :
  ((a ++ b) ++ c = a ++ (b ++ c))%string.
Proof.
  induction a as [|x a IH]; [reflexivity|].
  change (String x ((a ++ b) ++ c) = String x (a ++ (b ++ c)))%string.
  f_equal. exact IH.
Qed.

Lemma duration_fields (s : Z) :
  0 <= s ->
  Z.quot (Z.quot s 60) 60 = hours_field s
  /\ Z.quot s 60 - hours_field s * 60 = minutes_field s
  /\ s - minutes_field s * 60 - 60 * 60 * hours_field s
     = s mod 60.
Proof.
  intros Hs. unfold hours_field, minutes_field.
  rewrite (Z.quot_div_nonneg s 60) by lia.
  rewrite (Z.quot_div_nonneg (s / 60) 60) by (try lia; apply Z.div_pos; lia).
  rewrite Z.div_div by lia. change (60 * 60) with 3600.
  pose proof (Z.div_mod s 60 ltac:(lia)) as H1.
  pose proof (Z.div_mod (s / 60) 60 ltac:(lia)) as H2.
  rewrite Z.div_div in H2 by lia. change (60 * 60) with 3600 in H2.
  repeat split; lia.
Qed.

(** X18.  For a duration of [s] whole seconds [formatDuration] prints
    the whole hours and the minutes past the hour, each left out when
    zero, and then a seconds field.  The seconds field is the seconds
    past the minute plus 3600 for every whole hour: the hours are taken
    off the minutes but never off the seconds.  Below one hour it is
    below 60; from one hour on it is 3600 or more.  A negative duration
    prints as its seconds only. *)
Theorem X18_formatDuration_fields :
  forall duration : Z,
    let s := duration / 1000 in
    (0 <= duration ->
     Trainer.formatDuration duration
     = (optional_field (hours_field s) "h "
        ++ optional_field (minutes_field s) "m "
        ++ Trainer.to_string (seconds_field s) ++ "s")%string)
    /\ (0 <= duration < 3600000 -> 0 <= seconds_field s < 60)
    /\ (3600000 <= duration -> 3600 <= seconds_field s)
    /\ (duration < 0 ->
        Trainer.formatDuration duration
        = (Trainer.to_string (Z.quot duration 1000) ++ "s")%string).
Proof.
  intros duration s. split; [|split; [|split]].
  - intros Hd.
    assert (0 <= s) as Hs by (apply Z.div_pos; lia).
    destruct (duration_fields s Hs) as (Hh & Hm & Hsec).
    unfold Trainer.formatDuration.
    rewrite (Z.quot_div_nonneg duration 1000) by lia. fold s.
    cbv zeta. rewrite Hh, Hm. unfold optional_field.
    rewrite (Z.gtb_ltb (hours_field s)).
    assert (0 <= hours_field s) as Hh0 by (apply Z.div_pos; lia).
    assert (0 <= minutes_field s < 60) as Hm0 by (apply Z.mod_pos_bound; lia).
    assert (seconds_field s = s - minutes_field s * 60) as Hfield
      by (unfold seconds_field; fold (hours_field s); lia).
    destruct (Z.ltb_spec 0 (hours_field s)) as [Hpos|Hzero].
    + rewrite (Z.gtb_ltb (minutes_field s)).
      destruct (Z.ltb_spec 0 (minutes_field s)) as [Hmpos|Hmzero].
      * rewrite Hfield, !string_app_assoc. reflexivity.
      * rewrite Hfield. replace (minutes_field s) with 0 by lia.
        rewrite Z.mul_0_l, Z.sub_0_r, !string_app_assoc. reflexivity.
    + assert (hours_field s = 0) as Hh1 by lia.
      assert (Z.quot s 60 = minutes_field s) as Hq by lia.
      rewrite Hq, (Z.gtb_ltb (minutes_field s)).
      destruct (Z.ltb_spec 0 (minutes_field s)) as [Hmpos|Hmzero].
      * rewrite Hfield, !string_app_assoc. reflexivity.
      * rewrite Hfield. replace (minutes_field s) with 0 by lia.
        rewrite Z.mul_0_l, Z.sub_0_r. reflexivity.
  - intros Hd. unfold seconds_field.
    assert (0 <= s < 3600) as Hs.
    { subst s. split; [apply Z.div_pos; lia|apply Z.div_lt_upper_bound; lia]. }
    rewrite (Z.div_small s 3600) by lia.
    pose proof (Z.mod_pos_bound s 60 ltac:(lia)). lia.
  - intros Hd. unfold seconds_field.
    assert (3600 <= s) as Hs by (subst s; apply Z.div_le_lower_bound; lia).
    assert (1 <= s / 3600) by (apply Z.div_le_lower_bound; lia).
    pose proof (Z.mod_pos_bound s 60 ltac:(lia)). lia.
  - intros Hd. unfold Trainer.formatDuration. cbv zeta.
    set (sec := Z.quot duration 1000).
    assert (sec <= 0) as Hsec by (subst sec; apply Z.quot_le_upper_bound; lia).
    assert (Z.quot sec 60 <= 0) as Hmin by (apply Z.quot_le_upper_bound; lia).
    assert (Z.quot (Z.quot sec 60) 60 <= 0) as Hh by (apply Z.quot_le_upper_bound; lia).
    rewrite !Z.gtb_ltb.
    rewrite (proj2 (Z.ltb_ge 0 (Z.quot (Z.quot sec 60) 60)) Hh).
    cbv beta iota zeta. rewrite Z.gtb_ltb.
    rewrite (proj2 (Z.ltb_ge 0 (Z.quot sec 60)) Hmin).
    reflexivity.
Qed.

Lemma X18_witness :
  Trainer.formatDuration 3661000 = "1h 1m 3601s"
  /\ 3600 <= seconds_field (3661000 / 1000).
Proof.
  destruct (X18_formatDuration_fields 3661000) as (Htext & _ & Hfrom & _).
  split.
  - rewrite Htext by lia. vm_compute. reflexivity.
  - apply Hfrom. lia.
Defined.



End TrainerReports.

(* ================================================================== *)
(** ** aof::GameState: seats decide in turn                           *)
(* ================================================================== *)

Section Turns.
Import GameState.

Lemma history_decisions (s : t) (hist : list bool) :
  (length hist <= 4)%nat ->
  folded_ s = folded_of hist -> allInPlayers_ s = allin_of hist ->
  decisions s = length hist
  /\ forall k : nat, (k < 4)%nat ->
       ((k < length hist)%nat <->
        folded_ s !!! Z.to_nat (seat_order !!! k) = true
        \/ In (seat_order !!! k) (allInPlayers_ s)).
Proof.
  intros Hlen Hf Ha. unfold decisions. rewrite Hf, Ha.
  destruct hist as [|d2 [|d3 [|d0 [|d1 [|? ?]]]]]; simpl in Hlen; try lia;
    repeat match goal with b : bool |- _ => destruct b end;
    (split; [reflexivity|]);
    intros [|[|[|[|k]]]] Hk; try lia; vm_compute; intuition (try discriminate; lia).
Qed.

(** X20.  In every state of a hand the seats that have decided (folded
    or gone all-in) are exactly the first seats of the order 2, 3, 0, 1,
    as many as decisions were taken.  While the hand waits for a
    decision, [getCurrentPlayer] is the next seat of that order, which
    has neither folded nor gone all-in; once the hand is over it is
    [-1]. *)
Theorem X20_seats_decide_in_turn :
  forall (g : Game.t) (w : GameState.t * gmap positive Deck.t),
    reachable g w ->
    let s := fst w in
    (forall k : nat, (k < 4)%nat ->
       ((k < decisions s)%nat <->
        folded_ s !!! Z.to_nat (seat_order !!! k) = true
        \/ In (seat_order !!! k) (allInPlayers_ s)))
    /\ (isTerminal s = false -> isChanceNode s = false ->
        (decisions s < 4)%nat
        /\ getCurrentPlayer s = seat_order !!! decisions s
        /\ folded_ s !!! Z.to_nat (getCurrentPlayer s) = false
        /\ ~ In (getCurrentPlayer s) (allInPlayers_ s))
    /\ (isTerminal s = true -> getCurrentPlayer s = -1).
Proof.
  intros g w Hr s. pose proof (reachable_inv g w Hr) as Hinv.
  pose proof Hinv as (hist & l & d & Hplay & _ & _ & _ & Hf & Ha & _ & _ & _ & _
                      & _ & _ & Hhole).
  fold s in Hf, Ha, Hhole.
  destruct (history_decisions s hist (playable_length _ Hplay) Hf Ha) as [Hdec Hseats].
  split; [|split].
  - rewrite Hdec. exact Hseats.
  - unfold isTerminal. intros Hno Hc.
    destruct (inv_undecided g w Hinv Hc Hno) as (Hp & Hfold & Hall & _).
    fold s in Hp, Hfold, Hall.
    unfold isChanceNode in Hc. rewrite Hno, andb_true_r in Hc. rewrite Hc in Hhole.
    destruct Hhole as [_ Hnext]. specialize (Hnext Hno).
    unfold getCurrentPlayer. rewrite Hno, Hdec.
    split; [apply lookup_lt_Some in Hnext; exact Hnext|].
    split; [symmetry; apply list_lookup_total_correct; exact Hnext|].
    split; assumption.
  - unfold isTerminal, getCurrentPlayer. intros ->. reflexivity.
Qed.

Lemma X20_witness :
  let w := play [DEAL; ALL_IN; FOLD]
                (fresh_world test_game Deck.createStandardDeck) in
  reachable test_game w /\ GameState.getCurrentPlayer (fst w) = 0.
Proof.
  intros w.
  assert (reachable test_game w) as Hr.
  { apply play_reachable, fresh_world_reachable, standard_deck_shuffled. }
  split; [exact Hr|].
  destruct (X20_seats_decide_in_turn test_game w Hr) as (_ & Hturn & _).
  destruct Hturn as (_ & Hnext & _); [vm_compute; reflexivity..|].
  rewrite Hnext. vm_compute. reflexivity.
Defined.

End Turns.

(* ================================================================== *)
(** ** aof.cpp: the evaluator of the single-file version              *)
(* ================================================================== *)

Section LegacyEvaluator.

Lemma legacy_rank_values (hand : list Card.t) :
  Forall (fun c => Card.isValid c = true) hand ->
  Legacy.PokerEvaluator.rank_values hand = inr (ranks_of hand).
Proof.
  induction 1 as [|c hand Hc _ IH]; [reflexivity|].
  cbn [Legacy.PokerEvaluator.rank_values]. rewrite IH.
  unfold Legacy.PokerEvaluator.at_.
  change Legacy.PokerEvaluator.RANK_VALUES with Card.RANK_VALUES.
  unfold ranks_of. cbn [map]. unfold Card.isValid in Hc.
  assert (Card.getRankValue c
          = default 0 (Card.find (Card.rank_ c) Card.RANK_VALUES)) as ->
    by (unfold Card.getRankValue; destruct (Card.find _ _); reflexivity).
  destruct (Card.find (Card.rank_ c) Card.RANK_VALUES); [reflexivity|discriminate].
Qed.

Lemma legacy_checkFlush (hand : list Card.t) :
  hand <> [] ->
  Legacy.PokerEvaluator.checkFlush hand = inr (PokerEvaluator.isFlush hand).
Proof. destruct hand; [congruence|reflexivity]. Qed.

Lemma legacy_evaluate_ext (h1 h2 : list Card.t) :
  Forall (fun c => Card.isValid c = true) h1 ->
  Forall (fun c => Card.isValid c = true) h2 ->
  h1 <> [] -> h2 <> [] ->
  ranks_of h1 = ranks_of h2 -> PokerEvaluator.isFlush h1 = PokerEvaluator.isFlush h2 ->
  Legacy.PokerEvaluator.evaluateFiveCardHand h1
  = Legacy.PokerEvaluator.evaluateFiveCardHand h2.
Proof.
  intros V1 V2 N1 N2 Hr Hf.
  unfold Legacy.PokerEvaluator.evaluateFiveCardHand, Legacy.PokerEvaluator.checkStraight.
  rewrite (legacy_rank_values h1 V1), (legacy_rank_values h2 V2).
  rewrite (legacy_checkFlush h1 N1), (legacy_checkFlush h2 N2), Hr, Hf.
  reflexivity.
Qed.

Lemma insert_sorted_asc_comm (x z : Z) (l : list Z) :
  insert_sorted (fun a b => a <? b) x (insert_sorted (fun a b => a <? b) z l) =
  insert_sorted (fun a b => a <? b) z (insert_sorted (fun a b => a <? b) x l).
Proof.
  induction l as [|y l IH]; simpl;
    repeat (match goal with
            | |- context [?a <? ?b] => destruct (Z.ltb_spec a b)
            end; simpl);
    try lia; try reflexivity;
    try (assert (x = z) by lia; subst; reflexivity).
  rewrite IH. reflexivity.
Qed.

Lemma sort_asc_perm (v v' : list Z) :
  Permutation v v' -> sort (fun a b => a <? b) v = sort (fun a b => a <? b) v'.
Proof.
  intros Hp. unfold sort.
  apply fold_left_comm_perm; [|exact Hp].
  intros acc x y. apply insert_sorted_asc_comm.
Qed.

Lemma legacy_evaluate_perm (h1 h2 : list Card.t) :
  Forall (fun c => Card.isValid c = true) h1 ->
  Permutation h1 h2 ->
  Legacy.PokerEvaluator.evaluateFiveCardHand h1
  = Legacy.PokerEvaluator.evaluateFiveCardHand h2.
Proof.
  intros V1 Hp.
  assert (Forall (fun c => Card.isValid c = true) h2) as V2.
  { apply List.Forall_forall. intros c Hc.
    apply (proj1 (List.Forall_forall _ _) V1).
    apply (Permutation_in _ (Permutation_sym Hp) Hc). }
  destruct h1 as [|c1 h1].
  { apply Permutation_nil in Hp. subst. reflexivity. }
  destruct h2 as [|c2 h2].
  { apply Permutation_sym, Permutation_nil in Hp. discriminate. }
  unfold Legacy.PokerEvaluator.evaluateFiveCardHand, Legacy.PokerEvaluator.checkStraight.
  rewrite (legacy_rank_values _ V1), (legacy_rank_values _ V2).
  rewrite !legacy_checkFlush by discriminate.
  rewrite (isFlush_perm _ _ Hp).
  pose proof (ranks_of_perm _ _ Hp) as Hr.
  cbn [Legacy.bind].
  rewrite (sort_asc_perm _ _ Hr).
  change (sort (fun a b : Z => b <? a)) with PokerEvaluator.sort_desc.
  rewrite (sort_desc_perm _ _ Hr).
  reflexivity.
Qed.

Lemma evaluators_agree_sorted :
  forallb (fun r1 =>
  forallb (fun r2 => if r2 <? r1 then true else
  forallb (fun r3 => if r3 <? r2 then true else
  forallb (fun r4 => if r4 <? r3 then true else
  forallb (fun r5 => if r5 <? r4 then true else
  forallb (fun flush => evaluators_agree (canonical_hand [r1; r2; r3; r4; r5] flush))
          [true; false])
  all_ranks) all_ranks) all_ranks) all_ranks) all_ranks = true.
Proof. vm_compute. reflexivity. Qed.

Lemma evaluators_agree_canonical (r1 r2 r3 r4 r5 : Z) (flush : bool) :
  In r1 all_ranks -> In r2 all_ranks -> In r3 all_ranks -> In r4 all_ranks ->
  In r5 all_ranks ->
  r1 <= r2 -> r2 <= r3 -> r3 <= r4 -> r4 <= r5 ->
  evaluators_agree (canonical_hand [r1; r2; r3; r4; r5] flush) = true.
Proof.
  intros H1 H2 H3 H4 H5 L1 L2 L3 L4.
  pose proof evaluators_agree_sorted as H.
  rewrite forallb_forall in H. specialize (H r1 H1).
  rewrite forallb_forall in H. specialize (H r2 H2).
  destruct (Z.ltb_spec r2 r1) as [?|_]; [lia|].
  rewrite forallb_forall in H. specialize (H r3 H3).
  destruct (Z.ltb_spec r3 r2) as [?|_]; [lia|].
  rewrite forallb_forall in H. specialize (H r4 H4).
  destruct (Z.ltb_spec r4 r3) as [?|_]; [lia|].
  rewrite forallb_forall in H. specialize (H r5 H5).
  destruct (Z.ltb_spec r5 r4) as [?|_]; [lia|].
  rewrite forallb_forall in H. apply H. destruct flush; simpl; tauto.
Qed.

Lemma proper_evaluators_agree (hand : list Card.t) :
  proper hand -> evaluators_agree hand = true.
Proof.
  intros [Hlen Hvalid].
  set (comp := fun a b : Card.t => Card.getRankValue a <=? Card.getRankValue b).
  set (le := fun a b : Card.t => Card.getRankValue a <= Card.getRankValue b).
  pose proof (sort_perm comp hand) as Hp.
  assert (Sorted le (sort comp hand)) as Hs.
  { apply sort_sorted; intros x y; unfold comp, le; intros H.
    - apply Z.leb_le. exact H.
    - apply Z.leb_gt in H. lia. }
  assert (Forall (fun c => Card.isValid c = true) (sort comp hand)) as Hv.
  { apply List.Forall_forall. intros c Hc.
    apply (proj1 (List.Forall_forall _ _) Hvalid). apply (Permutation_in _ Hp Hc). }
  unfold evaluators_agree.
  rewrite <- (evaluateFiveCardHand_perm _ _ Hp), <- (legacy_evaluate_perm _ _ Hv Hp).
  apply Permutation_length in Hp. rewrite Hlen in Hp.
  destruct (sort comp hand) as [|c1 [|c2 [|c3 [|c4 [|c5 [|c6 rest]]]]]] eqn:Hsorted;
    try discriminate.
  repeat match goal with
         | H : Sorted _ (_ :: _) |- _ =>
             apply Sorted_inv in H; destruct H as [H ?]
         | H : HdRel _ _ (_ :: _) |- _ => apply HdRel_inv in H; unfold le in H
         end.
  pose proof Hv as Hv'.
  repeat match goal with
         | H : Forall _ (_ :: _) |- _ =>
             apply Forall_cons_1 in H; destruct H as [?%valid_rank H]
         end.
  clear Hv'. rename Hv into Hnil.
  assert (Forall (fun c => Card.isValid c = true) [c1; c2; c3; c4; c5]) as Hv'.
  { apply List.Forall_forall. intros c Hc.
    apply (proj1 (List.Forall_forall _ _) Hvalid).
    apply (Permutation_in _ (sort_perm comp hand)).
    fold comp. rewrite Hsorted. exact Hc. }
  set (canonical := canonical_hand (ranks_of [c1; c2; c3; c4; c5])
                                   (PokerEvaluator.isFlush [c1; c2; c3; c4; c5])).
  assert (ranks_of [c1; c2; c3; c4; c5] = ranks_of canonical) as Hr.
  { unfold canonical, canonical_hand, ranks_of. cbn [map zip_with canonical_suits].
    rewrite !rank_name_value by assumption. reflexivity. }
  assert (PokerEvaluator.isFlush [c1; c2; c3; c4; c5] = PokerEvaluator.isFlush canonical)
    as Hf.
  { unfold canonical, canonical_hand. cbn [map ranks_of zip_with canonical_suits].
    destruct (PokerEvaluator.isFlush [c1; c2; c3; c4; c5]); reflexivity. }
  assert (Forall (fun c => Card.isValid c = true) canonical) as Hc.
  { unfold canonical, canonical_hand, ranks_of. cbn [map zip_with canonical_suits].
    repeat constructor;
      first [apply canonical_valid; assumption
            | apply (canonical_valid _ true); assumption]. }
  rewrite (evaluateFiveCardHand_ext _ canonical Hr Hf).
  assert ([c1; c2; c3; c4; c5] <> []) as Hn1 by discriminate.
  assert (canonical <> []) as Hn2.
  { unfold canonical, canonical_hand. cbn [map ranks_of zip_with canonical_suits].
    discriminate. }
  rewrite (legacy_evaluate_ext _ canonical Hv' Hc Hn1 Hn2 Hr Hf).
  apply evaluators_agree_canonical; assumption.
Qed.

Lemma proper_scores_agree (hand : list Card.t) :
  proper hand ->
  exists score,
    PokerEvaluator.evaluateFiveCardHand hand = ok score
    /\ Legacy.PokerEvaluator.evaluateFiveCardHand hand = inr score.
Proof.
  intros Hp. pose proof (proper_evaluators_agree hand Hp) as H.
  unfold evaluators_agree in H.
  destruct (PokerEvaluator.evaluateFiveCardHand hand) as [e|score]; [discriminate|].
  destruct (Legacy.PokerEvaluator.evaluateFiveCardHand hand) as [e|legacy];
    [discriminate|].
  apply bool_decide_eq_true in H. subst. exists legacy. split; reflexivity.
Qed.

(** On scores laid out by [evaluateFiveCardHand], [operator>] of vectors
    and [compareHands] decide alike. *)
Lemma vector_lt_compareHands_equal_length (a b : list Z) :
  length a = length b ->
  Legacy.vector_lt b a = (PokerEvaluator.compareHands a b >? 0).
Proof.
  revert b. induction a as [|x a IH]; intros [|y b] Hlen; try discriminate;
    [reflexivity|].
  injection Hlen as Hlen. cbn [Legacy.vector_lt PokerEvaluator.compareHands].
  destruct (Z.ltb_spec y x) as [Hyx|Hyx].
  - rewrite (proj2 (Z.gtb_gt x y)) by lia. reflexivity.
  - destruct (Z.gtb_spec x y) as [Hxy|Hxy]; [lia|].
    destruct (Z.ltb_spec x y); [reflexivity|]. apply IH. exact Hlen.
Qed.

Lemma vector_lt_compareHands (a b : list Z) :
  score_layout a -> score_layout b ->
  Legacy.vector_lt b a = (PokerEvaluator.compareHands a b >? 0).
Proof.
  destruct a as [|x a]; [contradiction|]. destruct b as [|y b]; [contradiction|].
  intros [_ Ha] [_ Hb].
  destruct (Z.eq_dec x y) as [->|Hne].
  - apply vector_lt_compareHands_equal_length. simpl. congruence.
  - cbn [Legacy.vector_lt PokerEvaluator.compareHands].
    destruct (Z.ltb_spec y x) as [Hyx|Hyx].
    + rewrite (proj2 (Z.gtb_gt x y)) by lia. reflexivity.
    + destruct (Z.gtb_spec x y) as [Hxy|Hxy]; [lia|].
      destruct (Z.ltb_spec x y); [reflexivity|lia].
Qed.

Lemma best_of_agrees (combinations : list (list Card.t)) (init : list Z) :
  Forall proper combinations ->
  init = [] \/ score_layout init ->
  exists best,
    fold_left
      (fun best combo =>
         do bestScore <- best;
         do score <- PokerEvaluator.evaluateFiveCardHand combo;
         if (length bestScore =? 0)%nat
            || (PokerEvaluator.compareHands score bestScore >? 0)
         then ok score else ok bestScore)
      combinations (ok init) = ok best
    /\ fold_left
         (fun best combo =>
            Legacy.bind best (fun bestScore =>
            Legacy.bind (Legacy.PokerEvaluator.evaluateFiveCardHand combo) (fun score =>
            if (length bestScore =? 0)%nat || Legacy.vector_lt bestScore score
            then inr score else inr bestScore)))
         combinations (inr init) = inr best.
Proof.
  intros Hall. revert init.
  induction Hall as [|combo rest Hc _ IH]; intros init Hinit.
  - exists init. split; reflexivity.
  - cbn [fold_left]. unfold ok. cbn [rbind Legacy.bind].
    destruct (proper_scores_agree combo Hc) as (score & Hm & Hl).
    unfold ok in Hm. rewrite Hm, Hl. cbn [rbind Legacy.bind].
    pose proof (evaluateFiveCardHand_layout _ _ Hm) as Hlay.
    assert ((length init =? 0)%nat || Legacy.vector_lt init score
            = (length init =? 0)%nat
              || (PokerEvaluator.compareHands score init >? 0)) as ->.
    { destruct Hinit as [->|Hinit]; [reflexivity|].
      rewrite (vector_lt_compareHands _ _ Hlay Hinit). reflexivity. }
    destruct ((length init =? 0)%nat
              || (PokerEvaluator.compareHands score init >? 0)).
    + apply (IH score (or_intror Hlay)).
    + apply (IH init Hinit).
Qed.

Lemma legacy_combinations_of_seven (c1 c2 c3 c4 c5 c6 c7 : Card.t) :
  Legacy.PokerEvaluator.generateCombinations [c1; c2; c3; c4; c5; c6; c7] 7 5 0 []
  = inr (PokerEvaluator.generateCombinationsHelper [c1; c2; c3; c4; c5; c6; c7] 5 []).
Proof. vm_compute. reflexivity. Qed.

Lemma sublist_all {A : Type} (P : A -> Prop) (l1 l2 : list A) :
  l1 `sublist_of` l2 -> Forall P l2 -> Forall P l1.
Proof.
  induction 1 as [|x l1 l2 _ IH|x l1 l2 _ IH]; intros H.
  - constructor.
  - inversion H; subst. constructor; [assumption|]. apply IH. assumption.
  - inversion H; subst. apply IH. assumption.
Qed.

Lemma combinations_proper (cards : list Card.t) :
  Forall (fun c => Card.isValid c = true) cards ->
  Forall proper (PokerEvaluator.generateCombinationsHelper cards 5 []).
Proof.
  intros Hv. apply List.Forall_forall. intros combo Hin.
  apply generateCombinationsHelper_spec in Hin as (more & -> & Hsub & Hlen).
  split; [exact Hlen|]. cbn [app]. apply (sublist_all _ _ _ Hsub Hv).
Qed.

Lemma seven_cards_agree (holeCards communityCards : list Card.t) :
  length holeCards = 2%nat -> length communityCards = 5%nat ->
  Forall (fun c => Card.isValid c = true) (holeCards ++ communityCards) ->
  exists best,
    PokerEvaluator.evaluateHand holeCards communityCards = ok best
    /\ Legacy.PokerEvaluator.evaluateHand holeCards communityCards = inr best.
Proof.
  intros H2 H5 Hv.
  destruct holeCards as [|h1 [|h2 [|? ?]]]; try discriminate.
  destruct communityCards as [|b1 [|b2 [|b3 [|b4 [|b5 [|? ?]]]]]]; try discriminate.
  unfold PokerEvaluator.evaluateHand, Legacy.PokerEvaluator.evaluateHand,
    PokerEvaluator.generateCombinations, Legacy.PokerEvaluator.best_of.
  cbn [length app Nat.eqb negb rbind].
  rewrite legacy_combinations_of_seven. cbn [Legacy.bind].
  apply best_of_agrees; [|left; reflexivity].
  apply combinations_proper. exact Hv.
Qed.

(** X21.  The evaluator of [aof.cpp] and [aof::PokerEvaluator] agree:
    on every hand of five valid cards [evaluateFiveCardHand] returns the
    same score in both, and with two hole cards and five community
    cards, all valid, so does [evaluateHand]. *)
Theorem X21_single_file_evaluator_agrees :
  (forall hand : list Card.t,
     proper hand ->
     exists score,
       PokerEvaluator.evaluateFiveCardHand hand = ok score
       /\ Legacy.PokerEvaluator.evaluateFiveCardHand hand = inr score)
  /\ (forall holeCards communityCards : list Card.t,
        length holeCards = 2%nat -> length communityCards = 5%nat ->
        Forall (fun c => Card.isValid c = true) (holeCards ++ communityCards) ->
        exists best,
          PokerEvaluator.evaluateHand holeCards communityCards = ok best
          /\ Legacy.PokerEvaluator.evaluateHand holeCards communityCards = inr best).
Proof. split; [apply proper_scores_agree | apply seven_cards_agree]. Qed.

Lemma X21_witness :
  exists best,
    PokerEvaluator.evaluateHand [Card.mk "A" "s"; Card.mk "A" "h"]
      [Card.mk "A" "d"; Card.mk "K" "c"; Card.mk "Q" "s"; Card.mk "J" "h";
       Card.mk "10" "c"] = ok best
    /\ Legacy.PokerEvaluator.evaluateHand [Card.mk "A" "s"; Card.mk "A" "h"]
         [Card.mk "A" "d"; Card.mk "K" "c"; Card.mk "Q" "s"; Card.mk "J" "h";
          Card.mk "10" "c"] = inr best.
Proof.
  apply (proj2 X21_single_file_evaluator_agrees); [reflexivity..|].
  repeat constructor.
Defined.

End LegacyEvaluator.

(* ================================================================== *)
(** ** aof.cpp: AoFState                                               *)
(* ================================================================== *)

Section LegacyState.
Import Legacy.AoFState.

Lemma legacy_take_from_deck (count : nat) (target deck : list Card.t) :
  (count <= length deck)%nat ->
  take_from_deck count false target deck
  = inr (target ++ take count (reverse deck), reverse (drop count (reverse deck))).
Proof.
  revert target deck. induction count as [|count IH]; intros target deck Hlen.
  - cbn [take_from_deck]. rewrite take_0, drop_0, app_nil_r, reverse_involutive.
    reflexivity.
  - cbn [take_from_deck andb]. unfold Legacy.pop_back.
    destruct (reverse deck) as [|card rest] eqn:E.
    { apply (f_equal length) in E. rewrite length_reverse in E. simpl in E. lia. }
    cbn [Legacy.bind fst snd]. rewrite IH.
    + rewrite reverse_involutive. cbn [take drop]. rewrite <- app_assoc. reflexivity.
    + rewrite length_reverse. apply (f_equal length) in E.
      rewrite length_reverse in E. simpl in E. lia.
Qed.

Lemma legacy_deal (action : Action) (s : t) :
  isChanceNode s = true -> (8 <= length (deck s))%nat ->
  applyAction action s
  = inr (mk (game s) (pot s) (initial_stacks s) (players_stack s)
            [false; false; false; false] (all_in_players s) (_game_over s) 2
            (reverse (drop 8 (reverse (deck s)))) (take 8 (reverse (deck s)))
            (sb s) (bb s) (community_cards s) (side_pots s)).
Proof.
  destruct s as [g p init stacks fold allin over next d hole sb' bb' community pots].
  cbn [deck game pot initial_stacks players_stack folded all_in_players _game_over
       _next_player cards sb bb community_cards side_pots].
  intros Hc Hlen. unfold applyAction, dealCards. rewrite Hc.
  unfold isChanceNode in Hc. cbn [cards] in Hc. cbn [cards deck]. rewrite Hc. cbn [negb].
  change (Z.to_nat (Legacy.NUM_PLAYERS * 2)) with 8%nat.
  rewrite (legacy_take_from_deck 8 _ _ Hlen). cbn [Legacy.bind fst snd].
  apply Nat.eqb_eq, length_zero_iff_nil in Hc. rewrite Hc. reflexivity.
Qed.

Lemma take_reverse_cons {A : Type} (n : nat) (l : list A) :
  (n < length l)%nat ->
  exists x rest, take (S n) (reverse l) = x :: rest.
Proof.
  intros Hlen. destruct (reverse l) as [|x rest] eqn:E.
  - apply (f_equal length) in E. rewrite length_reverse in E.
    destruct l; simpl in *; lia.
  - exists x, (take n rest). reflexivity.
Qed.

Ltac legacy_compute :=
  cbv - [Qplus Qmult Qminus Qopp Qdiv Qinv Qeq Qle Qlt reverse take drop
         legacy_stacks
         Legacy.AoFGame.small_blind Legacy.AoFGame.big_blind
         Legacy.AoFGame.rake_per_hand Legacy.AoFGame.jackpot_fee_per_hand
         Legacy.AoFGame.jackpot_payout_percentage Legacy.AoFGame.initial_stacks].

(** The state after the constructor, and after the deal. *)
Lemma legacy_fresh_deal (g : Legacy.AoFGame.t) (shuffled : list Card.t) :
  (4 <= length (Legacy.AoFGame.initial_stacks g))%nat ->
  (8 <= length shuffled)%nat ->
  exists c hole,
    take 8 (reverse shuffled) = c :: hole
    /\ AoFState g shuffled
       = inr (legacy_state g 1.4 (legacy_stacks g) [false; false; false; false] []
                false 0 shuffled [])
    /\ forall action,
         applyAction action
           (legacy_state g 1.4 (legacy_stacks g) [false; false; false; false] []
              false 0 shuffled [])
         = inr (legacy_state g 1.4 (legacy_stacks g) [false; false; false; false] []
                  false 2 (reverse (drop 8 (reverse shuffled))) (c :: hole)).
Proof.
  intros H4 H8.
  destruct (take_reverse_cons 7 shuffled H8) as (c & hole & E).
  exists c, hole. split; [exact E|]. split.
  - unfold AoFState. rewrite (proj2 (Nat.ltb_ge _ _) H4). reflexivity.
  - intros action. rewrite legacy_deal; [|reflexivity|exact H8].
    unfold legacy_state.
    cbn [deck game pot initial_stacks players_stack folded all_in_players _game_over
         _next_player cards sb bb community_cards side_pots].
    rewrite E. reflexivity.
Qed.

(** X23.  In the single-file version, at any table and with any deck,
    the hand is not over after the deal and the folds of seats 2 and 3:
    seat 0 is to act.  After the fold of seat 0 it is over at once: no
    community card is dealt and no side pot is built, and [returns]
    gives the big blind the small blind minus rake and jackpot fee,
    takes the small blind from seat 0 and leaves seats 2 and 3 at
    zero. *)
Theorem X23_single_file_fold_out :
  forall (g : Legacy.AoFGame.t) (shuffled : list Card.t),
    (4 <= length (Legacy.AoFGame.initial_stacks g))%nat ->
    (8 <= length shuffled)%nat ->
    exists s0,
      AoFState g shuffled = inr s0
      /\ (exists s,
            legacy_play [DEAL; FOLD; FOLD] s0 = inr s
            /\ isTerminal s = false /\ currentPlayer s = 0)
      /\ (exists s returns_,
            legacy_play [DEAL; FOLD; FOLD; FOLD] s0 = inr s
            /\ isTerminal s = true
            /\ community_cards s = [] /\ side_pots s = []
            /\ folded s = [true; false; true; true]
            /\ returns s = inr returns_
            /\ length returns_ = 4%nat
            /\ (returns_ !!! 0%nat == - 0.4)%Q
            /\ (returns_ !!! 1%nat
                == 0.4 - Legacy.AoFGame.rake_per_hand g
                   - Legacy.AoFGame.jackpot_fee_per_hand g)%Q
            /\ (returns_ !!! 2%nat == 0)%Q
            /\ (returns_ !!! 3%nat == 0)%Q).
Proof.
  intros g shuffled H4 H8.
  destruct (legacy_fresh_deal g shuffled H4 H8) as (c & hole & _ & Hfresh & Hdeal).
  eexists. split; [exact Hfresh|].
  set (rest := reverse (drop 8 (reverse shuffled))).
  split.
  - eexists. cbn [legacy_play]. rewrite Hdeal. cbn [Legacy.bind]. fold rest.
    split; [legacy_compute; reflexivity|]. split; reflexivity.
  - eexists _, _. cbn [legacy_play]. rewrite Hdeal. cbn [Legacy.bind]. fold rest.
    split; [legacy_compute; reflexivity|].
    split; [reflexivity|]. split; [reflexivity|]. split; [reflexivity|].
    split; [reflexivity|].
    split; [legacy_compute; reflexivity|].
    split; [reflexivity|].
    cbn [lookup_total list_lookup_total].
    repeat split; lra.
Qed.

Lemma X23_witness :
  exists s,
    Legacy.bind (AoFState (Legacy.AoFGame.AoFGame 0.4 1 0.04 0.04 0.0001 [])
                          Legacy.make_deck)
                (legacy_play [DEAL; FOLD; FOLD; FOLD]) = inr s
    /\ isTerminal s = true /\ community_cards s = [].
Proof.
  destruct (X23_single_file_fold_out
              (Legacy.AoFGame.AoFGame 0.4 1 0.04 0.04 0.0001 []) Legacy.make_deck)
    as (s0 & Hs0 & _ & s & r & Hplay & Hterm & Hcomm & _);
    [vm_compute; lia..|].
  exists s. rewrite Hs0. split; [exact Hplay|]. split; assumption.
Defined.

(** X24.  [applyAction] of the single-file version checks nothing.  At
    a chance node it deals eight hole cards from the back of the deck
    and gives the turn to seat 2 whatever the action is.  At a decision
    node it takes [DEAL] as well: after the deal a second [DEAL] leaves
    pot, stacks, folds and all-ins as they are and passes the turn from
    seat 2 to seat 3.  Once the hand is over a [FOLD] or an [ALL_IN]
    indexes the vectors with [-1]. *)
Theorem X24_single_file_applyAction_checks_nothing :
  (forall (s : t) (action : Action),
     isChanceNode s = true -> (8 <= length (deck s))%nat ->
     exists s',
       applyAction action s = inr s'
       /\ applyAction DEAL s = inr s'
       /\ cards s' = take 8 (reverse (deck s))
       /\ deck (s') ++ reverse (cards s') = deck s
       /\ currentPlayer s' = (if _game_over s then -1 else 2))
  /\ (forall (g : Legacy.AoFGame.t) (shuffled : list Card.t),
        (4 <= length (Legacy.AoFGame.initial_stacks g))%nat ->
        (8 <= length shuffled)%nat ->
        exists s0 s1 s2,
          AoFState g shuffled = inr s0
          /\ applyAction DEAL s0 = inr s1 /\ currentPlayer s1 = 2
          /\ applyAction DEAL s1 = inr s2 /\ currentPlayer s2 = 3
          /\ pot s2 = pot s1 /\ players_stack s2 = players_stack s1
          /\ folded s2 = folded s1 /\ all_in_players s2 = all_in_players s1
          /\ cards s2 = cards s1 /\ deck s2 = deck s1)
  /\ (forall s : t,
        isChanceNode s = false -> isTerminal s = true ->
        applyAction FOLD s = inl (Legacy.undefined "folded[-1]")
        /\ applyAction ALL_IN s = inl (Legacy.undefined "players_stack[-1]")).
Proof.
  split; [|split].
  - intros s action Hc Hlen. eexists.
    rewrite !(legacy_deal _ s Hc Hlen). split; [reflexivity|]. split; [reflexivity|].
    cbn [cards deck]. split; [reflexivity|]. split.
    + rewrite <- reverse_app, take_drop, reverse_involutive. reflexivity.
    + unfold currentPlayer. reflexivity.
  - intros g shuffled H4 H8.
    destruct (legacy_fresh_deal g shuffled H4 H8) as (c & hole & _ & Hfresh & Hdeal).
    eexists _, _, _. split; [exact Hfresh|]. split; [apply Hdeal|].
    split; [reflexivity|].
    set (rest := reverse (drop 8 (reverse shuffled))).
    split; [legacy_compute; reflexivity|].
    repeat split.
  - intros s Hc Hover. unfold isTerminal in Hover.
    unfold applyAction, currentPlayer. rewrite Hc, Hover. split; reflexivity.
Qed.

Lemma X24_witness :
  exists s',
    applyAction FOLD (legacy_state (Legacy.AoFGame.AoFGame 0.4 1 0 0 0 []) 1.4
                        [7.6; 7; 8; 8]%Q [false; false; false; false] [] false 0
                        Legacy.make_deck []) = inr s'
    /\ currentPlayer s' = 2 /\ folded s' = [false; false; false; false].
Proof.
  destruct (proj1 X24_single_file_applyAction_checks_nothing
              (legacy_state (Legacy.AoFGame.AoFGame 0.4 1 0 0 0 []) 1.4
                 [7.6; 7; 8; 8]%Q [false; false; false; false] [] false 0
                 Legacy.make_deck []) FOLD)
    as (s' & Hfold & Hdeal & _ & _ & Hnext);
    [reflexivity|vm_compute; lia|].
  exists s'. split; [exact Hfold|]. split; [exact Hnext|].
  rewrite legacy_deal in Hfold; [|reflexivity|vm_compute; lia].
  injection Hfold as <-. reflexivity.
Defined.

End LegacyState.

Section LegacyPots.
Import Legacy.AoFState.

Lemma legacy_add_all_ins (s : t) (amounts : list Q) :
  Forall (fun p => 0 <= p < 4) (all_in_players s) ->
  length amounts = 4%nat ->
  exists total, add_all_ins s amounts = inr total /\ length total = 4%nat.
Proof.
  unfold add_all_ins. generalize (all_in_players s) as seats_in.
  intros seats_in Hall. revert amounts.
  induction Hall as [|p seats_in Hp _ IH]; intros amounts Hlen.
  - exists amounts. split; [reflexivity|exact Hlen].
  - cbn [fold_left Legacy.bind].
    change Legacy.NUM_PLAYERS with 4.
    destruct (Z.ltb_spec p 0); [lia|]. destruct (Z.geb_spec p 4); [lia|].
    cbn [orb]. apply IH. rewrite length_insert. exact Hlen.
Qed.

Lemma repeated_addition {A : Type} (d : Q) (l : list A) (a : Q) :
  (fold_left (fun acc _ => acc + d) l a
   == a + inject_Z (Z.of_nat (length l)) * d)%Q.
Proof.
  revert a. induction l as [|x l IH]; intros a.
  - simpl. ring.
  - cbn [fold_left length]. rewrite IH, Nat2Z.inj_succ. unfold Z.succ.
    rewrite inject_Z_plus. ring.
Qed.

Lemma legacy_potLoop_total (entries : list (Q * Z)) (prev : Q) :
  StronglySorted amount_le entries ->
  Forall (fun e => prev <= fst e)%Q entries ->
  (pots_total (potLoop entries prev)
   == Qsum (map (fun e => fst e - prev) entries))%Q.
Proof.
  intros Hs. revert prev.
  induction Hs as [|[amount player] entries Hs IH Hle]; intros prev Hprev.
  - reflexivity.
  - cbn [potLoop map fst]. unfold pots_total in *. rewrite map_app, Qsum_app.
    apply Forall_cons_1 in Hprev as [Hfirst Hprev]. cbn [fst] in Hfirst.
    assert (Forall (fun e : Q * Z => amount <= fst e)%Q entries) as Hnext.
    { apply List.Forall_forall. intros e He.
      apply (proj1 (List.Forall_forall _ _) Hle e He). }
    rewrite (IH amount Hnext), Qsum_cons, !Qsum_map_shift.
    set (size := fold_left _ _ _).
    assert (size == inject_Z (Z.of_nat (S (length entries))) * (amount - prev))%Q
      as Hsize.
    { subst size. rewrite (repeated_addition (amount - prev) ((amount, player) :: entries)).
      cbn [length]. ring. }
    assert (0 <= inject_Z (Z.of_nat (length entries)))%Q as Hn.
    { change 0%Q with (inject_Z 0). rewrite <- Zle_Qle. lia. }
    rewrite Nat2Z.inj_succ in Hsize. unfold Z.succ in Hsize.
    rewrite inject_Z_plus in Hsize. change (inject_Z 1) with 1%Q in Hsize.
    destruct (Qgtb size 0) eqn:E.
    + cbn [map fst]. rewrite Qsum_cons, Qsum_nil, Hsize. ring.
    + apply Qgtb_le in E. cbn [map]. rewrite Qsum_nil.
      assert (0 <= size)%Q as Hpos by (rewrite Hsize; nra).
      assert (size == 0)%Q as Hzero by lra. rewrite Hsize in Hzero.
      assert (amount - prev == 0)%Q as Hd by nra.
      nra.
Qed.

(** X25.  [calculateSidePots] of the single-file version, on any state
    whose all-in seats are seats of the table, builds side pots whose
    amounts are positive and add up to the contributions of the seats
    that have not folded: a blind that was folded is in no side pot.
    The contributions are the blinds 0.4 and 1 and the initial stack of
    every seat that is all-in. *)
Theorem X25_single_file_side_pots :
  forall s : t,
    Forall (fun p => 0 <= p < 4) (all_in_players s) ->
    exists contributions pots,
      add_all_ins s [0.4; 1; 0; 0]%Q = inr contributions
      /\ length contributions = 4%nat
      /\ calculateSidePots s = inr pots
      /\ Forall (fun pot => 0 < fst pot)%Q pots
      /\ (pots_total pots
          == Qsum (map (fun p : nat => if negb (folded s !!! p)
                                       then max (contributions !!! p) 0 else 0)
                       (seq 0%nat 4%nat)))%Q.
Proof.
  intros s Hall.
  destruct (legacy_add_all_ins s [0.4; 1; 0; 0]%Q Hall eq_refl) as (c & Hc & Hlen).
  exists c. unfold calculateSidePots. rewrite Hc. cbn [Legacy.bind].
  eexists. split; [reflexivity|]. split; [exact Hlen|]. split; [reflexivity|].
  match goal with |- context [sort _ ?r] => set (raw := r) end.
  change Legacy.AoFState.pair_lt with GameState.contribution_lt.
  assert (StronglySorted amount_le (sort GameState.contribution_lt raw)) as Hsorted.
  { apply Sorted_StronglySorted.
    - intros x y z Hxy Hyz. unfold amount_le in *. lra.
    - apply (sort_sorted GameState.contribution_lt amount_le).
      + apply contribution_lt_le.
      + apply contribution_lt_ge. }
  assert (Forall (fun e : Q * Z => 0 < fst e)%Q raw) as Hraw.
  { subst raw. unfold for_range. change (Z.to_nat Legacy.NUM_PLAYERS) with 4%nat.
    cbn [seq fold_left].
    repeat match goal with
           | |- context [negb ?f && Qgtb ?x 0] =>
               let E := fresh "E" in
               destruct (negb f && Qgtb x 0) eqn:E;
               [apply andb_true_iff in E as [_ E]; apply Qgtb_gt in E|]
           end; cbn [app]; repeat constructor; assumption. }
  assert (Forall (fun e : Q * Z => 0 <= fst e)%Q (sort GameState.contribution_lt raw))
    as Hnonneg.
  { apply List.Forall_forall. intros e He.
    apply (Permutation_in _ (sort_perm _ raw)) in He.
    apply Qlt_le_weak. apply (proj1 (List.Forall_forall _ _) Hraw e He). }
  split.
  - generalize (sort GameState.contribution_lt raw) as entries. intros entries.
    generalize 0%Q at 2 as prev. induction entries as [|[amount player] entries IH];
      intros prev; cbn [potLoop]; [constructor|].
    apply Forall_app. split; [|apply IH].
    destruct (Qgtb _ 0) eqn:E; [|constructor].
    constructor; [|constructor]. apply Qgtb_gt in E. exact E.
  - rewrite (legacy_potLoop_total _ 0 Hsorted Hnonneg).
    rewrite Qsum_map_shift.
    rewrite (Qsum_Permutation _ _ (Permutation_map fst (sort_perm _ raw))).
    subst raw. unfold for_range. change (Z.to_nat Legacy.NUM_PLAYERS) with 4%nat.
    cbn [seq fold_left map].
    assert (forall x : Q, max x 0 == (if Qgtb x 0 then x else 0))%Q as Hmax.
    { intros x. unfold max. destruct (Qltb x 0) eqn:E1, (Qgtb x 0) eqn:E2;
        try apply Qltb_lt in E1; try apply Qltb_ge in E1;
        try apply Qgtb_gt in E2; try apply Qgtb_le in E2; lra. }
    rewrite !Qsum_cons, Qsum_nil.
    destruct (folded s !!! 0%nat), (folded s !!! 1%nat), (folded s !!! 2%nat),
      (folded s !!! 3%nat);
      cbn [negb andb]; rewrite ?Hmax;
      destruct (Qgtb (c !!! 0%nat) 0), (Qgtb (c !!! 1%nat) 0),
        (Qgtb (c !!! 2%nat) 0), (Qgtb (c !!! 3%nat) 0);
      cbn [app map fst length]; rewrite ?Qsum_cons, ?Qsum_nil;
      cbn [Z.of_nat Pos.of_succ_nat Pos.succ]; ring.
Qed.

Lemma X25_witness :
  exists pots,
    calculateSidePots
      (legacy_state (Legacy.AoFGame.AoFGame 0.4 1 0 0 0 []) 9.4 [7.6; 7; 0; 8]%Q
         [true; true; false; true] [2] true 1 [] []) = inr pots
    /\ (pots_total pots == 8)%Q.
Proof.
  destruct (X25_single_file_side_pots
              (legacy_state (Legacy.AoFGame.AoFGame 0.4 1 0 0 0 []) 9.4
                 [7.6; 7; 0; 8]%Q [true; true; false; true] [2] true 1 [] []))
    as (c & pots & Hc & _ & Hpots & _ & Hsum).
  - repeat constructor; lia.
  - exists pots. split; [exact Hpots|]. rewrite Hsum.
    vm_compute in Hc. injection Hc as <-. vm_compute. reflexivity.
Defined.

(** The best score of a seat is the one [evaluateHand] gives its two
    hole cards. *)
Lemma legacy_player_best_score (s : t) (p : nat) :
  (p < 4)%nat -> length (cards s) = 8%nat -> length (community_cards s) = 5%nat ->
  Forall (fun c => Card.isValid c = true) (cards s ++ community_cards s) ->
  exists score, player_best_score s p = inr score.
Proof.
  intros Hp H8 H5 Hv. unfold player_best_score.
  rewrite (proj2 (Nat.ltb_ge _ _)) by lia.
  apply Forall_app in Hv as [Hhole Hcomm].
  destruct (seven_cards_agree [cards s !!! (2 * p)%nat; cards s !!! (2 * p + 1)%nat]
              (community_cards s) eq_refl H5) as (best & _ & Hbest).
  { apply Forall_app. split; [|exact Hcomm].
    rewrite List.Forall_forall in Hhole.
    repeat constructor; apply Hhole, list_elem_of_In, list_elem_of_lookup_total_2; lia. }
  exists best. exact Hbest.
Qed.

End LegacyPots.

Section LegacyReturns.
Import Legacy.AoFState.

Ltac returns_compute :=
  cbv - [Qplus Qmult Qminus Qopp Qdiv Qinv Qeq Qle Qlt
         Legacy.AoFState.player_best_score Legacy.vector_lt Legacy.vector_eqb
         length Nat.eqb
         Legacy.AoFGame.rake_per_hand Legacy.AoFGame.jackpot_fee_per_hand
         Legacy.AoFGame.jackpot_payout_percentage].

Ltac returns_case :=
  match goal with
  | |- context [Nat.eqb (length ?x) 0] => destruct (Nat.eqb (length x) 0)
  | |- context [Legacy.vector_lt ?a ?b] => destruct (Legacy.vector_lt a b)
  | |- context [Legacy.vector_eqb ?a ?b] => destruct (Legacy.vector_eqb a b)
  end.

(** X26.  [returns] of the single-file version, on a state whose all-in
    seats are seats of the table, with the investments it computes (the
    blinds 0.4 and 1 and the initial stack of every all-in seat).  When
    one seat has not folded it credits that seat with 1.4 minus rake
    and jackpot fee and debits every seat its investment.  When two or
    more seats have not folded and the cards are dealt, the returns add
    up to minus rake and fee plus the jackpot percentage of the
    investments. *)
Theorem X26_single_file_returns :
  forall s : t,
    Forall (fun p => 0 <= p < 4) (all_in_players s) ->
    length (folded s) = 4%nat ->
    exists investments,
      add_all_ins s [0.4; 1.0; 0; 0]%Q = inr investments
      /\ length investments = 4%nat
      /\ (forall winner : nat,
            List.filter (fun p : nat => negb (folded s !!! p)) (seq 0 4) = [winner] ->
            exists result,
              returns s = inr result
              /\ length result = 4%nat
              /\ (forall p : nat, (p < 4)%nat ->
                    (result !!! p
                     == (if (p =? winner)%nat
                         then 1.4 - Legacy.AoFGame.rake_per_hand (game s)
                              - Legacy.AoFGame.jackpot_fee_per_hand (game s)
                         else 0) - investments !!! p)%Q)
              /\ (Qsum result
                  == 1.4 - Legacy.AoFGame.rake_per_hand (game s)
                     - Legacy.AoFGame.jackpot_fee_per_hand (game s)
                     - Qsum investments)%Q)
      /\ ((2 <= length (List.filter negb (folded s)))%nat ->
          length (cards s) = 8%nat -> length (community_cards s) = 5%nat ->
          Forall (fun c => Card.isValid c = true) (cards s ++ community_cards s) ->
          exists result,
            returns s = inr result
            /\ length result = 4%nat
            /\ (Qsum result
                == - (Legacy.AoFGame.rake_per_hand (game s)
                      + Legacy.AoFGame.jackpot_fee_per_hand (game s))
                   + Legacy.AoFGame.jackpot_payout_percentage (game s)
                     * Qsum investments)%Q).
Proof.
  intros s Hall Hlen.
  destruct (legacy_add_all_ins s [0.4; 1.0; 0; 0]%Q Hall eq_refl)
    as (investments & Hinv & Hlen').
  exists investments. split; [exact Hinv|]. split; [exact Hlen'|].
  destruct investments as [|i0 [|i1 [|i2 [|i3 [|? ?]]]]]; try discriminate.
  split.
  - intros winner Hwinner. unfold returns. rewrite Hinv. cbn [Legacy.bind].
    destruct s as [g p init stacks fold allin over next d hole sb' bb' community pots].
    cbn [folded game] in *.
    destruct fold as [|f0 [|f1 [|f2 [|f3 [|? ?]]]]]; try discriminate.
    destruct f0, f1, f2, f3; cbn in Hwinner; try discriminate;
      injection Hwinner as <-;
      (eexists; split; [returns_compute; reflexivity|]; split; [reflexivity|]; split;
       [intros [|[|[|[|q]]]] Hq; try lia;
        cbn [lookup_total list_lookup_total Nat.eqb]; ring
       |unfold Qsum, accumulate; cbn [fold_left]; ring]).
  - intros Hactive H8 H5 Hv.
    destruct (legacy_player_best_score s 0 ltac:(lia) H8 H5 Hv) as [sc0 Hs0].
    destruct (legacy_player_best_score s 1 ltac:(lia) H8 H5 Hv) as [sc1 Hs1].
    destruct (legacy_player_best_score s 2 ltac:(lia) H8 H5 Hv) as [sc2 Hs2].
    destruct (legacy_player_best_score s 3 ltac:(lia) H8 H5 Hv) as [sc3 Hs3].
    unfold returns. rewrite Hinv. cbn [Legacy.bind].
    destruct s as [g p init stacks fold allin over next d hole sb' bb' community pots].
    cbn [folded game] in *.
    destruct fold as [|f0 [|f1 [|f2 [|f3 [|? ?]]]]]; try discriminate.
    destruct f0, f1, f2, f3; cbn in Hactive; try lia;
      repeat (returns_compute; rewrite ?Hs0, ?Hs1, ?Hs2, ?Hs3;
              change (Nat.eqb (length (@nil Z)) 0) with true;
              returns_compute; try returns_case);
      (eexists; split; [reflexivity|]; split; [reflexivity|];
       unfold Qsum, accumulate; cbn [fold_left];
       cbv - [Qplus Qmult Qminus Qopp Qdiv Qinv Qeq Qle Qlt
              Legacy.AoFGame.rake_per_hand Legacy.AoFGame.jackpot_fee_per_hand
              Legacy.AoFGame.jackpot_payout_percentage];
       field).
Qed.

Lemma X26_witness :
  exists result,
    returns (legacy_state (Legacy.AoFGame.AoFGame 0.4 1 0.04 0.04 0.0001 []) 1.4
               [7.6; 7; 8; 8]%Q [true; false; true; true] [] true 1 [] [])
    = inr result
    /\ (Qsum result == - 0.08)%Q.
Proof.
  destruct (X26_single_file_returns
              (legacy_state (Legacy.AoFGame.AoFGame 0.4 1 0.04 0.04 0.0001 []) 1.4
                 [7.6; 7; 8; 8]%Q [true; false; true; true] [] true 1 [] []))
    as (investments & Hinv & _ & Hfold & _); [constructor|reflexivity|].
  destruct (Hfold 1%nat eq_refl) as (result & Hresult & _ & _ & Hsum).
  exists result. split; [exact Hresult|]. rewrite Hsum.
  vm_compute in Hinv. injection Hinv as <-. vm_compute. reflexivity.
Defined.

End LegacyReturns.

(* ================================================================== *)
(** ** mccfr::utils: information sets                                *)
(* ================================================================== *)

Section InformationSets.
Import GameState.
Variable print_double : Q -> string.

Lemma subscript_ok {A} (v : list A) (i : nat) (x : A) :
  v !! i = Some x -> subscript v (Z.of_nat i) = ok x.
Proof.
  intros H. unfold subscript.
  destruct (Z.ltb_spec (Z.of_nat i) 0); [lia|].
  rewrite Nat2Z.id, H. reflexivity.
Qed.

Lemma subscript_negative {A} (v : list A) (i : Z) :
  i < 0 -> subscript v i = inl (undefined_behaviour "subscript before the start").
Proof.
  intros H. unfold subscript.
  destruct (Z.ltb_spec i 0); [reflexivity | lia].
Qed.

Lemma subscript_past {A} (v : list A) (i : Z) :
  Z.of_nat (length v) <= i ->
  subscript v i = inl (undefined_behaviour "subscript past the end").
Proof.
  intros H. unfold subscript.
  destruct (Z.ltb_spec i 0); [lia|].
  rewrite (proj2 (lookup_ge_None v (Z.to_nat i))) by lia. reflexivity.
Qed.

Lemma subscript_Some {A} (v : list A) (i : Z) (x : A) :
  subscript v i = ok x <-> 0 <= i /\ v !! Z.to_nat i = Some x.
Proof.
  unfold subscript. destruct (Z.ltb_spec i 0).
  - split; [discriminate | lia].
  - destruct (v !! Z.to_nat i) as [y|].
    + split; [intros [= ->]; auto | intros [_ [= ->]]; reflexivity].
    + split; [discriminate | intros [_ [=]]].
Qed.

Lemma statuses_throw (state : t) (l : list Z) (e : exception) :
  utils.statuses state l (inl e) = inl e.
Proof. induction l as [|p l IH]; [reflexivity | exact IH]. Qed.

Lemma statuses_ext (s1 s2 : t) (l : list Z) (acc : result string) :
  (forall p, In p l -> utils.status s1 p = utils.status s2 p) ->
  utils.statuses s1 l acc = utils.statuses s2 l acc.
Proof.
  revert acc. induction l as [|p l IH]; intros acc H; [reflexivity|].
  unfold utils.statuses. cbn [fold_left]. rewrite (H p (or_introl eq_refl)).
  apply IH. intros q Hq. apply H. right. exact Hq.
Qed.

Lemma status_ok (state : t) (p : Z) :
  0 <= p < Z.of_nat (length (folded_ state)) ->
  exists letter, utils.status state p = ok letter.
Proof.
  intros Hp. unfold utils.status.
  destruct (folded_ state !! Z.to_nat p) as [b|] eqn:E.
  - rewrite (proj2 (subscript_Some _ _ _) (conj (proj1 Hp) E)).
    cbn [rbind ok]. destruct b; [eexists; reflexivity|].
    destruct (set.count p (allInPlayers_ state) >? 0); eexists; reflexivity.
  - apply lookup_ge_None in E. lia.
Qed.

Lemma statuses_ok (state : t) (l : list Z) (ss : string) :
  (forall p, In p l -> 0 <= p < Z.of_nat (length (folded_ state))) ->
  exists tags, utils.statuses state l (ok ss) = ok (ss ++ tags)%string :> result string.
Proof.
  revert ss. induction l as [|p l IH]; intros ss H.
  - exists ""%string. cbn. f_equal. induction ss; [reflexivity|].
    change (String a ss ++ "")%string with (String a (ss ++ "")).
    rewrite <- IHss. reflexivity.
  - destruct (status_ok state p (H p (or_introl eq_refl))) as [letter Hl].
    unfold utils.statuses. cbn [fold_left]. rewrite Hl. cbn [rbind ok].
    destruct (IH (ss ++ "[P" ++ print_int p ++ ":" ++ letter ++ "]")%string)
      as [tags Ht].
    { intros q Hq. apply H. right. exact Hq. }
    unfold utils.statuses in Ht. unfold ok in *. rewrite Ht.
    eexists. rewrite string_app_assoc. reflexivity.
Qed.

Lemma seen_seats (player p : Z) :
  player < 4 -> In p (utils.seen player) -> 0 <= p < 4.
Proof.
  intros Hp. unfold utils.seen. destruct (Z.leb_spec player 1).
  - intros Hin. apply filter_In in Hin as [Hin _]. simpl in Hin. lia.
  - intros Hin. apply in_map_iff in Hin as (i & <- & Hi).
    apply in_seq in Hi. lia.
Qed.

Lemma getInformationSet_unfold (state : t) (player : Z) :
  utils.getInformationSet print_double state player =
  (do ss <- utils.statuses state (utils.seen player)
                     (ok ("P" ++ print_int player ++ ":")%string);
   do ss <-
     (if Z.of_nat (length (holeCards_ state)) >=? ((player + 1) * 2) mod 2 ^ 64
      then
        do card1 <- subscript (holeCards_ state) (player * 2);
        do card2 <- subscript (holeCards_ state) (player * 2 + 1);
        ok (ss ++ utils.abstractHoleCards card1 card2 ++ " ")%string
      else ok ss);
   ok (ss ++ "Pot:" ++ print_double (pot_ state))%string).
Proof. reflexivity. Qed.

Lemma own_hand_subscripts (state : t) (player : Z) (ss : string) :
  0 <= player ->
  (do card1 <- subscript (holeCards_ state) (player * 2);
   do card2 <- subscript (holeCards_ state) (player * 2 + 1);
   ok (ss ++ utils.abstractHoleCards card1 card2 ++ " ")%string)
  = match own_hand state player with
    | Some hand => ok (ss ++ hand ++ " ")%string
    | None => inl (undefined_behaviour "subscript past the end")
    end.
Proof.
  intros Hp. unfold own_hand, subscript.
  destruct (Z.ltb_spec (player * 2) 0); [lia|].
  destruct (Z.ltb_spec (player * 2 + 1) 0); [lia|].
  destruct (holeCards_ state !! Z.to_nat (player * 2)) as [c1|]; [|reflexivity].
  cbn [rbind ok].
  destruct (holeCards_ state !! Z.to_nat (player * 2 + 1)) as [c2|]; reflexivity.
Qed.

(** With eight hole cards on the table, the information set of a seat
    is made of the tags of the seats it sees, its own hand and the
    pot. *)
Lemma getInformationSet_dealt (state : t) (player : Z) :
  0 <= player < 4 -> length (folded_ state) = 4%nat ->
  length (holeCards_ state) = 8%nat ->
  exists tags hand,
    utils.statuses state (utils.seen player) (ok ("P" ++ print_int player ++ ":")%string)
    = ok ("P" ++ print_int player ++ ":" ++ tags)%string /\
    own_hand state player = Some hand /\
    utils.getInformationSet print_double state player
    = ok ("P" ++ print_int player ++ ":" ++ tags ++ hand ++ " " ++ "Pot:"
          ++ print_double (pot_ state))%string.
Proof.
  intros Hp Hf H8.
  destruct (statuses_ok state (utils.seen player) ("P" ++ print_int player ++ ":")%string)
    as [tags Ht].
  { intros p Hin. rewrite Hf. apply (seen_seats player); [lia | exact Hin]. }
  assert (exists hand, own_hand state player = Some hand) as [hand Hh].
  { unfold own_hand.
    destruct (lookup_lt_is_Some_2 (holeCards_ state) (Z.to_nat (player * 2)))
      as [c1 ->]; [lia|].
    destruct (lookup_lt_is_Some_2 (holeCards_ state) (Z.to_nat (player * 2 + 1)))
      as [c2 ->]; [lia|].
    eexists. reflexivity. }
  exists tags, hand.
  split; [rewrite Ht; rewrite !string_app_assoc; reflexivity|].
  split; [exact Hh|].
  rewrite getInformationSet_unfold, Ht. cbn [rbind ok].
  rewrite H8.
  assert ((Z.of_nat 8 >=? ((player + 1) * 2) mod 2 ^ 64) = true) as ->.
  { rewrite Z.mod_small by lia. apply Z.geb_le. lia. }
  rewrite own_hand_subscripts by lia. rewrite Hh. cbn [rbind ok].
  unfold ok. f_equal. rewrite !string_app_assoc. reflexivity.
Qed.


Lemma getInformationSet_undealt (state : t) (player : Z) :
  0 <= player < 4 -> length (folded_ state) = 4%nat ->
  length (holeCards_ state) = 0%nat ->
  exists tags,
    utils.getInformationSet print_double state player
    = ok ("P" ++ print_int player ++ ":" ++ tags ++ "Pot:"
          ++ print_double (pot_ state))%string.
Proof.
  intros Hp Hf H0.
  destruct (statuses_ok state (utils.seen player) ("P" ++ print_int player ++ ":")%string)
    as [tags Ht].
  { intros p Hin. rewrite Hf. apply (seen_seats player); [lia | exact Hin]. }
  exists tags.
  rewrite getInformationSet_unfold, Ht. cbn [rbind ok].
  rewrite H0.
  assert ((Z.of_nat 0 >=? ((player + 1) * 2) mod 2 ^ 64) = false) as ->.
  { rewrite Z.mod_small by lia. rewrite Z.geb_leb. apply Z.leb_gt. lia. }
  cbn [rbind ok]. unfold ok. f_equal. rewrite !string_app_assoc. reflexivity.
Qed.

Lemma inv_hole_cards g w :
  inv g w ->
  (isChanceNode (fst w) = true /\ length (holeCards_ (fst w)) = 0%nat) \/
  (isChanceNode (fst w) = false /\ length (holeCards_ (fst w)) = 8%nat).
Proof.
  intros (hist & l & d & _ & _ & _ & _ & _ & _ & _ & _ & _ & _ & Ho & _ & Hh).
  unfold isChanceNode.
  destruct (Nat.eqb_spec (length (holeCards_ (fst w))) 0) as [E|E].
  - subst hist. rewrite Ho. left. split; [reflexivity | exact E].
  - right. split; [reflexivity | apply Hh].
Qed.

(** The text of an information set starts with the seat. *)
Lemma getInformationSet_seat g w (player : Z) :
  inv g w -> 0 <= player < 4 ->
  exists rest,
    utils.getInformationSet print_double (fst w) player
    = ok ("P" ++ print_int player ++ ":" ++ rest)%string.
Proof.
  intros Hinv Hp. pose proof (inv_folded_length g w Hinv) as Hf.
  destruct (inv_hole_cards g w Hinv) as [[_ H0] | [_ H8]].
  - destruct (getInformationSet_undealt (fst w) player Hp Hf H0) as [tags ->].
    eexists. reflexivity.
  - destruct (getInformationSet_dealt (fst w) player Hp Hf H8)
      as (tags & hand & _ & _ & ->).
    eexists. reflexivity.
Qed.

Lemma getInformationSet_terminal (state : t) :
  length (folded_ state) = 4%nat ->
  utils.getInformationSet print_double state (-1)
  = inl (undefined_behaviour "subscript before the start").
Proof.
  intros Hf.
  destruct (statuses_ok state (utils.seen (-1)) ("P" ++ print_int (-1) ++ ":")%string)
    as [tags Ht].
  { intros p Hin. rewrite Hf. apply (seen_seats (-1)); [lia | exact Hin]. }
  rewrite getInformationSet_unfold, Ht. cbn [rbind ok].
  change (((-1 + 1) * 2) mod 2 ^ 64) with 0.
  assert ((Z.of_nat (length (holeCards_ state)) >=? 0) = true) as ->
    by (apply Z.geb_le; lia).
  rewrite subscript_negative by lia. reflexivity.
Qed.

End InformationSets.

(** X27.  In every state of a hand where a seat is to decide, the
    information set of that seat is defined: the seat, the tags of the
    seats it sees, its own two cards abstracted, and the pot.  Asked for
    the seat to act of a hand that is over, seat -1, the function reads
    the hole cards before their start.  Two states of hands in which a
    seat sees the same statuses, holds the same abstracted hand and
    faces the same pot have the same information set for it, whatever
    the other cards are; the information sets of two different seats
    are never the same text. *)
Theorem X27_information_sets :
  forall (print_double : Q -> string) (g : Game.t)
         (w : GameState.t * gmap positive Deck.t),
    reachable g w ->
    let s := fst w in
    (decision_node s ->
     exists tags hand,
       own_hand s (GameState.getCurrentPlayer s) = Some hand /\
       utils.getInformationSet print_double s (GameState.getCurrentPlayer s)
       = ok ("P" ++ print_int (GameState.getCurrentPlayer s) ++ ":" ++ tags
             ++ hand ++ " " ++ "Pot:" ++ print_double (GameState.pot_ s))%string)
    /\ (GameState.isTerminal s = true ->
        utils.getInformationSet print_double s (GameState.getCurrentPlayer s)
        = inl (undefined_behaviour "subscript before the start"))
    /\ (forall (g' : Game.t) (w' : GameState.t * gmap positive Deck.t) (player : Z),
          reachable g' w' -> 0 <= player < 4 ->
          GameState.isChanceNode s = false ->
          GameState.isChanceNode (fst w') = false ->
          (forall p, In p (utils.seen player) ->
                     utils.status s p = utils.status (fst w') p) ->
          own_hand s player = own_hand (fst w') player ->
          GameState.pot_ s = GameState.pot_ (fst w') ->
          utils.getInformationSet print_double s player
          = utils.getInformationSet print_double (fst w') player)
    /\ (forall (g' : Game.t) (w' : GameState.t * gmap positive Deck.t) (p q : Z),
          reachable g' w' -> 0 <= p < 4 -> 0 <= q < 4 -> p <> q ->
          utils.getInformationSet print_double s p
          <> utils.getInformationSet print_double (fst w') q).
Proof.
  intros print_double g w Hr s. pose proof (reachable_inv g w Hr) as Hinv.
  pose proof (inv_folded_length g w Hinv) as Hf. subst s.
  split; [|split; [|split]].
  - intros [Hno Hc]. unfold GameState.isTerminal in Hno.
    destruct (inv_undecided g w Hinv Hc Hno) as (Hp & _).
    destruct (inv_hole_cards g w Hinv) as [[Hc' _] | [_ H8]]; [congruence|].
    unfold GameState.getCurrentPlayer. rewrite Hno.
    destruct (getInformationSet_dealt print_double (fst w) _ Hp Hf H8)
      as (tags & hand & _ & Hh & Hi).
    exists tags, hand. split; [exact Hh | exact Hi].
  - intros Hover. unfold GameState.isTerminal in Hover.
    unfold GameState.getCurrentPlayer. rewrite Hover.
    apply getInformationSet_terminal. exact Hf.
  - intros g' w' player Hr' Hp Hc Hc' Hst Hown Hpot.
    pose proof (reachable_inv g' w' Hr') as Hinv'.
    pose proof (inv_folded_length g' w' Hinv') as Hf'.
    destruct (inv_hole_cards g w Hinv) as [[Hx _] | [_ H8]];
      [congruence|].
    destruct (inv_hole_cards g' w' Hinv') as [[Hx _] | [_ H8']]; [congruence|].
    rewrite !getInformationSet_unfold.
    rewrite (statuses_ext (fst w) (fst w') _ _ Hst).
    destruct (utils.statuses (fst w') (utils.seen player) _) as [e|ss];
      [reflexivity|].
    cbn [rbind]. rewrite H8, H8'.
    destruct (Z.of_nat 8 >=? ((player + 1) * 2) mod 2 ^ 64).
    + rewrite !own_hand_subscripts by lia. rewrite Hown, Hpot. reflexivity.
    + rewrite Hpot. reflexivity.
  - intros g' w' p q Hr' Hp Hq Hne.
    pose proof (reachable_inv g' w' Hr') as Hinv'.
    destruct (getInformationSet_seat print_double g w p Hinv Hp) as [r1 H1].
    destruct (getInformationSet_seat print_double g' w' q Hinv' Hq) as [r2 H2].
    rewrite H1, H2. intros Heq.
    assert (p = 0 \/ p = 1 \/ p = 2 \/ p = 3) as Hp' by lia.
    assert (q = 0 \/ q = 1 \/ q = 2 \/ q = 3) as Hq' by lia.
    destruct Hp' as [-> | [-> | [-> | ->]]];
      destruct Hq' as [-> | [-> | [-> | ->]]];
      try (apply Hne; reflexivity); discriminate Heq.
Qed.

Lemma X27_witness :
  let w := play [DEAL; FOLD; ALL_IN]
                (fresh_world test_game Deck.createStandardDeck) in
  exists tags hand,
    own_hand (fst w) (GameState.getCurrentPlayer (fst w)) = Some hand /\
    utils.getInformationSet (fun _ => "9.4"%string) (fst w)
                            (GameState.getCurrentPlayer (fst w))
    = ok ("P" ++ print_int (GameState.getCurrentPlayer (fst w)) ++ ":" ++ tags
          ++ hand ++ " " ++ "Pot:" ++ "9.4")%string.
Proof.
  intros w.
  assert (reachable test_game w) as Hr.
  { apply play_reachable, fresh_world_reachable, standard_deck_shuffled. }
  apply (proj1 (X27_information_sets (fun _ => "9.4"%string) test_game w Hr)).
  split; vm_compute; reflexivity.
Defined.

(* ================================================================== *)
(** ** mccfr::Trainer: the recursion and the play-out                *)
(* ================================================================== *)

Section TrainerSteps.
Import GameState.

Lemma inv_frame g (s : t) (h h' : gmap positive Deck.t) :
  inv g (s, h) ->
  (forall l, deck_ s = Some l -> h' !! l = h !! l) ->
  inv g (s, h').
Proof.
  intros (hist & l & d & Hplay & Hg & Hinit & Hst & Hf & Ha & Hpot & Hl & Hd & Hrest) Hk.
  exists hist, l, d. simpl in *.
  repeat split; try tauto. rewrite (Hk l Hl). exact Hd.
Qed.

Lemma inv_chance_decisions g w :
  inv g w -> isChanceNode (fst w) = true -> decisions (fst w) = 0%nat.
Proof.
  intros (hist & l & d & _ & _ & _ & _ & Hf & Ha & _ & _ & _ & _ & _ & _ & Hh) Hc.
  unfold isChanceNode in Hc. apply andb_true_iff in Hc as [Hc _].
  rewrite Hc in Hh. subst hist. unfold decisions. rewrite Hf, Ha. reflexivity.
Qed.

(** What a legal call leaves as it was. *)
Lemma legal_call_state g w a :
  inv g w -> legal a (fst w) ->
  deck_ (fst (snd (applyAction a w))) = deck_ (fst w) /\
  (a = DEAL -> isChanceNode (fst (snd (applyAction a w))) = false /\
               gameOver_ (fst (snd (applyAction a w))) = false).
Proof.
  destruct w as [s h]. intros Hinv Hleg. simpl in Hleg.
  destruct (legal_cases a s Hleg) as [[Hc ->] | (Hc & Hno & Hnext & Hfold & Hact)].
  - pose proof Hinv as (hist & l & d & Hplay & Hg & Hinit & Hst & Hf & Ha & Hpot & Hl
                        & Hd & Hlen & Hover & Hend & Hhole).
    simpl in *. pose proof Hc as Hc'. unfold isChanceNode in Hc'.
    apply andb_true_iff in Hc' as [Hh Hno]. apply negb_true_iff in Hno.
    rewrite Hno in Hend. apply Nat.eqb_eq in Hh.
    rewrite Hh, Hend in Hlen. simpl in Hlen.
    rewrite (applyAction_deal s h l d Hc Hl Hd) by lia. simpl.
    split; [reflexivity|]. intros _. split; [|exact Hno].
    unfold isChanceNode. simpl.
    pose proof (length_dealt 8 d ltac:(lia)) as H8. unfold dealt in *.
    rewrite H8. reflexivity.
  - destruct (inv_undecided g (s, h) Hinv Hc Hno)
      as (Hp & _ & Hn & Hlen & Hcc & l & d & Hl & Hd & Hd5).
    simpl in *.
    rewrite applyAction_decide;
      [| exact Hc | exact Hno | exact Hnext | exact Hfold
       | destruct Hact; subst; discriminate].
    destruct (act_frame a s) as (Ho & Hdk & Hcc' & Hhc).
    destruct (advanceLoop_total (act a s)) as (s2 & Hadv & Hp2).
    { destruct Hact as [-> | ->]; simpl; [rewrite length_insert|]; exact Hlen. }
    { destruct Hact as [-> | ->]; simpl; exact Hp. }
    rewrite Hadv. apply advanceLoop_frame in Hadv.
    destruct (shouldGameEnd s2).
    + rewrite (handleGameEnd_deal _ h l d);
        [| rewrite Hadv; simpl; congruence | rewrite Hadv; simpl; congruence
         | exact Hd | exact Hd5].
      simpl. split; [rewrite Hadv; simpl; exact Hdk|].
      intros ->. destruct Hact; discriminate.
    + simpl. split; [rewrite Hadv; simpl; exact Hdk|].
      intros ->. destruct Hact; discriminate.
Qed.

(** A legal call returns, and the hand has fewer calls left. *)
Lemma legal_call_step g (s : t) (h : gmap positive Deck.t) a :
  inv g (s, h) -> legal a s ->
  exists s' h',
    applyAction a (s, h) = (ok tt, (s', h')) /\
    inv g (s', h') /\
    deck_ s' = deck_ s /\
    other_decks_kept s h h' /\
    (rounds_left s' < rounds_left s)%nat.
Proof.
  intros Hinv Hleg.
  destruct (legal_call_returns g (s, h) a Hinv Hleg) as (Hok & Hdeal & Hdec).
  destruct (legal_call_state g (s, h) a Hinv Hleg) as (Hdeck & Hd).
  pose proof (inv_applyAction g (s, h) a Hinv) as Hinv'.
  pose proof (fun l => applyAction_frame a (s, h) l) as Hfr.
  destruct (applyAction a (s, h)) as [r [s' h']] eqn:E. simpl in *. subst r.
  exists s', h'. split; [reflexivity|]. split; [exact Hinv'|].
  split; [exact Hdeck|].
  split. { intros l d Hne Hl. rewrite (Hfr l Hne). exact Hl. }
  pose proof (inv_decisions g _ Hinv') as H4. simpl in H4.
  destruct (legal_cases a s Hleg) as [[Hc ->] | (Hc & Hno & Hnext & Hfold & Hact)].
  - destruct (Hd eq_refl) as [Hc' Hno'].
    pose proof (inv_chance_decisions g _ Hinv Hc) as H0. simpl in H0.
    unfold rounds_left, isTerminal. rewrite Hc, Hc', Hno'.
    unfold isChanceNode in Hc. apply andb_true_iff in Hc as [_ Hno].
    apply negb_true_iff in Hno. rewrite Hno. lia.
  - assert (a <> DEAL) as Hne by (destruct Hact; subst; discriminate).
    specialize (Hdec Hne).
    unfold rounds_left, isTerminal. rewrite Hno, Hc.
    destruct (gameOver_ s') eqn:Hno'; [lia|].
    destruct (isChanceNode s') eqn:Hc'; [|lia].
    pose proof (inv_chance_decisions g _ Hinv' Hc') as H0. simpl in H0. lia.
Qed.

End TrainerSteps.

Section TrainerRuns.
Import GameState.
Variable print_double : Q -> string.
Variable random : nat -> Q.

Lemma apply_ok g (s : t) (tr : Trainer.world) a :
  inv g (s, Trainer.decks tr) -> legal a s ->
  exists s' tr',
    Trainer.apply a s tr = ok (s', tr') /\
    inv g (s', Trainer.decks tr') /\
    deck_ s' = deck_ s /\
    other_decks_kept s (Trainer.decks tr) (Trainer.decks tr') /\
    (rounds_left s' < rounds_left s)%nat /\
    Trainer.nodeMap_ tr' = Trainer.nodeMap_ tr /\
    Trainer.drawn tr' = Trainer.drawn tr.
Proof.
  intros Hinv Hleg.
  destruct (legal_call_step g s _ a Hinv Hleg) as (s' & h' & E & Hinv' & Hd & Hk & Hr).
  exists s', (Trainer.mkWorld (Trainer.nodeMap_ tr) (Trainer.drawn tr) h').
  unfold Trainer.apply. rewrite E. simpl. auto 10.
Qed.

Lemma copy_ok g (s : t) (tr : Trainer.world) :
  inv g (s, Trainer.decks tr) ->
  exists l' tr',
    Trainer.copy s tr = ok (set_deck (Some l') s, tr') /\
    Trainer.decks tr !! l' = None /\
    inv g (set_deck (Some l') s, Trainer.decks tr') /\
    (forall l d, Trainer.decks tr !! l = Some d -> Trainer.decks tr' !! l = Some d) /\
    Trainer.nodeMap_ tr' = Trainer.nodeMap_ tr /\
    Trainer.drawn tr' = Trainer.drawn tr.
Proof.
  intros Hinv.
  pose proof Hinv as (hist & l & d & _ & _ & _ & _ & _ & _ & _ & Hl & Hd & _).
  simpl in Hl, Hd.
  assert (Trainer.decks tr !! fresh (dom (Trainer.decks tr)) = None) as Hfresh.
  { apply not_elem_of_dom. apply is_fresh. }
  exists (fresh (dom (Trainer.decks tr))).
  eexists. unfold Trainer.copy, clone. rewrite Hl, Hd. cbn [rbind ok fst snd].
  split; [reflexivity|]. cbn [Trainer.decks Trainer.nodeMap_ Trainer.drawn].
  split; [exact Hfresh|].
  split.
  { apply (inv_clone g (s, Trainer.decks tr)); [exact Hinv|].
    unfold clone. simpl. rewrite Hl, Hd. reflexivity. }
  split; [|auto].
  intros l0 d0 H0. rewrite lookup_insert_ne; [exact H0|]. congruence.
Qed.

Lemma getStrategy_sized (w : Q) (n : Node.t) :
  sized 2 n ->
  length (fst (Node.getStrategy w n)) = 2%nat /\
  is_distribution (fst (Node.getStrategy w n)) /\
  sized 2 (snd (Node.getStrategy w n)).
Proof.
  intros Hs. split; [|split; [|exact (step_sized 2 n (Node.GetStrategy w) Hs)]].
  - destruct Hs as (H1 & H2 & H3).
    rewrite getStrategy_spec by lia. simpl.
    unfold regret_matching. rewrite length_normalize_or_uniform, length_clip. exact H1.
  - destruct Hs as (H1 & H2 & H3).
    rewrite getStrategy_spec by lia. simpl.
    apply normalize_or_uniform_distribution; [rewrite length_clip; lia|].
    apply clip_nonneg.
Qed.

Lemma two_actions_insert (nodeMap : gmap string Node.t) (infoSet : string) (n : Node.t) :
  two_actions nodeMap -> sized 2 n -> two_actions (<[infoSet := n]> nodeMap).
Proof. intros Hm Hn. apply map_Forall_insert_2; assumption. Qed.

Lemma keys_kept_insert (nodeMap : gmap string Node.t) (infoSet : string) (n : Node.t) :
  keys_kept nodeMap (<[infoSet := n]> nodeMap).
Proof.
  intros k Hk. destruct (decide (infoSet = k)) as [->|Hne].
  - rewrite lookup_insert_eq. eauto.
  - rewrite lookup_insert_ne by exact Hne. exact Hk.
Qed.

Lemma keys_kept_trans (m1 m2 m3 : gmap string Node.t) :
  keys_kept m1 m2 -> keys_kept m2 m3 -> keys_kept m1 m3.
Proof. intros H1 H2 k Hk. apply H2, H1, Hk. Qed.

Lemma keys_kept_refl (m : gmap string Node.t) : keys_kept m m.
Proof. intros k Hk. exact Hk. Qed.

Lemma ensureNode_ok (infoSet : string) (tr : Trainer.world) :
  two_actions (Trainer.nodeMap_ tr) ->
  exists tr',
    Trainer.ensureNode infoSet [FOLD; ALL_IN] tr = ok tr' /\
    two_actions (Trainer.nodeMap_ tr') /\
    keys_kept (Trainer.nodeMap_ tr) (Trainer.nodeMap_ tr') /\
    is_Some (Trainer.nodeMap_ tr' !! infoSet) /\
    Trainer.decks tr' = Trainer.decks tr /\
    Trainer.drawn tr' = Trainer.drawn tr.
Proof.
  intros Hm. unfold Trainer.ensureNode.
  destruct (Trainer.nodeMap_ tr !! infoSet) as [n|] eqn:E.
  - cbn [rbind ok]. unfold Node.index. rewrite E. cbn [rbind ok snd].
    eexists. split; [reflexivity|]. simpl.
    split; [exact Hm|]. split; [apply keys_kept_refl|].
    split; [rewrite E; eauto | auto].
  - destruct (Node.Node (Z.of_nat (length [FOLD; ALL_IN]))) as [e|n] eqn:En;
      [vm_compute in En; discriminate|].
    pose proof (Node_sized _ _ En) as Hn.
    cbn [rbind ok]. unfold Node.index. rewrite lookup_insert_eq. cbn [rbind ok snd].
    eexists. split; [reflexivity|]. simpl.
    split; [apply two_actions_insert; assumption|].
    split; [apply keys_kept_insert|].
    split; [rewrite lookup_insert_eq; eauto | auto].
Qed.

Lemma through_getStrategy (infoSet : string) (w : Q) (tr : Trainer.world) :
  two_actions (Trainer.nodeMap_ tr) ->
  is_Some (Trainer.nodeMap_ tr !! infoSet) ->
  exists strategy tr',
    Trainer.through infoSet (fun node => ok (Node.getStrategy w node)) tr
    = ok (strategy, tr') /\
    length strategy = 2%nat /\
    is_distribution strategy /\
    two_actions (Trainer.nodeMap_ tr') /\
    keys_kept (Trainer.nodeMap_ tr) (Trainer.nodeMap_ tr') /\
    Trainer.decks tr' = Trainer.decks tr /\
    Trainer.drawn tr' = Trainer.drawn tr.
Proof.
  intros Hm [n Hn]. unfold Trainer.through. rewrite Hn. cbn [rbind ok].
  destruct (getStrategy_sized w n (Hm _ _ Hn)) as (Hl & Hd & Hs).
  do 2 eexists. split; [reflexivity|]. simpl.
  split; [exact Hl|]. split; [exact Hd|].
  split; [apply two_actions_insert; assumption|].
  split; [apply keys_kept_insert | auto].
Qed.

Lemma regret_ok (infoSet : string) (utilities : list Q) (nodeUtility : Q)
    (i : nat) (tr : Trainer.world) :
  two_actions (Trainer.nodeMap_ tr) ->
  is_Some (Trainer.nodeMap_ tr !! infoSet) -> (i < 2)%nat ->
  exists tr',
    Trainer.regret infoSet utilities nodeUtility i tr = ok tr' /\
    two_actions (Trainer.nodeMap_ tr') /\
    keys_kept (Trainer.nodeMap_ tr) (Trainer.nodeMap_ tr') /\
    Trainer.decks tr' = Trainer.decks tr /\
    Trainer.drawn tr' = Trainer.drawn tr.
Proof.
  intros Hm [n Hn] Hi. unfold Trainer.regret, Trainer.through. rewrite Hn.
  pose proof (Hm _ _ Hn) as Hs.
  pose proof (step_sized 2 n (Node.UpdateRegret (Z.of_nat i)
                (utilities !!! i - nodeUtility)%Q) Hs) as Hs'.
  cbn [Node.step] in Hs'.
  destruct (Node.updateRegret (Z.of_nat i) (utilities !!! i - nodeUtility)%Q n)
    as [e|n'] eqn:E.
  - exfalso. unfold Node.updateRegret in E. destruct Hs as (H1 & _).
    rewrite H1 in E.
    destruct (Z.ltb_spec (Z.of_nat i) 0); [lia|].
    destruct (Z.geb_spec (Z.of_nat i) (Z.of_nat 2)); [lia|]. discriminate E.
  - cbn [rbind ok fst snd]. eexists. split; [reflexivity|]. simpl.
    split; [apply two_actions_insert; assumption|].
    split; [apply keys_kept_insert | auto].
Qed.

Lemma sampleAction_two (strategy : list Q) (r : Q) :
  length strategy = 2%nat ->
  utils.sampleAction strategy r = ok 0 \/ utils.sampleAction strategy r = ok 1.
Proof.
  destruct strategy as [|p [|q [|? ?]]]; try discriminate. intros _.
  unfold utils.sampleAction. cbn [length Nat.eqb utils.sampleLoop].
  destruct (Qltb r (0 + p)); [left; reflexivity|].
  destruct (Qltb r (0 + p + q)); right; reflexivity.
Qed.

End TrainerRuns.

Section TrainerValues.
Import GameState.

(** The returns of a hand that is over: no seat loses more than it put
    in. *)
Lemma terminal_returns g w :
  inv g w -> gameOver_ (fst w) = true ->
  exists returns printed,
    getReturns (fst w) = ok (returns, printed) /\
    length returns = 4%nat /\
    forall i, (i < 4)%nat -> (- contribution (fst w) i <= returns !!! i)%Q.
Proof.
  intros Hinv Hover. set (s := fst w) in *.
  destruct (inv_terminal g w Hinv Hover) as (H8 & H5 & Hsp & _).
  fold s in H8, H5, Hsp.
  assert (Forall (pot_ok s) (sidePots_ s)) as Hok.
  { rewrite Hsp. apply calculateSidePots_ok. }
  assert (Forall (fun pot => 0 <= fst pot)%Q (sidePots_ s)) as Hpos.
  { rewrite Hsp. eapply Forall_impl; [apply side_pots_positive|].
    intros pot Hp. apply Qlt_le_weak. exact Hp. }
  unfold getReturns. rewrite Hover.
  change (negb true) with false. cbv iota.
  change (Z.to_nat GameConfig.NUM_PLAYERS) with 4%nat.
  destruct (award_all s (sidePots_ s) (replicate 4 0%Q) H8 H5 eq_refl Hok)
    as (r & Haward & Hl & _).
  rewrite Haward. unfold ok. cbn [rbind]. rewrite investments_eq.
  do 2 eexists. split; [reflexivity|].
  rewrite <- Hl.
  rewrite (for_range_update (fun i x => x - contributions_of s !!! i)%Q).
  rewrite (imap_zip (fun x y => x - y)%Q) by (rewrite Hl; reflexivity).
  split; [rewrite length_zip_with, Hl; reflexivity|].
  intros i Hi.
  destruct (award_all_pointwise s _ _ r i Hpos Haward) as [Hle _].
  assert (replicate 4 0%Q !!! i = 0%Q) as H0.
  { destruct i as [|[|[|[|i]]]]; try lia; reflexivity. }
  rewrite H0 in Hle.
  assert (zip_with (fun x y => x - y)%Q r (contributions_of s) !!! i
          = (r !!! i - contribution s i)%Q) as ->.
  { destruct r as [|r0 [|r1 [|r2 [|r3 [|? ?]]]]]; try discriminate Hl.
    destruct i as [|[|[|[|i]]]]; try lia; reflexivity. }
  lra.
Qed.

(** At a table that [Game] accepts no seat puts in more than its
    starting stack. *)
Lemma inv_contribution_bound g w (i : nat) :
  valid_game g -> inv g w -> (i < 4)%nat ->
  (contribution (fst w) i <= Game.initialStacks_ g !!! i)%Q.
Proof.
  intros Hg Hinv Hi.
  pose proof (inv_contributions_nonneg g w Hg Hinv) as Hnn.
  destruct Hinv as (hist & l & d & _ & _ & Hinit & Hst & _).
  destruct (valid_game_facts g Hg) as (Hsb & Hlt & Hlen & Hpos & H0 & H1).
  destruct (stacks_four g (fun stack => 0 < stack)%Q Hlen Hpos) as (P0 & P1 & P2 & P3).
  unfold contribution. rewrite Hinit, Hst.
  unfold stacks_of, start_stacks, initial_of, decision in *. clear Hnn.
  set (x0 := Game.initialStacks_ g !!! 0%nat) in *.
  set (x1 := Game.initialStacks_ g !!! 1%nat) in *.
  set (x2 := Game.initialStacks_ g !!! 2%nat) in *.
  set (x3 := Game.initialStacks_ g !!! 3%nat) in *.
  destruct i as [|[|[|[|i]]]]; try lia.
  - change (x0 - match hist !! 2%nat with
                 | Some true => 0
                 | _ => x0 - Game.smallBlind_ g
                 end <= x0)%Q.
    destruct (hist !! 2%nat) as [[|]|]; lra.
  - change (x1 - match hist !! 3%nat with
                 | Some true => 0
                 | _ => x1 - Game.bigBlind_ g
                 end <= x1)%Q.
    destruct (hist !! 3%nat) as [[|]|]; lra.
  - change (x2 - match hist !! 0%nat with Some true => 0 | _ => x2 end <= x2)%Q.
    destruct (hist !! 0%nat) as [[|]|]; lra.
  - change (x3 - match hist !! 1%nat with Some true => 0 | _ => x3 end <= x3)%Q.
    destruct (hist !! 1%nat) as [[|]|]; lra.
Qed.

End TrainerValues.

Ltac cut_step := cbn [Trainer.cbind rbind ok fst snd].

Section TrainerCalls.
Import GameState.
Variable print_double : Q -> string.
Variable random : nat -> Q.
Variable g : Game.t.
Hypothesis Hg : valid_game g.

Lemma subscript_total (v : list Q) (i : Z) :
  0 <= i < Z.of_nat (length v) -> subscript v i = ok (v !!! Z.to_nat i).
Proof.
  intros Hi. unfold subscript. destruct (Z.ltb_spec i 0); [lia|].
  destruct (lookup_lt_is_Some_2 v (Z.to_nat i)) as [x Hx]; [lia|].
  rewrite Hx. rewrite (list_lookup_total_correct _ _ _ Hx). reflexivity.
Qed.

Lemma decision_node_legal (state : t) (h : gmap positive Deck.t) :
  inv g (state, h) -> decision_node state ->
  getLegalActions state = [FOLD; ALL_IN] /\
  getCurrentPlayer state = nextPlayer_ state /\
  0 <= nextPlayer_ state < 4 /\
  exists infoSet,
    utils.getInformationSet print_double state (nextPlayer_ state) = ok infoSet.
Proof.
  intros Hinv [Ht Hc].
  pose proof (inv_legal_actions g _ Hinv) as Hleg. simpl in Hleg.
  rewrite Ht, Hc in Hleg. unfold isTerminal in Ht.
  destruct (inv_undecided g _ Hinv Hc Ht) as (Hp & _ & _ & Hlen & _).
  simpl in Hp, Hlen.
  destruct (inv_hole_cards g _ Hinv) as [[Hx _] | [_ H8]];
    [simpl in Hx; congruence|]. simpl in H8.
  destruct (getInformationSet_dealt print_double state _ Hp Hlen H8)
    as (tags & hand & _ & _ & Hinfo).
  split; [exact Hleg|]. split; [unfold getCurrentPlayer; rewrite Ht; reflexivity|].
  split; [exact Hp|]. eexists. exact Hinfo.
Qed.

Lemma visit_ok self (state : t) (player : Z) (reachProb strategy utilities : list Q)
    (nodeUtility : Q) (i : nat) (tr : Trainer.world) :
  calls_trained g player state self ->
  inv g (state, Trainer.decks tr) -> decision_node state ->
  0 <= player < 4 -> length reachProb = 4%nat -> length strategy = 2%nat ->
  length utilities = 2%nat -> (i < 2)%nat ->
  two_actions (Trainer.nodeMap_ tr) ->
  exists utility tr',
    Trainer.visit self state player reachProb [FOLD; ALL_IN] strategy i
                  (utilities, nodeUtility, tr)
    = Some (ok (<[i := utility]> utilities,
                (nodeUtility + strategy !!! i * utility)%Q, tr')) /\
    two_actions (Trainer.nodeMap_ tr') /\
    keys_kept (Trainer.nodeMap_ tr) (Trainer.nodeMap_ tr') /\
    decks_kept (Trainer.decks tr) (Trainer.decks tr') /\
    (- (Game.initialStacks_ g !!! Z.to_nat player) <= utility)%Q.
Proof.
  intros Hself Hinv Hnode Hp Hr Hs Hu Hi Hm.
  destruct (decision_node_legal state _ Hinv Hnode) as (Hleg & _).
  destruct (copy_ok g state tr Hinv) as (l' & tr1 & Hcopy & Hfresh & Hinv1 & Hk1 & Hm1 & _).
  assert (exists a, [FOLD; ALL_IN] !! i = Some a /\ legal a (set_deck (Some l') state))
    as (a & Ha & Hlegal).
  { unfold legal. change (getLegalActions (set_deck (Some l') state))
      with (getLegalActions state). rewrite Hleg.
    destruct i as [|[|i]]; [eexists; split; [reflexivity|]; simpl; auto..| lia]. }
  destruct (apply_ok g _ tr1 a Hinv1 Hlegal)
    as (s2 & tr2 & Happly & Hinv2 & Hdeck2 & Hk2 & Hless & Hm2 & _).
  change (rounds_left (set_deck (Some l') state)) with (rounds_left state) in Hless.
  destruct (Hself s2 (<[Z.to_nat player :=
                         (reachProb !!! Z.to_nat player * strategy !!! i)%Q]> reachProb)
                  tr2 Hinv2)
    as (u & tr3 & Hsub & Hm3 & Hkeys3 & Hk3 & Hbound).
  { rewrite length_insert. exact Hr. }
  { rewrite Hm2, Hm1. exact Hm. }
  { exact Hless. }
  exists u, tr3.
  unfold Trainer.visit. rewrite Hcopy. cut_step.
  rewrite (subscript_ok _ _ _ Ha). cut_step.
  rewrite Happly. cut_step.
  rewrite (subscript_total reachProb player) by lia. cut_step.
  rewrite (subscript_total strategy (Z.of_nat i)) by lia. cut_step.
  rewrite Nat2Z.id. rewrite Hsub. cut_step.
  rewrite list_lookup_total_insert_eq by lia.
  split; [reflexivity|]. split; [exact Hm3|].
  split. { intros k Hk. apply Hkeys3. rewrite Hm2, Hm1. exact Hk. }
  split; [|exact Hbound].
  intros l d Hl. apply Hk3.
  - rewrite Hdeck2. simpl. intros [= <-]. congruence.
  - apply Hk2; [simpl; intros [= <-]; congruence|]. apply Hk1. exact Hl.
Qed.


Lemma trained_seat_ok self (state : t) (player : Z) (reachProb : list Q)
    (infoSet : string) (tr : Trainer.world) :
  calls_trained g player state self ->
  inv g (state, Trainer.decks tr) -> decision_node state ->
  0 <= player < 4 -> length reachProb = 4%nat ->
  two_actions (Trainer.nodeMap_ tr) ->
  is_Some (Trainer.nodeMap_ tr !! infoSet) ->
  exists weight strategy tr1 utilities nodeUtility tr2 tr3,
    subscript reachProb player = ok weight /\
    Trainer.through infoSet (fun node => ok (Node.getStrategy weight node)) tr
    = ok (strategy, tr1) /\
    fold_left
      (fun acc i =>
         Trainer.cbind acc
           (fun acc =>
              Trainer.visit self state player reachProb [FOLD; ALL_IN] strategy i acc))
      [0; 1]%nat (Some (ok (replicate 2 0%Q, 0%Q, tr1)))
    = Some (ok (utilities, nodeUtility, tr2)) /\
    fold_left
      (fun acc i => do tr <- acc; Trainer.regret infoSet utilities nodeUtility i tr)
      [0; 1]%nat (ok tr2)
    = ok tr3 /\
    two_actions (Trainer.nodeMap_ tr3) /\
    keys_kept (Trainer.nodeMap_ tr) (Trainer.nodeMap_ tr3) /\
    decks_kept (Trainer.decks tr) (Trainer.decks tr3) /\
    (- (Game.initialStacks_ g !!! Z.to_nat player) <= nodeUtility)%Q.
Proof.
  intros Hself Hinv Hnode Hp Hr Hm Hkey.
  destruct (through_getStrategy infoSet (reachProb !!! Z.to_nat player) tr Hm Hkey)
    as (strategy & tr1 & Hget & Hs & Hdist & Hm1 & Hk1 & Hd1 & _).
  assert (inv g (state, Trainer.decks tr1)) as Hinv1 by (rewrite Hd1; exact Hinv).
  destruct (visit_ok self state player reachProb strategy (replicate 2 0%Q) 0%Q 0 tr1
              Hself Hinv1 Hnode Hp Hr Hs eq_refl ltac:(lia) Hm1)
    as (u0 & tr2 & Hv0 & Hm2 & Hk2 & Hd2 & Hb0).
  assert (inv g (state, Trainer.decks tr2)) as Hinv2.
  { apply (inv_frame g state (Trainer.decks tr1)); [exact Hinv1|].
    intros l Hl.
    destruct Hinv1 as (hist & l0 & d & _ & _ & _ & _ & _ & _ & _ & Hl0 & Hd0 & _).
    simpl in Hl0, Hd0. assert (l = l0) as -> by congruence.
    rewrite Hd0. apply Hd2. exact Hd0. }
  assert (length (<[0%nat := u0]> (replicate 2 0%Q)) = 2%nat) as Hlen1 by reflexivity.
  assert (1 < 2)%nat as H12 by lia.
  destruct (visit_ok self state player reachProb strategy
              (<[0%nat := u0]> (replicate 2 0%Q)) (0 + strategy !!! 0%nat * u0)%Q 1 tr2
              Hself Hinv2 Hnode Hp Hr Hs Hlen1 H12 Hm2)
    as (u1 & tr3 & Hv1 & Hm3 & Hk3 & Hd3 & Hb1).
  assert (keys_kept (Trainer.nodeMap_ tr) (Trainer.nodeMap_ tr3)) as Hk03.
  { eapply keys_kept_trans; [exact Hk1|]. eapply keys_kept_trans; eassumption. }
  destruct (regret_ok infoSet (<[1%nat := u1]> (<[0%nat := u0]> (replicate 2 0%Q)))
              (0 + strategy !!! 0%nat * u0 + strategy !!! 1%nat * u1)%Q 0 tr3
              Hm3 (Hk03 _ Hkey) ltac:(lia))
    as (tr4 & Hr0 & Hm4 & Hk4 & Hd4 & _).
  destruct (regret_ok infoSet (<[1%nat := u1]> (<[0%nat := u0]> (replicate 2 0%Q)))
              (0 + strategy !!! 0%nat * u0 + strategy !!! 1%nat * u1)%Q 1 tr4
              Hm4 (Hk4 _ (Hk03 _ Hkey)) ltac:(lia))
    as (tr5 & Hr1 & Hm5 & Hk5 & Hd5 & _).
  exists (reachProb !!! Z.to_nat player), strategy, tr1,
    (<[1%nat := u1]> (<[0%nat := u0]> (replicate 2 0%Q))),
    (0 + strategy !!! 0%nat * u0 + strategy !!! 1%nat * u1)%Q, tr3, tr5.
  split; [apply subscript_total; lia|]. split; [exact Hget|].
  split. { cbn [fold_left]. cut_step. rewrite Hv0. cut_step. exact Hv1. }
  split. { cbn [fold_left]. cut_step. rewrite Hr0. cut_step. exact Hr1. }
  split; [exact Hm5|].
  split. { eapply keys_kept_trans; [exact Hk03|]. eapply keys_kept_trans; eassumption. }
  split. { intros l d Hl. rewrite Hd5, Hd4. apply Hd3, Hd2. rewrite Hd1. exact Hl. }
  destruct strategy as [|p0 [|p1 [|? ?]]]; try discriminate Hs.
  destruct Hdist as [Hall Hsum].
  apply Forall_cons_1 in Hall as [[H0 _] Hall].
  apply Forall_cons_1 in Hall as [[H1 _] _].
  unfold Qsum, accumulate in Hsum. cbn [fold_left] in Hsum.
  change ([p0; p1] !!! 0%nat) with p0. change ([p0; p1] !!! 1%nat) with p1.
  set (B := Game.initialStacks_ g !!! Z.to_nat player) in *.
  assert (p1 == 1 - p0)%Q as Hp1 by lra.
  nra.
Qed.


Lemma mccfr_trained (fuel : nat) :
  forall (state : t) (player : Z) (reachProb : list Q) (tr : Trainer.world),
    inv g (state, Trainer.decks tr) -> 0 <= player < 4 ->
    length reachProb = 4%nat -> two_actions (Trainer.nodeMap_ tr) ->
    (rounds_left state < fuel)%nat ->
    trained g player state tr
            (Trainer.mccfr print_double random fuel state player reachProb tr).
Proof.
  induction fuel as [|fuel IH]; intros state player reachProb tr Hinv Hp Hr Hm Hfuel;
    [lia|].
  assert (calls_trained g player state (Trainer.mccfr print_double random fuel))
    as Hself.
  { intros state' reachProb' tr' Hinv' Hr' Hm' Hless.
    apply IH; [assumption..|lia]. }
  cbn [Trainer.mccfr].
  destruct (isTerminal state) eqn:Ht.
  - (* the hand is over *)
    destruct (terminal_returns g _ Hinv Ht) as (returns & printed & Hret & Hlen & Hlow).
    simpl in Hret, Hlow. rewrite Hret. cut_step.
    rewrite (subscript_total returns player) by lia. cut_step.
    exists (returns !!! Z.to_nat player), tr.
    split; [reflexivity|]. split; [exact Hm|]. split; [apply keys_kept_refl|].
    split; [intros l d _ Hl; exact Hl|].
    pose proof (Hlow (Z.to_nat player) ltac:(lia)) as Hl.
    pose proof (inv_contribution_bound g _ (Z.to_nat player) Hg Hinv ltac:(lia)) as Hb.
    simpl in Hb. lra.
  - destruct (isChanceNode state) eqn:Hc.
    + (* the cards are dealt *)
      assert (legal DEAL state) as Hleg.
      { unfold legal, getLegalActions. rewrite Hc. left. reflexivity. }
      destruct (apply_ok g state tr DEAL Hinv Hleg)
        as (s1 & tr1 & Happly & Hinv1 & Hdeck1 & Hk1 & Hless & Hm1 & _).
      rewrite Happly. cut_step.
      destruct (Hself s1 reachProb tr1 Hinv1 Hr ltac:(rewrite Hm1; exact Hm) Hless)
        as (u & tr2 & -> & Hm2 & Hkeys2 & Hk2 & Hb).
      exists u, tr2. split; [reflexivity|]. split; [exact Hm2|].
      split; [rewrite Hm1 in Hkeys2; exact Hkeys2|]. split; [|exact Hb].
      intros l d Hne Hl. apply Hk2; [congruence|]. apply Hk1; assumption.
    + (* a seat decides *)
      assert (decision_node state) as Hnode by (split; assumption).
      destruct (decision_node_legal state _ Hinv Hnode)
        as (Hleg & Hcur & Hnext & infoSet & Hinfo).
      rewrite Hcur, Hinfo, Hleg. cut_step. cbn [length Nat.eqb seq].
      destruct (ensureNode_ok infoSet tr Hm) as (tr1 & Hens & Hm1 & Hk1 & Hkey & Hd1 & _).
      rewrite Hens. cut_step.
      assert (inv g (state, Trainer.decks tr1)) as Hinv1 by (rewrite Hd1; exact Hinv).
      destruct (Z.eqb_spec (nextPlayer_ state) player) as [Heq|Hne].
      * (* the seat that is trained *)
        destruct (trained_seat_ok _ state player reachProb infoSet tr1
                    Hself Hinv1 Hnode Hp Hr Hm1 Hkey)
          as (weight & strategy & tr2 & utilities & nodeUtility & tr3 & tr4
              & Hw & Hget & Hvisit & Hreg & Hm4 & Hk4 & Hd4 & Hb).
        rewrite Hw. cut_step. rewrite Hget. cut_step.
        rewrite Hvisit. cut_step. rewrite Hreg. cut_step.
        exists nodeUtility, tr4. split; [reflexivity|]. split; [exact Hm4|].
        split; [eapply keys_kept_trans; eassumption|]. split; [|exact Hb].
        intros l d _ Hl. apply Hd4. rewrite Hd1. exact Hl.
      * (* another seat: one action is sampled *)
        destruct (through_getStrategy infoSet (reachProb !!! Z.to_nat (nextPlayer_ state))
                    tr1 Hm1 Hkey)
          as (strategy & tr2 & Hget & Hs & _ & Hm2 & Hk2 & Hd2 & Hn2).
        rewrite (subscript_total reachProb (nextPlayer_ state)) by lia. cut_step.
        rewrite Hget. cut_step.
        assert (exists index a,
                   utils.sampleAction strategy (random (Trainer.drawn tr2)) = ok index /\
                   subscript strategy index = ok (strategy !!! Z.to_nat index) /\
                   subscript [FOLD; ALL_IN] index = ok a /\ legal a state)
          as (index & a & Hsample & Hprob & Hact & Hlegal).
        { unfold legal. rewrite Hleg.
          destruct (sampleAction_two strategy (random (Trainer.drawn tr2)) Hs)
            as [-> | ->]; eexists; eexists;
            (split; [reflexivity|]); (split; [apply subscript_total; lia|]);
            (split; [reflexivity|]); simpl; auto. }
        unfold Trainer.sample. rewrite Hsample. cut_step.
        rewrite Hprob. cut_step. rewrite Hact. cut_step.
        cbn [Trainer.nodeMap_ Trainer.drawn Trainer.decks].
        set (tr3 := Trainer.mkWorld (Trainer.nodeMap_ tr2) (S (Trainer.drawn tr2))
                                    (Trainer.decks tr2)).
        assert (inv g (state, Trainer.decks tr3)) as Hinv3
            by (simpl; rewrite Hd2; exact Hinv1).
        destruct (apply_ok g state tr3 a Hinv3 Hlegal)
          as (s4 & tr4 & Happly & Hinv4 & Hdeck4 & Hk4 & Hless & Hm4 & _).
        rewrite Happly. cut_step.
        destruct (Hself s4 (<[Z.to_nat (nextPlayer_ state) :=
                              (reachProb !!! Z.to_nat (nextPlayer_ state)
                               * strategy !!! Z.to_nat index)%Q]> reachProb)
                        tr4 Hinv4)
          as (u & tr5 & -> & Hm5 & Hkeys5 & Hk5 & Hb).
        { rewrite length_insert. exact Hr. }
        { rewrite Hm4. exact Hm2. }
        { exact Hless. }
        exists u, tr5. split; [reflexivity|]. split; [exact Hm5|].
        split.
        { eapply keys_kept_trans; [exact Hk1|]. eapply keys_kept_trans; [exact Hk2|].
          rewrite Hm4 in Hkeys5. exact Hkeys5. }
        split; [|exact Hb].
        intros l d Hne' Hl. apply Hk5; [congruence|].
        apply Hk4; [exact Hne'|]. simpl. rewrite Hd2, Hd1. exact Hl.
Qed.

End TrainerCalls.

Section ExactUtilities.
Import GameState.
Variable print_double : Q -> string.
Variable random : nat -> Q.

(** The search for the greatest entry returns the first index of a
    greatest entry. *)
Lemma bestActionOf_spec (strategy : list Q) :
  strategy <> [] ->
  exists k : nat,
    Trainer.bestActionOf strategy = ok (Z.of_nat k) /\
    (k < length strategy)%nat /\
    (forall j, (j < length strategy)%nat -> (strategy !!! j <= strategy !!! k)%Q) /\
    (forall j, (j < k)%nat -> (strategy !!! j < strategy !!! k)%Q).
Proof.
  intros Hne. unfold Trainer.bestActionOf.
  destruct strategy as [|p0 rest] eqn:E; [congruence|]. rewrite <- E.
  assert (subscript strategy 0 = ok p0) as -> by (rewrite E; reflexivity).
  cbn [rbind ok].
  assert (strategy !!! 0%nat = p0) as H0 by (rewrite E; reflexivity).
  assert (forall n, (n < length strategy)%nat ->
            exists k : nat,
              fold_left
                (fun '(maxProb, bestAction) i =>
                   if Qgtb (strategy !!! i) maxProb
                   then (strategy !!! i, Z.of_nat i)
                   else (maxProb, bestAction))
                (seq 1 n) (p0, 0)
              = (strategy !!! k, Z.of_nat k) /\
              (k <= n)%nat /\
              (forall j, (j <= n)%nat -> (strategy !!! j <= strategy !!! k)%Q) /\
              (forall j, (j < k)%nat -> (strategy !!! j < strategy !!! k)%Q)) as Hloop.
  { induction n as [|n IH]; intros Hn.
    - exists 0%nat. cbn [seq fold_left]. rewrite H0.
      split; [reflexivity|]. split; [lia|].
      split; [intros j Hj; assert (j = 0%nat) as -> by lia; rewrite H0; lra|].
      intros j Hj. lia.
    - destruct (IH ltac:(lia)) as (k & Hfold & Hk & Hmax & Hfirst).
      rewrite seq_S, fold_left_app, Hfold. cbn [fold_left].
      change (1 + n)%nat with (S n).
      destruct (Qgtb (strategy !!! S n) (strategy !!! k)) eqn:Hcmp.
      + apply Qgtb_gt in Hcmp. exists (S n).
        split; [reflexivity|]. split; [lia|].
        split.
        * intros j Hj. destruct (Nat.eq_dec j (S n)) as [->|]; [lra|].
          specialize (Hmax j ltac:(lia)). lra.
        * intros j Hj. specialize (Hmax j ltac:(lia)). lra.
      + apply Qgtb_le in Hcmp. exists k.
        split; [reflexivity|]. split; [lia|].
        split; [|exact Hfirst].
        intros j Hj. destruct (Nat.eq_dec j (S n)) as [->|]; [exact Hcmp|].
        apply Hmax. lia. }
  destruct (Hloop (length strategy - 1)%nat) as (k & Hfold & Hk & Hmax & Hfirst).
  { rewrite E. simpl. lia. }
  exists k. unfold ok. rewrite Hfold. cbn [snd].
  split; [reflexivity|]. split; [rewrite E in *; simpl in *; lia|].
  split; [|exact Hfirst]. intros j Hj. apply Hmax. lia.
Qed.


(** The states that the loop goes through stay in any set [P] of states
    of the hand that [applyAction] does not leave. *)
Variable g : Game.t.
Variable P : t * gmap positive Deck.t -> Prop.
Hypothesis P_inv : forall w, P w -> inv g w.
Hypothesis P_applyAction : forall a w, P w -> P (snd (applyAction a w)).

Lemma apply_stays (s s' : t) (tr tr' : Trainer.world) a :
  P (s, Trainer.decks tr) -> Trainer.apply a s tr = ok (s', tr') ->
  P (s', Trainer.decks tr').
Proof.
  intros Hr. unfold Trainer.apply.
  pose proof (P_applyAction a _ Hr) as Hr'.
  destruct (applyAction a (s, Trainer.decks tr)) as [[e|[]] [s2 h2]]; [discriminate|].
  intros [= <- <-]. exact Hr'.
Qed.

Lemma second_action (state : t) (h : gmap positive Deck.t) (k : nat) :
  inv g (state, h) -> decision_node state -> (k < 2)%nat ->
  exists a, subscript (getLegalActions state) (Z.of_nat k) = ok a /\ legal a state.
Proof.
  intros Hinv Hnode Hk.
  destruct (decision_node_legal (fun _ => ""%string) g state h Hinv Hnode) as (Hleg & _).
  unfold legal. rewrite Hleg.
  destruct k as [|[|k]]; [eexists; split; [reflexivity | simpl; auto]..| lia].
Qed.

Lemma playOut_ends (fuel : nat) :
  forall (state : t) (tr : Trainer.world),
    P (state, Trainer.decks tr) ->
    two_actions (Trainer.nodeMap_ tr) ->
    (rounds_left state < fuel)%nat ->
    exists state' tr',
      Trainer.playOut print_double random fuel state tr = Some (ok (state', tr')) /\
      P (state', Trainer.decks tr') /\
      isTerminal state' = true /\
      Trainer.nodeMap_ tr' = Trainer.nodeMap_ tr.
Proof.
  induction fuel as [|fuel IH]; intros state tr Hr Hm Hfuel; [lia|].
  pose proof (P_inv _ Hr) as Hinv.
  cbn [Trainer.playOut].
  destruct (isTerminal state) eqn:Ht.
  - exists state, tr. auto.
  - assert (forall a, legal a state ->
              exists s1 tr1,
                Trainer.apply a state tr = ok (s1, tr1) /\
                exists state' tr',
                  Trainer.playOut print_double random fuel s1 tr1
                  = Some (ok (state', tr')) /\
                  P (state', Trainer.decks tr') /\
                  isTerminal state' = true /\
                  Trainer.nodeMap_ tr' = Trainer.nodeMap_ tr) as Hstep.
    { intros a Hleg.
      destruct (apply_ok g state tr a Hinv Hleg)
        as (s1 & tr1 & Happly & _ & _ & _ & Hless & Hm1 & _).
      exists s1, tr1. split; [exact Happly|].
      destruct (IH s1 tr1 (apply_stays _ _ _ _ a Hr Happly)
                   ltac:(rewrite Hm1; exact Hm) ltac:(lia))
        as (s2 & tr2 & Hplay & Hr2 & Ht2 & Hm2).
      exists s2, tr2. rewrite Hm2, Hm1. auto. }
    destruct (isChanceNode state) eqn:Hc.
    + assert (legal DEAL state) as Hleg.
      { unfold legal, getLegalActions. rewrite Hc. left. reflexivity. }
      destruct (Hstep DEAL Hleg) as (s1 & tr1 & -> & Hrest). cut_step. exact Hrest.
    + assert (decision_node state) as Hnode by (split; assumption).
      destruct (decision_node_legal print_double g state _ Hinv Hnode)
        as (Hleg & Hcur & Hnext & infoSet & Hinfo).
      rewrite Hcur, Hinfo. cut_step.
      assert ((length (getLegalActions state) =? 0)%nat = false) as ->
          by (rewrite Hleg; reflexivity).
      destruct (Trainer.nodeMap_ tr !! infoSet) as [node|] eqn:Hnode'.
      * (* a learned strategy: its most likely action *)
        assert (length (Node.getAverageStrategy node) = 2%nat) as Hlen.
        { rewrite getAverageStrategy_spec, length_normalize_or_uniform.
          apply (Hm _ _ Hnode'). }
        destruct (bestActionOf_spec (Node.getAverageStrategy node))
          as (k & -> & Hk & _).
        { intros E. rewrite E in Hlen. discriminate. }
        cut_step. rewrite Hlen in Hk.
        destruct (second_action state _ k Hinv Hnode Hk) as (a & -> & Hlegal).
        cut_step.
        destruct (Hstep a Hlegal) as (s1 & tr1 & -> & Hrest). cut_step. exact Hrest.
      * (* no node: a uniform draw *)
        rewrite Hleg. cbn [length].
        unfold Trainer.sample.
        assert (exists k : nat,
                   utils.sampleAction (replicate 2 (1 / inject_Z (Z.of_nat 2))%Q)
                                      (random (Trainer.drawn tr)) = ok (Z.of_nat k) /\
                   (k < 2)%nat) as (k & -> & Hk).
        { destruct (sampleAction_two (replicate 2 (1 / inject_Z (Z.of_nat 2))%Q)
                      (random (Trainer.drawn tr)) eq_refl) as [-> | ->];
            [exists 0%nat | exists 1%nat]; split; (reflexivity || lia). }
        cut_step. rewrite <- Hleg.
        destruct (second_action state _ k Hinv Hnode Hk) as (a & -> & Hlegal).
        cut_step.
        set (tr0 := Trainer.mkWorld _ _ _).
        assert (P (state, Trainer.decks tr0)) as Hr0 by exact Hr.
        pose proof (P_inv _ Hr0) as Hinv0.
        destruct (apply_ok g state tr0 a Hinv0 Hlegal)
          as (s1 & tr1 & Happly & _ & _ & _ & Hless & Hm1 & _).
        rewrite Happly. cut_step.
        destruct (IH s1 tr1 (apply_stays _ _ _ _ a Hr0 Happly)
                     ltac:(rewrite Hm1; exact Hm) ltac:(lia))
          as (s2 & tr2 & Hplay & Hr2 & Ht2 & Hm2).
        exists s2, tr2. rewrite Hm2, Hm1. auto.
Qed.

End ExactUtilities.

(** X28.  [getExactUtilities] from any state of a hand at a table that
    [Game] accepts, in a trainer whose nodes all have two actions: the
    loop ends within six rounds, whatever numbers are drawn; what is
    returned are the returns of a state of the same hand that is over,
    no seat loses more than its starting stack, and the nodes are left
    as they were.  At an information set with a node, the action taken
    is the first one of greatest average probability. *)
Theorem X28_getExactUtilities_plays_the_hand_out :
  forall (print_double : Q -> string) (random : nat -> Q) (g : Game.t)
         (w : GameState.t * gmap positive Deck.t)
         (nodeMap : gmap string Node.t) (drawn fuel : nat),
    valid_game g -> reachable g w -> two_actions nodeMap -> (6 <= fuel)%nat ->
    (exists utilities printed state' tr',
       Trainer.getExactUtilities print_double random fuel (fst w)
         (Trainer.mkWorld nodeMap drawn (snd w))
       = Some (ok (utilities, printed, tr')) /\
       reachable g (state', Trainer.decks tr') /\
       GameState.isTerminal state' = true /\
       GameState.getReturns state' = ok (utilities, printed) /\
       Trainer.nodeMap_ tr' = nodeMap /\
       forall i, (i < 4)%nat ->
         (- (Game.initialStacks_ g !!! i) <= utilities !!! i)%Q)
    /\ (forall strategy : list Q, strategy <> [] ->
        exists k : nat,
          Trainer.bestActionOf strategy = ok (Z.of_nat k) /\
          (k < length strategy)%nat /\
          (forall j, (j < length strategy)%nat ->
                     (strategy !!! j <= strategy !!! k)%Q) /\
          (forall j, (j < k)%nat -> (strategy !!! j < strategy !!! k)%Q)).
Proof.
  intros print_double random g w nodeMap drawn fuel Hg Hr Hm Hfuel.
  split; [|apply bestActionOf_spec].
  destruct w as [state h].
  destruct (playOut_ends print_double random g (reachable g) (reachable_inv g)
              (reachable_applyAction g) fuel state
              (Trainer.mkWorld nodeMap drawn h) Hr Hm)
    as (state' & tr' & Hplay & Hr' & Ht & Hm').
  { unfold rounds_left. destruct (GameState.isTerminal state); [lia|].
    destruct (GameState.isChanceNode state); lia. }
  pose proof (reachable_inv g _ Hr') as Hinv'.
  destruct (terminal_returns g _ Hinv' Ht) as (returns & printed & Hret & _ & Hlow).
  simpl in Hret, Hlow.
  exists returns, printed, state', tr'.
  unfold Trainer.getExactUtilities. cbn [fst snd]. rewrite Hplay.
  cut_step. rewrite Hret. cut_step.
  split; [reflexivity|]. split; [exact Hr'|]. split; [exact Ht|].
  split; [reflexivity|]. split; [exact Hm'|].
  intros i Hi. specialize (Hlow i Hi).
  pose proof (inv_contribution_bound g _ i Hg Hinv' Hi) as Hb. simpl in Hb. lra.
Qed.

Lemma X28_witness :
  exists utilities printed state' tr',
    Trainer.getExactUtilities (fun _ => ""%string) (fun _ => 0%Q) 6
      (fst (fresh_world test_game Deck.createStandardDeck))
      (Trainer.mkWorld ∅ 0 (snd (fresh_world test_game Deck.createStandardDeck)))
    = Some (ok (utilities, printed, tr')) /\
    reachable test_game (state', Trainer.decks tr') /\
    GameState.isTerminal state' = true /\
    GameState.getReturns state' = ok (utilities, printed) /\
    Trainer.nodeMap_ tr' = ∅ /\
    forall i, (i < 4)%nat ->
      (- (Game.initialStacks_ test_game !!! i) <= utilities !!! i)%Q.
Proof.
  apply (proj1 (X28_getExactUtilities_plays_the_hand_out
                  (fun _ => ""%string) (fun _ => 0%Q) test_game
                  (fresh_world test_game Deck.createStandardDeck) ∅ 0 6
                  test_game_valid
                  (fresh_world_reachable test_game Deck.createStandardDeck
                     standard_deck_shuffled)
                  (map_Forall_empty _)
                  (le_n 6))).
Defined.

(** X29.  [mccfr] from any state of a hand at a table that [Game]
    accepts, for a seat 0 to 3 with four reach probabilities, in a
    trainer whose nodes all have two actions: the recursion is at most
    six calls deep and returns without an exception, whatever numbers
    are drawn.  The utility it returns is not below the loss of the
    whole starting stack of the seat; afterwards every node still has
    two actions, every information set that had a node has one, and no
    deck but the one of the state was written. *)
Theorem X29_mccfr_returns :
  forall (print_double : Q -> string) (random : nat -> Q) (g : Game.t)
         (w : GameState.t * gmap positive Deck.t) (player : Z)
         (reachProb : list Q) (nodeMap : gmap string Node.t) (drawn fuel : nat),
    valid_game g -> reachable g w -> 0 <= player < 4 ->
    length reachProb = 4%nat -> two_actions nodeMap -> (6 <= fuel)%nat ->
    exists utility tr',
      Trainer.mccfr print_double random fuel (fst w) player reachProb
        (Trainer.mkWorld nodeMap drawn (snd w))
      = Some (ok (utility, tr')) /\
      two_actions (Trainer.nodeMap_ tr') /\
      keys_kept nodeMap (Trainer.nodeMap_ tr') /\
      other_decks_kept (fst w) (snd w) (Trainer.decks tr') /\
      (- (Game.initialStacks_ g !!! Z.to_nat player) <= utility)%Q.
Proof.
  intros print_double random g w player reachProb nodeMap drawn fuel
         Hg Hr Hp Hlen Hm Hfuel.
  destruct w as [state h].
  apply (mccfr_trained print_double random g Hg fuel state player reachProb
           (Trainer.mkWorld nodeMap drawn h)
           (reachable_inv g _ Hr) Hp Hlen Hm).
  unfold rounds_left. destruct (GameState.isTerminal state); [lia|].
  destruct (GameState.isChanceNode state); lia.
Qed.

Lemma X29_witness :
  exists utility tr',
    Trainer.mccfr (fun _ => ""%string) (fun _ => 0%Q) 6
      (fst (fresh_world test_game Deck.createStandardDeck)) 0 [1; 1; 1; 1]%Q
      (Trainer.mkWorld ∅ 0 (snd (fresh_world test_game Deck.createStandardDeck)))
    = Some (ok (utility, tr')) /\
    two_actions (Trainer.nodeMap_ tr') /\
    keys_kept ∅ (Trainer.nodeMap_ tr') /\
    other_decks_kept (fst (fresh_world test_game Deck.createStandardDeck))
                     (snd (fresh_world test_game Deck.createStandardDeck))
                     (Trainer.decks tr') /\
    (- (Game.initialStacks_ test_game !!! Z.to_nat 0) <= utility)%Q.
Proof.
  apply (X29_mccfr_returns
           (fun _ => ""%string) (fun _ => 0%Q) test_game
           (fresh_world test_game Deck.createStandardDeck) 0 [1; 1; 1; 1]%Q ∅ 0 6
           test_game_valid
           (fresh_world_reachable test_game Deck.createStandardDeck
              standard_deck_shuffled)
           ltac:(lia) eq_refl (map_Forall_empty _) (le_n 6)).
Defined.

(* ================================================================== *)
(** ** mccfr::Trainer: the rounds of the training loop               *)
(* ================================================================== *)

Section TrainingRounds.
Import GameState.
Variable print_double : Q -> string.
Variable random : nat -> Q.
Variable g : Game.t.
Hypothesis Hg : valid_game g.
Variable fuel : nat.
Hypothesis Hfuel : (6 <= fuel)%nat.

Lemma rounds_left_bound (state : t) : (rounds_left state < fuel)%nat.
Proof.
  unfold rounds_left. destruct (isTerminal state); [lia|].
  destruct (isChanceNode state); lia.
Qed.

Lemma trainSeat_ok (baseState : t) (player : nat) (mccfrUtilities : list Q)
    (tr : Trainer.world) :
  inv g (baseState, Trainer.decks tr) -> (player < 4)%nat ->
  two_actions (Trainer.nodeMap_ tr) ->
  exists utility tr',
    Trainer.trainSeat print_double random fuel baseState player (mccfrUtilities, tr)
    = Some (ok (<[player := utility]> mccfrUtilities, tr')) /\
    two_actions (Trainer.nodeMap_ tr') /\
    keys_kept (Trainer.nodeMap_ tr) (Trainer.nodeMap_ tr') /\
    decks_kept (Trainer.decks tr) (Trainer.decks tr').
Proof.
  intros Hinv Hp Hm.
  destruct (copy_ok g baseState tr Hinv) as (l' & tr1 & Hcopy & Hfresh & Hinv1 & Hk1 & Hm1 & _).
  destruct (mccfr_trained print_double random g Hg fuel (set_deck (Some l') baseState)
              (Z.of_nat player)
              (replicate (Z.to_nat GameConfig.NUM_PLAYERS) 1%Q) tr1
              Hinv1 ltac:(lia) eq_refl ltac:(rewrite Hm1; exact Hm)
              (rounds_left_bound _))
    as (u & tr2 & Hsub & Hm2 & Hkeys2 & Hk2 & _).
  exists u, tr2. unfold Trainer.trainSeat. rewrite Hcopy. cut_step.
  rewrite Hsub. cut_step.
  split; [reflexivity|]. split; [exact Hm2|].
  split; [rewrite Hm1 in Hkeys2; exact Hkeys2|].
  intros l d Hl. apply Hk2; [simpl; intros [= <-]; congruence|].
  apply Hk1. exact Hl.
Qed.

Lemma getExactUtilities_ok (state : t) (tr : Trainer.world) :
  inv g (state, Trainer.decks tr) -> two_actions (Trainer.nodeMap_ tr) ->
  exists utilities printed tr',
    Trainer.getExactUtilities print_double random fuel state tr
    = Some (ok (utilities, printed, tr')) /\
    Trainer.nodeMap_ tr' = Trainer.nodeMap_ tr /\
    length utilities = 4%nat /\
    forall i, (i < 4)%nat -> (- (Game.initialStacks_ g !!! i) <= utilities !!! i)%Q.
Proof.
  intros Hinv Hm.
  destruct (playOut_ends print_double random g (inv g) (fun w H => H)
              (fun a w H => inv_applyAction g w a H) fuel state tr Hinv Hm
              (rounds_left_bound _))
    as (state' & tr' & Hplay & Hinv' & Ht & Hm').
  destruct (terminal_returns g _ Hinv' Ht) as (returns & printed & Hret & Hlen & Hlow).
  simpl in Hret, Hlow.
  exists returns, printed, tr'.
  unfold Trainer.getExactUtilities. rewrite Hplay. cut_step. rewrite Hret. cut_step.
  split; [reflexivity|]. split; [exact Hm'|]. split; [exact Hlen|].
  intros i Hi. specialize (Hlow i Hi).
  pose proof (inv_contribution_bound g _ i Hg Hinv' Hi) as Hb. simpl in Hb. lra.
Qed.

Lemma createInitialState_ok (cards : Deck.t) (tr : Trainer.world) :
  Deck.shuffled cards ->
  exists baseState tr',
    Trainer.createInitialState g cards tr = ok (baseState, tr') /\
    inv g (baseState, Trainer.decks tr') /\
    Trainer.nodeMap_ tr' = Trainer.nodeMap_ tr.
Proof.
  intros Hsh.
  destruct (GameState.GameState g cards (Trainer.decks tr)) as [e|[s h]] eqn:E.
  - exfalso. unfold GameState.GameState in E.
    destruct (valid_game_facts g Hg) as (_ & _ & Hlen & _).
    unfold Game.getInitialStack in E. simpl in E. discriminate E.
  - exists s, (Trainer.mkWorld (Trainer.nodeMap_ tr) (Trainer.drawn tr) h).
    unfold Trainer.createInitialState. rewrite E. cut_step.
    split; [reflexivity|]. split; [|reflexivity].
    apply (inv_initial g cards (Trainer.decks tr) (s, h) Hsh E).
Qed.


Lemma four_entries (v : list Q) :
  length v = 4%nat ->
  v = [v !!! 0%nat; v !!! 1%nat; v !!! 2%nat; v !!! 3%nat].
Proof.
  destruct v as [|a [|b [|c [|d [|? ?]]]]]; try discriminate. reflexivity.
Qed.

Lemma trainRound_ok (cards : Deck.t) (iteration : Z) (totalUtilities avgUtilities : list Q)
    (tr : Trainer.world) :
  Deck.shuffled cards -> two_actions (Trainer.nodeMap_ tr) ->
  length totalUtilities = 4%nat -> length avgUtilities = 4%nat ->
  exists (exactUtilities totalUtilities' avgUtilities' : list Q) tr',
    Trainer.trainRound print_double random fuel g cards iteration
                       (totalUtilities, avgUtilities) tr
    = Some (ok (totalUtilities', avgUtilities', tr')) /\
    two_actions (Trainer.nodeMap_ tr') /\
    keys_kept (Trainer.nodeMap_ tr) (Trainer.nodeMap_ tr') /\
    length totalUtilities' = 4%nat /\ length avgUtilities' = 4%nat /\
    forall i, (i < 4)%nat ->
      totalUtilities' !!! i = (totalUtilities !!! i + exactUtilities !!! i)%Q /\
      avgUtilities' !!! i = (totalUtilities' !!! i / inject_Z iteration)%Q /\
      (- (Game.initialStacks_ g !!! i) <= exactUtilities !!! i)%Q.
Proof.
  intros Hsh Hm Ht Ha.
  destruct (createInitialState_ok cards tr Hsh) as (baseState & tr0 & Hbase & Hinv0 & Hm0).
  assert (two_actions (Trainer.nodeMap_ tr0)) as Hm0' by (rewrite Hm0; exact Hm).
  assert (forall tr1, decks_kept (Trainer.decks tr0) (Trainer.decks tr1) ->
                      inv g (baseState, Trainer.decks tr1)) as Hkeep.
  { intros tr1 Hk. apply (inv_frame g baseState (Trainer.decks tr0)); [exact Hinv0|].
    intros l Hl.
    destruct Hinv0 as (hist & l0 & d & _ & _ & _ & _ & _ & _ & _ & Hl0 & Hd0 & _).
    simpl in Hl0, Hd0. assert (l = l0) as -> by congruence.
    rewrite Hd0. apply Hk. exact Hd0. }
  destruct (trainSeat_ok baseState 0 (replicate 4 0%Q) tr0 Hinv0 ltac:(lia) Hm0')
    as (u0 & tr1 & Hs0 & Hm1 & Hk1 & Hd1).
  destruct (trainSeat_ok baseState 1 (<[0%nat := u0]> (replicate 4 0%Q)) tr1
              (Hkeep tr1 Hd1) ltac:(lia) Hm1)
    as (u1 & tr2 & Hs1 & Hm2 & Hk2 & Hd2).
  assert (decks_kept (Trainer.decks tr0) (Trainer.decks tr2)) as Hd02
      by (intros l d Hl; apply Hd2, Hd1, Hl).
  destruct (trainSeat_ok baseState 2 (<[1%nat := u1]> (<[0%nat := u0]> (replicate 4 0%Q)))
              tr2 (Hkeep tr2 Hd02) ltac:(lia) Hm2)
    as (u2 & tr3 & Hs2 & Hm3 & Hk3 & Hd3).
  assert (decks_kept (Trainer.decks tr0) (Trainer.decks tr3)) as Hd03
      by (intros l d Hl; apply Hd3, Hd02, Hl).
  destruct (trainSeat_ok baseState 3
              (<[2%nat := u2]> (<[1%nat := u1]> (<[0%nat := u0]> (replicate 4 0%Q))))
              tr3 (Hkeep tr3 Hd03) ltac:(lia) Hm3)
    as (u3 & tr4 & Hs3 & Hm4 & Hk4 & Hd4).
  assert (decks_kept (Trainer.decks tr0) (Trainer.decks tr4)) as Hd04
      by (intros l d Hl; apply Hd4, Hd03, Hl).
  destruct (copy_ok g baseState tr4 (Hkeep tr4 Hd04))
    as (l' & tr5 & Hcopy & _ & Hinv5 & _ & Hm5 & _).
  destruct (getExactUtilities_ok (set_deck (Some l') baseState) tr5 Hinv5
              ltac:(rewrite Hm5; exact Hm4))
    as (exact & printed & tr6 & Hexact & Hm6 & Hlen & Hlow).
  exists exact.
  unfold Trainer.trainRound. rewrite Hbase. cut_step.
  change (Z.to_nat GameConfig.NUM_PLAYERS) with 4%nat. cbn [seq fold_left].
  cut_step. rewrite Hs0. cut_step. rewrite Hs1. cut_step. rewrite Hs2. cut_step.
  rewrite Hs3. cut_step. rewrite Hcopy. cut_step. rewrite Hexact. cut_step.
  rewrite (four_entries _ Ht), (four_entries _ Ha), (four_entries _ Hlen).
  do 3 eexists. split; [reflexivity|].
  split; [rewrite Hm6, Hm5; exact Hm4|].
  split.
  { rewrite Hm6, Hm5, <- Hm0.
    eapply keys_kept_trans; [exact Hk1|]. eapply keys_kept_trans; [exact Hk2|].
    eapply keys_kept_trans; eassumption. }
  split; [reflexivity|]. split; [reflexivity|].
  intros i Hi. specialize (Hlow i Hi). rewrite (four_entries _ Hlen) in Hlow.
  destruct i as [|[|[|[|i]]]]; try lia;
    (split; [reflexivity|]); (split; [reflexivity|]); exact Hlow.
Qed.

(** After [k] rounds the totals are not below [k] times the loss of the
    starting stacks, and the averages not below one such loss. *)
Lemma trainRounds_ok (shuffles : nat -> Deck.t) (tr : Trainer.world) (k : nat) :
  (forall i, Deck.shuffled (shuffles i)) -> two_actions (Trainer.nodeMap_ tr) ->
  exists (totalUtilities avgUtilities : list Q) tr',
    fold_left
      (fun acc i =>
         Trainer.cbind acc
           (fun acc => Trainer.trainRound print_double random fuel g (shuffles i)
                                          (Z.of_nat i) (fst acc) (snd acc)))
      (seq 1 k) (Some (ok (replicate 4 0%Q, replicate 4 0%Q, tr)))
    = Some (ok (totalUtilities, avgUtilities, tr')) /\
    two_actions (Trainer.nodeMap_ tr') /\
    keys_kept (Trainer.nodeMap_ tr) (Trainer.nodeMap_ tr') /\
    length totalUtilities = 4%nat /\ length avgUtilities = 4%nat /\
    forall i, (i < 4)%nat ->
      (- (inject_Z (Z.of_nat k) * (Game.initialStacks_ g !!! i)) <= totalUtilities !!! i)%Q /\
      (- (Game.initialStacks_ g !!! i) <= avgUtilities !!! i)%Q.
Proof.
  intros Hsh Hm.
  destruct (valid_game_facts g Hg) as (_ & _ & Hlen & Hpos & _).
  destruct (stacks_four g (fun stack => 0 < stack)%Q Hlen Hpos) as (P0 & P1 & P2 & P3).
  assert (forall i, (i < 4)%nat -> (0 < Game.initialStacks_ g !!! i)%Q) as Hstack.
  { intros [|[|[|[|i]]]] Hi; try lia; assumption. }
  induction k as [|k IH].
  - exists (replicate 4 0%Q), (replicate 4 0%Q), tr.
    split; [reflexivity|]. split; [exact Hm|]. split; [apply keys_kept_refl|].
    split; [reflexivity|]. split; [reflexivity|].
    intros i Hi. specialize (Hstack i Hi).
    assert (replicate 4 0%Q !!! i = 0%Q) as ->
        by (destruct i as [|[|[|[|i]]]]; try lia; reflexivity).
    change (inject_Z (Z.of_nat 0)) with 0%Q. split; lra.
  - destruct IH as (total & avg & tr1 & Hfold & Hm1 & Hk1 & Ht & Ha & Hbound).
    destruct (trainRound_ok (shuffles (S k)) (Z.of_nat (S k)) total avg tr1
                (Hsh _) Hm1 Ht Ha)
      as (exact & total' & avg' & tr2 & Hround & Hm2 & Hk2 & Ht' & Ha' & Hnew).
    exists total', avg', tr2.
    rewrite seq_S, fold_left_app, Hfold. cbn [fold_left]. cut_step.
    change (1 + k)%nat with (S k).
    split; [exact Hround|]. split; [exact Hm2|].
    split; [eapply keys_kept_trans; eassumption|].
    split; [exact Ht'|]. split; [exact Ha'|].
    intros i Hi. destruct (Hnew i Hi) as (Htot & Havg & Hlow).
    destruct (Hbound i Hi) as [Hold _]. specialize (Hstack i Hi).
    assert (inject_Z (Z.of_nat (S k)) == inject_Z (Z.of_nat k) + 1)%Q as Hk.
    { rewrite Nat2Z.inj_succ. unfold Z.succ. rewrite inject_Z_plus. reflexivity. }
    assert (0 <= inject_Z (Z.of_nat k))%Q as Hk0.
    { change 0%Q with (inject_Z 0). rewrite <- Zle_Qle. lia. }
    assert (- (inject_Z (Z.of_nat (S k)) * Game.initialStacks_ g !!! i)
            <= total' !!! i)%Q as Hnewtot.
    { rewrite Htot, Hk. lra. }
    split; [exact Hnewtot|].
    rewrite Havg. apply Qle_shift_div_l; [rewrite Hk; lra|].
    lra.
Qed.

End TrainingRounds.

(** X30.  The loop of [train] over fewer than [INT_MAX] iterations, for
    a table that [Game] accepts, shuffled decks and a trainer whose
    nodes all have two actions: every round
    (four calls of [mccfr] and one of [getExactUtilities], each on a
    copy of the state of the round) returns without an exception,
    whatever numbers are drawn.  Afterwards every node still has two
    actions and no node was removed, and each of the four average
    utilities returned is not below the loss of the starting stack of
    its seat. *)
Theorem X30_training_rounds_return :
  forall (print_double : Q -> string) (random : nat -> Q) (g : Game.t)
         (shuffles : nat -> Deck.t) (iterations : Z) (fuel : nat)
         (tr : Trainer.world),
    valid_game g -> (forall i, Deck.shuffled (shuffles i)) ->
    two_actions (Trainer.nodeMap_ tr) -> (6 <= fuel)%nat ->
    iterations < 2 ^ 31 - 1 ->
    exists (avgUtilities : list Q) tr',
      Trainer.trainRounds print_double random fuel g shuffles iterations tr
      = Some (ok (avgUtilities, tr')) /\
      two_actions (Trainer.nodeMap_ tr') /\
      keys_kept (Trainer.nodeMap_ tr) (Trainer.nodeMap_ tr') /\
      length avgUtilities = 4%nat /\
      forall i, (i < 4)%nat ->
        (- (Game.initialStacks_ g !!! i) <= avgUtilities !!! i)%Q.
Proof.
  intros print_double random g shuffles iterations fuel tr Hg Hsh Hm Hfuel _.
  destruct (trainRounds_ok print_double random g Hg fuel Hfuel shuffles tr
              (Z.to_nat iterations) Hsh Hm)
    as (total & avg & tr' & Hfold & Hm' & Hk & _ & Ha & Hbound).
  exists avg, tr'. unfold Trainer.trainRounds.
  change (Z.to_nat GameConfig.NUM_PLAYERS) with 4%nat.
  rewrite Hfold. cut_step.
  split; [reflexivity|]. split; [exact Hm'|]. split; [exact Hk|].
  split; [exact Ha|]. intros i Hi. apply (Hbound i Hi).
Qed.

Lemma X30_witness :
  exists (avgUtilities : list Q) tr',
    Trainer.trainRounds (fun _ => ""%string) (fun _ => 0%Q) 6 test_game
                        (fun _ => Deck.createStandardDeck) 2
                        (Trainer.mkWorld ∅ 0 ∅)
    = Some (ok (avgUtilities, tr')) /\
    two_actions (Trainer.nodeMap_ tr') /\
    keys_kept ∅ (Trainer.nodeMap_ tr') /\
    length avgUtilities = 4%nat /\
    forall i, (i < 4)%nat ->
      (- (Game.initialStacks_ test_game !!! i) <= avgUtilities !!! i)%Q.
Proof.
  apply (X30_training_rounds_return
           (fun _ => ""%string) (fun _ => 0%Q) test_game
           (fun _ => Deck.createStandardDeck) 2 6 (Trainer.mkWorld ∅ 0 ∅)
           test_game_valid (fun _ => standard_deck_shuffled)
           (map_Forall_empty _) (le_n 6) ltac:(lia)).
Defined.
